(* ===== verification/_CoqProject ===== *)
-Q . S2P
Prelude.v
Layout.v
Float32.v
FloatExact.v
Determinism.v
CString.v
CHeap.v
CPrintf.v
Tracked.v
SaveState.v
SaveIo.v
Regions.v
HostString.v
GdbStub.v
MasterHook.v
DapServer.v
Seccomp.v
Launcher.v
Facade.v
Libretro.v
Replay.v
Carts.v
Whetstone.v
Float64.v
PersistentScripts.v
TableFlatten.v
LuaCarts.v
ScriptCarts.v
Migrate.v
HotReload.v
Diagnostic.v
Sha256.v
Packer.v
Console.v
Hybrid.v
LuaEdit.v
Corruption.v
EditDriver.v
Division.v
FMath.v
RawTests.v
LuaHost.v
DetHost.v
DoomTick.v
HybridHost.v
SandboxH.v
