(* ===== verification/Prelude.v ===== *)
(** * blyt: a verification library of the runtime spikes (root file)

    The repository plans a fantasy console by building it in spikes.  The parts
    that carry its own logic are the deterministic core of the runtime (generator,
    frame state, digest), the save states and their tracked regions, the persistent
    scripts with their table flattener, hot reload with field migration, the guest
    C library the carts are linked against, the facade and libretro core a
    frontend drives the runtime through, the debug adapters and the hosts of Lua carts,
    the launchers that confine a native cart, the consoles a Rust cart runs on, and the
    packer that rebuilds one.  This library models those parts
    in Rocq and proves what makes them correct.  Paths below are relative to
    src/spikes.

    ** How the parts interact

    A cart's globals are C structs.  A [describe]/[save]/[load] record per struct
    enters it into the registry of tracked regions; the save-state code hashes the
    descriptions into a layout hash and writes a header and the byte images of the
    regions.  Every cart comes as three programs: one that runs straight through and
    prints a digest of the frame state per frame, one that stops at a frame and
    prints a save buffer in hexadecimal, and one that reads the buffer back and
    prints the digests of the remaining frames.  Lua carts do the same through
    console bindings; their scripts may keep state in persistent slots, which hold
    flattened Lua tables and are a tracked region themselves.  When an edit changes
    a struct, the layout hash refuses the buffer and the migrating load rebuilds
    every region field by field.  The facade has its own, smaller, save state; the
    libretro core on top of it paces the updates by the wall clock.  A debugger
    reaches the emulator through the GDB stub: its server thread answers packets from
    a socket, its CPU side asks the breakpoint table before every instruction and
    waits in the stub while the machine is halted.  A debugger of Lua code talks to
    the DAP server; the hook the runtime installs into Lua asks the server's table on
    every line, and in its pause loop waits for a request that lets it go on.  A cart
    that runs natively is started by a launcher, which isolates the child step by step
    and installs a seccomp filter last; the library the cart links against installs a
    second, stricter one before the cart's own code runs.  The packer sits before hot
    reload: it decides from a state file and a hash whether a source is built again.
    A Lua host makes the Lua state with the hook installed, arms it at each tic and
    calls the cart's functions; where the functions are compiled, the hybrid host finds
    them in the cart's ELF file and calls them through trampolines.  The edit driver
    sends one reload after the other and judges the answers.

    ** The files

    - [Prelude]: machine words as wrapped [Z], bytes, little-endian encodings,
      slices and writes of buffers, the digits of printed numbers, bit sets, and the
      shared tactics and hint databases.
    - [Layout]: byte images of packed structs, and the class [Lawful] (encoding and
      decoding are inverse) every struct of the library is an instance of.
    - [Float32], [Float64]: [float] and [double] as bits, with the NaN policies
      (spike-d/cart_runtime/nan_canon.h, spike-m/lib/lua_table_flatten.c).
    - [Determinism]: spike-d/cart_runtime, the PCG32 generator, the frame state and
      the FNV-1a digest.
    - [CString], [CHeap], [CPrintf]: spike-b/ports/rv32emu/lua_runtime.c, the guest's
      memory, string, number and sorting functions, its allocator, its formatted
      output.
    - [Tracked]: spike-k/cart_runtime/runtime_tracked, with the class [LawfulRegion]
      a region promises to the save-state code.
    - [SaveState], [SaveIo]: spike-k/cart_runtime/save_state.c and save_io.c.
    - [Regions]: spike-k/cart_runtime/region_*.c and cart_state_*.c.
    - [Facade], [Libretro]: spike-l/lib/blyt_facade.c and spike-l/host.
    - [GdbStub]: spike-j/host/gdb_stub.c and gdb_stub_host.c; the class [CpuLaws] is
      what the stub expects of the callbacks into the machine.
    - [HostString]: the hosted C library's string functions both servers use.
    - [MasterHook], [DapServer]: spike-j/lib/master_hook.c and spike-j/host/dap_server.c
      with the reload of spike-j/host/dap_lua_host.c, whose chunk runs under the hook on
      the server's thread; the record [dap_link] is what the server links into the hook,
      the relation [step] the interleaving of server and cart.
    - [Seccomp], [Launcher]: spike-s/seccomp_allowlist_s.h, spike-r/seccomp_allowlist.h
      and their raw tests; spike-r/launcher_r.c, spike-s/launcher_s.c and
      libblyt32_stub_s.c.  The kernel is the classes [Bpf] and [Precedence], the
      launchers run over an operating system that answers every call.
    - [SandboxH]: spike-h/launcher.c and seccomp_filter.c; libseccomp is a parameter.
    - [RawTests]: spike-s/seccomp_raw_test_s.c, spike-r/seccomp_raw_test.c and the
      probes they execute, as trees of system calls the filters of [Seccomp] answer.
    - [Packer], [EditDriver]: spike-n/harness/stub_packer.c and edit_driver.c.
    - [Sha256]: SHA-256 stated from FIPS 180-4, what [Packer] is held against; it models no
      code.
    - [Corruption]: spike-k/ports/rv32emu/corruption_tests.c.
    - [Console]: spike-p/lib/console_spike_p.c and its alloc cart; [Console.Stub]:
      spike-o/lib/libconsole_stub_ext.c.
    - [Hybrid], [HybridHost]: spike-q/cases/wasm_trampoline/libconsolelua_wasm_hybrid.c,
      the exports and trampolines, and the Lua state around them.
    - [DetHost]: spike-d/ports/rv32emu/lua_det_bindings.c and lua_det_cart.c
      ([DetHost.SpikeD]) and spike-f/det_host.c ([DetHost.Host]), two programs for the same
      workloads.
    - [DoomTick]: spike-b/ports/rv32emu/doom_tick_c.c.
    - [LuaHost]: spike-j/lib/libconsolelua_rv32.c, its ancestor in spike-i with
      libconsole_rv32.c, and spike-j/host/dap_lua_host.c ([LuaHost.DapHost]).  Lua is the
      record [lua], a machine that comes by hook events.
    - [Division]: the 64-bit division of spike-c/lib/lua_lib_runtime.c and of
      spike-b/ports/rv32emu/softfloat-glue.c ([Division.Glue]).
    - [FloatExact], [FMath]: the values of floats as multiples of the smallest one, and
      the floating functions of spike-b/ports/rv32emu/lua_runtime.c.
    - [Replay]: the shape the driver programs share, and the interface [Cart] a cart
      meets to replay; [Carts] (three demo carts) and [Whetstone] are its instances.
    - [PersistentScripts], [TableFlatten]: spike-m/cart_runtime and spike-m/lib.
    - [LuaCarts], [ScriptCarts]: the console bindings and drivers of spike-k and
      spike-m, with a relational logic for computations of a script.
    - [Migrate], [HotReload], [Diagnostic], [LuaEdit]: spike-n/cart_runtime, the edited
      carts and the bindings of spike-n/ports; [HotReload] and [NativeCart] are the interfaces an edit and
      a version of the cart meet.

    C functions keep their names.  A struct is a Record, a global state passed
    explicitly, an array a list; an update outside of an array is an undefined
    outcome wherever the index comes from data.  Undefined behaviour, endless loops
    and aborts are values ([None], [Undef], [OutOfBounds], [Spin]), so that "the code
    is defined here" is a theorem and not a convention.

    ** What the theorems show

    - Replay: for every save frame, the output of the save program and of the load
      program together is, byte for byte, the output of the straight-through program
      ([audio_branch_replay], [shake_replay], [whetstone_replay], [lua_simple_replay]; in
      [Carts] also [cutscene_replay]); a script's table survives flattening, a slot, a save, a
      load and the way back ([script_ctx_survives]); a restored libretro buffer shows
      the same pictures ([retro_rewind]); a console stopped at any frame and started
      again with its save file goes on with the frames it had left ([console_resumes]), and
      a save file is written and read whole or not at all ([save_all_or_nothing]).
    - Save states: the round trip of all regions, the gates that reject a buffer and
      leave the state alone, the rejection of a drifted layout, the hexadecimal
      transport and the chunked file reading.
    - Hot reload: the edited program continues the old one with the state the
      migration policy prescribes ([hot_reload], [migrate_policy]), code-only edits
      continue it exactly ([code_edit_reload]), reordered fields come back
      ([reorder_roundtrip]), and the gates of the migrating load ([load_migrate_gates]).
    - Components against specifications: the script slots, the voice queue and the
      heap refine abstract machines; sorting, searching and copying their reference
      definitions; flattening does not depend on the order Lua enumerates a table in,
      and unflattening any bytes ends within its bounds unless a length wraps.
    - Debugging: a session that does not resume the CPU answers every packet in order with frames its own reader
      parses back ([gdb_session]), what is written to memory and registers is read
      back ([gdb_memory_roundtrip]), the breakpoint table is the set of addresses
      the packets left in it ([gdb_breakpoints]).  The DAP server reads the requests
      off the wire one by one ([dap_session]), stays within its buffers in every
      interleaving with the cart ([dap_safe]), arms the lines of a request and no
      others ([set_breakpoints_refines]), and ends a step where the mode says or at the
      end of the tic's budget ([step_stops]); the hook's mask leaves out no event that matters
      ([hook_mask_exact]) and its throttle keeps the pace ([throttle_pace]).
    - Confinement: a built filter answers ALLOW for the listed numbers of the two
      architectures and kills every other call ([arch_dispatch_exact]); after the
      constructor the native cart makes no call outside the phase-2 list
      ([cart_confined]); the raw test of spike s tells kernels apart that
      run 32-bit programs natively, under an emulator, or not at all ([raw_test_exact]);
      the launcher reaches the cart only after every isolation step asked for has
      succeeded, the filter last ([cart_isolated]).
    - Lua hosts: in any order of calls every live state has the hook of its
      configuration ([hook_installed]), and a function that runs away without catching
      errors is stopped at the first event past the budget of its own tic ([tic_budget]); the exports of a
      compiled module are callable under their names with their types
      ([exports_callable]).
    - Two hosts, one digest: the browser host of spike f prints, for a script both Luas
      compute alike up to the bits of NaNs, the bytes the reference cart of spike d prints
      ([det_host_same_digests]).
    - The native doom_tick compacts its pool of projectiles without loss
      ([projectiles_ticked]) and runs through within its arrays ([doom_runs]).
    - Arithmetic: both routines divide 64-bit words as [Z] does ([division_exact], and
      [signed_division_exact] for the signed ones); [floorf], [ceilf], [truncf] and [modff]
      are exact below 2^31 ([rounding_exact]), and a literal without a point, with an
      exponent from 0 to 38 and a value below 2^24, is read exactly ([strtof_exact]).
    - Packing: the streamed hash is the standard's SHA-256 of the file however it is read
      ([file_hash_streamed]), the state file is a finite map ([state_file_refines]), and,
      where every source has one mode and one output, a successful run never leaves an
      output older than its source ([packer_fresh]).
    - Bounds and time: no entry point of the libretro core leaves defined behaviour in
      any order of calls ([retro_safe]), the updates keep the pace of the clock
      ([retro_pacing]), [vsnprintf] stores a prefix and a NUL and nothing else.

    Theorems outside of the property list record where the code does less than it
    says: a request to [malloc] that wraps, a precision that overruns a buffer, a
    descriptor that wraps in the migration walk, a failed migration that leaves
    regions overwritten, a stray buffer the facade accepts, a library list that
    leaves its array, a paused cart whose client went away, a reload under a pause, a
    reload whose chunk stops and hangs the server, values left on a paused stack, a
    checksum that arrives in two pieces, a second output that is not built, a
    filter builder that counts one instruction too few, a hash compared with a byte
    nobody wrote, a state file that could not be saved, a chunk that runs before its
    budget is armed, error texts that pile up on a Lua stack, a remainder whose quotient
    is rounded first.

    ** Fuel and bounds

    Loops over data are structural.  Where C loops on a condition, the fuel is the
    bound the data gives: 20 decimal digits cover 64 bits and 32 digits any base from
    two on; the sort loops count down an index; the free-list walk of the heap has
    one round per block that fits the array; [format] has one round per character of
    the format, and a [lua_next] walk one per entry; the catch-up loop of
    [retro_run] has three rounds because the code stops there; a server's loop over
    its connection reads at least one byte per round, and the loop over a request's
    array drops at least one character; a BPF program jumps forward only, so its length
    is fuel enough; every line [fgets] returns has at least one character; a divisor of 64
    bits is doubled at most 64 times; a test's child executes one file and its probe at
    most another.  A Lua function may come by any number of events, so the fuel of
    [LuaHost] is an argument, and [tic_budget] says how much is enough.  A walk that runs out
    of fuel is an outcome of its own, never a result, and the theorems show that it
    does not happen on well-formed states.

    ** Parameters

    Lua, its argument checks ([lua_api]) and its table order, the math library, the
    system calls behind [save_io_read_file] and the launchers, the kernel's BPF machine,
    the compilers the packer calls, the clock and the input of a frontend are
    arguments of the definitions, with the laws that are used as classes
    ([LuaApiLaws], [SinfLaws], [Bpf], [Precedence]) or hypotheses, each with an
    instance.  [SinfLaws] speaks of finite arguments only.  What a reloaded chunk does is a
    tree of hook events ([DapServer.chunk_run]), whether a [recv] delivers both digits of a
    checksum a function of the input ([GdbStub.read_pkt]).

    ** Not modelled

    - Third-party code the repository builds on: rv32emu, Lua, musl's libm, and the
      patches against them.
    - Benchmark harnesses (spikes a to c, apart from the guest C library, the division and
      doom_tick), the browser hosts that measure (e, g), the patches and hello-world
      carts of the dynamic-linking experiment (i), the Rust carts of spikes o and p other than the alloc cart, the
      experiments of spikes t and u: process, linker and web glue.
    - The sockets and threads of the debug servers (opening, accepting, joining).
    - Copies of the guest C library in spikes c, i and j, which repeat the file
      modelled here.
    - The log levels of the libretro core, and its entry points that only
      fill in a description for the frontend. *)

From Stdlib Require Export ZArith Lia.
From stdpp Require Export base tactics numbers list strings.
Open Scope Z_scope.

(** ** Machine words *)

Definition wrap (w x : Z) : Z := x mod 2 ^ w.
Definition signed (w x : Z) : Z :=
  if wrap w x <? 2 ^ (w - 1) then wrap w x else wrap w x - 2 ^ w.

(** The C integer types, as the wrap-around of a mathematical integer. *)
Abbreviation u8 := (wrap 8).
Abbreviation u16 := (wrap 16).
Abbreviation u32 := (wrap 32).
Abbreviation u64 := (wrap 64).
Abbreviation i32 := (signed 32).
Abbreviation i64 := (signed 64).

Create HintDb blyt.
Create Rewrite HintDb blytrw.

(** Case analysis on the guards of the translated code. *)
Ltac zcase_step :=
  match goal with
  | |- context [?a <? ?b] => destruct (Z.ltb_spec a b)
  | |- context [?a <=? ?b] => destruct (Z.leb_spec a b)
  | |- context [?a =? ?b] => destruct (Z.eqb_spec a b)
  end.
Ltac zcase := repeat (zcase_step; simpl; try done; try lia).
Ltac zcase_in H :=
  match type of H with
  | context [?a <? ?b] => destruct (Z.ltb_spec a b)
  | context [?a <=? ?b] => destruct (Z.leb_spec a b)
  | context [?a =? ?b] => destruct (Z.eqb_spec a b)
  end.

Lemma wrap_range w x : 0 <= w -> 0 <= wrap w x < 2 ^ w.
Proof. intros. apply Z.mod_pos_bound. apply Z.pow_pos_nonneg; lia. Qed.

Lemma wrap_small w x : 0 <= x < 2 ^ w -> wrap w x = x.
Proof. intros. unfold wrap. by apply Z.mod_small. Qed.

Lemma wrap_wrap w x : 0 <= w -> wrap w (wrap w x) = wrap w x.
Proof. intros. apply wrap_small, wrap_range; lia. Qed.

Lemma wrap_add_l w x y : wrap w (wrap w x + y) = wrap w (x + y).
Proof. unfold wrap. by rewrite Zplus_mod_idemp_l. Qed.

Lemma wrap_signed w x : 0 < w -> wrap w (signed w x) = wrap w x.
Proof.
  intros Hw. unfold signed. destruct (_ <? _).
  - by apply wrap_wrap; lia.
  - unfold wrap. rewrite <-(Z.mod_add (x mod 2 ^ w - 2 ^ w) 1 (2 ^ w)).
    + replace (x mod 2 ^ w - 2 ^ w + 1 * 2 ^ w) with (x mod 2 ^ w) by lia.
      apply Z.mod_mod. apply Z.pow_nonzero; lia.
    + apply Z.pow_nonzero; lia.
Qed.

Lemma signed_range w x : 0 < w -> - 2 ^ (w - 1) <= signed w x < 2 ^ (w - 1).
Proof.
  intros Hw. unfold signed.
  assert (2 ^ w = 2 * 2 ^ (w - 1)) as E.
  { rewrite <-Z.pow_succ_r by lia. f_equal; lia. }
  pose proof (wrap_range w x ltac:(lia)).
  destruct (Z.ltb_spec (wrap w x) (2 ^ (w - 1))); lia.
Qed.

Lemma signed_small w x :
  0 < w -> - 2 ^ (w - 1) <= x < 2 ^ (w - 1) -> signed w x = x.
Proof.
  intros Hw Hx.
  assert (2 ^ w = 2 * 2 ^ (w - 1)) as E.
  { rewrite <-Z.pow_succ_r by lia. f_equal; lia. }
  unfold signed. destruct (Z.ltb_spec x 0).
  - assert (wrap w x = x + 2 ^ w) as ->.
    { unfold wrap. rewrite <-(Z.mod_add x 1) by lia.
      rewrite Z.mod_small; lia. }
    destruct (Z.ltb_spec (x + 2 ^ w) (2 ^ (w - 1))); lia.
  - rewrite wrap_small by lia.
    destruct (Z.ltb_spec x (2 ^ (w - 1))); lia.
Qed.

Lemma signed_wrap w x : 0 <= w -> signed w (wrap w x) = signed w x.
Proof. intros. unfold signed. by rewrite wrap_wrap. Qed.

Lemma wrap_signed_small w x : 0 < w -> 0 <= x < 2 ^ w -> wrap w (signed w x) = x.
Proof. intros. rewrite wrap_signed by lia. by apply wrap_small. Qed.

#[export] Hint Resolve wrap_range wrap_small signed_range : blyt.

(** ** Bytes and C strings *)

Definition is_byte (b : Z) : Prop := 0 <= b < 256.
Abbreviation bytes := (Forall is_byte).

#[export] Instance is_byte_dec b : Decision (is_byte b).
Proof. unfold is_byte. apply _. Defined.

Definition is_byteb (b : Z) : bool := (0 <=? b) && (b <? 256).

Lemma bytes_bool bs : forallb is_byteb bs = true -> bytes bs.
Proof.
  induction bs as [|b bs IH]; simpl; [constructor|].
  unfold is_byteb at 1. intros [Hb Hbs]%andb_prop. constructor; [|auto].
  apply andb_prop in Hb as [?%Z.leb_le ?%Z.ltb_lt]. by split.
Qed.

Definition char (a : Ascii.ascii) : Z := Z.of_N (Ascii.N_of_ascii a).

(** The characters of a C string literal, without its terminating NUL. *)
Fixpoint cstr (s : string) : list Z :=
  match s with
  | EmptyString => []
  | String a s => char a :: cstr s
  end.

(** The C string at the start of a buffer. *)
Fixpoint c_string (buf : list Z) : list Z :=
  match buf with
  | [] => []
  | c :: buf => if c =? 0 then [] else c :: c_string buf
  end.

Lemma char_byte a : is_byte (char a).
Proof. unfold is_byte, char. pose proof (Ascii.N_ascii_bounded a). lia. Qed.

Lemma cstr_bytes s : bytes (cstr s).
Proof. induction s; simpl; constructor; [apply char_byte|done]. Qed.
#[export] Hint Resolve cstr_bytes char_byte : blyt.

(** ** Little-endian encodings *)

Fixpoint le_bytes (n : nat) (x : Z) : list Z :=
  match n with
  | O => []
  | S n => x mod 256 :: le_bytes n (x / 256)
  end.

Fixpoint le_val (bs : list Z) : Z :=
  match bs with
  | [] => 0
  | b :: bs => b + 256 * le_val bs
  end.

Lemma length_le_bytes n x : length (le_bytes n x) = n.
Proof. revert x; induction n; intros; simpl; auto. Qed.

Lemma le_bytes_bytes n x : bytes (le_bytes n x).
Proof.
  revert x; induction n; intros; simpl; constructor; auto.
  apply Z.mod_pos_bound; lia.
Qed.

Lemma pow256_S n : 2 ^ (8 * Z.of_nat (S n)) = 256 * 2 ^ (8 * Z.of_nat n).
Proof.
  rewrite Nat2Z.inj_succ. replace (8 * Z.succ (Z.of_nat n)) with (8 + 8 * Z.of_nat n) by lia.
  rewrite Z.pow_add_r by lia. reflexivity.
Qed.

Lemma le_val_bound bs : bytes bs -> 0 <= le_val bs < 2 ^ (8 * Z.of_nat (length bs)).
Proof.
  induction 1 as [|b bs Hb Hbs IH]; [simpl; lia|].
  cbn [length le_val]. rewrite pow256_S. unfold is_byte in Hb. lia.
Qed.

Lemma le_val_le_bytes n x : 0 <= x < 2 ^ (8 * Z.of_nat n) -> le_val (le_bytes n x) = x.
Proof.
  revert x; induction n as [|n IH]; intros x Hx.
  - simpl in *. lia.
  - rewrite pow256_S in Hx. cbn [le_bytes le_val]. rewrite IH.
    + pose proof (Z.div_mod x 256). lia.
    + split; [apply Z.div_pos; lia|]. apply Z.div_lt_upper_bound; lia.
Qed.

Lemma le_bytes_le_val bs : bytes bs -> le_bytes (length bs) (le_val bs) = bs.
Proof.
  induction 1 as [|b bs Hb Hbs IH]; [done|]. simpl. unfold is_byte in Hb.
  f_equal.
  - rewrite Z.mul_comm, Z.mod_add by lia. apply Z.mod_small; lia.
  - rewrite Z.mul_comm, Z.div_add by lia. rewrite (Z.div_small b) by lia.
    by rewrite Z.add_0_l.
Qed.

(** ** Reading and writing buffers *)

(** [slice off n buf]: the [n] bytes at [buf + off]. *)
Definition slice {A} (off n : nat) (buf : list A) : list A := take n (drop off buf).

(** [write_at off src buf]: [memcpy(buf + off, src, length src)]. *)
Definition write_at {A} (off : nat) (src buf : list A) : list A :=
  take off buf ++ src ++ drop (off + length src) buf.

Lemma length_slice {A} off n (buf : list A) :
  (off + n <= length buf)%nat -> length (slice off n buf) = n.
Proof. intros. unfold slice. rewrite length_take, length_drop. lia. Qed.

Lemma slice_bytes off n buf : bytes buf -> bytes (slice off n buf).
Proof. intros. unfold slice. by apply Forall_take, Forall_drop. Qed.

Lemma length_write_at {A} off (src buf : list A) :
  (off + length src <= length buf)%nat -> length (write_at off src buf) = length buf.
Proof.
  intros. unfold write_at. rewrite !length_app, length_take, length_drop. lia.
Qed.

Lemma write_at_bytes off src buf : bytes src -> bytes buf -> bytes (write_at off src buf).
Proof.
  intros. unfold write_at.
  repeat apply Forall_app_2; auto using Forall_take, Forall_drop.
Qed.

Lemma slice_write_at_eq {A} off (src buf : list A) :
  (off <= length buf)%nat -> slice off (length src) (write_at off src buf) = src.
Proof.
  intros. unfold slice, write_at.
  rewrite drop_app_length' by (rewrite length_take; lia).
  by rewrite take_app_length.
Qed.

Lemma slice_write_at_before {A} o n off (src buf : list A) :
  (o + n <= off)%nat -> (off <= length buf)%nat ->
  slice o n (write_at off src buf) = slice o n buf.
Proof.
  intros. unfold slice, write_at.
  rewrite drop_app_le by (rewrite length_take; lia).
  rewrite take_app_le by (rewrite length_drop, length_take; lia).
  rewrite skipn_firstn_comm, take_take. f_equal. lia.
Qed.

Lemma slice_write_at_after {A} o n off (src buf : list A) :
  (off + length src <= o)%nat -> (off + length src <= length buf)%nat ->
  slice o n (write_at off src buf) = slice o n buf.
Proof.
  intros H1 H2. unfold slice, write_at. f_equal.
  rewrite app_assoc, drop_app_ge by (rewrite length_app, length_take; lia).
  rewrite length_app, length_take, drop_drop. f_equal. lia.
Qed.

(** A write leaves every range it does not overlap. *)
Lemma slice_write_at_disjoint {A} o n off (src buf : list A) :
  (o + n <= off \/ off + length src <= o)%nat -> (off + length src <= length buf)%nat ->
  slice o n (write_at off src buf) = slice o n buf.
Proof.
  intros [?|?] ?; [apply slice_write_at_before; lia|by apply slice_write_at_after].
Qed.

Lemma slice_split {A} o n (l : list A) :
  drop o l = slice o n l ++ drop (o + n) l.
Proof. unfold slice. by rewrite <-(take_drop n (drop o l)) at 1; rewrite drop_drop. Qed.

(** Writing over the bytes already there is a no-op. *)
Lemma write_at_slice {A} o n (l : list A) :
  (o + n <= length l)%nat -> write_at o (slice o n l) l = l.
Proof.
  intros. unfold write_at. rewrite length_slice by done.
  by rewrite <-slice_split, take_drop.
Qed.

Lemma slice_app_r {A} n (l1 l2 : list A) o :
  slice (length l1 + o) n (l1 ++ l2) = slice o n l2.
Proof. unfold slice. by rewrite drop_app_add'. Qed.

Lemma slice_app_l {A} (l1 l2 : list A) n : n = length l1 -> slice 0 n (l1 ++ l2) = l1.
Proof. intros ->. unfold slice. by rewrite drop_0, take_app_length. Qed.

Lemma write_at_app {A} (pre src old post : list A) off :
  off = length pre -> length src = length old ->
  write_at off src (pre ++ old ++ post) = pre ++ src ++ post.
Proof.
  intros -> Hl. unfold write_at. rewrite take_app_length. do 2 f_equal.
  rewrite drop_app_add' by done. by rewrite Hl, drop_app_length.
Qed.

#[export] Hint Resolve length_slice slice_bytes length_write_at write_at_bytes
  length_le_bytes le_bytes_bytes : blyt.

Lemma Forall_filter {A} (P Q : A -> Prop) `{!forall x, Decision (Q x)} l :
  Forall P l -> Forall P (filter Q l).
Proof. rewrite !Forall_forall. intros HP x [_ Hx]%list_elem_of_filter. auto. Qed.

(** ** Number formatting shared by the translated printers *)

(** The loop [while (v) { tmp[n++] = '0' + v % 10; v /= 10; }]: the digits
    of [v], least significant first.  Twenty rounds cover 64 bits. *)
Fixpoint dec_rev (fuel : nat) (v : Z) : list Z :=
  match fuel with
  | O => []
  | S fuel => if v =? 0 then [] else 48 + v mod 10 :: dec_rev fuel (v / 10)
  end.

(** [%u] of an unsigned value. *)
Definition dec (v : Z) : list Z := if v =? 0 then [48] else rev (dec_rev 20 v).

(** The lower-case hexadecimal digit of a nibble. *)
Definition hex_digit_of (n : Z) : Z := if n <? 10 then 48 + n else 87 + n.

(** [%08x] of a 32-bit value. *)
Definition hex8 (v : Z) : list Z :=
  map (fun i => hex_digit_of (Z.land (v ≫ (4 * i)) 0xf)) [7; 6; 5; 4; 3; 2; 1; 0].

(** The value a reversed digit list denotes. *)
Fixpoint dec_rev_val (ds : list Z) : Z :=
  match ds with [] => 0 | d :: ds => (d - 48) + 10 * dec_rev_val ds end.

Lemma dec_rev_correct fuel v :
  0 <= v < 10 ^ Z.of_nat fuel -> dec_rev_val (dec_rev fuel v) = v.
Proof.
  revert v; induction fuel as [|fuel IH]; intros v Hv; [simpl in *; lia|].
  cbn [dec_rev]. destruct (Z.eqb_spec v 0); [by subst|].
  cbn [dec_rev_val]. rewrite Nat2Z.inj_succ, Z.pow_succ_r in Hv by lia.
  pose proof (Z.div_mod v 10). rewrite IH; [lia|].
  split; [apply Z.div_pos; lia|apply Z.div_lt_upper_bound; lia].
Qed.

Lemma dec_rev_digits fuel v : Forall (fun d => 48 <= d <= 57) (dec_rev fuel v).
Proof.
  revert v; induction fuel as [|fuel IH]; intros v; simpl; [constructor|].
  destruct (v =? 0); constructor; auto. pose proof (Z.mod_pos_bound v 10). lia.
Qed.

Lemma dec_digits v : Forall (fun d => 48 <= d <= 57) (dec v).
Proof.
  unfold dec. destruct (v =? 0); [repeat constructor; lia|].
  apply Forall_rev, dec_rev_digits.
Qed.

(** [dec] prints distinct 64-bit numbers differently. *)
Lemma dec_rev_inj v w : 0 <= v < 2 ^ 64 -> 0 <= w < 2 ^ 64 -> dec v = dec w -> v = w.
Proof.
  assert (2 ^ 64 < 10 ^ Z.of_nat 20) as Hb by reflexivity.
  assert (forall v, 0 <= v < 2 ^ 64 -> dec_rev_val (rev (dec v)) = v) as H.
  { intros x Hx. unfold dec. destruct (Z.eqb_spec x 0); [by subst|].
    rewrite rev_involutive. apply dec_rev_correct. lia. }
  intros Hv Hw E. rewrite <-(H v Hv), <-(H w Hw). by rewrite E.
Qed.

Lemma hex_digit_of_byte n : 0 <= n < 16 -> is_byte (hex_digit_of n).
Proof. intros. unfold is_byte, hex_digit_of. zcase. Qed.

(** ** Bit-level facts *)

Lemma testbit_high x n i : 0 <= x < 2 ^ n -> n <= i -> Z.testbit x i = false.
Proof.
  intros Hx Hi. destruct (Z.ltb_spec n 0).
  { rewrite Z.pow_neg_r in Hx by done. lia. }
  rewrite <-(Z.mod_small x (2 ^ n)) by done. apply Z.mod_pow2_bits_high. lia.
Qed.

Lemma bits_range x n :
  0 <= n -> 0 <= x -> (forall i, n <= i -> Z.testbit x i = false) -> x < 2 ^ n.
Proof.
  intros Hn Hx H. enough (x = x mod 2 ^ n) as ->.
  { apply Z.mod_pos_bound. apply Z.pow_pos_nonneg; lia. }
  apply Z.bits_inj'. intros i Hi. destruct (Z.ltb_spec i n).
  - by rewrite Z.mod_pow2_bits_low by lia.
  - by rewrite Z.mod_pow2_bits_high, H by lia.
Qed.

Lemma lxor_range w a b :
  0 <= w -> 0 <= a < 2 ^ w -> 0 <= b < 2 ^ w -> 0 <= Z.lxor a b < 2 ^ w.
Proof.
  intros Hw Ha Hb. assert (0 <= Z.lxor a b) by (apply Z.lxor_nonneg; lia).
  split; [done|]. apply bits_range; [done..|]. intros i Hi.
  by rewrite Z.lxor_spec, !(testbit_high _ w) by done.
Qed.

Lemma lor_range w a b :
  0 <= w -> 0 <= a < 2 ^ w -> 0 <= b < 2 ^ w -> 0 <= Z.lor a b < 2 ^ w.
Proof.
  intros Hw Ha Hb. assert (0 <= Z.lor a b) by (apply Z.lor_nonneg; lia).
  split; [done|]. apply bits_range; [done..|]. intros i Hi.
  by rewrite Z.lor_spec, !(testbit_high _ w) by done.
Qed.

Lemma shiftr_range w x k : 0 <= k -> 0 <= x < 2 ^ w -> 0 <= x ≫ k < 2 ^ w.
Proof.
  intros Hk Hx. rewrite Z.shiftr_div_pow2 by done.
  assert (0 < 2 ^ k) by (apply Z.pow_pos_nonneg; lia).
  split; [apply Z.div_pos; lia|]. apply Z.div_lt_upper_bound; [done|]. nia.
Qed.

Lemma lxor_cancel_r a b c : Z.lxor a c = Z.lxor b c -> a = b.
Proof.
  intros H. rewrite <-(Z.lxor_0_r a), <-(Z.lxor_0_r b), <-(Z.lxor_nilpotent c).
  by rewrite <-!Z.lxor_assoc, H.
Qed.

Lemma lxor_cancel_l a b c : Z.lxor c a = Z.lxor c b -> a = b.
Proof. rewrite !(Z.lxor_comm c). apply lxor_cancel_r. Qed.

(** Multiplication by an invertible constant loses nothing modulo [2 ^ w]. *)
Lemma wrap_mul_inj w c d x y :
  0 < w -> wrap w (c * d) = 1 -> wrap w (x * c) = wrap w (y * c) -> wrap w x = wrap w y.
Proof.
  intros Hw Hcd E. unfold wrap in *.
  assert (forall z, (z * c) mod 2 ^ w * d mod 2 ^ w = z mod 2 ^ w) as H.
  { intros z. rewrite Zmult_mod_idemp_l. rewrite <-Z.mul_assoc.
    rewrite <-Zmult_mod_idemp_r, Hcd. by rewrite Z.mul_1_r. }
  by rewrite <-(H x), <-(H y), E.
Qed.

(** ** Bit sets *)

(** [1 << k] and the set, clear and test idioms on [w]-bit masks. *)
Definition bit_mask (w k : Z) : Z := wrap w (1 ≪ k).
Definition bit_set (w m k : Z) : Z := Z.lor m (bit_mask w k).
Definition bit_clear (w m k : Z) : Z := Z.land m (wrap w (Z.lnot (bit_mask w k))).
Definition bit_test (w m k : Z) : bool := negb (Z.land m (bit_mask w k) =? 0).

Lemma bit_mask_pow w k : 0 <= k < w -> bit_mask w k = 2 ^ k.
Proof.
  intros. unfold bit_mask. rewrite Z.shiftl_mul_pow2, Z.mul_1_l by lia.
  apply wrap_small. split; [apply Z.pow_nonneg; lia|apply Z.pow_lt_mono_r; lia].
Qed.

Lemma testbit_bit_mask w k i : 0 <= k < w -> 0 <= i -> Z.testbit (bit_mask w k) i = (i =? k).
Proof.
  intros. rewrite bit_mask_pow by done. rewrite Z.pow2_bits_eqb by lia.
  apply Z.eqb_sym.
Qed.

Lemma testbit_bit_set w m k i :
  0 <= k < w -> 0 <= i -> Z.testbit (bit_set w m k) i = (i =? k) || Z.testbit m i.
Proof.
  intros. unfold bit_set. rewrite Z.lor_spec, testbit_bit_mask by done. apply orb_comm.
Qed.

Lemma testbit_bit_clear w m k i :
  0 <= k < w -> 0 <= i < w ->
  Z.testbit (bit_clear w m k) i = negb (i =? k) && Z.testbit m i.
Proof.
  intros. unfold bit_clear, wrap. rewrite Z.land_spec, Z.mod_pow2_bits_low by lia.
  rewrite Z.lnot_spec, testbit_bit_mask by lia. apply andb_comm.
Qed.

Lemma bit_test_spec w m k : 0 <= k < w -> bit_test w m k = Z.testbit m k.
Proof.
  intros. unfold bit_test. destruct (Z.testbit m k) eqn:E.
  - destruct (Z.eqb_spec (Z.land m (bit_mask w k)) 0) as [H0|]; [|done].
    apply (f_equal (fun z => Z.testbit z k)) in H0.
    rewrite Z.land_spec, E, testbit_bit_mask, Z.eqb_refl, Z.bits_0 in H0 by lia. done.
  - destruct (Z.eqb_spec (Z.land m (bit_mask w k)) 0) as [|H0]; [done|].
    destruct H0. apply Z.bits_inj'. intros i Hi.
    rewrite Z.land_spec, testbit_bit_mask, Z.bits_0 by done.
    destruct (Z.eqb_spec i k) as [->|]; [by rewrite E|by rewrite andb_false_r].
Qed.

Lemma bit_set_range w m k :
  0 <= w -> 0 <= m < 2 ^ w -> 0 <= bit_set w m k < 2 ^ w.
Proof. intros. apply lor_range; [done..|]. by apply wrap_range. Qed.

Lemma land_range w a b : 0 <= w -> 0 <= a < 2 ^ w -> 0 <= b -> 0 <= Z.land a b < 2 ^ w.
Proof.
  intros Hw Ha Hb. assert (0 <= Z.land a b) by (apply Z.land_nonneg; lia).
  split; [done|]. apply bits_range; [done..|]. intros i Hi.
  by rewrite Z.land_spec, (testbit_high a w).
Qed.

Lemma bit_clear_range w m k :
  0 <= w -> 0 <= m < 2 ^ w -> 0 <= bit_clear w m k < 2 ^ w.
Proof. intros. apply land_range; [done..|]. by apply wrap_range. Qed.

#[export] Hint Resolve bit_set_range bit_clear_range : blyt.
