(* ===== verification/Layout.v ===== *)
(** * Packed C structures

    Every tracked region of the runtime is a [__attribute__((packed))] struct
    that the C code copies byte by byte in and out of a save buffer.  A
    [layout] is the byte image of such a struct: its [sizeof], the encoding of
    a value as bytes and the reading of bytes as a value.  [Lawful] is the
    interface the save-state code relies on: the two directions are inverse of
    each other on well-formed values and on byte strings of the right size.
    Instances are built field by field, so a struct's instance follows from
    the instances of its fields. *)

From S2P Require Import Prelude.

Record layout (A : Type) := Layout {
  lsize : nat;
  lenc : A -> list Z;
  ldec : list Z -> A;
  lwf : A -> Prop;
}.
Arguments Layout {A}.
Arguments lsize {A}.
Arguments lenc {A}.
Arguments ldec {A}.
Arguments lwf {A}.

Class Lawful {A} (l : layout A) : Prop := {
  length_lenc a : lwf l a -> length (lenc l a) = lsize l;
  bytes_lenc a : lwf l a -> bytes (lenc l a);
  ldec_lenc a : lwf l a -> ldec l (lenc l a) = a;
  lwf_ldec bs : length bs = lsize l -> bytes bs -> lwf l (ldec l bs);
  lenc_ldec bs : length bs = lsize l -> bytes bs -> lenc l (ldec l bs) = bs;
}.

(** ** Scalars *)

(** An unsigned [n]-byte integer; [float] fields are kept as their bits. *)
Definition uint (n : nat) : layout Z := {|
  lsize := n;
  lenc x := le_bytes n x;
  ldec bs := le_val bs;
  lwf x := 0 <= x < 2 ^ (8 * Z.of_nat n);
|}.

(** A two's complement [n]-byte integer. *)
Definition sint (n : nat) : layout Z := {|
  lsize := n;
  lenc x := le_bytes n (wrap (8 * Z.of_nat n) x);
  ldec bs := signed (8 * Z.of_nat n) (le_val bs);
  lwf x := - 2 ^ (8 * Z.of_nat n - 1) <= x < 2 ^ (8 * Z.of_nat n - 1);
|}.

#[export] Instance uint_lawful n : Lawful (uint n).
Proof.
  split; simpl.
  - intros. apply length_le_bytes.
  - intros. apply le_bytes_bytes.
  - intros. by apply le_val_le_bytes.
  - intros bs <- Hb. by apply le_val_bound.
  - intros bs <- Hb. by apply le_bytes_le_val.
Qed.

#[export] Instance sint_lawful n : Lawful (sint (S n)).
Proof.
  assert (0 < 8 * Z.of_nat (S n)) as Hw by lia.
  split; cbn [lsize lenc ldec lwf sint].
  - intros. apply length_le_bytes.
  - intros. apply le_bytes_bytes.
  - intros a Ha. rewrite le_val_le_bytes by (apply wrap_range; lia).
    rewrite signed_wrap by lia. by apply signed_small.
  - intros bs Hl Hb. by apply signed_range.
  - intros bs Hl Hb. rewrite wrap_signed by done.
    rewrite wrap_small by (rewrite <-Hl; by apply le_val_bound).
    rewrite <-Hl. by apply le_bytes_le_val.
Qed.

(** ** Sequencing, arrays and records *)

Definition pair_layout {A B} (l1 : layout A) (l2 : layout B) : layout (A * B) := {|
  lsize := lsize l1 + lsize l2;
  lenc x := lenc l1 x.1 ++ lenc l2 x.2;
  ldec bs := (ldec l1 (take (lsize l1) bs), ldec l2 (drop (lsize l1) bs));
  lwf x := lwf l1 x.1 /\ lwf l2 x.2;
|}.

(** A [uint8_t[n]] field. *)
Definition raw (n : nat) : layout (list Z) := {|
  lsize := n;
  lenc bs := bs;
  ldec bs := bs;
  lwf bs := length bs = n /\ bytes bs;
|}.

Fixpoint dec_array {A} (l : layout A) (k : nat) (bs : list Z) : list A :=
  match k with
  | O => []
  | S k => ldec l (take (lsize l) bs) :: dec_array l k (drop (lsize l) bs)
  end.

Definition array (k : nat) {A} (l : layout A) : layout (list A) := {|
  lsize := k * lsize l;
  lenc xs := concat (map (lenc l) xs);
  ldec bs := dec_array l k bs;
  lwf xs := length xs = k /\ Forall (lwf l) xs;
|}.

(** A struct as the sequence of its fields. *)
Definition struct {A B} (l : layout B) (f : A -> B) (g : B -> A) : layout A := {|
  lsize := lsize l;
  lenc a := lenc l (f a);
  ldec bs := g (ldec l bs);
  lwf a := lwf l (f a);
|}.

#[export] Instance pair_lawful {A B} (l1 : layout A) (l2 : layout B) :
  Lawful l1 -> Lawful l2 -> Lawful (pair_layout l1 l2).
Proof.
  intros H1 H2. split; simpl.
  - intros [a b] [? ?]; simpl in *. by rewrite length_app, !length_lenc.
  - intros [a b] [? ?]; simpl in *. apply Forall_app_2; by apply bytes_lenc.
  - intros [a b] [? ?]; simpl in *.
    rewrite take_app_length', drop_app_length' by (by rewrite length_lenc).
    by rewrite !ldec_lenc.
  - intros bs Hl Hb. split; apply lwf_ldec;
      rewrite ?length_take, ?length_drop; auto using Forall_take, Forall_drop; lia.
  - intros bs Hl Hb.
    rewrite !lenc_ldec, take_drop; auto using Forall_take, Forall_drop;
      rewrite ?length_take, ?length_drop; lia.
Qed.

#[export] Instance raw_lawful n : Lawful (raw n).
Proof. split; simpl; tauto. Qed.

#[export] Instance array_lawful k {A} (l : layout A) : Lawful l -> Lawful (array k l).
Proof.
  intros Hl. split; cbn [lsize lenc ldec lwf array].
  - intros xs [<- Hx]. induction Hx; simpl; [done|].
    rewrite length_app, length_lenc by done. lia.
  - intros xs [_ Hx]. induction Hx; simpl; [constructor|].
    apply Forall_app_2; [by apply bytes_lenc|done].
  - intros xs [<- Hx]. induction Hx; simpl; [done|].
    rewrite take_app_length', drop_app_length' by (by rewrite length_lenc).
    by rewrite ldec_lenc, IHHx.
  - induction k as [|k IH]; intros bs Hlen Hb; simpl in *; [done|].
    destruct (IH (drop (lsize l) bs)) as [H1 H2];
      [rewrite length_drop; lia|by apply Forall_drop|].
    split; [by rewrite H1|]. constructor; [|done].
    apply lwf_ldec; [rewrite length_take; lia|by apply Forall_take].
  - induction k as [|k IH]; intros bs Hlen Hb; simpl in *.
    + by destruct bs.
    + rewrite lenc_ldec, IH, take_drop; auto using Forall_take, Forall_drop;
        rewrite ?length_take, ?length_drop; lia.
Qed.

Lemma struct_lawful {A B} (l : layout B) (f : A -> B) (g : B -> A) :
  Lawful l -> (forall a, g (f a) = a) -> (forall b, f (g b) = b) ->
  Lawful (struct l f g).
Proof.
  intros Hl Hgf Hfg. split; simpl; intros.
  - by apply length_lenc.
  - by apply bytes_lenc.
  - by rewrite ldec_lenc, Hgf.
  - rewrite Hfg. by apply lwf_ldec.
  - rewrite Hfg. by apply lenc_ldec.
Qed.

(** Fields of a struct, in declaration order. *)
Declare Scope layout_scope.
Delimit Scope layout_scope with layout.
Notation "l1 ⨾ l2" := (pair_layout l1 l2) (at level 60, right associativity) : layout_scope.
