(* ===== verification/Float32.v ===== *)
(** * Single-precision floats as bits

    The runtime keeps every [float] of its state as an IEEE 754 binary32 value
    whose bytes go into save buffers and digests, so a float is modelled by its
    32 bits.  Arithmetic is IEEE 754 round-to-nearest on [SpecFloat]; a NaN
    result has the canonical bits [0x7fc00000], as the F extension of RISC-V
    (the guest of every cart) specifies.  [canonicalize_nanf] is the NaN policy
    of spikes/spike-d/cart_runtime/nan_canon.h. *)

From Stdlib Require Import SpecFloat.
From S2P Require Import Prelude.

Definition CANONICAL_QNAN_BITS : Z := 0x7fc00000.

Definition canonicalize_nanf (u : Z) : Z :=
  let exp_bits := Z.land (u ≫ 23) 0xff in
  let frac := Z.land u 0x7fffff in
  if (exp_bits =? 0xff) && negb (frac =? 0) then CANONICAL_QNAN_BITS else u.

(** [is_nanf u]: the bits encode a NaN. *)
Definition is_nanf (u : Z) : bool :=
  (Z.land (u ≫ 23) 0xff =? 0xff) && negb (Z.land u 0x7fffff =? 0).

(** ** Bits and values *)

Definition f32_prec : Z := 24.
Definition f32_emax : Z := 128.

Definition f32_of_bits (u : Z) : spec_float :=
  let s := Z.testbit u 31 in
  let e := Z.land (u ≫ 23) 0xff in
  let m := Z.land u 0x7fffff in
  if e =? 0xff then (if m =? 0 then S754_infinity s else S754_nan)
  else if e =? 0 then
    match m with Zpos p => S754_finite s p (-149) | _ => S754_zero s end
  else
    match m + 0x800000 with Zpos p => S754_finite s p (e - 150) | _ => S754_nan end.

Definition f32_sign (s : bool) : Z := if s then 0x80000000 else 0.

(** The 32-bit word of a value; the outer [u32] only states the width. *)
Definition f32_to_bits (f : spec_float) : Z :=
  u32 match f with
  | S754_zero s => f32_sign s
  | S754_infinity s => f32_sign s + 0x7f800000
  | S754_nan => CANONICAL_QNAN_BITS
  | S754_finite s m e =>
      if Zpos m <? 0x800000 then f32_sign s + Zpos m
      else f32_sign s + ((e + 150) ≪ 23) + (Zpos m - 0x800000)
  end.

Definition f32_add (a b : Z) : Z :=
  f32_to_bits (SFadd f32_prec f32_emax (f32_of_bits a) (f32_of_bits b)).
Definition f32_sub (a b : Z) : Z :=
  f32_to_bits (SFsub f32_prec f32_emax (f32_of_bits a) (f32_of_bits b)).
Definition f32_mul (a b : Z) : Z :=
  f32_to_bits (SFmul f32_prec f32_emax (f32_of_bits a) (f32_of_bits b)).
(** [(float)n] for an integer [n]. *)
Definition f32_of_Z (n : Z) : Z :=
  f32_to_bits (binary_normalize f32_prec f32_emax n 0 false).

#[global] Arguments f32_add : simpl never.
#[global] Arguments f32_sub : simpl never.
#[global] Arguments f32_mul : simpl never.
#[global] Arguments f32_of_Z : simpl never.

(** Literals used by the sources. *)
Definition f32_zero : Z := 0.
Definition f32_one : Z := 0x3f800000.
Definition f32_half : Z := 0x3f000000.
Definition f32_2pow_m24 : Z := 0x33800000.

Example f32_add_ex : f32_add (f32_of_Z 10) (f32_of_Z 1000) = f32_of_Z 1010.
Proof. reflexivity. Qed.

Example f32_lit_ex :
  f32_of_Z 1 = f32_one /\ f32_mul f32_half (f32_of_Z 2) = f32_one /\
  f32_mul (f32_of_Z 0x1000000) f32_2pow_m24 = f32_one /\
  f32_sub f32_one f32_one = f32_zero.
Proof. repeat split. Qed.

(** ** NaN canonicalization *)

Lemma canonicalize_nanf_cases u :
  (is_nanf u = true /\ canonicalize_nanf u = CANONICAL_QNAN_BITS) \/
  (is_nanf u = false /\ canonicalize_nanf u = u).
Proof. unfold canonicalize_nanf, is_nanf. destruct (_ && _); auto. Qed.

Lemma f32_to_bits_range f : 0 <= f32_to_bits f < 2 ^ 32.
Proof. by apply wrap_range. Qed.

Lemma f32_arith_range a b n :
  0 <= f32_add a b < 2 ^ 32 /\ 0 <= f32_sub a b < 2 ^ 32 /\
  0 <= f32_mul a b < 2 ^ 32 /\ 0 <= f32_of_Z n < 2 ^ 32.
Proof. repeat split; apply f32_to_bits_range. Qed.

Lemma canonicalize_nanf_idem u :
  canonicalize_nanf (canonicalize_nanf u) = canonicalize_nanf u.
Proof.
  destruct (canonicalize_nanf_cases u) as [[_ ->]|[H E]]; [reflexivity|].
  by rewrite !E.
Qed.

Lemma canonicalize_nanf_range u : 0 <= u < 2 ^ 32 -> 0 <= canonicalize_nanf u < 2 ^ 32.
Proof.
  destruct (canonicalize_nanf_cases u) as [[_ ->]|[_ ->]]; [|done].
  unfold CANONICAL_QNAN_BITS. lia.
Qed.

(** The value read from the bits does not depend on which NaN they encode. *)
Lemma f32_of_bits_canon u : f32_of_bits (canonicalize_nanf u) = f32_of_bits u.
Proof.
  destruct (canonicalize_nanf_cases u) as [[H ->]|[_ ->]]; [|done].
  unfold is_nanf in H. apply andb_prop in H as [He Hm].
  unfold f32_of_bits. rewrite He. by destruct (Z.land u 0x7fffff =? 0).
Qed.

Lemma f32_add_canon a b :
  f32_add (canonicalize_nanf a) b = f32_add a b.
Proof. unfold f32_add. by rewrite f32_of_bits_canon. Qed.

Lemma f32_mul_canon a b :
  f32_mul (canonicalize_nanf a) (canonicalize_nanf b) = f32_mul a b.
Proof. unfold f32_mul. by rewrite !f32_of_bits_canon. Qed.

#[export] Hint Resolve canonicalize_nanf_range : blyt.
#[export] Hint Rewrite canonicalize_nanf_idem f32_add_canon f32_mul_canon : blytrw.

(** Well-formedness of a canonicalized struct, field by field. *)
Ltac canon_fields :=
  repeat (first [assumption | apply canonicalize_nanf_range; assumption | split]).
