(* ===== verification/FloatExact.v ===== *)
(** * Values of single-precision floats, and when arithmetic is exact

    A finite float is a multiple of 2^-149: [f32_fix] reads it as that multiple, an
    integer.  A number with at most 24 significant bits is a float, and an operation
    whose result is one rounds nothing away. *)

From Stdlib Require Import SpecFloat.
From S2P Require Import Prelude Float32.
Open Scope Z_scope.

(** 1.0 *)
Definition UNIT : Z := 2 ^ 149.

Definition sf_fix (f : spec_float) : option Z :=
  match f with
  | S754_zero _ => Some 0
  | S754_finite s m e => Some (cond_Zopp s (Zpos m) * 2 ^ (e + 149))
  | _ => None
  end.

Definition f32_fix (u : Z) : option Z := sf_fix (f32_of_bits u).

(** At most 24 significant bits, and no overflow. *)
Definition representable (z : Z) : Prop := exists k j, Z.abs z = k * 2 ^ j /\ 0 <= k < 2 ^ 24 /\ 0 <= j <= 253.

(** ** Digits and exponents *)

Lemma digits2_spec p : 2 ^ (Zpos (digits2_pos p) - 1) <= Zpos p < 2 ^ Zpos (digits2_pos p).
Proof.
  assert (forall d, 2 ^ (Zpos (Pos.succ d) - 1) = 2 * 2 ^ (Zpos d - 1) /\ 2 ^ Zpos (Pos.succ d) = 2 * 2 ^ Zpos d) as Hd.
  { intros d. rewrite Pos2Z.inj_succ, <-!Z.pow_succ_r by lia. split; f_equal; lia. }
  induction p as [p IH|p IH|]; cbn [digits2_pos]; [| |by cbn].
  - destruct (Hd (digits2_pos p)) as [-> ->]. lia.
  - destruct (Hd (digits2_pos p)) as [-> ->]. lia.
Qed.

(** The exponent of the canonical form, offset by 149, of a number of [d] bits. *)
Definition place (d : Z) : Z := Z.max (d - 24) 0.

Lemma fexp_place d : fexp f32_prec f32_emax d + 149 = place (d + 149).
Proof. unfold fexp, emin, place, f32_prec, f32_emax. lia. Qed.

Lemma digits_unique m d : 2 ^ (d - 1) <= Zpos m < 2 ^ d -> 0 < d -> Zpos (digits2_pos m) = d.
Proof.
  intros [H1 H2] Hd. destruct (digits2_spec m) as [H3 H4].
  assert (2 ^ (d - 1) < 2 ^ Zpos (digits2_pos m)) as A by lia.
  assert (2 ^ (Zpos (digits2_pos m) - 1) < 2 ^ d) as B by lia.
  apply Z.pow_lt_mono_r_iff in A, B; lia.
Qed.

Lemma digits_shift m n : 0 <= n -> forall m', Zpos m' = Zpos m * 2 ^ n -> Zpos (digits2_pos m') = Zpos (digits2_pos m) + n.
Proof.
  intros Hn m' E. destruct (digits2_spec m) as [H1 H2]. apply digits_unique; [|lia].
  rewrite E. replace (Zpos (digits2_pos m) + n - 1) with (Zpos (digits2_pos m) - 1 + n) by lia.
  rewrite !Z.pow_add_r by lia. split; [apply Z.mul_le_mono_nonneg_r|apply Z.mul_lt_mono_pos_r]; lia.
Qed.

(** ** Shifting out zeros *)

Lemma iter_pos_nat {A} (f : A -> A) p : forall x, SpecFloat.iter_pos f p x = Nat.iter (Pos.to_nat p) f x.
Proof.
  induction p as [p IH|p IH|]; intros x; cbn [SpecFloat.iter_pos]; [| |done].
  - rewrite !IH, Pos2Nat.inj_xI, <-Nat.iter_add, <-Nat.iter_succ_r. f_equal. lia.
  - rewrite !IH, Pos2Nat.inj_xO, <-Nat.iter_add. f_equal. lia.
Qed.

Lemma shr_zeros n : forall m m', Zpos m = Zpos m' * 2 ^ Z.of_nat n ->
  Nat.iter n shr_1 (Build_shr_record (Zpos m) false false) = Build_shr_record (Zpos m') false false.
Proof.
  induction n as [|n IH]; intros m m' E.
  { cbn in *. rewrite Z.mul_1_r in E. by injection E as ->. }
  rewrite Nat.iter_succ_r. rewrite Nat2Z.inj_succ, Z.pow_succ_r in E by lia.
  destruct m as [m|m|]; [lia| |lia]. cbn [shr_1 orb]. apply IH. lia.
Qed.

(** ** Rounding what fits *)

Lemma representable_place s m e k j : -149 <= e -> Zpos m * 2 ^ (e + 149) = k * 2 ^ j -> k < 2 ^ 24 -> 0 <= j ->
  s = place (Zpos (digits2_pos m) + (e + 149)) -> (2 ^ s | Zpos m * 2 ^ (e + 149)).
Proof.
  intros He E Hk Hj ->. destruct (digits2_spec m) as [H1 H2]. set (d := Zpos (digits2_pos m)) in *.
  assert (place (d + (e + 149)) <= j) as Hpj.
  { unfold place. apply Z.max_lub; [|done].
    assert (2 ^ (d - 1 + (e + 149)) < 2 ^ (24 + j)) as A.
    { rewrite (Z.pow_add_r 2 (d - 1)), (Z.pow_add_r 2 24) by lia. apply Z.le_lt_trans with (Zpos m * 2 ^ (e + 149)).
      - apply Z.mul_le_mono_nonneg_r; lia.
      - rewrite E. apply Z.mul_lt_mono_pos_r; lia. }
    apply Z.pow_lt_mono_r_iff in A; lia. }
  rewrite E. exists (k * 2 ^ (j - place (d + (e + 149)))).
  rewrite <-Z.mul_assoc, <-Z.pow_add_r by (unfold place in *; lia). f_equal. f_equal. lia.
Qed.

(** A mantissa that is not wider than its canonical exponent asks for. *)
Lemma round_aux_exact s m e z : -149 <= e -> e <= fexp f32_prec f32_emax (Zpos (digits2_pos m) + e) ->
  Zpos m * 2 ^ (e + 149) = z -> representable z ->
  exists m' e', binary_round_aux f32_prec f32_emax s (Zpos m) e loc_Exact = S754_finite s m' e' /\
    bounded f32_prec f32_emax m' e' = true /\ -149 <= e' /\ Zpos m' * 2 ^ (e' + 149) = z.
Proof.
  intros He Hle Ez (k & j & Ek & Hk & Hj). rewrite Z.abs_eq in Ek by lia.
  set (E := fexp f32_prec f32_emax (Zpos (digits2_pos m) + e)) in *.
  pose proof (fexp_place (Zpos (digits2_pos m) + e)) as HE. fold E in HE.
  replace (Zpos (digits2_pos m) + e + 149) with (Zpos (digits2_pos m) + (e + 149)) in HE by lia.
  destruct (representable_place (E + 149) m e k j) as [c Hc]; try (lia || done).
  assert (Zpos m = c * 2 ^ (E - e)) as Em.
  { replace (E + 149) with ((E - e) + (e + 149)) in Hc by lia. rewrite (Z.pow_add_r 2 (E - e)) in Hc by lia.
    apply (Z.mul_cancel_r _ _ (2 ^ (e + 149))); [lia|]. rewrite Hc. ring. }
  destruct c as [|m'|]; [lia| |lia].
  pose proof (digits_shift m' (E - e) ltac:(lia) m Em) as Hd.
  unfold binary_round_aux.
  assert (shr_fexp f32_prec f32_emax (Zpos m) e loc_Exact = (Build_shr_record (Zpos m') false false, E)) as ->.
  { unfold shr_fexp. cbn [Zdigits2 shr_record_of_loc]. fold E. unfold shr.
    destruct (E - e) as [|p|p] eqn:Ep; [|f_equal|lia].
    - rewrite Z.mul_1_r in Em. injection Em as ->. f_equal. lia.
    - rewrite iter_pos_nat. apply shr_zeros. by rewrite positive_nat_Z.
    - lia. }
  cbn [shr_m loc_of_shr_record round_nearest_even].
  assert (fexp f32_prec f32_emax (Zpos (digits2_pos m') + E) = E) as Hcan.
  { unfold E at 2. f_equal. lia. }
  assert (shr_fexp f32_prec f32_emax (Zpos m') E loc_Exact = (Build_shr_record (Zpos m') false false, E)) as ->.
  { unfold shr_fexp. cbn [Zdigits2 shr_record_of_loc]. by rewrite Hcan, Z.sub_diag. }
  cbn [shr_m].
  assert (E <= f32_emax - f32_prec) as Hmax.
  { destruct (digits2_spec m) as [H1 _]. set (d := Zpos (digits2_pos m)) in *.
    assert (2 ^ (d - 1 + (e + 149)) < 2 ^ (24 + 253)) as A.
    { apply Z.lt_le_trans with (2 ^ 24 * 2 ^ j).
      - rewrite (Z.pow_add_r 2 (d - 1)) by lia. apply Z.le_lt_trans with (Zpos m * 2 ^ (e + 149)).
        + apply Z.mul_le_mono_nonneg_r; lia.
        + rewrite Ez, Ek. apply Z.mul_lt_mono_pos_r; lia.
      - rewrite <-Z.pow_add_r by lia. apply Z.pow_le_mono_r; lia. }
    apply Z.pow_lt_mono_r_iff in A; [|lia..]. unfold place, f32_emax, f32_prec in *. lia. }
  rewrite (proj2 (Z.leb_le _ _) Hmax). exists m', E. split_and!; [done| |lia|].
  - unfold bounded, canonical_mantissa. rewrite Hcan, Z.eqb_refl. cbn [andb]. by apply Z.leb_le.
  - rewrite <-Ez, Em. rewrite <-Z.mul_assoc, <-Z.pow_add_r by lia. do 2 f_equal. lia.
Qed.

(** ** Values *)

Definition valid (f : spec_float) : Prop :=
  match f with S754_finite _ m e => bounded f32_prec f32_emax m e = true | _ => True end.

(** [f] is the float of the value [z]. *)
Definition is_float (f : spec_float) (z : Z) : Prop := valid f /\ sf_fix f = Some z.

Lemma bounded_range m e : bounded f32_prec f32_emax m e = true ->
  -149 <= e <= 104 /\ Zpos m < 2 ^ 24 /\ (-149 < e -> 2 ^ 23 <= Zpos m).
Proof.
  unfold bounded, canonical_mantissa. intros H. apply andb_true_iff in H as [H1 H2].
  apply Z.eqb_eq in H1. apply Z.leb_le in H2. destruct (digits2_spec m) as [D1 D2].
  set (d := Zpos (digits2_pos m)) in *. unfold fexp, emin, f32_prec, f32_emax in *.
  split_and!; [lia..| |].
  - apply Z.lt_le_trans with (2 ^ d); [done|]. apply Z.pow_le_mono_r; lia.
  - intros He. transitivity (2 ^ (d - 1)); [|done]. apply Z.pow_le_mono_r; lia.
Qed.

Lemma iter_xO m p : Zpos (Pos.iter xO m p) = Zpos m * 2 ^ Zpos p.
Proof.
  induction p as [|p IH] using Pos.peano_ind; [cbn; lia|].
  rewrite Pos.iter_succ, Pos2Z.inj_succ, Z.pow_succ_r by lia. lia.
Qed.

Lemma round_exact s m e z : -149 <= e -> Zpos m * 2 ^ (e + 149) = z -> representable z ->
  is_float (binary_round f32_prec f32_emax s m e) (cond_Zopp s z).
Proof.
  intros He Ez Hz. unfold binary_round, shl_align.
  set (E := fexp f32_prec f32_emax (Zpos (digits2_pos m) + e)).
  pose proof (fexp_place (Zpos (digits2_pos m) + e)) as HE. fold E in HE.
  assert (exists m0 e0, match E - e with Zneg d => (Pos.iter xO m d, E) | _ => (m, e) end = (m0, e0) /\
    -149 <= e0 /\ e0 <= fexp f32_prec f32_emax (Zpos (digits2_pos m0) + e0) /\ Zpos m0 * 2 ^ (e0 + 149) = z)
    as (m0 & e0 & -> & H0 & Hle & Ez0).
  { destruct (E - e) as [|p|p] eqn:Ep.
    - exists m, e. fold E. split_and!; try done; lia.
    - exists m, e. fold E. split_and!; try done; lia.
    - assert (Zpos (Pos.iter xO m p) = Zpos m * 2 ^ Zpos p) as Em.
      { apply iter_xO. }
      exists (Pos.iter xO m p), E. split_and!; [done|unfold place in HE; lia| |].
      + rewrite (digits_shift m (Zpos p)) by (lia || done). apply Z.eq_le_incl. unfold E at 1. f_equal. lia.
      + rewrite Em, <-Ez, <-Z.mul_assoc, <-Z.pow_add_r by (unfold place in HE; lia). do 2 f_equal. lia. }
  destruct (round_aux_exact s m0 e0 z H0 Hle Ez0 Hz) as (m' & e' & -> & Hb & He' & E').
  split; [done|]. cbn [sf_fix]. f_equal. destruct s; cbn [cond_Zopp]; lia.
Qed.

Lemma normalize_exact n e : -149 <= e -> representable (n * 2 ^ (e + 149)) ->
  is_float (binary_normalize f32_prec f32_emax n e false) (n * 2 ^ (e + 149)).
Proof.
  intros He Hr. destruct n as [|p|p]; cbn [binary_normalize]; [done| |].
  - exact (round_exact false p e _ He eq_refl Hr).
  - change (Zneg p) with (- Zpos p) in *. rewrite Z.mul_opp_l in *.
    apply (round_exact true p e _ He eq_refl). destruct Hr as (k & j & Hr). exists k, j. by rewrite Z.abs_opp in Hr.
Qed.

(** ** Bits *)

Lemma f32_fields s e m u : 0 <= e < 256 -> 0 <= m < 2 ^ 23 -> u = f32_sign s + e * 2 ^ 23 + m ->
  0 <= u < 2 ^ 32 /\ Z.testbit u 31 = s /\ Z.land (u ≫ 23) 0xff = e /\ Z.land u 0x7fffff = m.
Proof.
  intros He Hm ->. unfold f32_sign.
  change 0xff with (Z.ones 8). change 0x7fffff with (Z.ones 23).
  rewrite !Z.land_ones, Z.shiftr_div_pow2 by lia. split_and!.
  - destruct s; lia.
  - destruct s; lia.
  - apply Z.b2z_inj. rewrite Z.testbit_spec' by lia. change (2 ^ 31) with 2147483648. change (2 ^ 23) with 8388608 in *.
    destruct s; unfold Z.b2z; Z.to_euclidean_division_equations; lia.
  - change (2 ^ 8) with 256. change (2 ^ 23) with 8388608 in *. destruct s; Z.to_euclidean_division_equations; lia.
  - change (2 ^ 23) with 8388608 in *. destruct s; Z.to_euclidean_division_equations; lia.
Qed.

Lemma f32_bits_back f : valid f -> f32_of_bits (f32_to_bits f) = f.
Proof.
  destruct f as [s|s| |s m e]; intros Hv; [by destruct s..|done|]. destruct (bounded_range m e Hv) as (He & Hm & Hn).
  unfold f32_to_bits. destruct (Z.ltb_spec (Zpos m) 0x800000) as [Hlt|Hge].
  - assert (e = -149) as -> by lia.
    destruct (f32_fields s 0 (Zpos m) (f32_sign s + Zpos m) ltac:(lia) ltac:(lia) ltac:(lia)) as (Hu & Hs & H1 & H2).
    rewrite wrap_small by done. unfold f32_of_bits. rewrite Hs, H1, H2. done.
  - rewrite Z.shiftl_mul_pow2 by lia.
    destruct (f32_fields s (e + 150) (Zpos m - 0x800000) _ ltac:(lia) ltac:(lia) eq_refl) as (Hu & Hs & H1 & H2).
    rewrite wrap_small by done. unfold f32_of_bits. rewrite Hs, H1, H2.
    destruct (Z.eqb_spec (e + 150) 255); [lia|]. destruct (Z.eqb_spec (e + 150) 0); [lia|].
    replace (Zpos m - 0x800000 + 0x800000) with (Zpos m) by lia. f_equal. lia.
Qed.

Lemma f32_of_bits_valid u : valid (f32_of_bits u).
Proof.
  unfold f32_of_bits, valid. pose proof (Z.land_ones u 23 ltac:(lia)) as H1. pose proof (Z.land_ones (u ≫ 23) 8 ltac:(lia)) as H2.
  change (Z.ones 23) with 0x7fffff in H1. change (Z.ones 8) with 0xff in H2.
  pose proof (Z.mod_pos_bound u (2 ^ 23) ltac:(lia)). pose proof (Z.mod_pos_bound (u ≫ 23) (2 ^ 8) ltac:(lia)).
  set (e := Z.land (u ≫ 23) 0xff) in *. set (m := Z.land u 0x7fffff) in *.
  assert (forall p x, 2 ^ 23 <= Zpos p < 2 ^ 24 -> -149 <= x <= 104 -> bounded f32_prec f32_emax p x = true) as Hn.
  { intros p x Hp Hx. unfold bounded, canonical_mantissa. rewrite (digits_unique p 24) by lia.
    apply andb_true_iff. unfold fexp, emin, f32_prec, f32_emax. split; [apply Z.eqb_eq|apply Z.leb_le]; lia. }
  destruct (Z.eqb_spec e 0xff); [by destruct (m =? 0)|]. destruct (Z.eqb_spec e 0).
  - destruct m as [|p|p]; [done| |done]. unfold bounded, canonical_mantissa.
    destruct (digits2_spec p) as [D _]. assert (2 ^ (Zpos (digits2_pos p) - 1) < 2 ^ 23) as A by lia.
    apply Z.pow_lt_mono_r_iff in A; [|lia..]. apply andb_true_iff. unfold fexp, emin, f32_prec, f32_emax.
    split; [apply Z.eqb_eq|apply Z.leb_le]; lia.
  - destruct (m + 0x800000) as [|p|p] eqn:Ep; [lia| |lia]. apply Hn; lia.
Qed.

Lemma fix_valid u x : f32_fix u = Some x -> is_float (f32_of_bits u) x.
Proof. intros H. split; [apply f32_of_bits_valid|done]. Qed.

Lemma to_bits_fix f z : is_float f z -> f32_fix (f32_to_bits f) = Some z.
Proof. intros [Hv Hz]. unfold f32_fix. by rewrite f32_bits_back. Qed.

(** ** Exact operations *)

Lemma f32_of_Z_exact n : representable (n * UNIT) -> f32_fix (f32_of_Z n) = Some (n * UNIT).
Proof. intros Hr. apply to_bits_fix, (normalize_exact n 0); [lia|exact Hr]. Qed.

Lemma align_value m e ez : ez <= e -> Zpos (fst (shl_align m e ez)) = Zpos m * 2 ^ (e - ez).
Proof.
  intros H. unfold shl_align. destruct (ez - e) as [|p|p] eqn:E; [|lia|].
  - assert (e - ez = 0) as -> by lia. cbn. lia.
  - cbn [fst]. rewrite iter_xO. f_equal. f_equal. lia.
Qed.

Lemma scaled_sum sa sb (ma mb : Z) ea eb ez : -149 <= ez <= ea -> ez <= eb ->
  (cond_Zopp sa (ma * 2 ^ (ea - ez)) + cond_Zopp sb (mb * 2 ^ (eb - ez))) * 2 ^ (ez + 149) =
  cond_Zopp sa ma * 2 ^ (ea + 149) + cond_Zopp sb mb * 2 ^ (eb + 149).
Proof.
  intros H1 H2. replace (ea + 149) with ((ea - ez) + (ez + 149)) by lia.
  replace (eb + 149) with ((eb - ez) + (ez + 149)) by lia. rewrite !(Z.pow_add_r 2 (_ - ez)) by lia.
  destruct sa, sb; cbn [cond_Zopp]; ring.
Qed.

Lemma SFadd_exact f g x y : is_float f x -> is_float g y -> representable (x + y) ->
  is_float (SFadd f32_prec f32_emax f g) (x + y).
Proof.
  intros [Hf Ex] [Hg Ey] Hr. destruct f as [sa|sa| |sa ma ea], g as [sb|sb| |sb mb eb]; try done; cbn [sf_fix] in *.
  - injection Ex as <-. injection Ey as <-. by destruct sa, sb.
  - injection Ex as <-. split; [done|exact Ey].
  - injection Ey as <-. rewrite Z.add_0_r. split; [done|exact Ex].
  - injection Ex as <-. injection Ey as <-. destruct (bounded_range _ _ Hf) as (Ha & _), (bounded_range _ _ Hg) as (Hb & _).
    cbn [SFadd]. rewrite !align_value by lia. rewrite <-(scaled_sum sa sb _ _ ea eb (Z.min ea eb)) in * by lia.
    by apply normalize_exact; [lia|].
Qed.

Lemma f32_add_exact a b x y : f32_fix a = Some x -> f32_fix b = Some y -> representable (x + y) ->
  f32_fix (f32_add a b) = Some (x + y).
Proof. intros Ha Hb Hr. apply to_bits_fix, SFadd_exact; [by apply fix_valid..|done]. Qed.

Lemma SFsub_exact f g x y : is_float f x -> is_float g y -> representable (x - y) ->
  is_float (SFsub f32_prec f32_emax f g) (x - y).
Proof.
  intros [Hf Ex] [Hg Ey] Hr. destruct f as [sa|sa| |sa ma ea], g as [sb|sb| |sb mb eb]; try done; cbn [sf_fix] in *.
  - injection Ex as <-. injection Ey as <-. by destruct sa, sb.
  - injection Ex as <-. injection Ey as <-. split; [done|]. cbn [sf_fix SFsub]. destruct sb; cbn [negb cond_Zopp]; f_equal; lia.
  - injection Ey as <-. rewrite Z.sub_0_r. split; [done|exact Ex].
  - injection Ex as <-. injection Ey as <-. destruct (bounded_range _ _ Hf) as (Ha & _), (bounded_range _ _ Hg) as (Hb & _).
    cbn [SFsub]. rewrite !align_value by lia.
    pose proof (scaled_sum sa (negb sb) (Zpos ma) (Zpos mb) ea eb (Z.min ea eb) ltac:(lia) ltac:(lia)) as E.
    assert (forall z, cond_Zopp (negb sb) z = - cond_Zopp sb z) as En by (intros z; destruct sb; cbn [cond_Zopp negb]; lia).
    rewrite !En, !Z.mul_opp_l, !Z.add_opp_r in E. rewrite <-E in *. by apply normalize_exact; [lia|].
Qed.

Lemma f32_sub_exact a b x y : f32_fix a = Some x -> f32_fix b = Some y -> representable (x - y) ->
  f32_fix (f32_sub a b) = Some (x - y).
Proof. intros Ha Hb Hr. apply to_bits_fix, SFsub_exact; [by apply fix_valid..|done]. Qed.

(** A product: the exponents of the factors must not fall below the smallest together. *)
Lemma SFmul_exact f g x y z : is_float f x -> is_float g y -> x * y = z * UNIT -> representable z ->
  (forall s m e s' m' e', f = S754_finite s m e -> g = S754_finite s' m' e' ->
    -149 <= e + e' <= fexp f32_prec f32_emax (Zpos (digits2_pos (m * m')) + (e + e'))) ->
  is_float (SFmul f32_prec f32_emax f g) z.
Proof.
  intros [Hf Ex] [Hg Ey] Hz Hr He. unfold UNIT in Hz.
  destruct f as [sa|sa| |sa ma ea], g as [sb|sb| |sb mb eb]; try done; cbn [sf_fix] in *.
  - injection Ex as <-. injection Ey as <-. split; [done|]. cbn. f_equal. nia.
  - injection Ex as <-. split; [done|]. cbn. f_equal. nia.
  - injection Ey as <-. split; [done|]. cbn. f_equal. nia.
  - injection Ex as <-. injection Ey as <-. destruct (He _ _ _ _ _ _ eq_refl eq_refl) as [H1 H2].
    destruct (bounded_range _ _ Hf) as (Ha & _), (bounded_range _ _ Hg) as (Hb & _). cbn [SFmul].
    assert (z = cond_Zopp (xorb sa sb) (Zpos (ma * mb) * 2 ^ (ea + eb + 149))) as ->.
    { apply (Z.mul_cancel_r _ _ (2 ^ 149)); [lia|]. rewrite <-Hz.
      assert (2 ^ (ea + 149) * 2 ^ (eb + 149) = 2 ^ (ea + eb + 149) * 2 ^ 149) as E.
      { rewrite <-!Z.pow_add_r by lia. f_equal. lia. }
      rewrite Pos2Z.inj_mul. destruct sa, sb; cbn [cond_Zopp xorb]; nia. }
    assert (representable (Zpos (ma * mb) * 2 ^ (ea + eb + 149))) as Hr'.
    { destruct Hr as (k & j & E & Hk). exists k, j. split; [|done]. rewrite <-E.
      destruct (xorb sa sb); cbn [cond_Zopp]; by rewrite ?Z.abs_opp. }
    destruct (round_aux_exact (xorb sa sb) (ma * mb) (ea + eb) _ H1 H2 eq_refl Hr') as (m' & e' & -> & Hb' & He' & E).
    split; [done|]. cbn [sf_fix]. f_equal. rewrite <-E. destruct (xorb sa sb); cbn [cond_Zopp]; lia.
Qed.

(** ** Comparison *)

Definition f32_lt (a b : Z) : bool := SFltb (f32_of_bits a) (f32_of_bits b).

Lemma SFcompare_fix f g x y : is_float f x -> is_float g y -> SFcompare f g = Some (x ?= y).
Proof.
  intros [Hf Ex] [Hg Ey]. destruct f as [sa|sa| |sa ma ea], g as [sb|sb| |sb mb eb]; try done; cbn [sf_fix] in *;
    injection Ex as <-; injection Ey as <-; cbn [SFcompare].
  - done.
  - f_equal. destruct sb; cbn [cond_Zopp]; symmetry; [apply Z.compare_gt_iff|apply Z.compare_lt_iff];
      pose proof (Z.pow_pos_nonneg 2 (eb + 149)); destruct (bounded_range _ _ Hg); nia.
  - f_equal. destruct sa; cbn [cond_Zopp]; symmetry; [apply Z.compare_lt_iff|apply Z.compare_gt_iff];
      pose proof (Z.pow_pos_nonneg 2 (ea + 149)); destruct (bounded_range _ _ Hf); nia.
  - destruct (bounded_range _ _ Hf) as (Ha & Ma & Na), (bounded_range _ _ Hg) as (Hb & Mb & Nb).
    pose proof (Z.pow_pos_nonneg 2 (ea + 149) ltac:(lia) ltac:(lia)) as Pa.
    pose proof (Z.pow_pos_nonneg 2 (eb + 149) ltac:(lia) ltac:(lia)) as Pb.
    assert (forall m m' e e', -149 <= e -> e < e' -> (-149 < e' -> 2 ^ 23 <= Zpos m') -> Zpos m < 2 ^ 24 ->
      Zpos m * 2 ^ (e + 149) < Zpos m' * 2 ^ (e' + 149)) as Hlt.
    { intros m m' e e' H0 He Hm' Hm. apply Z.lt_le_trans with (2 ^ 24 * 2 ^ (e + 149)).
      - apply Z.mul_lt_mono_pos_r; [|done]. apply Z.pow_pos_nonneg; lia.
      - transitivity (2 ^ 23 * 2 ^ (e' + 149)).
        + rewrite <-!Z.pow_add_r by lia. apply Z.pow_le_mono_r; lia.
        + apply Z.mul_le_mono_nonneg_r; [apply Z.pow_nonneg; lia|]. apply Hm'. lia. }
    assert (forall m m' e, -149 <= e -> Pos.compare_cont Eq m m' = (Zpos m * 2 ^ (e + 149) ?= Zpos m' * 2 ^ (e + 149))) as Heq.
    { intros m m' e H. pose proof (Z.pow_pos_nonneg 2 (e + 149) ltac:(lia) ltac:(lia)). symmetry.
      change (Pos.compare_cont Eq m m') with (m ?= m')%positive.
      destruct (Pos.compare_spec m m') as [->|L|L]; [apply Z.compare_refl|apply Z.compare_lt_iff|apply Z.compare_gt_iff];
        apply Z.mul_lt_mono_pos_r; (done || lia). }
    f_equal. destruct sa, sb; cbn [cond_Zopp].
    + destruct (Z.compare_spec ea eb) as [->|H|H]; symmetry.
      * rewrite (Heq ma mb eb) by lia. rewrite !Z.mul_opp_l, Z.compare_opp. by rewrite <-Z.compare_antisym.
      * apply Z.compare_gt_iff. specialize (Hlt ma mb ea eb ltac:(lia) H Nb Ma). lia.
      * apply Z.compare_lt_iff. specialize (Hlt mb ma eb ea ltac:(lia) H Na Mb). lia.
    + symmetry. apply Z.compare_lt_iff. nia.
    + symmetry. apply Z.compare_gt_iff. nia.
    + destruct (Z.compare_spec ea eb) as [->|H|H]; symmetry; [by rewrite (Heq ma mb eb) by lia|..].
      * apply Z.compare_lt_iff. apply (Hlt ma mb ea eb); (lia || done).
      * apply Z.compare_gt_iff. apply (Hlt mb ma eb ea); (lia || done).
Qed.

Lemma f32_lt_fix a b x y : f32_fix a = Some x -> f32_fix b = Some y -> f32_lt a b = (x <? y).
Proof. intros Ha Hb. unfold f32_lt, SFltb, Z.ltb. by rewrite (SFcompare_fix _ _ x y) by (by apply fix_valid). Qed.

(** ** Operations on small numbers stay finite *)

(** Not a NaN and not an infinity. *)
Definition is_finitef (u : Z) : bool := negb (Z.land (u ≫ 23) 0xff =? 0xff).

(** A zero, or a mantissa of 24 bits with an exponent of at most [k]. *)
Definition small (k : Z) (f : spec_float) : Prop :=
  match f with
  | S754_zero _ => True
  | S754_finite _ m e => Zpos m < 2 ^ 24 /\ -149 <= e <= k
  | _ => False
  end.

Lemma shr_1_half r : 0 <= shr_m r -> shr_m (shr_1 r) = shr_m r / 2.
Proof. destruct r as [[|[p|p|]|p] b s]; cbn; intros H; Z.to_euclidean_division_equations; lia. Qed.

Lemma shr_iter n : forall r, 0 <= shr_m r -> shr_m (Nat.iter n shr_1 r) = shr_m r / 2 ^ Z.of_nat n.
Proof.
  induction n as [|n IH]; intros r Hr; [by rewrite Z.div_1_r|].
  rewrite Nat.iter_succ_r, IH, shr_1_half by (rewrite ?shr_1_half by done; try apply Z.div_pos; lia).
  rewrite Z.div_div by lia. f_equal. rewrite Nat2Z.inj_succ, Z.pow_succ_r by lia. done.
Qed.

(** The first step of rounding leaves 24 bits. *)
Lemma shr_fexp_small m e l k : 0 <= m -> m < 2 ^ (24 + k - e) -> e <= k -> -149 <= k ->
  exists r e', shr_fexp f32_prec f32_emax m e l = (r, e') /\ 0 <= shr_m r < 2 ^ 24 /\ -149 <= e' <= k.
Proof.
  intros Hm Hlt He Hk. unfold shr_fexp, shr.
  set (d := Zdigits2 m). set (x := fexp f32_prec f32_emax (d + e)).
  assert (m < 2 ^ d /\ 0 <= d <= 24 + k - e) as [Hd Hd'].
  { subst d. destruct m as [|p|p]; [cbn; lia| |lia]. destruct (digits2_spec p) as [D1 D2]. cbn [Zdigits2].
    split; [lia|]. assert (2 ^ (Zpos (digits2_pos p) - 1) < 2 ^ (24 + k - e)) as A by lia.
    apply Z.pow_lt_mono_r_iff in A; lia. }
  assert (x = Z.max (d + e - 24) (-149)) as Hx by (unfold x, fexp, emin, f32_prec, f32_emax; lia).
  assert (shr_m (shr_record_of_loc m l) = m) as Er by (by destruct l as [|[]]).
  destruct (x - e) as [|n|n] eqn:En.
  - eexists _, _. split; [reflexivity|]. rewrite Er. split; [|lia]. split; [done|].
    apply Z.lt_le_trans with (2 ^ d); [done|]. apply Z.pow_le_mono_r; lia.
  - eexists _, _. split; [reflexivity|]. rewrite iter_pos_nat, shr_iter, Er, positive_nat_Z by lia.
    split; [|lia]. split; [apply Z.div_pos; lia|]. apply Z.div_lt_upper_bound; [lia|].
    rewrite <-Z.pow_add_r by lia. apply Z.lt_le_trans with (2 ^ d); [done|]. apply Z.pow_le_mono_r; lia.
  - eexists _, _. split; [reflexivity|]. rewrite Er. split; [|lia]. split; [done|].
    apply Z.lt_le_trans with (2 ^ d); [done|]. apply Z.pow_le_mono_r; lia.
Qed.

Lemma round_aux_small s m e l k : 0 <= m -> m < 2 ^ (24 + k - e) -> e <= k -> -149 <= k <= 103 ->
  small (k + 1) (binary_round_aux f32_prec f32_emax s m e l).
Proof.
  intros Hm Hlt He Hk. unfold binary_round_aux.
  destruct (shr_fexp_small m e l k Hm Hlt He ltac:(lia)) as (r & e1 & -> & Hr & He1).
  set (m2 := round_nearest_even _ _). assert (0 <= m2 <= 2 ^ 24) as Hm2.
  { subst m2. unfold round_nearest_even. destruct (loc_of_shr_record r) as [|[]]; [lia| |lia..].
    destruct (Z.even (shr_m r)); lia. }
  destruct (shr_fexp_small m2 e1 loc_Exact (e1 + 1)) as (r' & e2 & -> & Hr' & He2); [lia| |lia..|].
  { replace (24 + (e1 + 1) - e1) with 25 by lia. lia. }
  destruct (shr_m r') as [|p|p] eqn:Ep; [done| |lia].
  unfold f32_emax, f32_prec. destruct (Z.leb_spec e2 (128 - 24)); [|lia]. cbn. lia.
Qed.

(** Encoding and decoding keep a number small. *)
Lemma small_bits k f : small k f -> k <= 104 -> small k (f32_of_bits (f32_to_bits f)).
Proof.
  intros Hf Hk. destruct f as [s|s| |s m e]; [by destruct s|by destruct Hf..|].
  destruct Hf as [Hm He]. unfold f32_to_bits. destruct (Z.ltb_spec (Zpos m) 0x800000).
  - destruct (f32_fields s 0 (Zpos m) (f32_sign s + Zpos m) ltac:(lia) ltac:(lia) ltac:(lia)) as (Hu & Hs & H1 & H2).
    rewrite wrap_small by done. unfold f32_of_bits. rewrite Hs, H1, H2. cbn. lia.
  - rewrite Z.shiftl_mul_pow2 by lia.
    destruct (f32_fields s (e + 150) (Zpos m - 0x800000) _ ltac:(lia) ltac:(lia) eq_refl) as (Hu & Hs & H1 & H2).
    rewrite wrap_small by done. unfold f32_of_bits. rewrite Hs, H1, H2.
    destruct (Z.eqb_spec (e + 150) 255); [lia|]. destruct (Z.eqb_spec (e + 150) 0); [lia|].
    replace (Zpos m - 0x800000 + 0x800000) with (Zpos m) by lia. cbn. lia.
Qed.

Lemma small_of_Z n k : 0 <= n < 2 ^ (24 + k) -> 0 <= k <= 103 -> small (k + 1) (f32_of_bits (f32_of_Z n)).
Proof.
  intros Hn Hk. apply small_bits; [|lia]. destruct n as [|p|p]; [done| |lia]. cbn [binary_normalize].
  unfold binary_round, shl_align. set (x := fexp _ _ _).
  assert (x <= k) as Hx.
  { destruct (digits2_spec p) as [D _]. assert (2 ^ (Zpos (digits2_pos p) - 1) < 2 ^ (24 + k)) as A by lia.
    apply Z.pow_lt_mono_r_iff in A; [|lia..]. unfold x, fexp, emin, f32_prec, f32_emax. lia. }
  destruct (x - 0) as [|d|d] eqn:E; apply round_aux_small; try lia.
  - rewrite Z.sub_0_r. lia.
  - rewrite Z.sub_0_r. lia.
  - rewrite iter_xO. replace (24 + k - x) with (24 + k + Zpos d) by lia. rewrite Z.pow_add_r by lia.
    apply Z.mul_lt_mono_pos_r; lia.
Qed.

Lemma small_mul a b i j k : small i (f32_of_bits a) -> small j (f32_of_bits b) ->
  i + j + 24 <= k -> -149 <= k <= 103 -> small (k + 1) (f32_of_bits (f32_mul a b)).
Proof.
  intros Ha Hb Hk Hk'. apply small_bits; [|lia].
  destruct (f32_of_bits a) as [|?| |sa ma ea], (f32_of_bits b) as [|?| |sb mb eb]; cbn in Ha, Hb; try done.
  cbn [SFmul]. apply round_aux_small; [lia| |lia..]. apply Z.lt_le_trans with (2 ^ 48); [nia|].
  apply Z.pow_le_mono_r; lia.
Qed.

(** Division by a normal number of exponent [j]. *)
Lemma small_div f i j s m k : small i f -> 2 ^ 23 <= Zpos m -> i - j <= k -> -149 <= k <= 103 ->
  small (k + 1) (SFdiv f32_prec f32_emax f (S754_finite s m j)).
Proof.
  intros Hf Hm Hk Hk'. destruct f as [|?| |sa ma ea]; try done. destruct Hf as [Ha He]. cbn [SFdiv].
  unfold SFdiv_core_binary. set (e' := Z.min _ _).
  assert (e' <= ea - j) as He' by apply Z.le_min_r.
  set (m' := match ea - j - e' with Z0 => _ | Zpos _ => _ | Zneg _ => _ end).
  assert (0 <= m' < 2 ^ (24 + (ea - j - e'))) as Hm'.
  { subst m'. destruct (ea - j - e') as [|d|d] eqn:E; [rewrite Z.add_0_r; lia| |lia]. rewrite Z.shiftl_mul_pow2 by lia.
    rewrite Z.pow_add_r by lia. split; [lia|]. apply Z.mul_lt_mono_pos_r; lia. }
  pose proof (Z_div_mod m' (Zpos m) ltac:(lia)) as Hq. destruct (Z.div_eucl m' (Zpos m)) as [q r].
  destruct Hq as [Hq Hr].
  assert (0 <= q) by nia. apply round_aux_small; [done| |lia..].
  apply Z.lt_le_trans with (2 ^ (1 + (ea - j - e'))); [|apply Z.pow_le_mono_r; lia].
  apply Z.mul_lt_mono_pos_r with (2 ^ 23); [lia|]. rewrite <-Z.pow_add_r by lia.
  replace (1 + (ea - j - e') + 23) with (24 + (ea - j - e')) by lia. nia.
Qed.

Lemma small_finite u k : small k (f32_of_bits u) -> is_finitef u = true.
Proof.
  unfold f32_of_bits, is_finitef. destruct (Z.land (u ≫ 23) 0xff =? 0xff); [|done].
  by destruct (Z.land u 0x7fffff =? 0).
Qed.
