(* ===== verification/Determinism.v ===== *)
(** * Deterministic frame state (spikes/spike-d/cart_runtime)

    The PCG32 generator of pcg32.h, the packed per-frame state of
    frame_state.h and the FNV-1a-64 digest of digest.c, which every cart
    prints once per frame. *)

From S2P Require Import Prelude Layout Float32.

(** ** PCG32 (pcg32.h) *)

Record pcg32_t := Pcg32 { state : Z; inc : Z }.

Definition PCG_DEFAULT_STATE : Z := 0xfc320001.
Definition PCG_DEFAULT_INC : Z := 0x14057b7ef767814f.
Definition PCG_MULT : Z := 6364136223846793005.

Definition pcg32_seed (st ic : Z) : pcg32_t :=
  let s0 := 0 in
  let inc := Z.lor (u64 (ic ≪ 1)) 1 in
  let s1 := u64 (s0 * PCG_MULT + inc) in
  let s2 := u64 (s1 + st) in
  let s3 := u64 (s2 * PCG_MULT + inc) in
  {| state := s3; inc := inc |}.

Definition pcg32_next (r : pcg32_t) : pcg32_t * Z :=
  let old := state r in
  let r' := {| state := u64 (old * PCG_MULT + inc r); inc := inc r |} in
  let xorshifted := u32 ((Z.lxor (old ≫ 18) old) ≫ 27) in
  let rot := u32 (old ≫ 59) in
  (r', Z.lor (xorshifted ≫ rot) (u32 (xorshifted ≪ (Z.land (u32 (- rot)) 31)))).

Definition pcg32_unit_float (r : pcg32_t) : pcg32_t * Z :=
  let '(r', v) := pcg32_next r in
  let u := v ≫ 8 in
  (r', f32_mul (f32_of_Z u) f32_2pow_m24).

(** The generator's invariant: 64-bit words and an odd increment. *)
Definition pcg32_ok (r : pcg32_t) : Prop :=
  0 <= state r < 2 ^ 64 /\ 0 <= inc r < 2 ^ 64 /\ Z.odd (inc r) = true.

(** ** Frame state (frame_state.h) *)

Definition FRAME_STATE_MAX_MOBS : nat := 64.

Record frame_state_mob := Mob {
  x : Z; y : Z; vx : Z; vy : Z;
  mob_state : Z;
}.

Record frame_state_t := FrameState {
  frame : Z;
  rng_state : Z;
  rng_inc : Z;
  accum_sin : Z;
  accum_cos : Z;
  accum_sqrt : Z;
  accum_misc : Z;
  mobs : list frame_state_mob;
}.

Definition mob_layout : layout frame_state_mob :=
  struct (uint 4 ⨾ uint 4 ⨾ uint 4 ⨾ uint 4 ⨾ uint 4)%layout
    (fun m => (x m, (y m, (vx m, (vy m, mob_state m)))))
    (fun '(a, (b, (c, (d, e)))) => Mob a b c d e).

Definition frame_state_layout : layout frame_state_t :=
  struct (uint 4 ⨾ uint 8 ⨾ uint 8 ⨾ uint 4 ⨾ uint 4 ⨾ uint 4 ⨾ uint 4
          ⨾ array FRAME_STATE_MAX_MOBS mob_layout)%layout
    (fun s => (frame s, (rng_state s, (rng_inc s, (accum_sin s, (accum_cos s,
               (accum_sqrt s, (accum_misc s, mobs s))))))))
    (fun '(a, (b, (c, (d, (e, (f, (g, h))))))) => FrameState a b c d e f g h).

#[export] Instance mob_lawful : Lawful mob_layout.
Proof. apply struct_lawful; [apply _|by intros []|by intros (?&?&?&?&?)]. Qed.

#[export] Instance frame_state_lawful : Lawful frame_state_layout.
Proof. apply struct_lawful; [apply _|by intros []|by intros (?&?&?&?&?&?&?&?)]. Qed.

(** The all-zero struct, as the carts' byte-wise clearing loop leaves it. *)
Definition frame_state_zero : frame_state_t :=
  FrameState 0 0 0 0 0 0 0 (replicate FRAME_STATE_MAX_MOBS (Mob 0 0 0 0 0)).

Definition set_frame (f : Z) (s : frame_state_t) : frame_state_t :=
  FrameState f (rng_state s) (rng_inc s) (accum_sin s) (accum_cos s)
    (accum_sqrt s) (accum_misc s) (mobs s).

Definition set_accum_misc (v : Z) (s : frame_state_t) : frame_state_t :=
  FrameState (frame s) (rng_state s) (rng_inc s) (accum_sin s) (accum_cos s)
    (accum_sqrt s) v (mobs s).

Definition set_rng (st ic : Z) (s : frame_state_t) : frame_state_t :=
  FrameState (frame s) st ic (accum_sin s) (accum_cos s)
    (accum_sqrt s) (accum_misc s) (mobs s).

(** ** Digest (digest.c) *)

Definition FNV1A_64_OFFSET : Z := 0xcbf29ce484222325.
Definition FNV1A_64_PRIME : Z := 0x00000100000001b3.

Definition canonicalize_mob (m : frame_state_mob) : frame_state_mob :=
  Mob (canonicalize_nanf (x m)) (canonicalize_nanf (y m))
      (canonicalize_nanf (vx m)) (canonicalize_nanf (vy m)) (mob_state m).

Definition frame_state_canonicalize (s : frame_state_t) : frame_state_t :=
  {| frame := frame s;
     rng_state := rng_state s;
     rng_inc := rng_inc s;
     accum_sin := canonicalize_nanf (accum_sin s);
     accum_cos := canonicalize_nanf (accum_cos s);
     accum_sqrt := canonicalize_nanf (accum_sqrt s);
     accum_misc := canonicalize_nanf (accum_misc s);
     mobs := map canonicalize_mob (mobs s) |}.

Definition fnv1a_step (h b : Z) : Z := u64 (Z.lxor h b * FNV1A_64_PRIME).
Definition fnv1a_64 (bs : list Z) : Z := fold_left fnv1a_step bs FNV1A_64_OFFSET.

Definition frame_state_fnv1a (s : frame_state_t) : Z :=
  fnv1a_64 (lenc frame_state_layout s).

(** Returns the state the call leaves behind and the line it prints. *)
Definition frame_state_emit_digest (s : frame_state_t) : frame_state_t * list Z :=
  let s := frame_state_canonicalize s in
  let h := frame_state_fnv1a s in
  let hi := u32 (h ≫ 32) in
  let lo := u32 (Z.land h 0xffffffff) in
  (s, cstr "DIGEST " ++ dec (frame s) ++ cstr " " ++ hex8 hi ++ hex8 lo ++ [10]).

(** ** Lemmas *)

Lemma frame_state_size : lsize frame_state_layout = 1316%nat.
Proof. reflexivity. Qed.

Lemma canonicalize_mob_idem m : canonicalize_mob (canonicalize_mob m) = canonicalize_mob m.
Proof. unfold canonicalize_mob; simpl. by autorewrite with blytrw. Qed.

Lemma frame_state_canonicalize_idem s :
  frame_state_canonicalize (frame_state_canonicalize s) = frame_state_canonicalize s.
Proof.
  unfold frame_state_canonicalize; simpl. autorewrite with blytrw. f_equal.
  rewrite map_map. apply map_ext, canonicalize_mob_idem.
Qed.

Lemma canonicalize_mob_wf m : lwf mob_layout m -> lwf mob_layout (canonicalize_mob m).
Proof. cbn -[Z.pow]. intros (?&?&?&?&?). canon_fields. Qed.

Lemma frame_state_canonicalize_wf s :
  lwf frame_state_layout s -> lwf frame_state_layout (frame_state_canonicalize s).
Proof.
  cbn -[mob_layout Z.pow]. intros (?&?&?&?&?&?&?&?&Hm).
  canon_fields.
  - by rewrite length_map.
  - apply Forall_map. eapply Forall_impl; [done|]. apply canonicalize_mob_wf.
Qed.

Lemma frame_state_zero_wf : lwf frame_state_layout frame_state_zero.
Proof.
  cbn -[mob_layout replicate]. split_and!; try done.
  apply Forall_replicate. by split_and!.
Qed.

Lemma fnv1a_step_range h b : 0 <= fnv1a_step h b < 2 ^ 64.
Proof. apply wrap_range; lia. Qed.

Lemma fnv1a_64_range bs : 0 <= fnv1a_64 bs < 2 ^ 64.
Proof.
  unfold fnv1a_64.
  assert (forall h, 0 <= h < 2 ^ 64 -> 0 <= fold_left fnv1a_step bs h < 2 ^ 64) as H.
  { induction bs as [|b bs IH]; intros h Hh; simpl; [done|].
    apply IH, fnv1a_step_range. }
  apply H. unfold FNV1A_64_OFFSET. lia.
Qed.

Lemma lxor_byte_range h b : 0 <= h < 2 ^ 64 -> is_byte b -> 0 <= Z.lxor h b < 2 ^ 64.
Proof. unfold is_byte. intros. apply lxor_range; lia. Qed.

Lemma fnv1a_step_inj h1 h2 b1 b2 :
  0 <= h1 < 2 ^ 64 -> 0 <= h2 < 2 ^ 64 -> is_byte b1 -> is_byte b2 ->
  fnv1a_step h1 b1 = fnv1a_step h2 b2 -> Z.lxor h1 b1 = Z.lxor h2 b2.
Proof.
  intros Hh1 Hh2 Hb1 Hb2 E.
  pose proof (lxor_byte_range _ _ Hh1 Hb1). pose proof (lxor_byte_range _ _ Hh2 Hb2).
  rewrite <-(wrap_small 64 (Z.lxor h1 b1)), <-(wrap_small 64 (Z.lxor h2 b2)) by done.
  by apply (wrap_mul_inj 64 FNV1A_64_PRIME 0xce965057aff6957b).
Qed.

Lemma fnv1a_fold_inj bs h1 h2 :
  bytes bs -> 0 <= h1 < 2 ^ 64 -> 0 <= h2 < 2 ^ 64 ->
  fold_left fnv1a_step bs h1 = fold_left fnv1a_step bs h2 -> h1 = h2.
Proof.
  intros Hbs; revert h1 h2.
  induction Hbs as [|b bs Hb Hbs IH]; intros h1 h2 H1 H2 E; simpl in E; [done|].
  apply (lxor_cancel_r _ _ b), fnv1a_step_inj; try done.
  apply IH; auto using fnv1a_step_range.
Qed.

(** ** Properties *)

(** Changing any single byte of the hashed text changes its FNV-1a-64 hash. *)
Lemma fnv1a_single_byte pre b1 b2 post :
  bytes (pre ++ b1 :: post) -> is_byte b2 -> b1 <> b2 ->
  fnv1a_64 (pre ++ b1 :: post) <> fnv1a_64 (pre ++ b2 :: post).
Proof.
  intros Hb Hb2 Hne E. apply Forall_app in Hb as [Hpre [Hb1 Hpost]%Forall_cons_1].
  unfold fnv1a_64 in E. rewrite !fold_left_app in E. simpl in E.
  apply fnv1a_fold_inj in E; auto using fnv1a_step_range.
  apply fnv1a_step_inj in E; auto; try apply (fnv1a_64_range pre).
  by apply lxor_cancel_l in E.
Qed.

Lemma pcg32_next_ok r :
  pcg32_ok r -> pcg32_ok (pcg32_next r).1 /\ 0 <= (pcg32_next r).2 < 2 ^ 32.
Proof.
  intros (Hs & Hi & Ho). split.
  - split; [by apply wrap_range|by split].
  - simpl. assert (0 <= u32 (state r ≫ 59)) by (apply wrap_range; lia).
    apply lor_range; [done|apply shiftr_range; [done|]|]; apply wrap_range; lia.
Qed.

(** one step of PCG32 yields a 32-bit output, keeps the generator's
    invariant (64-bit words, odd increment) and is reversible: two states with
    the same increment and the same successor are equal, so a run never loses
    seed information. *)
Theorem pcg32_next_spec r :
  pcg32_ok r ->
  pcg32_ok (pcg32_next r).1 /\ 0 <= (pcg32_next r).2 < 2 ^ 32 /\
  forall r2, pcg32_ok r2 -> (pcg32_next r2).1 = (pcg32_next r).1 -> r2 = r.
Proof.
  intros Hr. destruct (pcg32_next_ok r Hr) as [H1 H2]. split; [done|]. split; [done|].
  destruct Hr as (Hs & Hi & Ho).
  intros [s2 i2] (Hs2 & _ & _) E. destruct r as [s1 i1]; simpl in *.
  injection E as E <-. f_equal.
  rewrite <-(wrap_small 64 s2), <-(wrap_small 64 s1) by done.
  apply (wrap_mul_inj 64 PCG_MULT 13877824140714322085); [done|done|].
  apply (f_equal (fun v => u64 (v - i2))) in E. unfold wrap in *.
  rewrite !Zminus_mod_idemp_l in E. by rewrite !Z.add_simpl_r in E.
Qed.

Lemma pcg32_next_spec_witness :
  let r := pcg32_seed PCG_DEFAULT_STATE PCG_DEFAULT_INC in
  pcg32_ok (pcg32_next r).1 /\ 0 <= (pcg32_next r).2 < 2 ^ 32.
Proof.
  intros r. destruct (pcg32_next_spec r) as (H1 & H2 & _);
    [repeat split; vm_compute; congruence|by split].
Defined.

(** Two [float]s that differ at most in the encoding of a NaN. *)
Definition same_f32 (a b : Z) : Prop := a = b \/ (is_nanf a = true /\ is_nanf b = true).

Definition same_mob (a b : frame_state_mob) : Prop :=
  same_f32 (x a) (x b) /\ same_f32 (y a) (y b) /\ same_f32 (vx a) (vx b) /\
  same_f32 (vy a) (vy b) /\ mob_state a = mob_state b.

(** Two frame states that differ at most in NaN encodings. *)
Definition same_frame_state (s t : frame_state_t) : Prop :=
  frame s = frame t /\ rng_state s = rng_state t /\ rng_inc s = rng_inc t /\
  same_f32 (accum_sin s) (accum_sin t) /\ same_f32 (accum_cos s) (accum_cos t) /\
  same_f32 (accum_sqrt s) (accum_sqrt t) /\ same_f32 (accum_misc s) (accum_misc t) /\
  Forall2 same_mob (mobs s) (mobs t).

Lemma same_f32_canon a b : same_f32 a b -> canonicalize_nanf a = canonicalize_nanf b.
Proof.
  intros [->|[Ha Hb]]; [done|].
  destruct (canonicalize_nanf_cases a) as [[_ ->]|[Ha' _]]; [|congruence].
  destruct (canonicalize_nanf_cases b) as [[_ ->]|[Hb' _]]; [done|congruence].
Qed.

Lemma same_mob_canon a b : same_mob a b -> canonicalize_mob a = canonicalize_mob b.
Proof.
  intros (?&?&?&?&E). unfold canonicalize_mob. rewrite E.
  f_equal; by apply same_f32_canon.
Qed.

(** the digest line of a frame does not depend on which NaN bits the floats
    of the frame state carry, and the canonical state the call leaves prints
    the same line again. *)
Theorem digest_nan_insensitive s t :
  same_frame_state s t ->
  frame_state_emit_digest s = frame_state_emit_digest t /\
  frame_state_emit_digest (frame_state_emit_digest s).1 = frame_state_emit_digest s.
Proof.
  intros (Hf & Hs & Hi & H1 & H2 & H3 & H4 & Hm).
  assert (frame_state_canonicalize s = frame_state_canonicalize t) as E.
  { unfold frame_state_canonicalize.
    rewrite Hf, Hs, Hi. f_equal; try by apply same_f32_canon.
    clear -Hm. induction Hm; simpl; f_equal; auto using same_mob_canon. }
  unfold frame_state_emit_digest. cbn [fst].
  rewrite E, frame_state_canonicalize_idem. by split.
Qed.

Lemma digest_nan_insensitive_witness :
  frame_state_emit_digest (set_accum_misc 0x7fc80000 frame_state_zero) =
  frame_state_emit_digest (set_accum_misc 0xffc00001 frame_state_zero).
Proof.
  apply digest_nan_insensitive. do 6 (split; [by try left|]).
  split; [right; by split|]. repeat (constructor; [repeat split; by left|]). constructor.
Defined.
