(* ===== verification/CString.v ===== *)
(** * The guest C library: memory, strings, numbers, sorting
    (spikes/spike-b/ports/rv32emu/lua_runtime.c)

    The carts link this file instead of a hosted libc.  A C string is the list
    of its characters before the terminating NUL ([char] is unsigned on
    RISC-V); a pointer into a string is the offset or the rest of the list, and
    memory is a list of bytes.  [int] and [long] have 32 bits. *)

From Stdlib Require Import Sorting.Sorted.
From S2P Require Import Prelude.

(** A C string: bytes, none of them NUL. *)
Definition cstring (s : list Z) : Prop := Forall (fun c => 0 < c < 256) s.

(** [*s] and the character at an offset; the terminator reads as 0. *)
Definition char_at (s : list Z) (i : nat) : Z := nth i s 0.

(** ** Memory blocks *)

(** [while (n--) *p++ = c] from offset [p]. *)
Fixpoint memset (n p : nat) (mem : list Z) (c : Z) : list Z :=
  match n with
  | O => mem
  | S n => memset n (S p) (<[p := u8 c]> mem) c
  end.

(** The ascending copy loop, from [s] to [d] in one memory. *)
Fixpoint copy_up (n d s : nat) (mem : list Z) : list Z :=
  match n with
  | O => mem
  | S n => copy_up n (S d) (S s) (<[d := char_at mem s]> mem)
  end.

(** The descending loop [while (n--) *--d = *--s], with [d] and [s] at the
    blocks' starts. *)
Fixpoint copy_down (n d s : nat) (mem : list Z) : list Z :=
  match n with
  | O => mem
  | S n => copy_down n d s (<[(d + n)%nat := char_at mem (s + n)]> mem)
  end.

Definition memcpy (mem : list Z) (dst src n : nat) : list Z := copy_up n dst src mem.

Definition memmove (mem : list Z) (dst src n : nat) : list Z :=
  if (dst <? src)%nat || (src + n <=? dst)%nat then copy_up n dst src mem
  else copy_down n dst src mem.

(** The offset of the byte found. *)
Fixpoint memchr (p : list Z) (c : Z) (n : nat) : option nat :=
  match n with
  | O => None
  | S n =>
      match p with
      | [] => None
      | b :: p => if b =? u8 c then Some O else S <$> memchr p c n
      end
  end.

Fixpoint memcmp (p q : list Z) (n : nat) : Z :=
  match n with
  | O => 0
  | S n =>
      if negb (char_at p 0 =? char_at q 0) then char_at p 0 - char_at q 0
      else memcmp (tail p) (tail q) n
  end.

(** ** Strings *)

Definition strlen (s : list Z) : nat := length s.

Fixpoint strcmp (a b : list Z) : Z :=
  match a with
  | [] => 0 - char_at b 0
  | x :: a' =>
      match b with
      | [] => x
      | y :: b' => if x =? y then strcmp a' b' else x - y
      end
  end.

(** [while (--n && *a && *a == *b)] with [n] rounds left. *)
Fixpoint strncmp_loop (n : nat) (a b : list Z) : Z :=
  match n with
  | O => char_at a 0 - char_at b 0
  | S n =>
      if negb (char_at a 0 =? 0) && (char_at a 0 =? char_at b 0)
      then strncmp_loop n (tail a) (tail b)
      else char_at a 0 - char_at b 0
  end.

Definition strncmp (a b : list Z) (n : nat) : Z :=
  match n with O => 0 | S n => strncmp_loop n a b end.

Definition strcoll : list Z -> list Z -> Z := strcmp.

(** The strings and buffers the copying functions leave at [dst]. *)
Definition strcpy (src : list Z) : list Z := src ++ [0].
Definition strcat (dst src : list Z) : list Z := dst ++ src ++ [0].

(** The bytes stored: the copy stops behind a NUL, the rest of the [n] is
    zeroed; no terminator when [src] fills the [n] bytes. *)
Fixpoint strncpy (src : list Z) (n : nat) : list Z :=
  match n with
  | O => []
  | S n' =>
      match src with
      | [] => 0 :: repeat 0 n'
      | c :: src => c :: strncpy src n'
      end
  end.

Fixpoint strchr (s : list Z) (c : Z) : option nat :=
  match s with
  | [] => if c =? 0 then Some O else None
  | x :: s => if x =? u8 c then Some O else S <$> strchr s c
  end.

(** The scan keeps the last match found. *)
Fixpoint strrchr_loop (s : list Z) (c : Z) (i : nat) (last : option nat) : option nat :=
  match s with
  | [] => if c =? 0 then Some i else last
  | x :: s => strrchr_loop s c (S i) (if x =? u8 c then Some i else last)
  end.
Definition strrchr (s : list Z) (c : Z) : option nat := strrchr_loop s c 0 None.

Fixpoint strspn (s accept : list Z) : nat :=
  match s with
  | [] => O
  | c :: s => if existsb (Z.eqb c) accept then S (strspn s accept) else O
  end.

Fixpoint strcspn (s reject : list Z) : nat :=
  match s with
  | [] => O
  | c :: s => if existsb (Z.eqb c) reject then O else S (strcspn s reject)
  end.

Fixpoint strpbrk (s accept : list Z) : option nat :=
  match s with
  | [] => None
  | c :: s => if existsb (Z.eqb c) accept then Some O else S <$> strpbrk s accept
  end.

Fixpoint strstr_loop (hay nee : list Z) : option nat :=
  match hay with
  | [] => None
  | _ :: hay' =>
      if strncmp hay nee (strlen nee) =? 0 then Some O else S <$> strstr_loop hay' nee
  end.

Definition strstr (hay nee : list Z) : option nat :=
  match nee with [] => Some O | _ => strstr_loop hay nee end.

(** ** Numbers *)

Definition abs (v : Z) : Z := if v <? 0 then i32 (- v) else v.

Fixpoint skip_blanks (s : list Z) : list Z :=
  match s with
  | c :: s' => if (c =? 32) || (c =? 9) then skip_blanks s' else s
  | [] => []
  end.

(** The optional sign: whether it was a minus, and the rest. *)
Definition sign (s : list Z) : bool * list Z :=
  match s with
  | c :: s' => if c =? 45 then (true, s') else if c =? 43 then (false, s') else (false, s)
  | [] => (false, [])
  end.

Fixpoint atoi_digits (s : list Z) (v : Z) : Z :=
  match s with
  | c :: s => if (48 <=? c) && (c <=? 57) then atoi_digits s (i32 (v * 10 + (c - 48))) else v
  | [] => v
  end.

(** Overflow, undefined in C, wraps here as the compiled code does. *)
Definition atoi (s : list Z) : Z :=
  let '(neg, s) := sign (skip_blanks s) in
  let v := atoi_digits s 0 in
  if neg then i32 (- v) else v.

Definition digit_value (c : Z) : option Z :=
  if (48 <=? c) && (c <=? 57) then Some (c - 48)
  else if (97 <=? c) && (c <=? 122) then Some (c - 97 + 10)
  else if (65 <=? c) && (c <=? 90) then Some (c - 65 + 10)
  else None.

(** The digit loop: the value and the unread rest. *)
Fixpoint strtol_digits (s : list Z) (base v : Z) : Z * list Z :=
  match s with
  | [] => (v, [])
  | c :: s' =>
      match digit_value c with
      | None => (v, s)
      | Some d => if base <=? d then (v, s) else strtol_digits s' base (i32 (v * base + d))
      end
  end.

(** The prefix rule: the base in force and the rest. *)
Definition strtol_base (s : list Z) (base : Z) : Z * list Z :=
  if ((base =? 0) || (base =? 16)) && (char_at s 0 =? 48) &&
     ((char_at s 1 =? 120) || (char_at s 1 =? 88))
  then (16, drop 2 s)
  else if (base =? 0) && (char_at s 0 =? 48) then (8, drop 1 s)
  else if base =? 0 then (10, s)
  else (base, s).

(** The value and [*end]. *)
Definition strtol (s : list Z) (base : Z) : Z * list Z :=
  let '(neg, s) := sign (skip_blanks s) in
  let '(base, s) := strtol_base s base in
  let '(v, rest) := strtol_digits s base 0 in
  ((if neg then i32 (- v) else v), rest).

(** ** qsort *)

Section qsort.
(** Elements of [sz] bytes and the caller's comparison. *)
Context {A : Type} (cmp : A -> A -> Z).

(** The inner loop: the element at [j] sinks until its left neighbour is not
    greater. *)
Fixpoint sink_down (j : nat) (a : list A) : list A :=
  match j with
  | O => a
  | S i =>
      match a !! i, a !! j with
      | Some x, Some y => if 0 <? cmp x y then sink_down i (<[j := x]> (<[i := y]> a)) else a
      | _, _ => a
      end
  end.

(** [for (i = 1; i < n; i++)], [k] rounds from [i]. *)
Fixpoint sort_from (k i : nat) (a : list A) : list A :=
  match k with
  | O => a
  | S k => sort_from k (S i) (sink_down i a)
  end.

(** [None] is the call of [_exit(99)] for elements beyond 64 bytes. *)
Definition qsort (sz : Z) (a : list A) : option (list A) :=
  if 64 <? sz then None else Some (sort_from (length a - 1) 1 a).
End qsort.

(** ** Lemmas: memory *)

Lemma length_copy_up n d s mem : length (copy_up n d s mem) = length mem.
Proof. revert d s mem; induction n as [|n IH]; intros; simpl; [done|]. by rewrite IH, length_insert. Qed.

Lemma char_at_lookup s i : (i < length s)%nat -> s !! i = Some (char_at s i).
Proof. intros. unfold char_at. destruct (nth_lookup_or_length s i 0); [done|lia]. Qed.

Lemma char_at_insert_ne mem (i j : nat) x : i <> j -> char_at (<[i:=x]> mem) j = char_at mem j.
Proof. intros. unfold char_at. by rewrite !nth_lookup, list_lookup_insert_ne. Qed.

(** Copying upwards is right when the destination is not inside the source. *)
Lemma copy_up_correct n d s mem :
  (d + n <= length mem)%nat -> (s + n <= length mem)%nat -> (d <= s \/ s + n <= d)%nat ->
  copy_up n d s mem = write_at d (slice s n mem) mem.
Proof.
  revert d s mem; induction n as [|n IH]; intros d s mem Hd Hs Hov; cbn [copy_up].
  { unfold write_at, slice. simpl. by rewrite Nat.add_0_r, take_drop. }
  assert (slice s (S n) mem = char_at mem s :: slice (S s) n mem) as ->.
  { unfold slice. by rewrite (drop_S mem (char_at mem s) s) by (apply char_at_lookup; lia). }
  rewrite IH; [|rewrite length_insert; lia..|lia].
  assert (slice (S s) n (<[d:=char_at mem s]> mem) = slice (S s) n mem) as ->.
  { unfold slice. destruct Hov as [Hov|Hov].
    - by rewrite drop_insert_lt by lia.
    - apply list_eq. intros i. destruct (decide (i < n)%nat).
      + rewrite !lookup_take_lt, !lookup_drop by done.
        by rewrite list_lookup_insert_ne by lia.
      + by rewrite !lookup_take_ge by lia. }
  unfold write_at. cbn [length].
  rewrite (take_S_r _ _ (char_at mem s)) by (apply list_lookup_insert_eq; lia).
  rewrite take_insert_ge by lia. rewrite drop_insert_lt by lia.
  rewrite <-app_assoc. cbn [app]. by rewrite Nat.add_succ_r.
Qed.

Lemma copy_down_lookup n d s mem i :
  (d + n <= length mem)%nat -> (s + n <= length mem)%nat -> (s <= d)%nat ->
  copy_down n d s mem !! i =
  if decide (d <= i < d + n)%nat then mem !! (s + (i - d))%nat else mem !! i.
Proof.
  revert mem; induction n as [|n IH]; intros mem Hd Hs Hov; cbn [copy_down].
  { destruct (decide _); [lia|done]. }
  rewrite IH by (rewrite ?length_insert; lia).
  destruct (decide (d <= i < d + n)%nat).
  - rewrite decide_True by lia. rewrite list_lookup_insert_ne by lia. done.
  - destruct (decide (i = d + n)%nat) as [->|].
    + rewrite decide_True by lia. rewrite list_lookup_insert_eq by lia.
      replace (s + (d + n - d))%nat with (s + n)%nat by lia.
      symmetry. apply char_at_lookup. lia.
    + rewrite decide_False by lia. by rewrite list_lookup_insert_ne by lia.
Qed.

Lemma lookup_write_at (d : nat) (src mem : list Z) (i : nat) :
  (d + length src <= length mem)%nat ->
  write_at d src mem !! i =
  if decide (d <= i < d + length src)%nat then src !! (i - d)%nat else mem !! i.
Proof.
  intros Hd. unfold write_at. destruct (decide (i < d)%nat).
  - rewrite decide_False by lia.
    rewrite lookup_app_l by (rewrite length_take; lia). by rewrite lookup_take_lt.
  - rewrite lookup_app_r by (rewrite length_take; lia). rewrite length_take, Nat.min_l by lia.
    destruct (decide (i < d + length src)%nat).
    + rewrite decide_True by lia. by rewrite lookup_app_l by lia.
    + rewrite decide_False by lia. rewrite lookup_app_r by lia. rewrite lookup_drop.
      f_equal. lia.
Qed.

Lemma copy_down_correct n d s mem :
  (d + n <= length mem)%nat -> (s + n <= length mem)%nat -> (s <= d)%nat ->
  copy_down n d s mem = write_at d (slice s n mem) mem.
Proof.
  intros Hd Hs Hov. apply list_eq. intros i.
  rewrite copy_down_lookup by done.
  assert (length (slice s n mem) = n) as Hl by by apply length_slice.
  rewrite lookup_write_at by lia. rewrite Hl. destruct (decide _); [|done].
  unfold slice. rewrite lookup_take_lt, lookup_drop by lia. done.
Qed.

(** ** Lemmas: strings *)

Lemma strcmp_refl a : strcmp a a = 0.
Proof. induction a as [|x a IH]; simpl; [done|]. by rewrite Z.eqb_refl. Qed.

Lemma strcmp_eq a b : cstring a -> cstring b -> strcmp a b = 0 -> a = b.
Proof.
  intros Ha; revert b; induction Ha as [|x a Hx Ha IH]; intros b Hb.
  - destruct Hb as [|y b Hy Hb]; simpl; [done|]. unfold char_at; simpl. lia.
  - destruct Hb as [|y b Hy Hb]; simpl; [lia|].
    destruct (Z.eqb_spec x y) as [->|]; [|lia]. intros. f_equal. by apply IH.
Qed.

Lemma strcmp_antisym a b : strcmp b a = - strcmp a b.
Proof.
  revert b; induction a as [|x a IH]; intros [|y b]; cbn [strcmp]; unfold char_at; cbn [nth]; try lia.
  rewrite (Z.eqb_sym y x). destruct (x =? y); [apply IH|lia].
Qed.

Lemma strcmp_trans a b c : cstring a -> cstring b -> cstring c ->
  strcmp a b <= 0 -> strcmp b c <= 0 -> strcmp a c <= 0.
Proof.
  intros Ha; revert b c; induction Ha as [|x a Hx Ha IH]; intros b c Hb Hc.
  - intros _ _. destruct Hc; simpl; unfold char_at; simpl; lia.
  - destruct Hb as [|y b Hy Hb]; [simpl; lia|].
    destruct Hc as [|z c Hz Hc]; [simpl; lia|]. simpl.
    destruct (Z.eqb_spec x y) as [->|], (Z.eqb_spec y z) as [->|];
      rewrite ?Z.eqb_refl; [by apply IH|lia|..]; destruct (Z.eqb_spec x z); lia.
Qed.

Lemma strncmp_prefix n hay nee :
  cstring nee -> length nee = n -> cstring hay ->
  strncmp hay nee n = 0 <-> take n hay = nee.
Proof.
  destruct n as [|n]; simpl.
  { intros _ H _. destruct nee; [|done]. by rewrite take_0. }
  revert hay nee; induction n as [|n IH]; intros hay nee Hn Hl Hh; cbn [strncmp_loop].
  - destruct Hn as [|y nee Hy Hn]; [done|]. destruct nee; [|done].
    destruct Hh as [|x hay Hx Hh]; unfold char_at; simpl; [split; [lia|done]|].
    split; [intros; do 2 f_equal; lia|intros [= ->]; lia].
  - destruct Hn as [|y nee Hy Hn]; [done|]. simpl in Hl. injection Hl as Hl.
    destruct Hh as [|x hay Hx Hh]; unfold char_at; cbn [nth negb Z.eqb andb tail].
    + split; [lia|done].
    + destruct (Z.eqb_spec x 0); [lia|]. cbn [negb andb].
      destruct (Z.eqb_spec x y) as [->|].
      * rewrite IH by done. cbn [take]. split; [by intros ->|by intros [= ->]].
      * split; [lia|]. cbn [take]. intros [=]. congruence.
Qed.

Lemma strstr_loop_spec hay nee :
  cstring hay -> cstring nee -> nee <> [] ->
  match strstr_loop hay nee with
  | Some i => take (length nee) (drop i hay) = nee /\ (i <= length hay)%nat /\
      forall j, (j < i)%nat -> take (length nee) (drop j hay) <> nee
  | None => forall j, take (length nee) (drop j hay) <> nee
  end.
Proof.
  intros Hh Hn Hne. induction Hh as [|x hay Hx Hh IH]; cbn [strstr_loop].
  { intros j E. apply Hne. rewrite <-E, drop_nil, take_nil. done. }
  assert (cstring (x :: hay)) as Hxh by by constructor.
  unfold strlen. destruct (Z.eqb_spec (strncmp (x :: hay) nee (length nee)) 0) as [E|E].
  - apply strncmp_prefix in E; [|done..]. rewrite drop_0.
    split; [done|]. split; [lia|]. lia.
  - assert (take (length nee) (x :: hay) <> nee) as E'.
    { intros E'. apply E. by apply strncmp_prefix. }
    destruct (strstr_loop hay nee) as [i|]; simpl.
    + destruct IH as (H1 & H2 & H3). split; [done|]. split; [lia|].
      intros [|j] Hj; [done|]. simpl. apply H3. lia.
    + intros [|j]; [done|]. apply IH.
Qed.

(** ** Lemmas: numbers *)

Lemma skip_blanks_digit c s : 48 <= c -> skip_blanks (c :: s) = c :: s.
Proof. intros. simpl. zcase. Qed.

Lemma sign_digit c s : 48 <= c -> sign (c :: s) = (false, c :: s).
Proof. intros. simpl. zcase. Qed.

Lemma atoi_digits_app ds s v :
  Forall (fun d => 48 <= d <= 57) ds -> 0 <= v ->
  fold_left (fun v c => v * 10 + (c - 48)) ds v < 2 ^ 31 ->
  atoi_digits (ds ++ s) v = atoi_digits s (fold_left (fun v c => v * 10 + (c - 48)) ds v).
Proof.
  intros Hds; revert v; induction Hds as [|d ds Hd Hds IH]; intros v Hv Hlt; [done|].
  cbn [app atoi_digits fold_left] in *.
  destruct (Z.leb_spec 48 d); [|lia]. destruct (Z.leb_spec d 57); [|lia]. cbn [andb].
  assert (v * 10 + (d - 48) < 2 ^ 31) as Hb.
  { eapply Z.le_lt_trans; [|exact Hlt].
    assert (0 <= v * 10 + (d - 48)) as Hp by lia. revert Hp.
    generalize (v * 10 + (d - 48)). clear -Hds.
    induction Hds as [|d ds Hd Hds IH]; intros z Hz; simpl; [lia|].
    etransitivity; [|apply IH; lia]. lia. }
  rewrite signed_small by lia. apply IH; [lia|done].
Qed.

Lemma fold_digits_rev ds v :
  fold_left (fun v c => v * 10 + (c - 48)) (rev ds) v =
  dec_rev_val ds + v * 10 ^ Z.of_nat (length ds).
Proof.
  revert v; induction ds as [|d ds IH]; intros v; [simpl; lia|].
  cbn [rev length dec_rev_val]. rewrite fold_left_app, IH. cbn [fold_left].
  rewrite Nat2Z.inj_succ, Z.pow_succ_r by lia. lia.
Qed.

Lemma fold_digits_dec v :
  0 <= v < 2 ^ 64 -> fold_left (fun v c => v * 10 + (c - 48)) (dec v) 0 = v.
Proof.
  intros Hv. unfold dec. destruct (Z.eqb_spec v 0); [by subst|].
  rewrite fold_digits_rev, dec_rev_correct; [lia|].
  assert (2 ^ 64 < 10 ^ Z.of_nat 20) by reflexivity. lia.
Qed.

Lemma dec_nonempty v : 0 <= v -> exists d ds, dec v = d :: ds /\ 48 <= d <= 57.
Proof.
  intros Hv. pose proof (dec_digits v) as Hd. destruct (dec v) as [|d ds] eqn:E.
  - unfold dec in E. destruct (Z.eqb_spec v 0) as [|Hne]; [done|].
    apply (f_equal (@rev Z)) in E. rewrite rev_involutive in E. cbn [dec_rev] in E.
    destruct (Z.eqb_spec v 0); done.
  - exists d, ds. split; [done|]. by apply Forall_cons_1 in Hd as [? _].
Qed.

(** ** Lemmas: sorting *)

Section qsort_lemmas.
Context {A : Type} (cmp : A -> A -> Z).

Lemma sink_down_spec l x post :
  exists l1 l2, l = l1 ++ l2 /\
    sink_down cmp (length l) (l ++ x :: post) = l1 ++ x :: l2 ++ post /\
    Forall (fun y => 0 < cmp y x) l2 /\
    (forall l0 y, l1 = l0 ++ [y] -> cmp y x <= 0).
Proof.
  revert post; induction l as [|y l IH] using rev_ind; intros post.
  { exists [], []. split_and!; try done. by intros [|??] ?. }
  rewrite length_app, Nat.add_1_r. cbn [sink_down].
  assert ((((l ++ [y]) ++ x :: post) !! length l) = Some y) as ->.
  { rewrite <-app_assoc. by apply list_lookup_middle. }
  assert ((((l ++ [y]) ++ x :: post) !! S (length l)) = Some x) as ->.
  { apply list_lookup_middle. rewrite length_app; simpl; lia. }
  destruct (Z.ltb_spec 0 (cmp y x)) as [Hlt|Hge].
  - assert (<[S (length l):=y]> (<[length l:=x]> ((l ++ [y]) ++ x :: post))
            = l ++ x :: y :: post) as ->.
    { rewrite <-app_assoc. cbn [app].
      rewrite insert_app_r_alt by lia. rewrite Nat.sub_diag.
      rewrite insert_app_r_alt by lia.
      replace (S (length l) - length l)%nat with 1%nat by lia. done. }
    destruct (IH (y :: post)) as (l1 & l2 & -> & E & Hl2 & Hl1).
    exists l1, (l2 ++ [y]). split_and!.
    + by rewrite app_assoc.
    + rewrite E. do 2 f_equal. by rewrite <-app_assoc.
    + apply Forall_app_2; [done|]. by repeat constructor.
    + done.
  - exists (l ++ [y]), []. split_and!.
    + by rewrite app_nil_r.
    + by rewrite <-!app_assoc.
    + constructor.
    + intros l0 z [_ [= <-]]%app_inj_2; [lia|done].
Qed.

(** What the caller of [qsort] promises about [cmp]. *)
Context (P : A -> Prop).
Hypothesis cmp_total : forall x y, P x -> P y -> 0 < cmp x y -> cmp y x <= 0.
Hypothesis cmp_trans : forall x y z, P x -> P y -> P z ->
  cmp x y <= 0 -> cmp y z <= 0 -> cmp x z <= 0.
Abbreviation sorted := (StronglySorted (fun x y => cmp x y <= 0)).

Lemma sink_sorted l1 l2 x :
  Forall P (l1 ++ l2) -> P x -> sorted (l1 ++ l2) ->
  Forall (fun y => 0 < cmp y x) l2 -> (forall l0 y, l1 = l0 ++ [y] -> cmp y x <= 0) ->
  sorted (l1 ++ x :: l2).
Proof.
  intros HP Hx Hs Hl2 Hl1. apply Forall_app in HP as [HP1 HP2].
  induction l1 as [|z l1 IH]; simpl in *.
  - constructor; [done|]. rewrite Forall_forall in *. intros y Hy. apply cmp_total; auto.
  - apply Forall_cons_1 in HP1 as [Hz HP1].
    inversion Hs as [|? ? Hs' Hz']; subst.
    assert (cmp z x <= 0) as Hzx.
    { destruct l1 as [|w l1] using rev_ind; [by apply (Hl1 [])|]. clear IHl1.
      apply (cmp_trans z w x); try done.
      - apply Forall_app in HP1 as [_ HP1]. by apply Forall_cons_1 in HP1 as [? _].
      - rewrite Forall_forall in Hz'. apply Hz'.
        rewrite <-app_assoc. apply elem_of_app. right. by left.
      - apply (Hl1 (z :: l1)). done. }
    constructor.
    + apply IH; try done. intros l0 y ->. by apply (Hl1 (z :: l0)).
    + apply Forall_app in Hz' as [Hz1 Hz2].
      apply Forall_app_2; [done|]. by constructor.
Qed.

Lemma sort_from_sorted pre rest :
  Forall P (pre ++ rest) -> sorted pre ->
  sorted (sort_from cmp (length rest) (length pre) (pre ++ rest)) /\
  sort_from cmp (length rest) (length pre) (pre ++ rest) ≡ₚ pre ++ rest.
Proof.
  revert pre; induction rest as [|x rest IH]; intros pre HP Hs.
  { rewrite app_nil_r. done. }
  cbn [length sort_from].
  destruct (sink_down_spec pre x rest) as (l1 & l2 & E & -> & Hl2 & Hl1).
  apply Forall_app in HP as [HP1 HP2]. apply Forall_cons_1 in HP2 as [Hx HP2].
  assert (l1 ++ x :: l2 ≡ₚ pre ++ [x]) as Hp.
  { rewrite E. by rewrite <-Permutation_middle, Permutation_cons_append. }
  change (l1 ++ x :: l2 ++ rest) with (l1 ++ (x :: l2) ++ rest).
  rewrite app_assoc.
  replace (S (length pre)) with (length (l1 ++ x :: l2)).
  2:{ rewrite Hp, length_app. simpl. lia. }
  destruct (IH (l1 ++ x :: l2)) as [H1 H2].
  - apply Forall_app_2; [|done]. rewrite Hp. apply Forall_app_2; [done|]. by repeat constructor.
  - apply sink_sorted; try done; by rewrite <-E.
  - split; [done|]. rewrite H2, Hp. by rewrite <-app_assoc.
Qed.
End qsort_lemmas.

(** ** Properties *)

(** [memmove] moves the block intact however source and destination
    overlap (the direction test is what makes the byte loop safe), and leaves
    every byte outside the destination alone. *)
Theorem memmove_correct mem d s n :
  (d + n <= length mem)%nat -> (s + n <= length mem)%nat ->
  memmove mem d s n = write_at d (slice s n mem) mem.
Proof.
  intros Hd Hs. unfold memmove.
  destruct (Nat.ltb_spec d s); simpl; [apply copy_up_correct; lia|].
  destruct (Nat.leb_spec (s + n) d); [apply copy_up_correct; lia|].
  apply copy_down_correct; lia.
Qed.

Lemma memmove_correct_witness :
  memmove [1; 2; 3; 4; 5; 6] 2 1 3 = [1; 2; 2; 3; 4; 6].
Proof. rewrite memmove_correct by (simpl; lia). reflexivity. Defined.

(** [strstr] returns the offset of the first occurrence of the needle, and
    null exactly when the needle occurs nowhere. *)
Theorem strstr_first hay nee :
  cstring hay -> cstring nee ->
  match strstr hay nee with
  | Some i => take (length nee) (drop i hay) = nee /\ (i <= length hay)%nat /\
      forall j, (j < i)%nat -> take (length nee) (drop j hay) <> nee
  | None => forall j, take (length nee) (drop j hay) <> nee
  end.
Proof.
  intros Hh Hn. destruct nee as [|y nee].
  - simpl. rewrite take_0. split; [done|]. split; [lia|]. lia.
  - by apply strstr_loop_spec.
Qed.

Lemma strstr_first_witness :
  strstr (cstr "xaab") (cstr "ab") = Some 2%nat /\
  forall j, (j < 2)%nat -> take 2 (drop j (cstr "xaab")) <> cstr "ab".
Proof.
  split; [reflexivity|].
  apply (strstr_first (cstr "xaab") (cstr "ab")); repeat constructor.
Defined.

Lemma atoi_of_dec v rest :
  0 <= v < 2 ^ 31 -> (forall c tl, rest = c :: tl -> c < 48 \/ 57 < c) ->
  atoi_digits (dec v ++ rest) 0 = v /\ atoi (dec v ++ rest) = v.
Proof.
  intros Hv Hrest. destruct (dec_nonempty v) as (d & ds & E & Hd); [lia|].
  assert (atoi_digits (dec v ++ rest) 0 = v) as Hdig.
  { rewrite atoi_digits_app; rewrite ?fold_digits_dec by lia; try lia.
    - destruct rest as [|c tl]; [done|]. cbn [atoi_digits].
      destruct (Hrest c tl eq_refl); zcase.
    - apply dec_digits. }
  split; [done|]. unfold atoi. rewrite E in Hdig |- *. cbn [app] in *.
  by rewrite skip_blanks_digit, sign_digit by lia.
Qed.

(** [atoi] inverts the decimal printers on every [int] that is not
    negative, whatever non-digit follows. *)
Theorem atoi_dec v rest :
  0 <= v < 2 ^ 31 -> (forall c tl, rest = c :: tl -> c < 48 \/ 57 < c) ->
  atoi (dec v ++ rest) = v /\ atoi (45 :: dec v ++ rest) = - v.
Proof.
  intros Hv Hrest. destruct (atoi_of_dec v rest Hv Hrest) as [Hdig E]. split; [done|].
  unfold atoi. cbn [skip_blanks sign Z.eqb Pos.eqb orb]. rewrite Hdig. apply signed_small; lia.
Qed.

Lemma atoi_dec_witness : atoi (cstr "1200 x") = 1200 /\ atoi (cstr "-1200 x") = -1200.
Proof.
  apply (atoi_dec 1200 (cstr " x")); [lia|]. intros c tl [= <- <-]. left. reflexivity.
Defined.

(** [qsort] sorts: for a comparison that is a total preorder on the
    elements it returns a permutation of the array in ascending order, and it
    runs for every element size up to 64 bytes.  [strcmp] is such a
    comparison on C strings. *)
Theorem qsort_sorted {A} (cmp : A -> A -> Z) (P : A -> Prop) sz a :
  (forall x y, P x -> P y -> 0 < cmp x y -> cmp y x <= 0) ->
  (forall x y z, P x -> P y -> P z -> cmp x y <= 0 -> cmp y z <= 0 -> cmp x z <= 0) ->
  Forall P a -> sz <= 64 ->
  exists b, qsort cmp sz a = Some b /\ b ≡ₚ a /\ StronglySorted (fun x y => cmp x y <= 0) b.
Proof.
  intros Htot Htrans HP Hsz. unfold qsort. destruct (Z.ltb_spec 64 sz); [lia|].
  eexists. split; [done|]. destruct a as [|x a]; [by repeat constructor|].
  change (x :: a) with ([x] ++ a).
  replace (length ([x] ++ a) - 1)%nat with (length a) by (simpl; lia).
  destruct (sort_from_sorted cmp P Htot Htrans [x] a) as [H1 H2];
    [done|by repeat constructor|done].
Qed.

Lemma qsort_sorted_witness :
  let a := [cstr "pear"; cstr "fig"; cstr "apple"; cstr "figs"] in
  exists b, qsort strcmp 4 a = Some b /\ b ≡ₚ a /\ StronglySorted (fun x y => strcmp x y <= 0) b.
Proof.
  intros a. apply (qsort_sorted strcmp cstring 4 a).
  - intros x y _ _. rewrite (strcmp_antisym x y). lia.
  - intros. by apply (strcmp_trans x y z).
  - repeat constructor.
  - lia.
Defined.
