(* ===== verification/CHeap.v ===== *)
(** * The guest heap (malloc section of spikes/spike-b/ports/rv32emu/lua_runtime.c)

    A first-fit allocator over a fixed 8 MiB array: every block starts with a
    word holding its size, a free block's second word links to the next free
    block, and the free list is threaded through the very bytes the program may
    have owned before.  Pointers are 32-bit addresses; [heap_addr] is where the
    array was linked.  [None] is a free-list walk longer than the array can
    hold blocks. *)

From S2P Require Import Prelude.
From stdpp Require Import gmap.
Open Scope Z_scope.

#[local] Arguments le_bytes : simpl never.

Definition HEAP_SIZE : Z := 8 * 1024 * 1024.
Definition ALIGN : Z := 8.

(** [heap], [brk] and [freelist]. *)
Record heap_t := Heap { heap : list Z; brk : Z; freelist : Z }.

Definition align_up (n : Z) : Z := Z.land (u32 (n + (ALIGN - 1))) (u32 (Z.lnot (ALIGN - 1))).

(** The word at an offset of the array. *)
Definition word_at (m : list Z) (o : Z) : Z := le_val (slice (Z.to_nat o) 4 m).
Definition set_word (m : list Z) (o v : Z) : list Z := write_at (Z.to_nat o) (le_bytes 4 v) m.

Section allocator.
Context (heap_addr : Z).

Definition load_word (m : list Z) (p : Z) : Z := word_at m (p - heap_addr).
Definition store_word (m : list Z) (p v : Z) : list Z := set_word m (p - heap_addr) v.

(** What [fblock **pp] points at: the head or a block's [next]. *)
Inductive link := Freelist | NextOf (b : Z).

Definition load_link (st : heap_t) (pp : link) : Z :=
  match pp with Freelist => freelist st | NextOf b => load_word (heap st) (b + 4) end.

Definition store_link (st : heap_t) (pp : link) (v : Z) : heap_t :=
  match pp with
  | Freelist => Heap (heap st) (brk st) v
  | NextOf b => Heap (store_word (heap st) (b + 4) v) (brk st) (freelist st)
  end.

(** The walk of [malloc]: the unlinked block's payload, or 0. *)
Fixpoint first_fit (fuel : nat) (st : heap_t) (need : Z) (pp : link) : option (heap_t * Z) :=
  match fuel with
  | O => None
  | S fuel =>
      let b := load_link st pp in
      if b =? 0 then Some (st, 0)
      else if need <=? load_word (heap st) b then
        Some (store_link st pp (load_word (heap st) (b + 4)), b + 4)
      else first_fit fuel st need (NextOf b)
  end.

(** No more blocks than this fit the array. *)
Definition max_blocks : nat := Z.to_nat (HEAP_SIZE / 8).

Definition malloc (st : heap_t) (n : Z) : option (heap_t * Z) :=
  let n := if n =? 0 then 1 else n in
  let need := align_up (u32 (n + 4)) in
  match first_fit (S max_blocks) st need Freelist with
  | None => None
  | Some (st, p) =>
      if negb (p =? 0) then Some (st, p)
      else if HEAP_SIZE <? u32 (brk st + need) then Some (st, 0)
      else
        let p := heap_addr + brk st in
        Some (Heap (store_word (heap st) p need) (u32 (brk st + need)) (freelist st), p + 4)
  end.

Definition calloc (st : heap_t) (n sz : Z) : option (heap_t * Z) :=
  let total := u32 (n * sz) in
  match malloc st total with
  | None => None
  | Some (st, p) =>
      if negb (p =? 0) then
        Some (Heap (write_at (Z.to_nat (p - heap_addr)) (repeat 0 (Z.to_nat total)) (heap st))
                (brk st) (freelist st), p)
      else Some (st, p)
  end.

Definition free (st : heap_t) (p : Z) : heap_t :=
  if p =? 0 then st
  else
    let block := p - 4 in
    let sz := load_word (heap st) block in
    let m := store_word (heap st) block sz in
    let m := store_word m (block + 4) (freelist st) in
    Heap m (brk st) block.

(** [memcpy(q, p, n)] between two places of the array. *)
Definition heap_copy (m : list Z) (q p n : Z) : list Z :=
  write_at (Z.to_nat (q - heap_addr)) (slice (Z.to_nat (p - heap_addr)) (Z.to_nat n) m) m.

Definition realloc (st : heap_t) (p n : Z) : option (heap_t * Z) :=
  if p =? 0 then malloc st n
  else if n =? 0 then Some (free st p, 0)
  else
    let block := p - 4 in
    let old_total := load_word (heap st) block in
    let old := u32 (old_total - 4) in
    if n <=? old then Some (st, p)
    else
      match malloc st n with
      | None => None
      | Some (st, q) =>
          if q =? 0 then Some (st, 0)
          else Some (free (Heap (heap_copy (heap st) q p old) (brk st) (freelist st)) p, q)
      end.

(** The heap before the first call. *)
Definition heap_bss : heap_t := Heap (repeat 0 (Z.to_nat HEAP_SIZE)) 0 0.

(** ** The abstract heap *)

(** What a program sees: the bytes of every block it owns, by pointer. *)
Abbreviation store := (gmap Z (list Z)).

Inductive heap_op :=
  | Malloc (n : Z)
  | Calloc (n sz : Z)
  | Free (p : Z)
  | Realloc (p n : Z)
  | Write (p off : Z) (bs : list Z).        (* the program writes into its block *)

Definition run_op (st : heap_t) (op : heap_op) : option (heap_t * Z) :=
  match op with
  | Malloc n => malloc st n
  | Calloc n sz => calloc st n sz
  | Free p => Some (free st p, 0)
  | Realloc p n => realloc st p n
  | Write p off bs =>
      Some (Heap (write_at (Z.to_nat (p - heap_addr + off)) bs (heap st)) (brk st) (freelist st), 0)
  end.

(** A new block of at least [n] bytes at a pointer nothing else owns, or null
    and nothing changed. *)
Definition fresh_block (A : store) (n : Z) (P : list Z -> Prop) (p : Z) (A' : store) : Prop :=
  (p = 0 /\ A' = A) \/
  (p <> 0 /\ A !! p = None /\ exists c, n <= Z.of_nat (length c) /\ P c /\ A' = <[p := c]> A).

(** The contract of a call: result and effect on what the program owns. *)
Inductive store_step (A : store) : heap_op -> Z -> store -> Prop :=
  | step_malloc n p A' : fresh_block A n (fun _ => True) p A' -> store_step A (Malloc n) p A'
  | step_calloc n sz p A' :
      fresh_block A (n * sz) (fun c => take (Z.to_nat (n * sz)) c = repeat 0 (Z.to_nat (n * sz))) p A' ->
      store_step A (Calloc n sz) p A'
  | step_free_null : store_step A (Free 0) 0 A
  | step_free p c : A !! p = Some c -> store_step A (Free p) 0 (delete p A)
  | step_realloc_null n p A' :
      fresh_block A n (fun _ => True) p A' -> store_step A (Realloc 0 n) p A'
  | step_realloc_zero p c : A !! p = Some c -> store_step A (Realloc p 0) 0 (delete p A)
  | step_realloc_fits p n c :
      A !! p = Some c -> 0 < n <= Z.of_nat (length c) -> store_step A (Realloc p n) p A
  | step_realloc_fails p n c : A !! p = Some c -> store_step A (Realloc p n) 0 A
  | step_realloc_moves p n c q c' :
      A !! p = Some c -> q <> 0 -> A !! q = None -> n <= Z.of_nat (length c') ->
      take (length c) c' = c -> store_step A (Realloc p n) q (<[q := c']> (delete p A))
  | step_write p off bs c :
      A !! p = Some c -> store_step A (Write p off bs) 0 (<[p := write_at (Z.to_nat off) bs c]> A).

(** Below this size no sum of the allocator wraps around, whatever is in use. *)
Definition SIZE_LIMIT : Z := 2 ^ 32 - 16 - HEAP_SIZE.

(** Calls a correct program makes: sizes below the limit, pointers it owns (or
    null), writes inside of its blocks. *)
Definition op_allowed (A : store) (op : heap_op) : Prop :=
  match op with
  | Malloc n => 0 <= n < SIZE_LIMIT
  | Calloc n sz => 0 <= n /\ 0 <= sz /\ n * sz < SIZE_LIMIT
  | Free p => p = 0 \/ is_Some (A !! p)
  | Realloc p n => (p = 0 \/ is_Some (A !! p)) /\ 0 <= n < SIZE_LIMIT
  | Write p off bs => bytes bs /\ 0 <= off /\
      exists c, A !! p = Some c /\ off + Z.of_nat (length bs) <= Z.of_nat (length c)
  end.

(** ** The invariant *)

(** Blocks [(offset, size)] lie one after the other from [o] to [e]. *)
Fixpoint tiles (o : Z) (bs : list (Z * Z)) (e : Z) : Prop :=
  match bs with
  | [] => o = e
  | (a, s) :: bs => a = o /\ 8 <= s /\ tiles (o + s) bs e
  end.

(** Free blocks linked from [v] to [e]. *)
Fixpoint seg (m : list Z) (v : Z) (fr : list Z) (e : Z) : Prop :=
  match fr with
  | [] => v = e
  | a :: fr => v = heap_addr + a /\ seg m (word_at m (a + 4)) fr e
  end.

(** The array is tiled by blocks whose first word is their size; the free list
    links the blocks at the offsets [fr]. *)
Record heap_ok (st : heap_t) (bs : list (Z * Z)) (fr : list Z) : Prop := {
  ok_length : Z.of_nat (length (heap st)) = HEAP_SIZE;
  ok_bytes : bytes (heap st);
  ok_brk : 0 <= brk st <= HEAP_SIZE;
  ok_tiles : tiles 0 bs (brk st);
  ok_sizes : forall a s, (a, s) ∈ bs -> word_at (heap st) a = s;
  ok_free : forall a, a ∈ fr -> exists s, (a, s) ∈ bs;
  ok_nodup : NoDup fr;
  ok_chain : seg (heap st) (freelist st) fr 0;
}.

Definition payload (m : list Z) (a s : Z) : list Z := slice (Z.to_nat (a + 4)) (Z.to_nat (s - 4)) m.

(** The program owns the payloads of the blocks that are not free. *)
Definition owns (m : list Z) (bs : list (Z * Z)) (fr : list Z) (A : store) : Prop :=
  forall p c, A !! p = Some c <->
    (exists a s, (a, s) ∈ bs /\ (a ∉ fr) /\ p = heap_addr + a + 4 /\ c = payload m a s).

Definition heap_rel (st : heap_t) (A : store) : Prop :=
  exists bs fr, heap_ok st bs fr /\ owns (heap st) bs fr A.

(** ** Words and blocks *)

Lemma word_at_write_disjoint m o w src :
  0 <= o -> 0 <= w -> (o + 4 <= w \/ w + Z.of_nat (length src) <= o) ->
  w + Z.of_nat (length src) <= Z.of_nat (length m) ->
  word_at (write_at (Z.to_nat w) src m) o = word_at m o.
Proof.
  intros. unfold word_at. f_equal. apply slice_write_at_disjoint; lia.
Qed.

Lemma word_at_set_disjoint m o w v :
  0 <= o -> 0 <= w -> (o + 4 <= w \/ w + 4 <= o) -> w + 4 <= Z.of_nat (length m) ->
  word_at (set_word m w v) o = word_at m o.
Proof. intros. apply word_at_write_disjoint; rewrite ?length_le_bytes; lia. Qed.

Lemma word_at_set_same m o v :
  0 <= o -> o + 4 <= Z.of_nat (length m) -> 0 <= v < 2 ^ 32 -> word_at (set_word m o v) o = v.
Proof.
  intros. unfold word_at, set_word.
  replace 4%nat with (length (le_bytes 4 v)) at 1 by apply length_le_bytes.
  rewrite slice_write_at_eq by lia. by apply le_val_le_bytes.
Qed.

Lemma length_set_word m o v :
  0 <= o -> o + 4 <= Z.of_nat (length m) -> length (set_word m o v) = length m.
Proof. intros. apply length_write_at. rewrite length_le_bytes. lia. Qed.

Lemma set_word_bytes m o v : bytes m -> bytes (set_word m o v).
Proof. intros. apply write_at_bytes; [apply le_bytes_bytes|done]. Qed.

Lemma word_at_range m o : bytes m -> 0 <= word_at m o < 2 ^ 32.
Proof.
  intros Hm. unfold word_at. pose proof (le_val_bound (slice (Z.to_nat o) 4 m) (slice_bytes _ _ _ Hm)).
  assert (length (slice (Z.to_nat o) 4 m) <= 4)%nat by (unfold slice; rewrite length_take; lia).
  assert (2 ^ (8 * Z.of_nat (length (slice (Z.to_nat o) 4 m))) <= 2 ^ 32)
    by (apply Z.pow_le_mono_r; lia). lia.
Qed.

Lemma tiles_range o bs e a s :
  tiles o bs e -> (a, s) ∈ bs -> o <= a /\ 8 <= s /\ a + s <= e.
Proof.
  revert o; induction bs as [|[a' s'] bs IH]; intros o Ht Hin; [by apply elem_of_nil in Hin|].
  destruct Ht as (-> & Hs & Ht).
  assert (o + s' <= e) as He.
  { clear -Ht. revert Ht. generalize (o + s'). induction bs as [|[a s] bs IH]; simpl; [lia|].
    intros z (-> & ? & Ht). apply IH in Ht. lia. }
  apply elem_of_cons in Hin as [[= -> ->]|Hin]; [lia|].
  destruct (IH _ Ht Hin). lia.
Qed.

Lemma tiles_disjoint o bs e a s b t :
  tiles o bs e -> (a, s) ∈ bs -> (b, t) ∈ bs ->
  (a = b /\ s = t) \/ a + s <= b \/ b + t <= a.
Proof.
  revert o; induction bs as [|[a' s'] bs IH]; intros o Ht Ha Hb; [by apply elem_of_nil in Ha|].
  destruct Ht as (-> & Hs & Ht).
  apply elem_of_cons in Ha as [[= -> ->]|Ha], Hb as [?|Hb]; simplify_eq; auto.
  - right. left. by destruct (tiles_range _ _ _ _ _ Ht Hb).
  - right. right. by destruct (tiles_range _ _ _ _ _ Ht Ha).
  - eauto.
Qed.

Lemma tiles_app o bs e s : tiles o bs e -> 8 <= s -> tiles o (bs ++ [(e, s)]) (e + s).
Proof.
  revert o; induction bs as [|[a t] bs IH]; intros o; simpl; [by intros ->|].
  intros (-> & ? & ?) ?. auto.
Qed.

Lemma tiles_count o bs e : tiles o bs e -> 8 * Z.of_nat (length bs) <= e - o.
Proof.
  revert o; induction bs as [|[a s] bs IH]; intros o; cbn [tiles length]; [lia|].
  intros (-> & ? & Ht). apply IH in Ht. lia.
Qed.

Lemma seg_app m v l1 l2 e :
  seg m v (l1 ++ l2) e <-> exists w, seg m v l1 w /\ seg m w l2 e.
Proof.
  revert v; induction l1 as [|a l1 IH]; intros v; simpl.
  - split; [by exists v|by intros (w & -> & ?)].
  - rewrite IH. split; [intros (? & w & ? & ?); eauto|intros (w & (? & ?) & ?); eauto].
Qed.

(** A list of links only depends on the words behind its headers. *)
Lemma seg_ext m m' v l e :
  (forall a, a ∈ l -> word_at m' (a + 4) = word_at m (a + 4)) -> seg m v l e -> seg m' v l e.
Proof.
  revert v; induction l as [|a l IH]; intros v Hw; simpl; [done|].
  intros [-> Hs]. split; [done|]. rewrite Hw by apply list_elem_of_here.
  apply IH; [|done]. intros b Hb. apply Hw. by apply list_elem_of_further.
Qed.

(** ** Changing a block leaves the others *)

(** Bytes written into the payload of one block. *)
Section frame.
Context (m : list Z) (bs : list (Z * Z)) (top : Z) (b t w : Z) (src : list Z).
Hypothesis Hlen : top <= Z.of_nat (length m).
Hypothesis Htiles : tiles 0 bs top.
Hypothesis Hb : (b, t) ∈ bs.
Hypothesis Hlo : b + 4 <= w.
Hypothesis Hhi : w + Z.of_nat (length src) <= b + t.

Abbreviation m' := (write_at (Z.to_nat w) src m).

Lemma frame_header c s : (c, s) ∈ bs -> word_at m' c = word_at m c.
Proof.
  intros Hc. destruct (tiles_range _ _ _ _ _ Htiles Hb) as (? & ? & ?).
  destruct (tiles_range _ _ _ _ _ Htiles Hc) as (? & ? & ?).
  destruct (tiles_disjoint _ _ _ _ _ _ _ Htiles Hb Hc) as [[-> ->]|?];
    apply word_at_write_disjoint; lia.
Qed.

Lemma frame_next c s : (c, s) ∈ bs -> c <> b -> word_at m' (c + 4) = word_at m (c + 4).
Proof.
  intros Hc Hne. destruct (tiles_range _ _ _ _ _ Htiles Hb) as (? & ? & ?).
  destruct (tiles_range _ _ _ _ _ Htiles Hc) as (? & ? & ?).
  destruct (tiles_disjoint _ _ _ _ _ _ _ Htiles Hb Hc) as [[-> ->]|?]; [done|].
  apply word_at_write_disjoint; lia.
Qed.

Lemma frame_payload c s : (c, s) ∈ bs -> c <> b -> payload m' c s = payload m c s.
Proof.
  intros Hc Hne. destruct (tiles_range _ _ _ _ _ Htiles Hb) as (? & ? & ?).
  destruct (tiles_range _ _ _ _ _ Htiles Hc) as (? & ? & ?).
  destruct (tiles_disjoint _ _ _ _ _ _ _ Htiles Hb Hc) as [[-> ->]|?]; [done|].
  unfold payload. apply slice_write_at_disjoint; lia.
Qed.

Lemma frame_length : length m' = length m.
Proof.
  destruct (tiles_range _ _ _ _ _ Htiles Hb) as (? & ? & ?). apply length_write_at. lia.
Qed.
End frame.

Hypothesis heap_addr_range : 0 < heap_addr /\ heap_addr + HEAP_SIZE < 2 ^ 32.

(** A write into a block that is not free keeps the invariant. *)
Lemma write_ok st bs fr b t w src :
  heap_ok st bs fr -> (b, t) ∈ bs -> b ∉ fr -> b + 4 <= w ->
  w + Z.of_nat (length src) <= b + t -> bytes src ->
  heap_ok (Heap (write_at (Z.to_nat w) src (heap st)) (brk st) (freelist st)) bs fr.
Proof.
  intros [H1 H2 H3 H4 H5 H6 H7 H8] Hb Hnf Hlo Hhi Hsrc.
  assert (brk st <= Z.of_nat (length (heap st))) as Hl by lia. split; cbn [heap brk freelist]; try done.
  - by rewrite (frame_length (heap st) bs (brk st) b t w src).
  - by apply write_at_bytes.
  - intros a s Ha. rewrite (frame_header (heap st) bs (brk st) b t w src) with (s := s) by done. auto.
  - eapply seg_ext; [|exact H8]. intros a Ha. destruct (H6 a Ha) as [s Hs].
    apply (frame_next (heap st) bs (brk st) b t w src Hl H4 Hb Hlo Hhi a s Hs).
    intros ->. done.
Qed.

(** [pp] is the link behind the free blocks [pre]. *)
Definition link_end (pre : list Z) (pp : link) : Prop :=
  (pre = [] /\ pp = Freelist) \/
  (exists pre' b, pre = pre' ++ [b] /\ pp = NextOf (heap_addr + b)).

Lemma load_link_end st bs pre fr pp :
  heap_ok st bs (pre ++ fr) -> link_end pre pp -> seg (heap st) (load_link st pp) fr 0.
Proof.
  intros H [[-> ->]|(pre' & b & -> & ->)].
  - exact (ok_chain _ _ _ H).
  - pose proof (ok_chain _ _ _ H) as Hc. rewrite <-app_assoc in Hc.
    apply seg_app in Hc as (w & _ & Hc). destruct Hc as [_ Hc]. cbn [load_link]. unfold load_word.
    by replace (heap_addr + b + 4 - heap_addr) with (b + 4) by lia.
Qed.

(** Unlinking a free block. *)
Lemma unlink_ok st bs pre a post pp :
  heap_ok st bs (pre ++ a :: post) -> link_end pre pp ->
  let st' := store_link st pp (word_at (heap st) (a + 4)) in
  heap_ok st' bs (pre ++ post) /\ brk st' = brk st /\
  (forall c s, (c, s) ∈ bs -> c ∉ pre ++ a :: post ->
     payload (heap st') c s = payload (heap st) c s).
Proof.
  intros H Hpp. pose proof H as [H1 H2 H3 H4 H5 H6 H7 H8].
  assert (NoDup (pre ++ post)) as Hnd.
  { apply NoDup_app in H7 as (? & Hd & [_ ?]%NoDup_cons). apply NoDup_app. split_and!; [done| |done].
    intros x Hx Hx'. apply (Hd x Hx). by apply list_elem_of_further. }
  assert (forall x, x ∈ pre ++ post -> x ∈ pre ++ a :: post) as Hsub.
  { intros x [?|?]%elem_of_app; apply elem_of_app; [by left|right; by apply list_elem_of_further]. }
  apply seg_app in H8 as (v & Hpre & -> & Hpost).
  destruct Hpp as [[-> ->]|(pre' & b & -> & ->)].
  - cbn [store_link heap brk freelist app]. split; [|done]. split; cbn [heap brk freelist]; auto.
  - cbn [store_link heap brk freelist]. unfold store_word.
    replace (heap_addr + b + 4 - heap_addr) with (b + 4) by lia.
    destruct (H6 b) as [t Hb]; [set_solver|].
    pose proof (tiles_range _ _ _ _ _ H4 Hb) as (? & ? & ?).
    set (v := word_at (heap st) (a + 4)) in *.
    assert (brk st <= Z.of_nat (length (heap st))) as Hl by lia.
    assert (b + 4 + Z.of_nat (length (le_bytes 4 v)) <= b + t) as Hw
      by (rewrite length_le_bytes; lia).
    split; [|split; [done|]].
    + split; cbn [heap brk freelist]; auto.
      * rewrite length_set_word by lia. done.
      * by apply set_word_bytes.
      * intros c s Hc. rewrite <-(H5 c s Hc).
        by apply (frame_header (heap st) bs (brk st) b t (b + 4) _ Hl H4 Hb ltac:(lia) Hw c s).
      * apply seg_app in Hpre as (u & Hpre' & -> & _).
        assert ((b ∉ pre') /\ (b ∉ post)) as [Hb1 Hb2].
        { rewrite <-app_assoc in Hnd. apply NoDup_app in Hnd as (_ & Hd & Hn).
          apply NoDup_cons in Hn as [Hn _]. split; [|done]. intros Hx. apply (Hd b Hx). set_solver. }
        assert (forall l, b ∉ l -> (forall x, x ∈ l -> x ∈ pre' ++ [b] ++ a :: post) ->
          forall v0 e, seg (heap st) v0 l e -> seg (set_word (heap st) (b + 4) v) v0 l e) as Hseg.
        { intros l Hbl Hl' v0 e. apply seg_ext. intros x Hx.
          destruct (H6 x) as [s Hs]; [rewrite <-app_assoc; auto|].
          apply (frame_next (heap st) bs (brk st) b t (b + 4) _ Hl H4 Hb ltac:(lia) Hw x s Hs).
          intros ->. done. }
        rewrite <-app_assoc. apply seg_app. exists (heap_addr + b). split.
        { apply Hseg; [done|set_solver|done]. }
        cbn [app seg]. split; [done|]. rewrite word_at_set_same; [|lia|lia|by apply word_at_range].
        apply Hseg; [done|set_solver|done].
    + intros c s Hc Hnc.
      apply (frame_payload (heap st) bs (brk st) b t (b + 4) _ Hl H4 Hb ltac:(lia) Hw c s Hc).
      intros ->. apply Hnc. set_solver.
Qed.

(** The walk unlinks the first block that is large enough, or finds none. *)
Lemma first_fit_spec fuel st bs pre fr pp need :
  heap_ok st bs (pre ++ fr) -> link_end pre pp -> (length fr < fuel)%nat ->
  first_fit fuel st need pp = Some (st, 0) \/
  exists mid a post s st',
    fr = mid ++ a :: post /\ (a, s) ∈ bs /\ need <= s /\
    first_fit fuel st need pp = Some (st', heap_addr + a + 4) /\
    heap_ok st' bs (pre ++ mid ++ post) /\ brk st' = brk st /\
    (forall c t, (c, t) ∈ bs -> (c ∉ pre ++ fr) ->
       payload (heap st') c t = payload (heap st) c t).
Proof.
  revert pre fr pp; induction fuel as [|fuel IH]; intros pre fr pp H Hpp Hfuel; [lia|].
  pose proof (load_link_end _ _ _ _ _ H Hpp) as Hseg. cbn [first_fit].
  destruct fr as [|a fr]; cbn [seg] in Hseg.
  { rewrite Hseg. by left. }
  destruct Hseg as [-> Hseg]. destruct (ok_free _ _ _ H a) as [s Ha]; [set_solver|].
  pose proof (tiles_range _ _ _ _ _ (ok_tiles _ _ _ H) Ha) as (? & ? & ?).
  destruct (Z.eqb_spec (heap_addr + a) 0); [lia|]. unfold load_word.
  replace (heap_addr + a - heap_addr) with a by lia.
  replace (heap_addr + a + 4 - heap_addr) with (a + 4) by lia.
  rewrite (ok_sizes _ _ _ H a s Ha). destruct (Z.leb_spec need s).
  - right. destruct (unlink_ok st bs pre a fr pp H Hpp) as (H' & Hbrk & Hpay).
    exists [], a, fr, s. eexists. split_and!; [done|done|lia|reflexivity|done|done|done].
  - destruct (IH (pre ++ [a]) fr (NextOf (heap_addr + a))) as [IHn|IHs].
    + by rewrite <-app_assoc.
    + right. by exists pre, a.
    + simpl in Hfuel. lia.
    + by left.
    + right. destruct IHs as (mid & a' & post & s' & st' & -> & Ha' & Hn & E & H' & Hbrk & Hpay).
      exists (a :: mid), a', post, s', st'. rewrite <-!app_assoc in H', Hpay. by split_and!.
Qed.

(** [need] for the sizes a correct program asks for. *)
Lemma align_up_spec n :
  0 <= n < 2 ^ 32 - 8 -> n <= align_up n < n + 8 /\ align_up n mod 8 = 0.
Proof.
  intros Hn. unfold align_up, ALIGN. change (8 - 1) with 7.
  rewrite (wrap_small 32 (n + 7)) by lia.
  assert (u32 (Z.lnot 7) = Z.lxor (2 ^ 32 - 1) 7) as -> by reflexivity.
  assert (Z.land (n + 7) (Z.lxor (2 ^ 32 - 1) 7) = (n + 7) / 8 * 8) as ->.
  { change 8 with (2 ^ 3). rewrite <-Z.shiftl_mul_pow2, <-Z.shiftr_div_pow2 by lia.
    apply Z.bits_inj'. intros i Hi. rewrite Z.land_spec, Z.lxor_spec.
    destruct (Z.ltb_spec i 3) as [Hlt|Hge].
    - rewrite Z.shiftl_spec_low by done.
      assert (i = 0 \/ i = 1 \/ i = 2) as [->|[->| ->]] by lia; by rewrite andb_false_r.
    - rewrite Z.shiftl_spec, Z.shiftr_spec by lia. replace (i - 3 + 3) with i by lia.
      change 7 with (Z.ones 3) at 2. change (2 ^ 32 - 1) with (Z.ones 32).
      rewrite (Z.ones_spec_high 3) by lia. rewrite xorb_false_r.
      destruct (Z.ltb_spec i 32).
      + rewrite Z.ones_spec_low by lia. by rewrite andb_true_r.
      + rewrite (testbit_high _ 32) by lia. done. }
  split; [|by rewrite Z.mod_mul].
  pose proof (Z.div_mod (n + 7) 8 ltac:(lia)). pose proof (Z.mod_pos_bound (n + 7) 8 ltac:(lia)). lia.
Qed.

(** The free blocks are among the blocks, so they are few. *)
Lemma free_count st bs fr : heap_ok st bs fr -> (length fr < S max_blocks)%nat.
Proof.
  intros [H1 H2 H3 H4 H5 H6 H7 H8].
  assert (length fr <= length (map fst bs))%nat as Hle.
  { apply NoDup_incl_length; [by apply NoDup_ListNoDup|].
    intros a Ha%list_elem_of_In. destruct (H6 a Ha) as [s Hs].
    apply list_elem_of_In, list_elem_of_fmap. by exists (a, s). }
  rewrite length_map in Hle. pose proof (tiles_count _ _ _ H4). unfold max_blocks.
  assert (Z.of_nat (length bs) <= HEAP_SIZE / 8) by (apply Z.div_le_lower_bound; lia). lia.
Qed.

(** Taking a new block from the end of the used part. *)
Lemma bump_ok st bs fr need :
  heap_ok st bs fr -> 8 <= need -> brk st + need <= HEAP_SIZE ->
  let st' := Heap (store_word (heap st) (heap_addr + brk st) need) (brk st + need) (freelist st) in
  heap_ok st' (bs ++ [(brk st, need)]) fr /\ (brk st, need) ∈ bs ++ [(brk st, need)] /\
  (forall t, ~ (brk st, t) ∈ bs) /\
  (forall c t, (c, t) ∈ bs -> (c ∉ fr) -> payload (heap st') c t = payload (heap st) c t).
Proof.
  intros [H1 H2 H3 H4 H5 H6 H7 H8] Hneed Hroom. cbn [heap]. unfold store_word.
  replace (heap_addr + brk st - heap_addr) with (brk st) by lia.
  assert (forall c t, (c, t) ∈ bs -> 0 <= c /\ 8 <= t /\ c + t <= brk st) as Hr
    by (intros c t Hc; by apply (tiles_range _ _ _ _ _ H4)).
  assert (forall o, 0 <= o -> o + 4 <= brk st ->
    word_at (set_word (heap st) (brk st) need) o = word_at (heap st) o) as Hw
    by (intros; apply word_at_set_disjoint; lia).
  split_and!.
  - split; cbn [heap brk freelist]; auto.
    + rewrite length_set_word by lia. done.
    + by apply set_word_bytes.
    + lia.
    + by apply tiles_app.
    + intros a s [Ha|Ha]%elem_of_app.
      * destruct (Hr a s Ha). rewrite Hw by lia. auto.
      * apply list_elem_of_singleton in Ha as [= -> ->]. unfold HEAP_SIZE in *.
        apply word_at_set_same; lia.
    + intros a Ha. destruct (H6 a Ha) as [s Hs]. exists s. apply elem_of_app. by left.
    + eapply seg_ext; [|exact H8]. intros a Ha. destruct (H6 a Ha) as [s Hs].
      destruct (Hr a s Hs). apply Hw; lia.
  - apply elem_of_app. right. by apply list_elem_of_singleton.
  - intros t Ht. destruct (Hr _ _ Ht). lia.
  - intros c t Hc _. destruct (Hr c t Hc). unfold payload, set_word.
    apply slice_write_at_disjoint; rewrite length_le_bytes; lia.
Qed.

(** What [malloc] does for its caller: a block that was not in use, large
    enough, every owned payload unchanged; or null and nothing changed. *)
Lemma malloc_ok st bs fr n :
  heap_ok st bs fr -> 0 <= n < SIZE_LIMIT ->
  malloc st n = Some (st, 0) \/
  exists st' bs' fr' a s,
    malloc st n = Some (st', heap_addr + a + 4) /\ heap_ok st' bs' fr' /\
    (a, s) ∈ bs' /\ (a ∉ fr') /\ n + 4 <= s /\
    (forall t, (a, t) ∈ bs -> a ∈ fr) /\
    (forall c t, ((c, t) ∈ bs' /\ (c ∉ fr') /\ c <> a) <-> ((c, t) ∈ bs /\ (c ∉ fr))) /\
    (forall c t, (c, t) ∈ bs -> (c ∉ fr) -> payload (heap st') c t = payload (heap st) c t).
Proof.
  intros H Hn. unfold malloc. set (n' := if n =? 0 then 1 else n).
  assert (n <= n' < SIZE_LIMIT + 1) as Hn' by (unfold n'; destruct (Z.eqb_spec n 0); lia).
  unfold SIZE_LIMIT, HEAP_SIZE in Hn, Hn'. rewrite (wrap_small 32 (n' + 4)) by lia.
  destruct (align_up_spec (n' + 4)) as [Hal Hmod]; [lia|]. set (need := align_up (n' + 4)) in *.
  pose proof (free_count _ _ _ H) as Hfuel.
  destruct (first_fit_spec (S max_blocks) st bs [] fr Freelist need H) as [->|Hfit]; [by left|done| |].
  - cbn [negb Z.eqb]. pose proof H as [H1 H2 H3 H4 H5 H6 H7 H8]. unfold HEAP_SIZE in *.
    rewrite (wrap_small 32 (brk st + need)) by lia.
    destruct (Z.ltb_spec (8 * 1024 * 1024) (brk st + need)) as [?|Hroom]; [by left|]. right.
    assert (8 <= need) as Hneed8 by (pose proof (Z.div_mod need 8 ltac:(lia)); unfold n' in *; lia).
    exists (Heap (store_word (heap st) (heap_addr + brk st) need) (brk st + need) (freelist st)).
    exists (bs ++ [(brk st, need)]), fr, (brk st), need.
    destruct (bump_ok st bs fr need H Hneed8 Hroom) as (H' & Hin & Hnb & Hpay).
    split_and!; [done|done|done| |lia|by intros t Ht; destruct (Hnb t)| |done].
    + intros Hf. destruct (H6 _ Hf) as [s Hs]. by destruct (Hnb s).
    + intros c t. rewrite elem_of_app, list_elem_of_singleton. split.
      * intros ([?|[= -> ->]] & ? & ?); done.
      * intros [Hc ?]. split_and!; [by left|done|]. intros ->. by destruct (Hnb t).
  - right. destruct Hfit as (mid & a & post & s & st' & -> & Ha & Hns & -> & H' & Hbrk & Hpay).
    pose proof (tiles_range _ _ _ _ _ (ok_tiles _ _ _ H) Ha) as (? & ? & ?).
    destruct (Z.eqb_spec (heap_addr + a + 4) 0); [lia|]. cbn [negb].
    exists st', bs, (mid ++ post), a, s. cbn [app] in *.
    pose proof (ok_nodup _ _ _ H) as Hnd.
    assert ((a ∉ mid ++ post)) as Hna.
    { apply NoDup_app in Hnd as (_ & Hd & [? _]%NoDup_cons). rewrite elem_of_app.
      intros [?|?]; [|done]. by apply (Hd a), list_elem_of_here. }
    split_and!; [done|done|done|done|lia|set_solver| |done].
    intros c t. split; intros; set_solver.
Qed.

(** Giving a block back. *)
Lemma set_word_same m o :
  bytes m -> 0 <= o -> o + 4 <= Z.of_nat (length m) -> set_word m o (word_at m o) = m.
Proof.
  intros Hm Ho Hl. unfold set_word, word_at.
  pose proof (length_slice (Z.to_nat o) 4 m ltac:(lia)) as Hs. rewrite <-Hs at 1.
  rewrite le_bytes_le_val by by apply slice_bytes. apply write_at_slice. lia.
Qed.

Lemma free_ok st bs fr a s :
  heap_ok st bs fr -> (a, s) ∈ bs -> (a ∉ fr) ->
  heap_ok (free st (heap_addr + a + 4)) bs (a :: fr) /\
  (forall c t, (c, t) ∈ bs -> c <> a ->
     payload (heap (free st (heap_addr + a + 4))) c t = payload (heap st) c t).
Proof.
  intros H Ha Hna. pose proof H as [H1 H2 H3 H4 H5 H6 H7 H8].
  pose proof (tiles_range _ _ _ _ _ H4 Ha) as (? & ? & ?). unfold HEAP_SIZE in *.
  unfold free. destruct (Z.eqb_spec (heap_addr + a + 4) 0); [lia|]. unfold store_word, load_word.
  replace (heap_addr + a + 4 - 4 - heap_addr) with a by lia.
  replace (heap_addr + a + 4 - 4 + 4 - heap_addr) with (a + 4) by lia.
  rewrite set_word_same by (done || lia).
  assert (0 <= freelist st < 2 ^ 32) as Hfl.
  { destruct fr as [|b fr]; cbn [seg] in H8; [lia|]. destruct H8 as [-> _].
    destruct (H6 b) as [t Hb]; [by apply list_elem_of_here|].
    pose proof (tiles_range _ _ _ _ _ H4 Hb). lia. }
  assert (a + 4 + Z.of_nat (length (le_bytes 4 (freelist st))) <= a + s) as Hw
    by (rewrite length_le_bytes; lia).
  pose proof (write_ok st bs fr a s (a + 4) (le_bytes 4 (freelist st)) H Ha Hna ltac:(lia) Hw
    (le_bytes_bytes _ _)) as [W1 W2 W3 W4 W5 W6 W7 W8]. cbn [heap brk freelist] in *.
  split.
  - split; cbn [heap brk freelist]; try done.
    + intros b [->|Hb]%elem_of_cons; [by exists s|auto].
    + by apply NoDup_cons.
    + cbn [seg]. split; [lia|]. rewrite word_at_set_same by lia. done.
  - intros c t Hc Hne. apply (frame_payload (heap st) bs (brk st) a s (a + 4)); done || lia.
Qed.

(** ** The abstract heap follows *)

Lemma owns_unique st bs fr a s t :
  heap_ok st bs fr -> (a, s) ∈ bs -> (a, t) ∈ bs -> s = t.
Proof.
  intros H Hs Ht. pose proof (tiles_range _ _ _ _ _ (ok_tiles _ _ _ H) Hs).
  pose proof (tiles_range _ _ _ _ _ (ok_tiles _ _ _ H) Ht).
  destruct (tiles_disjoint _ _ _ _ _ _ _ (ok_tiles _ _ _ H) Hs Ht) as [[_ ?]|?]; lia.
Qed.

Lemma owns_alloc st st' bs fr bs' fr' a s A :
  heap_ok st' bs' fr' -> owns (heap st) bs fr A -> (a, s) ∈ bs' -> (a ∉ fr') ->
  (forall t, (a, t) ∈ bs -> a ∈ fr) ->
  (forall c t, ((c, t) ∈ bs' /\ (c ∉ fr') /\ c <> a) <-> ((c, t) ∈ bs /\ (c ∉ fr))) ->
  (forall c t, (c, t) ∈ bs -> (c ∉ fr) -> payload (heap st') c t = payload (heap st) c t) ->
  A !! (heap_addr + a + 4) = None /\
  owns (heap st') bs' fr' (<[heap_addr + a + 4 := payload (heap st') a s]> A).
Proof.
  intros H' HA Ha Hna Hnew Hiff Hpay.
  assert (A !! (heap_addr + a + 4) = None) as Hnone.
  { destruct (A !! (heap_addr + a + 4)) as [c|] eqn:E; [|done].
    apply HA in E as (b & t & Hb & Hnb & Ep & _). assert (a = b) as -> by lia.
    by destruct Hnb; apply (Hnew t). }
  split; [done|]. intros p c. rewrite lookup_insert_Some. split.
  - intros [[<- <-]|[Hne Hc]]; [by exists a, s|].
    apply HA in Hc as (b & t & Hb & Hnb & -> & ->).
    destruct (proj2 (Hiff b t) (conj Hb Hnb)) as (Hb' & Hnb' & _).
    exists b, t. split_and!; [done|done|done|]. by rewrite Hpay.
  - intros (b & t & Hb & Hnb & -> & ->). destruct (decide (b = a)) as [->|Hne].
    + left. split; [done|]. by rewrite (owns_unique _ _ _ _ _ _ H' Ha Hb).
    + right. split; [lia|]. destruct (proj1 (Hiff b t)) as [Hb' Hnb']; [done|].
      apply HA. exists b, t. split_and!; [done|done|done|]. by rewrite Hpay.
Qed.

Lemma owns_free st bs fr a s A :
  heap_ok st bs fr -> owns (heap st) bs fr A -> (a, s) ∈ bs -> (a ∉ fr) ->
  owns (heap (free st (heap_addr + a + 4))) bs (a :: fr) (delete (heap_addr + a + 4) A).
Proof.
  intros H HA Ha Hna. destruct (free_ok st bs fr a s H Ha Hna) as [_ Hpay].
  intros p c. rewrite lookup_delete_Some. split.
  - intros [Hne Hc]. apply HA in Hc as (b & t & Hb & Hnb & -> & ->).
    assert (b <> a) by (intros ->; done). exists b, t.
    split_and!; [done| |done|by rewrite Hpay]. intros [?|?]%elem_of_cons; done.
  - intros (b & t & Hb & Hnb & -> & ->). apply not_elem_of_cons in Hnb as [Hne Hnb].
    split; [lia|]. apply HA. exists b, t. by rewrite Hpay.
Qed.

Lemma slice_write_at_inside {A} o n k (src m : list A) :
  (k + length src <= n)%nat -> (o + n <= length m)%nat ->
  slice o n (write_at (o + k) src m) = write_at k src (slice o n m).
Proof.
  intros Hk Hm.
  assert (m = take o m ++ slice o n m ++ drop (o + n) m) as Em
    by by rewrite <-slice_split, take_drop.
  pose proof (length_slice o n m Hm) as Hs. pose proof (length_take m o) as Ht.
  revert Hs Em. generalize (slice o n m), (drop (o + n) m). intros mid post Hs Em.
  assert (length (take o m) = o) as Hto by lia. revert Hto Em. generalize (take o m).
  intros pre Hto ->. unfold slice, write_at.
  rewrite take_app_add' by done. rewrite <-app_assoc, drop_app_length' by done.
  rewrite (take_app_le mid post k) by lia. rewrite <-Nat.add_assoc, drop_app_add' by done.
  rewrite (drop_app_le mid post) by lia. rewrite !app_assoc.
  apply take_app_length'. rewrite !length_app, length_take, length_drop. lia.
Qed.

Lemma owns_write st bs fr b t off src A c :
  heap_ok st bs fr -> owns (heap st) bs fr A -> (b, t) ∈ bs -> (b ∉ fr) ->
  A !! (heap_addr + b + 4) = Some c -> 0 <= off -> off + Z.of_nat (length src) <= t - 4 ->
  owns (write_at (Z.to_nat (b + 4 + off)) src (heap st)) bs fr
    (<[heap_addr + b + 4 := write_at (Z.to_nat off) src c]> A).
Proof.
  intros H HA Hb Hnb Hc Hoff Hfit. pose proof H as [H1 H2 H3 H4 H5 H6 H7 H8].
  pose proof (tiles_range _ _ _ _ _ H4 Hb) as (? & ? & ?).
  assert (c = payload (heap st) b t) as ->.
  { apply HA in Hc as (b' & t' & Hb' & _ & Ep & ->). assert (b' = b) as -> by lia.
    by rewrite (owns_unique _ _ _ _ _ _ H Hb Hb'). }
  assert (payload (write_at (Z.to_nat (b + 4 + off)) src (heap st)) b t =
    write_at (Z.to_nat off) src (payload (heap st) b t)) as Hown.
  { unfold payload. replace (Z.to_nat (b + 4 + off)) with (Z.to_nat (b + 4) + Z.to_nat off)%nat by lia.
    apply slice_write_at_inside; lia. }
  assert (forall d u, (d, u) ∈ bs -> d <> b ->
    payload (write_at (Z.to_nat (b + 4 + off)) src (heap st)) d u = payload (heap st) d u) as Hpay
    by (intros; apply (frame_payload (heap st) bs (brk st) b t); done || lia).
  intros p c. rewrite lookup_insert_Some. split.
  - intros [[<- <-]|[Hne Hc']]; [by exists b, t|].
    apply HA in Hc' as (d & u & Hd & Hnd & -> & ->). exists d, u.
    split_and!; [done|done|done|]. rewrite Hpay; [done..|]. intros ->. done.
  - intros (d & u & Hd & Hnd & -> & ->). destruct (decide (d = b)) as [->|Hne].
    + left. split; [done|]. by rewrite (owns_unique _ _ _ _ _ _ H Hd Hb).
    + right. split; [lia|]. apply HA. exists d, u. by rewrite Hpay.
Qed.

Lemma length_payload st bs fr a s :
  heap_ok st bs fr -> (a, s) ∈ bs -> Z.of_nat (length (payload (heap st) a s)) = s - 4.
Proof.
  intros H Ha. pose proof (tiles_range _ _ _ _ _ (ok_tiles _ _ _ H) Ha) as (? & ? & ?).
  pose proof (ok_length _ _ _ H). pose proof (ok_brk _ _ _ H).
  unfold payload. rewrite length_slice by lia. lia.
Qed.

(** A pointer the program owns is a block that is not free. *)
Lemma owned_block st bs fr A p c :
  heap_ok st bs fr -> owns (heap st) bs fr A -> A !! p = Some c ->
  exists a s, (a, s) ∈ bs /\ (a ∉ fr) /\ p = heap_addr + a + 4 /\
    c = payload (heap st) a s /\ Z.of_nat (length c) = s - 4 /\ 0 <= a /\ 8 <= s /\
    word_at (heap st) a = s /\ a + s <= HEAP_SIZE.
Proof.
  intros H HA Hc. apply HA in Hc as (a & s & Ha & Hna & -> & ->).
  pose proof (tiles_range _ _ _ _ _ (ok_tiles _ _ _ H) Ha) as (? & ? & ?).
  pose proof (ok_brk _ _ _ H). exists a, s. split_and!; try done; try lia.
  - by apply (length_payload st bs fr).
  - by apply (ok_sizes _ _ _ H).
Qed.

Lemma alloc_sim st bs fr A n :
  heap_ok st bs fr -> owns (heap st) bs fr A -> 0 <= n < SIZE_LIMIT ->
  malloc st n = Some (st, 0) \/
  exists st' bs' fr' a s,
    malloc st n = Some (st', heap_addr + a + 4) /\ heap_ok st' bs' fr' /\
    (a, s) ∈ bs' /\ (a ∉ fr') /\ 0 <= a /\ n <= s - 4 /\ A !! (heap_addr + a + 4) = None /\
    owns (heap st') bs' fr' (<[heap_addr + a + 4 := payload (heap st') a s]> A).
Proof.
  intros H HA Hn. destruct (malloc_ok st bs fr n H Hn)
    as [?|(st' & bs' & fr' & a & s & E & H' & Ha & Hna & Hs & Hnew & Hiff & Hpay)]; [by left|right].
  destruct (owns_alloc st st' bs fr bs' fr' a s A H' HA Ha Hna Hnew Hiff Hpay) as [Hnone HA'].
  pose proof (tiles_range _ _ _ _ _ (ok_tiles _ _ _ H') Ha) as (? & ? & ?).
  exists st', bs', fr', a, s. split_and!; try done; lia.
Qed.

Lemma malloc_sim st A n :
  heap_rel st A -> 0 <= n < SIZE_LIMIT ->
  exists st' p A', malloc st n = Some (st', p) /\ fresh_block A n (fun _ => True) p A' /\ heap_rel st' A'.
Proof.
  intros (bs & fr & H & HA) Hn. destruct (alloc_sim st bs fr A n H HA Hn)
    as [E|(st' & bs' & fr' & a & s & E & H' & Ha & Hna & Hpos & Hs & Hnone & HA')].
  - exists st, 0, A. split_and!; [done|by left|by exists bs, fr].
  - exists st', (heap_addr + a + 4). eexists. split; [done|]. split; [|by exists bs', fr'].
    right. split; [lia|]. split; [done|]. eexists. split; [|done].
    rewrite (length_payload st' bs' fr') by done. lia.
Qed.

Lemma calloc_sim st A n sz :
  heap_rel st A -> 0 <= n -> 0 <= sz -> n * sz < SIZE_LIMIT ->
  exists st' p A', calloc st n sz = Some (st', p) /\
    fresh_block A (n * sz) (fun c => take (Z.to_nat (n * sz)) c = repeat 0 (Z.to_nat (n * sz))) p A' /\
    heap_rel st' A'.
Proof.
  intros (bs & fr & H & HA) Hn Hsz Htot. unfold calloc. set (total := n * sz) in *.
  assert (0 <= total) by (unfold total; lia). rewrite wrap_small by (unfold SIZE_LIMIT, HEAP_SIZE in *; lia).
  destruct (alloc_sim st bs fr A total H HA ltac:(lia))
    as [->|(st' & bs' & fr' & a & s & -> & H' & Ha & Hna & Hpos & Hs & Hnone & HA')].
  { cbn [Z.eqb negb]. exists st, 0, A. split_and!; [done|by left|by exists bs, fr]. }
  destruct (Z.eqb_spec (heap_addr + a + 4) 0); [lia|]. cbn [negb].
  replace (heap_addr + a + 4 - heap_addr) with (a + 4 + 0) by lia.
  set (z := repeat 0 (Z.to_nat total)).
  assert (length z = Z.to_nat total) as Hz by apply repeat_length.
  assert (bytes z) as Hzb.
  { apply Forall_forall. intros x Hx%list_elem_of_In%repeat_spec. by subst. }
  pose proof (length_payload st' bs' fr' a s H' Ha) as Hl.
  eexists _, (heap_addr + a + 4), (<[heap_addr + a + 4 := write_at 0 z (payload (heap st') a s)]> A).
  split; [done|]. split.
  - right. split; [lia|]. split; [done|]. eexists. split; [|split; [|done]].
    + rewrite length_write_at by lia. lia.
    + unfold write_at. rewrite take_0. cbn [app]. by apply take_app_length'.
  - exists bs', fr'. split.
    + apply (write_ok st' bs' fr' a s); done || lia.
    + cbn [heap]. rewrite <-(insert_insert_eq A (heap_addr + a + 4) _ (payload (heap st') a s)).
      apply (owns_write st' bs' fr' a s 0 z); [done..|apply lookup_insert_eq|lia|lia].
Qed.

Lemma free_sim st A p c :
  heap_rel st A -> A !! p = Some c -> heap_rel (free st p) (delete p A).
Proof.
  intros (bs & fr & H & HA) Hc.
  destruct (owned_block _ _ _ _ _ _ H HA Hc) as (a & s & Ha & Hna & -> & _).
  exists bs, (a :: fr). split; [by apply (free_ok st bs fr a s)|by apply (owns_free st bs fr a s)].
Qed.

Lemma write_sim st A p off src c :
  heap_rel st A -> A !! p = Some c -> bytes src -> 0 <= off ->
  off + Z.of_nat (length src) <= Z.of_nat (length c) ->
  heap_rel (Heap (write_at (Z.to_nat (p - heap_addr + off)) src (heap st)) (brk st) (freelist st))
    (<[p := write_at (Z.to_nat off) src c]> A).
Proof.
  intros (bs & fr & H & HA) Hc Hsrc Hoff Hfit.
  destruct (owned_block _ _ _ _ _ _ H HA Hc) as (a & s & Ha & Hna & -> & Ec & Hl & ? & ? & _).
  replace (heap_addr + a + 4 - heap_addr + off) with (a + 4 + off) by lia.
  exists bs, fr. split; [apply (write_ok st bs fr a s); done || lia|].
  apply (owns_write st bs fr a s); done || lia.
Qed.

Lemma realloc_sim st A p n c :
  heap_rel st A -> A !! p = Some c -> 0 <= n < SIZE_LIMIT ->
  exists st' q A', realloc st p n = Some (st', q) /\ store_step A (Realloc p n) q A' /\ heap_rel st' A'.
Proof.
  intros Hrel Hc Hn. pose proof Hrel as (bs & fr & H & HA).
  destruct (owned_block _ _ _ _ _ _ H HA Hc) as (a & s & Ha & Hna & Ep & Ec & Hl & Ha0 & Hs & Hw & Hin).
  unfold HEAP_SIZE in *. unfold realloc.
  destruct (Z.eqb_spec p 0); [lia|]. destruct (Z.eqb_spec n 0) as [->|].
  { eexists _, 0, _. split; [done|]. split; [by apply step_realloc_zero with c|by apply free_sim with c]. }
  unfold load_word. replace (p - 4 - heap_addr) with a by lia. rewrite Hw.
  rewrite (wrap_small 32 (s - 4)) by lia. destruct (Z.leb_spec n (s - 4)) as [?|Hgrow].
  { exists st, p, A. split; [done|]. split; [apply step_realloc_fits with c; [done|lia]|done]. }
  destruct (alloc_sim st bs fr A n H HA Hn)
    as [->|(st' & bs' & fr' & b & t & -> & H' & Hb & Hnb & Hb0 & Ht & Hnone & HA')].
  { exists st, 0, A. split; [done|]. split; [by apply step_realloc_fails with c|done]. }
  set (q := heap_addr + b + 4) in *. destruct (Z.eqb_spec q 0); [lia|].
  set (cq := payload (heap st') b t) in *.
  pose proof (length_payload st' bs' fr' b t H' Hb) as Hlq. fold cq in Hlq.
  assert (q <> p) as Hqp by congruence.
  assert (heap_rel st' (<[q := cq]> A)) as Hrel' by by exists bs', fr'.
  assert (<[q := cq]> A !! p = Some c) as Hcp by by rewrite lookup_insert_ne.
  assert (slice (Z.to_nat (p - heap_addr)) (Z.to_nat (s - 4)) (heap st') = c) as Hcopy.
  { destruct (owned_block _ _ _ _ _ _ H' HA' Hcp) as (a' & s' & _ & _ & Ep' & -> & Hl' & _).
    assert (a' = a) as -> by lia. rewrite Hl' in Hl. unfold payload. f_equal; f_equal; lia. }
  assert (bytes c) as Hcb.
  { rewrite <-Hcopy. apply slice_bytes, (ok_bytes _ _ _ H'). }
  pose proof (write_sim st' (<[q := cq]> A) q 0 c cq Hrel' (lookup_insert_eq _ _ _) Hcb ltac:(lia) ltac:(lia))
    as Hwr. rewrite insert_insert_eq, Z.add_0_r in Hwr.
  unfold heap_copy. rewrite Hcopy. eexists _, q, _. split; [done|].
  split; [|eapply free_sim; [exact Hwr|by rewrite lookup_insert_ne]].
  rewrite delete_insert_ne by done.
  apply (step_realloc_moves A p n c q (write_at 0 c cq)); [done|done|done| |].
  - rewrite length_write_at by lia. lia.
  - unfold write_at. rewrite take_0. cbn [app]. by apply take_app_length'.
Qed.

Lemma empty_heap_rel m :
  Z.of_nat (length m) = HEAP_SIZE -> bytes m -> heap_rel (Heap m 0 0) ∅.
Proof.
  intros Hl Hb. exists [], []. split.
  - split; cbn [heap brk freelist]; try done.
    + intros a s Ha. by apply elem_of_nil in Ha.
    + intros a Ha. by apply elem_of_nil in Ha.
    + constructor.
  - intros p c. rewrite lookup_empty. split; [done|].
    intros (a & s & Ha & _). by apply elem_of_nil in Ha.
Qed.

Lemma heap_bss_rel : heap_rel heap_bss ∅.
Proof.
  unfold heap_bss. apply empty_heap_rel.
  - rewrite repeat_length. apply Z2Nat.id. unfold HEAP_SIZE. lia.
  - apply Forall_forall. intros x Hx. apply list_elem_of_In, repeat_spec in Hx. rewrite Hx.
    unfold is_byte. lia.
Qed.

(** C10: the allocator implements the abstract heap, for requests of less than
    4 GiB - 8 MiB - 16 bytes ([SIZE_LIMIT]; the product of the two arguments for
    [calloc]).  From the zeroed array on, every such call of a program that passes
    only null and pointers it owns, and writes only into its blocks, returns, hands
    out blocks that are large enough and that nothing else owns, and leaves every
    other block's bytes alone, although the free list is threaded through freed
    payloads: [realloc] carries the old bytes over, [calloc] zeroes, and after a
    failed call nothing has changed.  (Larger requests wrap around in 32 bits,
    [malloc_huge_request].) *)
Theorem heap_refines :
  heap_rel heap_bss ∅ /\
  forall st A op, heap_rel st A -> op_allowed A op ->
    exists st' p A', run_op st op = Some (st', p) /\ store_step A op p A' /\ heap_rel st' A'.
Proof.
  split; [apply heap_bss_rel|]. intros st A op Hrel Hop. destruct op as [n|n sz|p|p n|p off src]; cbn [run_op].
  - destruct (malloc_sim st A n Hrel Hop) as (st' & p & A' & -> & ? & ?).
    exists st', p, A'. split_and!; [done|by constructor|done].
  - destruct Hop as (? & ? & ?).
    destruct (calloc_sim st A n sz Hrel) as (st' & p & A' & -> & ? & ?); [done..|].
    exists st', p, A'. split_and!; [done|by constructor|done].
  - destruct Hop as [->|[c Hc]]; eexists _, 0, _; (split; [done|]).
    + split; [constructor|done].
    + split; [by apply step_free with c|by apply free_sim with c].
  - destruct Hop as [[->|[c Hc]] Hn]; [|by apply realloc_sim with c].
    destruct (malloc_sim st A n Hrel Hn) as (st' & q & A' & E & ? & ?).
    exists st', q, A'. split_and!; [done|by constructor|done].
  - destruct Hop as (Hsrc & Hoff & c & Hc & Hfit). eexists _, 0, _. split; [done|].
    split; [by apply step_write|by apply write_sim].
Qed.
End allocator.

Lemma heap_refines_witness :
  exists st p A, run_op 0x10000 heap_bss (Malloc 100) = Some (st, p) /\
    store_step ∅ (Malloc 100) p A /\ heap_rel 0x10000 st A.
Proof.
  destruct (heap_refines 0x10000) as [H0 Hstep].
  - unfold HEAP_SIZE. split; lia.
  - apply (Hstep heap_bss ∅ (Malloc 100) H0). cbn [op_allowed]. unfold SIZE_LIMIT, HEAP_SIZE. lia.
Defined.

Lemma first_fit_empty heap_addr fuel st need :
  freelist st = 0 -> first_fit heap_addr (S fuel) st need Freelist = Some (st, 0).
Proof. intros Hf. cbn [first_fit load_link]. by rewrite Hf. Qed.

(** The sizes are 32-bit: a request close to 4 GiB wraps around, passes the
    limit check, is answered with a block, and moves the end of the used part
    back over blocks in use. *)
Theorem malloc_huge_request heap_addr st :
  freelist st = 0 -> 8 <= brk st <= HEAP_SIZE ->
  exists m, malloc heap_addr st 0xfffffff0 = Some (Heap m (brk st - 8) 0, heap_addr + brk st + 4).
Proof.
  intros Hf Hb. unfold malloc. rewrite first_fit_empty by done. cbn [Z.eqb negb].
  change (align_up (u32 (0xfffffff0 + 4))) with 0xfffffff8.
  assert (u32 (brk st + 0xfffffff8) = brk st - 8) as ->.
  { unfold wrap. replace (brk st + 0xfffffff8) with (brk st - 8 + 1 * 2 ^ 32) by lia.
    rewrite Z.mod_add by lia. unfold HEAP_SIZE in Hb. apply Z.mod_small. lia. }
  destruct (Z.ltb_spec HEAP_SIZE (brk st - 8)); [lia|]. rewrite Hf. by eexists.
Qed.

(** The comment promises an eight-byte header; payloads are aligned to four. *)
Example payload_alignment : (0x10000 + 0 + 4) mod ALIGN = 4.
Proof. reflexivity. Qed.
