(* ===== verification/CPrintf.v ===== *)
(** * Formatted output of the guest C library
    (printf section of spikes/spike-b/ports/rv32emu/lua_runtime.c)

    [vsnprintf] with its flags, widths, precisions and conversions, and the
    printers built on it.  The variable arguments are a list; [None] is
    behaviour C leaves undefined: a missing or mistyped argument, a format that
    ends in the middle of a conversion, a digit buffer written past its end, a
    double converted to an integer type that cannot hold it, a write past the
    buffer.  Signed sums wrap, as the guest compiler emits them. *)

From Stdlib Require Import Floats.SpecFloat.
From S2P Require Import Prelude.
Open Scope Z_scope.

(** ** The output context *)

(** [buf] is null or the bytes of the buffer. *)
Record pctx := PCtx { pbuf : option (list Z); pcap : Z; ppos : Z }.

Definition pput (c : pctx) (ch : Z) : pctx :=
  {| pbuf := match pbuf c with
             | Some b =>
                 if u32 (ppos c + 1) <? pcap c then Some (<[Z.to_nat (ppos c) := u8 ch]> b) else Some b
             | None => None
             end;
     pcap := pcap c; ppos := u32 (ppos c + 1) |}.

Definition pputn (c : pctx) (s : list Z) : pctx := fold_left pput s c.

(** [for (i = 0; i < npad; i++) pput(c, ch)]. *)
Definition ppad (c : pctx) (ch npad : Z) : pctx := pputn c (repeat ch (Z.to_nat npad)).

(** ** Integers *)

Definition digit_char (upper : bool) (d : Z) : Z :=
  if d <? 10 then 48 + d else if upper then 55 + d else 87 + d.

(** [while (v) { tmp[n++] = digs[v % base]; v /= base; }]; 32 rounds reach zero
    for every base from two on. *)
Fixpoint digits (fuel : nat) (upper : bool) (base v : Z) : list Z :=
  match fuel with
  | O => []
  | S fuel => if v =? 0 then [] else digit_char upper (v mod base) :: digits fuel upper base (v / base)
  end.

Definition tmp_digits (upper : bool) (base v prec : Z) : list Z :=
  (if (v =? 0) && negb (prec =? 0) then [48] else []) ++ digits 32 upper base v.

Definition emit_uint (c : pctx) (v base : Z) (upper : bool) (width prec : Z)
    (flag_zero flag_left : bool) : option pctx :=
  let tmp := tmp_digits upper base v prec in
  let len := Z.of_nat (length tmp) in
  let tmp := if len <? prec then tmp ++ repeat 48 (Z.to_nat (prec - len)) else tmp in
  if 33 <? Z.of_nat (length tmp) then None
  else
    let len := Z.of_nat (length tmp) in
    let npad := if len <? width then width - len else 0 in
    let c := if negb flag_left && negb flag_zero then ppad c 32 npad else c in
    let c := if negb flag_left && flag_zero && (prec <? 0) then ppad c 48 npad else c in
    let c := pputn c (rev tmp) in
    Some (if flag_left then ppad c 32 npad else c).

(** [for (int i = 0; i < prec - n; i++) num[n++] = '0']: [n] grows while it is
    compared with, so the loop stops half way. *)
Fixpoint pad_num (fuel : nat) (i prec : Z) (num : list Z) : list Z :=
  match fuel with
  | O => num
  | S fuel =>
      if i <? prec - Z.of_nat (length num) then pad_num fuel (i + 1) prec (num ++ [48]) else num
  end.

Definition emit_sign (c : pctx) (neg flag_plus flag_space : bool) : pctx :=
  if neg then pput c 45 else if flag_plus then pput c 43 else if flag_space then pput c 32 else c.

Definition emit_int (c : pctx) (v width prec : Z) (flag_zero flag_left flag_plus flag_space : bool)
  : option pctx :=
  let neg := v <? 0 in
  let u := if neg then u32 (- v) else u32 v in
  let signw := if neg || flag_plus || flag_space then 1 else 0 in
  let eff_width := Z.max 0 (width - signw) in
  if flag_zero && negb flag_left && (prec <? 0) then
    emit_uint (emit_sign c neg flag_plus flag_space) u 10 false eff_width prec true false
  else
    let num := tmp_digits false 10 u prec in
    let num := if Z.of_nat (length num) <? prec then pad_num (Z.to_nat prec) 0 prec num else num in
    if 34 <? Z.of_nat (length num) then None
    else
      let len := Z.of_nat (length num) + signw in
      let pad := if len <? width then width - len else 0 in
      let c := if negb flag_left then ppad c 32 pad else c in
      let c := emit_sign c neg flag_plus flag_space in
      let c := pputn c (rev num) in
      Some (if flag_left then ppad c 32 pad else c).

(** ** Doubles *)

Definition f64_of_bits (u : Z) : spec_float :=
  let s := Z.testbit u 63 in
  let e := Z.land (u ≫ 52) 0x7ff in
  let m := Z.land u 0xfffffffffffff in
  if e =? 0x7ff then (if m =? 0 then S754_infinity s else S754_nan)
  else if e =? 0 then
    match m with Zpos p => S754_finite s p (-1074) | _ => S754_zero s end
  else
    match m + 0x10000000000000 with Zpos p => S754_finite s p (e - 1075) | _ => S754_nan end.

Definition f64_mul : spec_float -> spec_float -> spec_float := SFmul 53 1024.
Definition f64_add : spec_float -> spec_float -> spec_float := SFadd 53 1024.
Definition f64_sub : spec_float -> spec_float -> spec_float := SFsub 53 1024.
(** [(double)n]. *)
Definition f64_of_Z (n : Z) : spec_float := binary_normalize 53 1024 n 0 false.
(** [(unsigned long)v]: truncation, undefined outside of 32 bits. *)
Definition f64_to_ulong (v : spec_float) : option Z :=
  match v with
  | S754_zero _ => Some 0
  | S754_finite s m e =>
      let n := if 0 <=? e then Zpos m * 2 ^ e else Zpos m / 2 ^ (- e) in
      if s then (if n =? 0 then Some 0 else None)
      else if n <? 2 ^ 32 then Some n else None
  | _ => None
  end.

Definition f64_half : spec_float := f64_of_bits 0x3fe0000000000000.
Definition f64_tenth : spec_float := f64_of_bits 0x3fb999999999999a.

Definition pow10d (e : Z) : spec_float :=
  if 0 <=? e then Nat.iter (Z.to_nat e) (fun v => f64_mul v (f64_of_Z 10)) (f64_of_Z 1)
  else Nat.iter (Z.to_nat (- e)) (fun v => f64_mul v f64_tenth) (f64_of_Z 1).

(** The [fpart] digits, least significant first. *)
Fixpoint frac_digits (prec : nat) (fpart : Z) : list Z :=
  match prec with
  | O => []
  | S prec => 48 + fpart mod 10 :: frac_digits prec (fpart / 10)
  end.

Definition is_nan64 (u : Z) : bool := negb (Z.land u (2 ^ 52 - 1) =? 0).

(** [v] is given by its bits; the fraction buffer has 20 characters. *)
Definition emit_double_fixed (c : pctx) (u : Z) (prec : Z) (flag_plus flag_space : bool)
  : option pctx :=
  let prec := if prec <? 0 then 6 else prec in
  let neg := Z.testbit u 63 in
  let v := if neg then SFopp (f64_of_bits u) else f64_of_bits u in
  if Z.land (u ≫ 52) 0x7ff =? 0x7ff then
    Some (if is_nan64 u then pputn c (cstr "nan")
          else pputn (emit_sign c neg flag_plus flag_space) (cstr "inf"))
  else
    let scale := pow10d prec in
    match f64_to_ulong v with
    | None => None
    | Some ipart =>
        match f64_to_ulong (f64_add (f64_mul (f64_sub v (f64_of_Z ipart)) scale) f64_half) with
        | None => None
        | Some fpart =>
            let pow := Nat.iter (Z.to_nat prec) (fun p => u32 (p * 10)) 1 in
            let '(fpart, ipart) :=
              if pow <=? fpart then (u32 (fpart - pow), u32 (ipart + 1)) else (fpart, ipart) in
            let c := emit_sign c neg flag_plus flag_space in
            let c := pputn c (dec ipart) in
            if 0 <? prec then
              if 20 <? prec then None
              else Some (pputn (pput c 46) (rev (frac_digits (Z.to_nat prec) fpart)))
            else Some c
        end
    end.

(** The index of the first dot, or the length. *)
Fixpoint find_dot (s : list Z) : nat :=
  match s with
  | [] => O
  | c :: s => if c =? 46 then O else S (find_dot s)
  end.

(** [while (end > dot + 1 && tbuf[end - 1] == '0') end--]. *)
Fixpoint trim_zeros (fuel : nat) (tbuf : list Z) (dot end_ : nat) : nat :=
  match fuel with
  | O => end_
  | S fuel =>
      if ((dot + 1 <? end_)%nat && (nth (end_ - 1) tbuf 0 =? 48)) then trim_zeros fuel tbuf dot (end_ - 1)
      else end_
  end.

Definition emit_double_g (c : pctx) (u : Z) (prec : Z) (flag_plus flag_space : bool) : option pctx :=
  let prec := if prec <=? 0 then 6 else prec in
  match emit_double_fixed (PCtx (Some (repeat 0 64)) 64 0) u (prec - 1) flag_plus flag_space with
  | None => None
  | Some tmp =>
      let tbuf := default [] (pbuf tmp) in
      let len := Z.to_nat (if pcap tmp <=? ppos tmp then pcap tmp - 1 else ppos tmp) in
      let dot := find_dot (take len tbuf) in
      let len :=
        if (dot <? len)%nat then
          let end_ := trim_zeros len tbuf dot len in
          if (end_ =? dot + 1)%nat then dot else end_
        else len in
      Some (pputn c (take len tbuf))
  end.

(** ** The format loop *)

(** An argument: a 32-bit word ([int], [long] or a pointer that is printed), a
    string pointer with the string behind it, or the bits of a [double]. *)
Inductive varg := AWord (w : Z) | AStr (s : option (list Z)) | ADouble (u : Z).

Record flags := Flags {
  flag_left : bool; flag_plus : bool; flag_zero : bool; flag_space : bool; flag_hash : bool }.

Definition no_flags : flags := Flags false false false false false.

Fixpoint parse_flags (fl : flags) (fmt : list Z) : flags * list Z :=
  match fmt with
  | c :: rest =>
      let 'Flags l p z s h := fl in
      if c =? 45 then parse_flags (Flags true p z s h) rest
      else if c =? 43 then parse_flags (Flags l true z s h) rest
      else if c =? 48 then parse_flags (Flags l p true s h) rest
      else if c =? 32 then parse_flags (Flags l p z true h) rest
      else if c =? 35 then parse_flags (Flags l p z s true) rest
      else (fl, fmt)
  | [] => (fl, fmt)
  end.

Definition is_digit (c : Z) : bool := (48 <=? c) && (c <=? 57).

Fixpoint parse_num (acc : Z) (fmt : list Z) : Z * list Z :=
  match fmt with
  | c :: rest => if is_digit c then parse_num (i32 (acc * 10 + (c - 48))) rest else (acc, fmt)
  | [] => (acc, fmt)
  end.

(** A [*] or a number. *)
Definition parse_width (fmt : list Z) (args : list varg) : option (Z * list Z * list varg) :=
  match fmt with
  | 42 :: rest => match args with AWord w :: args => Some (i32 w, rest, args) | _ => None end
  | _ => let '(n, rest) := parse_num 0 fmt in Some (n, rest, args)
  end.

Definition parse_prec (fmt : list Z) (args : list varg) : option (Z * list Z * list varg) :=
  match fmt with
  | 46 :: rest => parse_width rest args
  | _ => Some (-1, fmt, args)
  end.

(** [l], [h], [z], [t], [L], [j]: [int] and [long] have the same width. *)
Fixpoint skip_length (fmt : list Z) : list Z :=
  match fmt with
  | c :: rest =>
      if (c =? 108) || (c =? 104) || (c =? 122) || (c =? 116) || (c =? 76) || (c =? 106)
      then skip_length rest else fmt
  | [] => []
  end.

(** [while (s[n] && (prec < 0 || n < prec)) n++]. *)
Definition clip (prec : Z) (s : list Z) : list Z := if prec <? 0 then s else take (Z.to_nat prec) s.

(** [pad] spaces on one side of [s]. *)
Definition emit_padded (c : pctx) (s : list Z) (width : Z) (left : bool) : pctx :=
  let n := Z.of_nat (length s) in
  let pad := if n <? width then width - n else 0 in
  let c := if negb left then ppad c 32 pad else c in
  let c := pputn c s in
  if left then ppad c 32 pad else c.

(** The [switch (conv)]. *)
Definition convert (c : pctx) (conv : Z) (fl : flags) (width prec : Z) (args : list varg)
  : option (pctx * list varg) :=
  let unsigned base upper prefix :=
    match args with
    | AWord w :: args =>
        let v := u32 w in
        let c := if flag_hash fl && negb (v =? 0) then pputn c prefix else c in
        match emit_uint c v base upper width prec (flag_zero fl) (flag_left fl) with
        | Some c => Some (c, args)
        | None => None
        end
    | _ => None
    end in
  if (conv =? 100) || (conv =? 105) then                                   (* d i *)
    match args with
    | AWord w :: args =>
        match emit_int c (i32 w) width prec (flag_zero fl) (flag_left fl) (flag_plus fl) (flag_space fl) with
        | Some c => Some (c, args)
        | None => None
        end
    | _ => None
    end
  else if conv =? 117 then unsigned 10 false []                            (* u *)
  else if conv =? 120 then unsigned 16 false (cstr "0x")                   (* x *)
  else if conv =? 88 then unsigned 16 true (cstr "0X")                     (* X *)
  else if conv =? 111 then unsigned 8 false []                             (* o *)
  else if conv =? 112 then                                                 (* p *)
    match args with
    | AWord w :: args =>
        match emit_uint (pputn c (cstr "0x")) (u32 w) 16 false 0 8 true false with
        | Some c => Some (c, args)
        | None => None
        end
    | _ => None
    end
  else if conv =? 115 then                                                 (* s *)
    match args with
    | AStr s :: args =>
        Some (emit_padded c (clip prec (default (cstr "(null)") s)) width (flag_left fl), args)
    | _ => None
    end
  else if conv =? 99 then                                                  (* c *)
    match args with
    | AWord w :: args => Some (emit_padded c [u8 w] width (flag_left fl), args)
    | _ => None
    end
  else if (conv =? 102) || (conv =? 70) then                               (* f F *)
    match args with
    | ADouble u :: args =>
        match emit_double_fixed c u prec (flag_plus fl) (flag_space fl) with
        | Some c => Some (c, args)
        | None => None
        end
    | _ => None
    end
  else if (conv =? 103) || (conv =? 71) || (conv =? 101) || (conv =? 69) then  (* g G e E *)
    match args with
    | ADouble u :: args =>
        match emit_double_g c u (if prec <? 0 then 6 else prec) (flag_plus fl) (flag_space fl) with
        | Some c => Some (c, args)
        | None => None
        end
    | _ => None
    end
  else if conv =? 37 then Some (pput c 37, args)                           (* %% *)
  else Some (pput (pput c 37) conv, args).

(** Every round consumes a character of [fmt]. *)
Fixpoint format (fuel : nat) (c : pctx) (fmt : list Z) (args : list varg) : option pctx :=
  match fuel with
  | O => None
  | S fuel =>
      match fmt with
      | [] => Some c
      | ch :: fmt =>
          if negb (ch =? 37) then format fuel (pput c ch) fmt args
          else
            let '(fl, fmt) := parse_flags no_flags fmt in
            match parse_width fmt args with
            | None => None
            | Some (width, fmt, args) =>
                match parse_prec fmt args with
                | None => None
                | Some (prec, fmt, args) =>
                    match skip_length fmt with
                    | [] => None
                    | conv :: fmt =>
                        match convert c conv fl width prec args with
                        | None => None
                        | Some (c, args) => format fuel c fmt args
                        end
                    end
                end
            end
      end
  end.

(** The buffer afterwards and the result.  [buf] is the memory behind the
    pointer: an index past it is a write out of bounds. *)
Definition vsnprintf (buf : option (list Z)) (cap : Z) (fmt : list Z) (args : list varg)
  : option (option (list Z) * Z) :=
  match format (S (length fmt)) (PCtx buf cap 0) fmt args with
  | None => None
  | Some c =>
      match pbuf c with
      | Some b =>
          if 0 <? pcap c then
            let k := if ppos c <? pcap c then ppos c else pcap c - 1 in
            if Z.of_nat (length b) <=? k then None
            else Some (Some (<[Z.to_nat k := 0]> b), i32 (ppos c))
          else Some (Some b, i32 (ppos c))
      | None => Some (None, i32 (ppos c))
      end
  end.

Definition snprintf := vsnprintf.
Definition sprintf (buf : list Z) := vsnprintf (Some buf) 0x7fffffff.

(** The bytes written to file descriptor 1 and the result; [buf] is the
    uninitialized stack buffer. *)
Definition vprintf (buf : list Z) (fmt : list Z) (args : list varg) : option (list Z * Z) :=
  match vsnprintf (Some buf) 1024 fmt args with
  | None => None
  | Some (b, n) =>
      let n := if 1023 <? n then 1023 else n in
      Some (take (Z.to_nat n) (default [] b), n)
  end.

Definition printf := vprintf.

(** ** The FILE surface

    A [FILE *] is null or the object with its descriptor; [rv_write] appends to
    a trace of (descriptor, bytes). *)

Definition stdin : option Z := Some 0.
Definition stdout : option Z := Some 1.
Definition stderr : option Z := Some 2.
Definition fd_of (f : option Z) : Z := default 1 f.
Abbreviation writes := (list (Z * list Z)).

Definition puts (s : list Z) : writes * Z := ([(1, s); (1, [10])], 0).
Definition fputc (c : Z) (f : option Z) : writes * Z := ([(fd_of f, [u8 c])], c).
Definition putc := fputc.
Definition putchar (c : Z) : writes * Z := fputc c stdout.
Definition fputs (s : list Z) (f : option Z) : writes * Z := ([(fd_of f, s)], 0).
(** [p] is the memory read from; fewer than [sz * n] bytes there is undefined. *)
Definition fwrite (p : list Z) (sz n : Z) (f : option Z) : option (writes * Z) :=
  let total := u32 (sz * n) in
  if Z.of_nat (length p) <? total then None
  else Some ([(fd_of f, take (Z.to_nat total) p)], n).
Definition vfprintf (buf : list Z) (f : option Z) (fmt : list Z) (args : list varg)
  : option (writes * Z) :=
  match vsnprintf (Some buf) 1024 fmt args with
  | None => None
  | Some (b, n) =>
      let n := if 1023 <? n then 1023 else n in
      Some ([(fd_of f, take (Z.to_nat n) (default [] b))], n)
  end.
Definition fprintf := vfprintf.

(** The reading half and the file system are constants. *)
Definition fflush (f : option Z) : Z := 0.
Definition fread (sz n : Z) (f : option Z) : Z := 0.
Definition feof (f : option Z) : Z := 1.
Definition ferror (f : option Z) : Z := 0.
Definition fgetc (f : option Z) : Z := -1.
Definition getc := fgetc.
Definition getchar : Z := fgetc stdin.
Definition fgets (s : list Z) (n : Z) (f : option Z) : option (list Z) := None.
Definition fseek (f : option Z) (o w : Z) : Z := -1.
Definition ftell (f : option Z) : Z := -1.
Definition setvbuf (f : option Z) (m s : Z) : Z := 0.
Definition ungetc (c : Z) (f : option Z) : Z := -1.
Definition fopen (p m : list Z) : option Z := None.
Definition freopen (p m : list Z) (f : option Z) : option Z := None.
Definition fclose (f : option Z) : Z := 0.
Definition tmpfile : option Z := None.
Definition tmpnam (s : list Z) : option (list Z) := None.
Definition remove (p : list Z) : Z := -1.
Definition rename (o n : list Z) : Z := -1.
Definition sscanf (s fmt : list Z) : Z := 0.

(** ** Emission: what a printer appends does not depend on where it goes *)

Lemma pputn_app c s t : pputn c (s ++ t) = pputn (pputn c s) t.
Proof. apply fold_left_app. Qed.

Lemma pput_u8 c ch : pput c (u8 ch) = pput c ch.
Proof. unfold pput. by rewrite wrap_wrap. Qed.

Lemma pputn_bytes s : exists t, bytes t /\ length t = length s /\ forall c, pputn c s = pputn c t.
Proof.
  exists (map u8 s). split_and!.
  - apply List.Forall_map, Forall_true. intros x. apply (wrap_range 8). lia.
  - apply length_map.
  - induction s as [|x s IH]; intros c; [done|]. cbn [pputn fold_left map]. rewrite pput_u8. apply IH.
Qed.

(** [f] appends a fixed text, or is undefined in every context. *)
Definition Emits (f : pctx -> option pctx) : Prop :=
  (forall c, f c = None) \/ exists t, forall c, f c = Some (pputn c t).

Definition Appends (f : pctx -> pctx) : Prop := exists t, forall c, f c = pputn c t.

Lemma appends_pputn s : Appends (fun c => pputn c s).
Proof. by exists s. Qed.
Lemma appends_id : Appends (fun c => c).
Proof. by exists []. Qed.
Lemma appends_pput ch : Appends (fun c => pput c ch).
Proof. by exists [ch]. Qed.
Lemma appends_ppad ch n : Appends (fun c => ppad c ch n).
Proof. by exists (repeat ch (Z.to_nat n)). Qed.
Lemma appends_comp f g : Appends f -> Appends g -> Appends (fun c => g (f c)).
Proof. intros [s Hs] [t Ht]. exists (s ++ t). intros c. by rewrite Ht, Hs, pputn_app. Qed.
Lemma appends_if (b : bool) f g : Appends f -> Appends g -> Appends (fun c => if b then f c else g c).
Proof. by destruct b. Qed.
Lemma emits_some f : Appends f -> Emits (fun c => Some (f c)).
Proof. intros [t Ht]. right. exists t. intros c. by rewrite Ht. Qed.
Lemma emits_none : Emits (fun _ => None).
Proof. by left. Qed.
Lemma emits_if (b : bool) f g : Emits f -> Emits g -> Emits (fun c => if b then f c else g c).
Proof. by destruct b. Qed.
Lemma emits_after f g : Appends f -> Emits g -> Emits (fun c => g (f c)).
Proof.
  intros [s Hs] [Hg|[t Ht]]; [left|right; exists (s ++ t)]; intros c; [apply Hg|].
  by rewrite Ht, Hs, pputn_app.
Qed.

Create HintDb emits.
#[export] Hint Resolve appends_pputn appends_id appends_pput appends_ppad appends_if emits_some
  emits_none emits_if : emits.

Lemma appends_sign neg fp fs : Appends (fun c => emit_sign c neg fp fs).
Proof. unfold emit_sign. auto with emits. Qed.
#[export] Hint Resolve appends_sign : emits.

Lemma appends_padded s width left : Appends (fun c => emit_padded c s width left).
Proof.
  unfold emit_padded. set (pad := if _ <? _ then _ else _).
  apply (appends_comp (fun c => pputn (if negb left then ppad c 32 pad else c) s)
           (fun c => if left then ppad c 32 pad else c)); [|auto with emits].
  apply (appends_comp _ (fun c => pputn c s)); auto with emits.
Qed.

Lemma emits_uint v base upper width prec fz fl :
  Emits (fun c => emit_uint c v base upper width prec fz fl).
Proof.
  unfold emit_uint. apply emits_if; [apply emits_none|].
  set (pad := if _ <? width then _ else _). set (tmp := if _ <? prec then _ else _).
  apply emits_some, (appends_comp
    (fun c => pputn (if negb fl && fz && (prec <? 0) then
                       ppad (if negb fl && negb fz then ppad c 32 pad else c) 48 pad
                     else if negb fl && negb fz then ppad c 32 pad else c) (rev tmp))
    (fun c => if fl then ppad c 32 pad else c)); [|auto with emits].
  apply (appends_comp _ (fun c => pputn c (rev tmp))); [|auto with emits].
  apply (appends_comp (fun c => if negb fl && negb fz then ppad c 32 pad else c)
           (fun c => if negb fl && fz && (prec <? 0) then ppad c 48 pad else c)); auto with emits.
Qed.

#[export] Hint Resolve appends_padded emits_uint : emits.

Lemma emits_int v width prec fz fl fp fs : Emits (fun c => emit_int c v width prec fz fl fp fs).
Proof.
  unfold emit_int. apply emits_if.
  - apply (emits_after (fun c => emit_sign c (v <? 0) fp fs)
             (fun c => emit_uint c _ 10 false _ prec true false)); auto with emits.
  - apply emits_if; [apply emits_none|].
    set (pad := if _ <? width then _ else _). set (num := if _ <? prec then _ else _).
    apply emits_some, (appends_comp
      (fun c => pputn (emit_sign (if negb fl then ppad c 32 pad else c) (v <? 0) fp fs) (rev num))
      (fun c => if fl then ppad c 32 pad else c)); [|auto with emits].
    apply (appends_comp _ (fun c => pputn c (rev num))); [|auto with emits].
    apply (appends_comp (fun c => if negb fl then ppad c 32 pad else c)
             (fun c => emit_sign c (v <? 0) fp fs)); [auto with emits|apply appends_sign].
Qed.
#[export] Hint Resolve emits_int : emits.

Lemma emits_double_fixed u prec fp fs : Emits (fun c => emit_double_fixed c u prec fp fs).
Proof.
  unfold emit_double_fixed. apply emits_if.
  { apply emits_some, appends_if; [apply appends_pputn|].
    apply (appends_comp (fun c => emit_sign c (Z.testbit u 63) fp fs) (fun c => pputn c (cstr "inf")));
      auto with emits. }
  destruct (f64_to_ulong _) as [ipart|]; [|apply emits_none].
  destruct (f64_to_ulong _) as [fpart|]; [|apply emits_none].
  set (pw := Nat.iter _ _ _). clearbody pw.
  destruct (if pw <=? fpart then _ else _) as [fpart' ipart'].
  assert (forall s, Appends (fun c => pputn (emit_sign c (Z.testbit u 63) fp fs) s)) as Hs.
  { intros s. apply (appends_comp (fun c => emit_sign c (Z.testbit u 63) fp fs) (fun c => pputn c s));
      auto with emits. }
  repeat apply emits_if; [apply emits_none| |by apply emits_some].
  apply emits_some. eapply (appends_comp _ (fun c => pputn (pput c 46) _)); [apply Hs|].
  apply (appends_comp (fun c => pput c 46) (fun c => pputn c _)); auto with emits.
Qed.

Lemma emits_double_g u prec fp fs : Emits (fun c => emit_double_g c u prec fp fs).
Proof.
  unfold emit_double_g. destruct (emit_double_fixed _ _ _ _ _); auto with emits.
Qed.
#[export] Hint Resolve emits_double_fixed emits_double_g : emits.

(** The same with the arguments left over. *)
Definition EmitsArgs (f : pctx -> option (pctx * list varg)) : Prop :=
  (forall c, f c = None) \/ exists t args, forall c, f c = Some (pputn c t, args).

Lemma emits_args_if (b : bool) f g :
  EmitsArgs f -> EmitsArgs g -> EmitsArgs (fun c => if b then f c else g c).
Proof. by destruct b. Qed.

Lemma emits_args_some f args : Appends f -> EmitsArgs (fun c => Some (f c, args)).
Proof. intros [t Ht]. right. exists t, args. intros c. by rewrite Ht. Qed.

Lemma emits_args_of f args :
  Emits f -> EmitsArgs (fun c => match f c with Some c => Some (c, args) | None => None end).
Proof.
  intros [Hf|[t Ht]]; [left|right; exists t, args]; intros c; [by rewrite Hf|by rewrite Ht].
Qed.

Lemma convert_emits conv fl width prec args : EmitsArgs (fun c => convert c conv fl width prec args).
Proof.
  unfold convert. repeat apply emits_args_if.
  all: try (apply emits_args_some; auto with emits; fail).
  all: try (destruct args as [|[w|s|u] args]; try (by left);
            first [ apply emits_args_some; auto with emits; fail
                  | apply emits_args_of;
                    first [ auto with emits; fail
                          | apply (emits_after (fun c => if _ : bool then pputn c _ else c)
                                     (fun c => emit_uint c _ _ _ _ _ _ _)); auto with emits; fail
                          | apply (emits_after (fun c => pputn c (cstr "0x"))
                                     (fun c => emit_uint c _ _ _ _ _ _ _)); auto with emits; fail ] ]).
  apply emits_args_some, (appends_comp (fun c => pput c 37) (fun c => pput c conv)); auto with emits.
Qed.

Lemma format_emits fuel fmt args : Emits (fun c => format fuel c fmt args).
Proof.
  revert fmt args; induction fuel as [|fuel IH]; intros fmt args; cbn [format]; [by left|].
  destruct fmt as [|ch fmt]; [auto with emits|]. apply emits_if.
  { apply (emits_after (fun c => pput c ch) (fun c => format fuel c fmt args)); auto with emits. }
  destruct (parse_flags no_flags fmt) as [fl fmt'].
  destruct (parse_width fmt' args) as [[[width fmt2] args2]|]; [|by left].
  destruct (parse_prec fmt2 args2) as [[[prec fmt3] args3]|]; [|by left].
  destruct (skip_length fmt3) as [|conv fmt4]; [by left|].
  destruct (convert_emits conv fl width prec args3) as [Hn|(t & args' & Ht)].
  { left. intros c. by rewrite Hn. }
  destruct (IH fmt4 args') as [Hn|[t' Ht']].
  - left. intros c. by rewrite Ht.
  - right. exists (t ++ t'). intros c. by rewrite Ht, Ht', pputn_app.
Qed.

(** The context after [t]: its first [k] bytes are in the buffer. *)
Lemma pputn_buf t b cap :
  bytes t -> Z.of_nat (length t) < 2 ^ 31 -> 0 <= cap < 2 ^ 32 ->
  let k := Z.to_nat (Z.min (Z.of_nat (length t)) (cap - 1)) in
  (k <= length b)%nat ->
  pputn (PCtx (Some b) cap 0) t =
  PCtx (Some (take k t ++ drop k b)) cap (Z.of_nat (length t)).
Proof.
  induction t as [|x t IH] using rev_ind; intros Hb Hl Hc k Hk.
  { subst k. by replace (Z.to_nat _) with 0%nat by (cbn; lia). }
  apply Forall_app in Hb as [Hb Hx]. apply (proj1 (Forall_singleton _ _)) in Hx.
  rewrite length_app in Hl. cbn in Hl. subst k. rewrite length_app in *. cbn [length] in *.
  rewrite pputn_app, IH by (try done; lia). cbn [pputn fold_left]. unfold pput. cbn [pbuf pcap ppos].
  rewrite (wrap_small 32) by lia. rewrite (wrap_small 8) by exact Hx.
  f_equal; [f_equal|lia]. destruct (Z.ltb_spec (Z.of_nat (length t) + 1) cap).
  - replace (Z.to_nat (Z.min (Z.of_nat (length t)) (cap - 1))) with (length t) by lia.
    replace (Z.to_nat (Z.min (Z.of_nat (length t + 1)) (cap - 1))) with (length (t ++ [x]))
      by (rewrite length_app; cbn; lia).
    rewrite Nat2Z.id, !firstn_all.
    destruct (drop (length t) b) as [|y d] eqn:Ed.
    { apply (f_equal length) in Ed. rewrite length_drop in Ed. cbn in Ed. lia. }
    rewrite length_app. cbn [length]. rewrite <-drop_drop, Ed.
    replace (length t) with (length t + 0)%nat at 1 by lia. rewrite insert_app_r. cbn.
    by rewrite <-app_assoc.
  - replace (Z.to_nat (Z.min (Z.of_nat (length t + 1)) (cap - 1)))
      with (Z.to_nat (Z.min (Z.of_nat (length t)) (cap - 1))) by lia.
    by rewrite take_app_le by lia.
Qed.

Lemma pputn_length t b cap :
  Z.of_nat (length t) < 2 ^ 31 ->
  exists b', length b' = length b /\
    pputn (PCtx (Some b) cap 0) t = PCtx (Some b') cap (Z.of_nat (length t)).
Proof.
  induction t as [|x t IH] using rev_ind; intros Hl; [by exists b|].
  rewrite length_app in *. cbn in Hl. destruct IH as (b' & Hb' & E); [lia|].
  rewrite pputn_app, E. cbn. unfold pput. cbn. rewrite (wrap_small 32) by lia.
  replace (Z.of_nat (length t) + 1) with (Z.of_nat (length t + 1)) by lia.
  destruct (_ <? cap); eexists; (split; [|reflexivity]); [by rewrite length_insert|done].
Qed.

Lemma pputn_null t cap :
  Z.of_nat (length t) < 2 ^ 31 -> pputn (PCtx None cap 0) t = PCtx None cap (Z.of_nat (length t)).
Proof.
  induction t as [|x t IH] using rev_ind; intros Hl; [done|].
  rewrite length_app in *. cbn in Hl.
  rewrite pputn_app, IH by lia. cbn. unfold pput. cbn. rewrite (wrap_small 32) by lia. f_equal. lia.
Qed.

(** C40: What a format and its arguments print does not depend on the buffer:
    either the call is undefined for every buffer, or there is one text such
    that, unless it reaches 2 GiB, [vsnprintf] returns its length, stores
    the longest prefix that leaves room for the NUL, then the NUL, leaves the
    rest of the buffer as it was, and writes out of bounds only when the buffer
    is shorter than both the text with its NUL and [cap]. *)
Theorem vsnprintf_bounds fmt args :
  (forall buf cap, vsnprintf buf cap fmt args = None) \/
  exists text, bytes text /\
    (2 ^ 31 <= Z.of_nat (length text) \/ forall cap, 0 <= cap < 2 ^ 32 ->
       let n := Z.of_nat (length text) in
       let k := Z.to_nat (Z.min n (cap - 1)) in
       vsnprintf None cap fmt args = Some (None, n) /\
       forall b,
         (cap = 0 -> vsnprintf (Some b) cap fmt args = Some (Some b, n)) /\
         (0 < cap -> (k < length b)%nat ->
            vsnprintf (Some b) cap fmt args = Some (Some (take k text ++ 0 :: drop (S k) b), n)) /\
         (0 < cap -> (length b <= k)%nat -> vsnprintf (Some b) cap fmt args = None)).
Proof.
  destruct (format_emits (S (length fmt)) fmt args) as [Hn|[t Ht]].
  { left. intros buf cap. unfold vsnprintf. by rewrite Hn. }
  destruct (pputn_bytes t) as (text & Hb & _ & Htext). right. exists text. split; [done|].
  destruct (Z.le_gt_cases (2 ^ 31) (Z.of_nat (length text))) as [Hl|Hl]; [by left|right].
  intros cap Hc n k.
  assert (forall buf, format (S (length fmt)) (PCtx buf cap 0) fmt args = Some (pputn (PCtx buf cap 0) text))
    as Hf by (intros buf; by rewrite Ht, Htext).
  assert (forall m, 0 <= m < 2 ^ 31 -> i32 m = m) as Hi by (intros m ?; apply (signed_small 32); lia).
  split; [unfold vsnprintf; rewrite Hf, pputn_null by done; cbn; by rewrite Hi by lia|].
  intros b. unfold vsnprintf. rewrite Hf. split_and!.
  - intros ->. rewrite pputn_buf by (try done; lia). cbn [pbuf pcap ppos].
    replace (Z.to_nat _) with 0%nat by lia. rewrite take_0. cbn. by rewrite Hi by lia.
  - intros Hp Hk. rewrite pputn_buf by (try done; fold n k; lia). fold n k. cbn [pbuf pcap ppos].
    destruct (Z.ltb_spec 0 cap); [|lia].
    assert ((if n <? cap then n else cap - 1) = Z.of_nat k) as -> by (destruct (Z.ltb_spec n cap); lia).
    assert (length (take k text) = k) as Hkt by (rewrite length_take; lia).
    destruct (Z.leb_spec (Z.of_nat (length (take k text ++ drop k b))) (Z.of_nat k)) as [Hle|_].
    { rewrite length_app, length_drop in Hle. lia. }
    rewrite Nat2Z.id, Hi by lia. repeat f_equal.
    rewrite insert_app_r_alt by lia. rewrite Hkt, Nat.sub_diag.
    destruct (drop k b) as [|y d] eqn:Ed.
    { apply (f_equal length) in Ed. rewrite length_drop in Ed. cbn in Ed. lia. }
    replace (S k) with (k + 1)%nat by lia. by rewrite <-drop_drop, Ed.
  - intros Hp Hk. destruct (pputn_length text b cap Hl) as (b' & Hb' & ->). cbn [pbuf pcap ppos].
    destruct (Z.ltb_spec 0 cap); [|lia]. fold n.
    assert ((if n <? cap then n else cap - 1) = Z.of_nat k) as -> by (destruct (Z.ltb_spec n cap); lia).
    destruct (Z.leb_spec (Z.of_nat (length b')) (Z.of_nat k)); [done|lia].
Qed.

(** ** The directives the runtime prints with *)

Lemma digits_fuel n m upper base v :
  2 <= base -> 0 <= v < base ^ Z.of_nat n -> (n <= m)%nat ->
  digits m upper base v = digits n upper base v.
Proof.
  revert m v; induction n as [|n IH]; intros m v Hbase Hv Hm.
  { assert (v = 0) as -> by (cbn in Hv; lia). by destruct m. }
  destruct m as [|m]; [lia|]. cbn [digits]. destruct (Z.eqb_spec v 0); [done|]. f_equal.
  rewrite Nat2Z.inj_succ, Z.pow_succ_r in Hv by lia. apply IH; [lia| |lia].
  split; [apply Z.div_pos; lia|apply Z.div_lt_upper_bound; lia].
Qed.

Lemma length_digits n upper base v : (length (digits n upper base v) <= n)%nat.
Proof.
  revert v; induction n as [|n IH]; intros v; cbn [digits]; [done|].
  destruct (v =? 0); cbn [length]; [lia|]. specialize (IH (v / base)). lia.
Qed.

Lemma digits_dec n v : 0 <= v -> digits n false 10 v = dec_rev n v.
Proof.
  revert v; induction n as [|n IH]; intros v Hv; cbn [digits dec_rev]; [done|].
  destruct (v =? 0); [done|]. pose proof (Z.mod_pos_bound v 10).
  rewrite IH by (apply Z.div_pos; lia). f_equal. unfold digit_char. zcase.
Qed.

Lemma tmp_digits_dec v : 0 <= v < 2 ^ 32 -> rev (tmp_digits false 10 v (-1)) = dec v.
Proof.
  intros Hv. unfold tmp_digits, dec. destruct (Z.eqb_spec v 0); [by subst|]. cbn [andb app].
  rewrite (digits_fuel 10 32), digits_dec by lia.
  rewrite <-(digits_dec 20) by lia. rewrite (digits_fuel 10 20) by lia. by rewrite digits_dec by lia.
Qed.

Lemma length_dec v : 0 <= v < 2 ^ 32 -> (length (dec v) <= 10)%nat.
Proof.
  intros Hv. rewrite <-tmp_digits_dec, length_rev by done. unfold tmp_digits.
  destruct (Z.eqb_spec v 0); [subst; cbn; lia|]. cbn [andb app].
  rewrite (digits_fuel 10 32) by lia. apply length_digits.
Qed.

(** [hex8] is the digits with leading zeros. *)
Lemma hex8_digits v : 0 <= v < 2 ^ 32 ->
  let tmp := tmp_digits false 16 v (-1) in
  (length tmp <= 8)%nat /\ repeat 48 (8 - length tmp) ++ rev tmp = hex8 v.
Proof.
  intros Hv. destruct (Z.eqb_spec v 0) as [->|Hz]; [split; [cbn; lia|reflexivity]|]. intros tmp.
  assert (tmp = digits 8 false 16 v) as ->.
  { subst tmp. unfold tmp_digits. destruct (Z.eqb_spec v 0); [lia|]. cbn [andb app]. apply (digits_fuel 8 32); lia. }
  clear Hz. split; [apply length_digits|].
  assert (forall n v, 0 <= v < 16 ^ Z.of_nat n ->
    repeat 48 (n - length (digits n false 16 v)) ++ rev (digits n false 16 v) =
    rev (map (fun i => hex_digit_of (Z.land (v ≫ (4 * Z.of_nat i)) 0xf)) (seq 0 n))) as H.
  { clear v Hv. induction n as [|n IH]; intros v Hv; [done|].
    rewrite Nat2Z.inj_succ, Z.pow_succ_r in Hv by lia.
    cbn [seq map rev]. rewrite <-seq_shift, map_map.
    rewrite (map_ext _ (fun i => hex_digit_of (Z.land ((v / 16) ≫ (4 * Z.of_nat i)) 0xf))); last first.
    { intros i. f_equal. f_equal. change 16 with (2 ^ 4).
      rewrite <-Z.shiftr_div_pow2, Z.shiftr_shiftr by lia. f_equal. lia. }
    rewrite <-IH by (split; [apply Z.div_pos; lia|apply Z.div_lt_upper_bound; lia]).
    rewrite Z.shiftr_0_r. change 0xf with (Z.ones 4). rewrite Z.land_ones by lia. change (2 ^ 4) with 16.
    cbn [digits]. destruct (Z.eqb_spec v 0) as [->|Hz].
    - change (0 / 16) with 0. assert (digits n false 16 0 = []) as -> by (by destruct n).
      cbn. rewrite !app_nil_r, Nat.sub_0_r. apply (repeat_cons n 48).
    - cbn [length rev Nat.sub]. by rewrite app_assoc. }
  apply (H 8%nat v). done.
Qed.

Lemma emit_int_plain c v width :
  - 2 ^ 31 < v < 2 ^ 31 ->
  let s := (if v <? 0 then [45] else []) ++ dec (Z.abs v) in
  emit_int c v width (-1) false false false false =
  Some (pputn (ppad c 32 (width - Z.of_nat (length s))) s).
Proof.
  intros Hv s. unfold emit_int. cbn [andb negb orb].
  assert ((if v <? 0 then u32 (- v) else u32 v) = Z.abs v) as ->.
  { destruct (Z.ltb_spec v 0); rewrite (wrap_small 32) by lia; lia. }
  pose proof (length_dec (Z.abs v)) as Hl. rewrite <-tmp_digits_dec in Hl by lia.
  rewrite length_rev in Hl.
  destruct (Z.ltb_spec (Z.of_nat (length (tmp_digits false 10 (Z.abs v) (-1)))) (-1)); [lia|].
  destruct (Z.ltb_spec 34 (Z.of_nat (length (tmp_digits false 10 (Z.abs v) (-1))))); [lia|].
  rewrite tmp_digits_dec by lia. subst s. rewrite <-(length_rev (tmp_digits _ _ _ _)), tmp_digits_dec by lia.
  unfold ppad, emit_sign. f_equal. rewrite pputn_app, length_app.
  set (a := Z.to_nat _). set (b := Z.to_nat _).
  assert (a = b) as ->; [|by destruct (v <? 0)].
  subst a b. destruct (v <? 0); cbn [orb length].
  - destruct (Z.ltb_spec (Z.of_nat (length (dec (Z.abs v))) + 1) width); lia.
  - destruct (Z.ltb_spec (Z.of_nat (length (dec (Z.abs v))) + 0) width); lia.
Qed.

(** The directives the runtime prints with append what the other files
    write for them: an ordinary character itself, [%u] the decimal digits,
    [%08x] the eight hexadecimal digits, [%d] and [%*d] the sign and the digits
    right-justified in the width, [%s] the string up to its NUL, [%.*s] at most
    that many of its characters; and the rest of the format goes on with the
    remaining arguments. *)
Theorem printf_directives fuel c fmt args :
  (forall ch, ch <> 37 -> format (S fuel) c (ch :: fmt) args = format fuel (pput c ch) fmt args) /\
  (forall w, 0 <= w < 2 ^ 32 ->
     format (S fuel) c (cstr "%u" ++ fmt) (AWord w :: args) = format fuel (pputn c (dec w)) fmt args /\
     format (S fuel) c (cstr "%08x" ++ fmt) (AWord w :: args) = format fuel (pputn c (hex8 w)) fmt args) /\
  (forall v width, - 2 ^ 31 < v < 2 ^ 31 -> 0 <= width < 2 ^ 31 ->
     let s := (if v <? 0 then [45] else []) ++ dec (Z.abs v) in
     format (S fuel) c (cstr "%d" ++ fmt) (AWord v :: args) = format fuel (pputn c s) fmt args /\
     format (S fuel) c (cstr "%*d" ++ fmt) (AWord width :: AWord v :: args) =
       format fuel (pputn c (repeat 32 (Z.to_nat width - length s) ++ s)) fmt args) /\
  (forall s,
     format (S fuel) c (cstr "%s" ++ fmt) (AStr (Some s) :: args) = format fuel (pputn c s) fmt args /\
     forall n, 0 <= n < 2 ^ 31 ->
       format (S fuel) c (cstr "%.*s" ++ fmt) (AWord n :: AStr (Some s) :: args) =
         format fuel (pputn c (take (Z.to_nat n) s)) fmt args).
Proof.
  split_and!.
  - intros ch Hch. cbn [format]. by destruct (Z.eqb_spec ch 37).
  - intros w Hw. split.
    + change (cstr "%u" ++ fmt) with (37 :: 117 :: fmt). cbn -[emit_uint wrap hex8 dec pputn].
      rewrite (wrap_small 32) by done. unfold emit_uint.
      pose proof (length_dec w Hw) as Hl. rewrite <-tmp_digits_dec, length_rev in Hl by done.
      destruct (Z.ltb_spec (Z.of_nat (length (tmp_digits false 10 w (-1)))) (-1)); [lia|].
      destruct (Z.ltb_spec 33 (Z.of_nat (length (tmp_digits false 10 w (-1))))); [lia|].
      destruct (Z.ltb_spec (Z.of_nat (length (tmp_digits false 10 w (-1)))) 0); [lia|].
      by rewrite tmp_digits_dec.
    + change (cstr "%08x" ++ fmt) with (37 :: 48 :: 56 :: 120 :: fmt).
      cbn -[emit_uint wrap hex8 dec pputn]. rewrite (wrap_small 32) by done. unfold emit_uint.
      destruct (hex8_digits w Hw) as [Hl <-]. cbn [andb negb].
      destruct (Z.ltb_spec (Z.of_nat (length (tmp_digits false 16 w (-1)))) (-1)); [lia|].
      destruct (Z.ltb_spec 33 (Z.of_nat (length (tmp_digits false 16 w (-1))))); [lia|].
      cbn [Z.ltb Z.compare]. unfold ppad. rewrite pputn_app. repeat f_equal.
      change (i32 (0 * 10 + (56 - 48))) with 8. zcase.
  - intros v width Hv Hw s. split.
    + change (cstr "%d" ++ fmt) with (37 :: 100 :: fmt).
      cbn -[emit_int signed pputn dec]. rewrite (signed_small 32) by lia. rewrite emit_int_plain by done.
      fold s. unfold ppad. by replace (Z.to_nat _) with 0%nat by lia.
    + change (cstr "%*d" ++ fmt) with (37 :: 42 :: 100 :: fmt).
      cbn -[emit_int signed pputn dec]. rewrite !(signed_small 32) by lia. rewrite emit_int_plain by done.
      fold s. unfold ppad. rewrite pputn_app. do 4 f_equal. lia.
  - intros s. split.
    + change (cstr "%s" ++ fmt) with (37 :: 115 :: fmt). cbn -[pputn emit_padded]. unfold emit_padded. cbn [negb].
      by destruct (Z.ltb_spec (Z.of_nat (length s)) 0); [lia|].
    + intros n Hn. change (cstr "%.*s" ++ fmt) with (37 :: 46 :: 42 :: 115 :: fmt).
      cbn -[pputn emit_padded signed clip]. rewrite (signed_small 32) by lia.
      unfold clip. destruct (Z.ltb_spec n 0); [lia|]. unfold emit_padded. cbn [negb].
      by destruct (Z.ltb_spec (Z.of_nat (length (take (Z.to_nat n) s))) 0); [lia|].
Qed.

Lemma printf_directives_witness :
  format 4 (PCtx None 0 0) (cstr "%u" ++ []) [AWord 12] = format 3 (pputn (PCtx None 0 0) (dec 12)) [] [] /\
  format 4 (PCtx None 0 0) (cstr "%*d" ++ []) [AWord 5; AWord (-3)] =
    format 3 (pputn (PCtx None 0 0) (repeat 32 3 ++ cstr "-3")) [] [].
Proof.
  destruct (printf_directives 3 (PCtx None 0 0) [] []) as (_ & Hu & Hd & _). split.
  - apply (proj1 (Hu 12 ltac:(lia))).
  - apply (proj2 (Hd (-3) 5 ltac:(lia) ltac:(lia))).
Defined.

(** The loop that pads to the precision in [emit_int] tests against the length it
    is growing, and a zero flag with a precision pads nowhere in [emit_uint]. *)
Lemma printf_precision_pads_half :
  vsnprintf (Some (repeat 0 8)) 8 (cstr "%.5d") [AWord 7] = Some (Some (cstr "007" ++ repeat 0 5), 3) /\
  vsnprintf (Some (repeat 0 8)) 8 (cstr "%.5u") [AWord 7] = Some (Some (cstr "00007" ++ repeat 0 3), 5) /\
  vsnprintf (Some (repeat 0 8)) 8 (cstr "%06.2x") [AWord 7] = Some (Some (cstr "07" ++ repeat 0 6), 2).
Proof. split_and!; vm_compute; reflexivity. Qed.

(** A precision of 34 writes past the digit buffer of [emit_uint]. *)
Lemma printf_precision_overruns : vsnprintf None 0 (cstr "%.34u") [AWord 7] = None.
Proof. reflexivity. Qed.

(** [%g] trims the zeros [%f] prints, and every number is printed in fixed
    notation. *)
Example printf_doubles :
  snprintf (Some (repeat 0 16)) 16 (cstr "%.3f|%g") [ADouble 0x3ff8000000000000; ADouble 0x3ff8000000000000] =
  Some (Some (cstr "1.500|1.5" ++ repeat 0 7), 9).
Proof. vm_compute. reflexivity. Qed.
