(* ===== verification/Tracked.v ===== *)
(** * The tracked-region registry (spikes/spike-k/cart_runtime/runtime_tracked)

    The string sink the [describe] callbacks print into, the callback record
    of a region, and the registry walker.  A region of type [A] is a C global;
    a cart's globals form one state [S], and a registered region reads and
    writes its own part of it. *)

From S2P Require Import Prelude Layout.

(** ** String sink *)

(** [sbuf] holds the [pos] characters written so far. *)
Record string_sink_t := Sink { sbuf : list Z; cap : Z; overflowed : bool }.

Definition pos (s : string_sink_t) : Z := Z.of_nat (length (sbuf s)).

Definition string_sink_putc (s : string_sink_t) (c : Z) : string_sink_t :=
  if cap s <? pos s + 1 then {| sbuf := sbuf s; cap := cap s; overflowed := true |}
  else {| sbuf := sbuf s ++ [c]; cap := cap s; overflowed := overflowed s |}.

(** Stops at the first NUL, as the C loop does. *)
Fixpoint string_sink_puts (s : string_sink_t) (str : list Z) : string_sink_t :=
  match str with
  | [] => s
  | c :: str => if c =? 0 then s else string_sink_puts (string_sink_putc s c) str
  end.

(** [unsigned long] has 32 bits on the guest. *)
Definition string_sink_putu (s : string_sink_t) (v : Z) : string_sink_t :=
  if u32 v =? 0 then string_sink_putc s 48
  else fold_left string_sink_putc (rev (dec_rev 20 (u32 v))) s.

(** ** Regions *)

Record runtime_tracked_region_t (A : Type) := TrackedRegion {
  name : list Z;
  size : Z;
  describe : option (string_sink_t -> string_sink_t);
  save : A -> A * list Z;                    (* the global afterwards, bytes written *)
  load : A -> list Z -> Z -> A * bool;       (* source bytes and their count *)
}.
Arguments TrackedRegion {A}.
Arguments name {A}.
Arguments size {A}.
Arguments describe {A}.
Arguments save {A}.
Arguments load {A}.

(** An entry of [runtime_tracked_regions]: a region and the global it owns. *)
Record region (S : Type) := Region {
  r_ty : Type;
  r_ops : runtime_tracked_region_t r_ty;
  r_get : S -> r_ty;
  r_set : r_ty -> S -> S;
}.
Arguments Region {S r_ty}.
Arguments r_ty {S}.
Arguments r_ops {S}.
Arguments r_get {S}.
Arguments r_set {S}.

Definition region_size {S} (r : region S) : Z := size (r_ops r).

(** [r->save(p)]: the globals afterwards and the bytes stored at [p]. *)
Definition region_save {S} (r : region S) (s : S) : S * list Z :=
  let '(a, bs) := save (r_ops r) (r_get r s) in (r_set r a s, bs).

(** [r->load(p, n)]. *)
Definition region_load {S} (r : region S) (s : S) (src : list Z) (n : Z) : S * bool :=
  let '(a, ok) := load (r_ops r) (r_get r s) src n in (r_set r a s, ok).

(** ** Registry walker *)

Definition describe_region {S} (out : string_sink_t) (r : region S) : string_sink_t :=
  let out := string_sink_puts out (cstr "REGION:") in
  let out := string_sink_puts out (name (r_ops r)) in
  let out := string_sink_puts out (cstr ":size=") in
  let out := string_sink_putu out (region_size r) in
  let out := string_sink_putc out 58 in
  let out := match describe (r_ops r) with Some d => d out | None => out end in
  string_sink_putc out 0.

Definition runtime_tracked_describe {S} (rs : list (region S)) (out : string_sink_t)
  : string_sink_t := fold_left describe_region rs out.

Definition runtime_tracked_total_size {S} (rs : list (region S)) : Z :=
  fold_left (fun total r => u32 (total + region_size r)) rs 0.

(** ** The contract of a region *)

(** What the save-state code relies on: [save] stores exactly [size] bytes and
    leaves a value it would store again unchanged, [load] of those bytes brings
    that value back whatever the global held, and a wrong count is refused
    without touching the global. *)
Class LawfulRegion {A} (r : runtime_tracked_region_t A) (wf : A -> Prop) : Prop := {
  lr_size a : wf a -> Z.of_nat (length (save r a).2) = size r;
  lr_bytes a : wf a -> bytes (save r a).2;
  lr_wf a : wf a -> wf (save r a).1;
  lr_resave a : wf a -> save r (save r a).1 = save r a;
  lr_load a b rest : wf a -> load r b ((save r a).2 ++ rest) (size r) = ((save r a).1, true);
  lr_load_size b src n : n <> size r -> load r b src n = (b, false);
}.

Class LawfulLens {S} (r : region S) : Prop := {
  get_set a s : r_get r (r_set r a s) = a;
  set_get s : r_set r (r_get r s) s = s;
  set_set a b s : r_set r a (r_set r b s) = r_set r a s;
}.

Definition independent {S} (r1 r2 : region S) : Prop :=
  (forall a s, r_get r1 (r_set r2 a s) = r_get r1 s) /\
  (forall a s, r_get r2 (r_set r1 a s) = r_get r2 s) /\
  (forall a b s, r_set r1 a (r_set r2 b s) = r_set r2 b (r_set r1 a s)).

(** A registry whose regions are lawful and own disjoint globals; the index is
    the well-formedness of the globals its regions own. *)
Inductive Registry {S} : list (region S) -> (S -> Prop) -> Prop :=
  | Registry_nil : Registry [] (fun _ => True)
  | Registry_cons r rs (wf : r_ty r -> Prop) P :
      LawfulRegion (r_ops r) wf -> LawfulLens r -> Forall (independent r) rs ->
      Registry rs P ->
      Registry (r :: rs) (fun s => wf (r_get r s) /\ P s).

(** The bytes a save writes for the registry, in order. *)
Definition images {S} (rs : list (region S)) (s : S) : list Z :=
  concat (map (fun r => (region_save r s).2) rs).

(** [t] with the tracked globals [s] has after a save. *)
Definition copy_tracked {S} (rs : list (region S)) (s t : S) : S :=
  fold_left (fun t r => r_set r (save (r_ops r) (r_get r s)).1 t) rs t.

(** ** Sink lemmas *)

Lemma sink_putc_ok s c :
  pos s + 1 <= cap s ->
  string_sink_putc s c = Sink (sbuf s ++ [c]) (cap s) (overflowed s).
Proof. intros. unfold string_sink_putc. zcase. Qed.

Lemma sink_overflow_sticky s c :
  overflowed s = true -> overflowed (string_sink_putc s c) = true.
Proof. unfold string_sink_putc. by destruct (_ <? _). Qed.

(** A sink that did not overflow holds exactly what was written. *)
Lemma sink_puts_ok str s :
  Forall (fun c => c <> 0) str -> pos s + Z.of_nat (length str) <= cap s ->
  string_sink_puts s str = Sink (sbuf s ++ str) (cap s) (overflowed s).
Proof.
  intros Hnz; revert s; induction Hnz as [|c str Hc Hnz IH]; intros s Hcap; simpl.
  - destruct s; simpl. by rewrite app_nil_r.
  - destruct (Z.eqb_spec c 0); [done|]. simpl in Hcap.
    rewrite sink_putc_ok by lia. rewrite IH; simpl; [by rewrite <-app_assoc|].
    unfold pos in *; simpl. rewrite length_app; simpl. lia.
Qed.

(** ** Registry lemmas *)

Section registry.
Context {S : Type}.
Implicit Types (r : region S) (rs : list (region S)) (s t : S).

Lemma copy_tracked_cons r rs s t :
  copy_tracked (r :: rs) s t =
  copy_tracked rs s (r_set r (save (r_ops r) (r_get r s)).1 t).
Proof. done. Qed.

Lemma images_cons r rs s :
  images (r :: rs) s = (save (r_ops r) (r_get r s)).2 ++ images rs s.
Proof.
  unfold images, region_save. simpl. by destruct (save (r_ops r) (r_get r s)).
Qed.

Lemma images_independent r rs a s :
  Forall (independent r) rs -> images rs (r_set r a s) = images rs s.
Proof.
  induction 1 as [|r' rs (H1 & H2 & _) Hrs IH]; [done|].
  by rewrite !images_cons, IH, H2.
Qed.

Lemma copy_tracked_source r rs a s t :
  Forall (independent r) rs -> copy_tracked rs (r_set r a s) t = copy_tracked rs s t.
Proof.
  intros H; revert t; induction H as [|r' rs (H1 & H2 & _) Hrs IH]; intros t; [done|].
  by rewrite !copy_tracked_cons, H2, IH.
Qed.

Lemma copy_tracked_get r rs s t :
  Forall (independent r) rs -> r_get r (copy_tracked rs s t) = r_get r t.
Proof.
  intros H; revert t; induction H as [|r' rs (H1 & _ & _) Hrs IH]; intros t; [done|].
  by rewrite copy_tracked_cons, IH, H1.
Qed.

Lemma registry_set r rs P a s :
  Registry rs P -> Forall (independent r) rs -> P s -> P (r_set r a s).
Proof.
  induction 1 as [|r' rs wf P Hr Hlens Hind HR IH]; intros Hrs HP; [done|].
  apply Forall_cons_1 in Hrs as [(H1 & H2 & _) Hrs]. destruct HP as [Hwf HP].
  split; [by rewrite H2|auto].
Qed.

Lemma images_bytes rs P s : Registry rs P -> P s -> bytes (images rs s).
Proof.
  induction 1 as [|r rs wf P Hr Hlens Hind HR IH]; intros HP; [constructor|].
  destruct HP as [Hwf HP]. rewrite images_cons.
  apply Forall_app_2; [by apply lr_bytes|auto].
Qed.

Lemma copy_tracked_wf rs P s t : Registry rs P -> P s -> P (copy_tracked rs s t).
Proof.
  intros HR; revert t.
  induction HR as [|r rs wf P Hr Hlens Hind HR IH]; intros t HP; [done|].
  destruct HP as [Hwf HP]. rewrite copy_tracked_cons. split; [|by apply IH].
  rewrite copy_tracked_get, get_set by done. by apply lr_wf.
Qed.

(** Saving twice in a row saves the same bytes. *)
Lemma images_copy_tracked rs P s t :
  Registry rs P -> P s -> images rs (copy_tracked rs s t) = images rs s.
Proof.
  intros HR; revert t.
  induction HR as [|r rs wf P Hr Hlens Hind HR IH]; intros t HP; [done|].
  destruct HP as [Hwf HP]. rewrite copy_tracked_cons, !images_cons, IH by done.
  by rewrite copy_tracked_get, get_set, lr_resave by done.
Qed.
End registry.
