(* ===== verification/SaveState.v ===== *)
(** * Save states (spikes/spike-k/cart_runtime/save_state.c)

    The save-state wire format: a packed header followed by the byte images of
    the tracked regions in registry order.  [None] stands for the endless loop
    [save_state_init] enters after printing its PANIC line. *)

From S2P Require Import Prelude Layout Determinism Tracked.

Definition SAVE_STATE_MAGIC : Z := 0x46433253.
Definition SAVE_STATE_VERSION : Z := 1.

Record save_state_header_t := Header {
  magic : Z;
  version : Z;
  layout_hash : Z;
  hframe : Z;
  total_size : Z;
}.

Definition header_layout : layout save_state_header_t :=
  struct (uint 4 ⨾ uint 4 ⨾ uint 8 ⨾ uint 4 ⨾ uint 4)%layout
    (fun h => (magic h, (version h, (layout_hash h, (hframe h, total_size h)))))
    (fun '(a, (b, (c, (d, e)))) => Header a b c d e).

#[export] Instance header_lawful : Lawful header_layout.
Proof. apply struct_lawful; [apply _|by intros []|by intros (?&?&?&?&?)]. Qed.

(** [sizeof(save_state_header_t)]. *)
Definition header_size : Z := 24.

(** The header at the start of a buffer. *)
Definition read_header (buf : list Z) : save_state_header_t :=
  ldec header_layout (slice 0 24 buf).

(** [g_layout_hash] and [g_initialized]. *)
Record save_ctx := Ctx { g_layout_hash : Z; g_initialized : bool }.

(** The program's memory the save-state code sees: its own cache and the
    globals the registry names. *)
Definition runtime (S : Type) : Type := save_ctx * S.

Section save_state.
Context {S : Type} (runtime_tracked_regions : list (region S)).

Definition save_state_init : option save_ctx :=
  let sink := runtime_tracked_describe runtime_tracked_regions (Sink [] 4096 false) in
  if overflowed sink then None
  else Some {| g_layout_hash := fnv1a_64 (sbuf sink); g_initialized := true |}.

Definition ensure_init (ctx : save_ctx) : option save_ctx :=
  if g_initialized ctx then Some ctx else save_state_init.

Definition save_state_buffer_capacity : Z :=
  u32 (header_size + runtime_tracked_total_size runtime_tracked_regions).

(** The save loop: [p] advances by each region's size. *)
Fixpoint save_regions (rs : list (region S)) (s : S) (buf : list Z) (p : Z)
  : S * list Z :=
  match rs with
  | [] => (s, buf)
  | r :: rs =>
      let '(s, bs) := region_save r s in
      save_regions rs s (write_at (Z.to_nat p) bs buf) (p + region_size r)
  end.

Definition save_state_save (rt : runtime S) (buf : list Z) (cap frame : Z)
  : option (runtime S * list Z * Z) :=
  let '(ctx, s) := rt in
  match ensure_init ctx with
  | None => None
  | Some ctx =>
      let need := save_state_buffer_capacity in
      if cap <? need then Some ((ctx, s), buf, 0)
      else
        let h := {| magic := SAVE_STATE_MAGIC; version := SAVE_STATE_VERSION;
                    layout_hash := g_layout_hash ctx; hframe := frame;
                    total_size := need |} in
        let buf := write_at 0 (lenc header_layout h) buf in
        let '(s, buf) := save_regions runtime_tracked_regions s buf header_size in
        Some ((ctx, s), buf, need)
  end.

(** The load loop over [buf + p .. buf + endp). *)
Fixpoint load_regions (rs : list (region S)) (s : S) (buf : list Z) (p endp : Z)
  : S * bool :=
  match rs with
  | [] => (s, p =? endp)
  | r :: rs =>
      if endp <? p + region_size r then (s, false)
      else
        let '(s, ok) := region_load r s (drop (Z.to_nat p) buf) (region_size r) in
        if ok then load_regions rs s buf (p + region_size r) endp else (s, false)
  end.

Definition save_state_load (rt : runtime S) (buf : list Z) (size : Z)
  : option (runtime S * bool) :=
  let '(ctx, s) := rt in
  if size <? header_size then Some ((ctx, s), false) else
  let h := read_header buf in
  if negb (magic h =? SAVE_STATE_MAGIC) then Some ((ctx, s), false) else
  if negb (version h =? SAVE_STATE_VERSION) then Some ((ctx, s), false) else
  match ensure_init ctx with
  | None => None
  | Some ctx =>
      if negb (layout_hash h =? g_layout_hash ctx) then Some ((ctx, s), false) else
      if size <? total_size h then Some ((ctx, s), false) else
      if negb (total_size h =? save_state_buffer_capacity) then Some ((ctx, s), false) else
      let '(s, ok) := load_regions runtime_tracked_regions s buf header_size (total_size h) in
      Some ((ctx, s), ok)
  end.
End save_state.

(** ** Hex transport (save_state_emit_hex) *)

Definition hex_byte (b : Z) : list Z :=
  [hex_digit_of (Z.land (b ≫ 4) 0xf); hex_digit_of (Z.land b 0xf)].

(** [printf] of the guest formats into a 1 KiB buffer and drops what does not
    fit (vprintf in spikes/spike-b/ports/rv32emu/lua_runtime.c). *)
Definition printf_s (str : list Z) : list Z := take 1023 str.

(** The chunk loop; every round emits at least one byte of [buf], so
    [size] rounds are enough. *)
Fixpoint emit_chunks (fuel : nat) (buf : list Z) (emitted_bytes size : Z) : list Z :=
  match fuel with
  | O => []
  | S fuel =>
      if emitted_bytes <? size then
        let n := Z.min (size - emitted_bytes) 256 in
        let chunk := concat (map hex_byte (slice (Z.to_nat emitted_bytes) (Z.to_nat n) buf)) in
        printf_s chunk ++ emit_chunks fuel buf (emitted_bytes + n) size
      else []
  end.

Definition save_state_emit_hex (buf : list Z) (size : Z) : list Z :=
  printf_s (cstr "BUFFER " ++ dec (hframe (read_header buf)) ++ [32]) ++
  emit_chunks (Z.to_nat size) buf 0 size ++
  printf_s [10].

(** ** Lemmas *)

Section lemmas.
Context {S : Type}.
Implicit Types (r : region S) (rs : list (region S)) (s t : S).

(** The sizes of a registry's regions add up without wrap-around. *)
Definition total_fits rs : Prop :=
  Forall (fun r => 0 <= region_size r) rs /\
  foldr (fun r acc => region_size r + acc) 0 rs + header_size < 2 ^ 32.

Lemma total_size_sum rs acc :
  Forall (fun r => 0 <= region_size r) rs -> 0 <= acc ->
  acc + foldr (fun r acc => region_size r + acc) 0 rs < 2 ^ 32 ->
  fold_left (fun total r => u32 (total + region_size r)) rs acc
  = acc + foldr (fun r acc => region_size r + acc) 0 rs.
Proof.
  intros H; revert acc; induction H as [|r rs Hr Hrs IH]; intros acc Ha Hlt;
    cbn [foldr fold_left] in *; [lia|].
  assert (0 <= foldr (fun r acc => region_size r + acc) 0 rs).
  { clear -Hrs. induction Hrs; simpl; lia. }
  rewrite wrap_small by lia. rewrite IH by lia. lia.
Qed.

Lemma length_images rs P s :
  Registry rs P -> P s ->
  Z.of_nat (length (images rs s)) = foldr (fun r acc => region_size r + acc) 0 rs.
Proof.
  induction 1 as [|r rs wf P Hr Hlens Hind HR IH]; intros HP; [done|].
  destruct HP as [Hwf HP]. rewrite images_cons, length_app, Nat2Z.inj_add.
  by rewrite lr_size, IH.
Qed.

Lemma registry_sizes rs P s :
  Registry rs P -> P s -> Forall (fun r => 0 <= region_size r) rs.
Proof.
  induction 1 as [|r rs wf P Hr Hlens Hind HR IH]; intros HP; [done|].
  destruct HP as [Hwf HP]. constructor; [|auto].
  unfold region_size. rewrite <-(lr_size (r_get r s)) by done. lia.
Qed.

Lemma capacity_images rs P s :
  Registry rs P -> P s -> total_fits rs ->
  save_state_buffer_capacity rs = header_size + Z.of_nat (length (images rs s)).
Proof.
  intros HR HP [Hpos Hfit]. erewrite length_images by done.
  assert (0 <= foldr (fun r acc => region_size r + acc) 0 rs).
  { clear -Hpos. induction Hpos; simpl; lia. }
  unfold save_state_buffer_capacity, runtime_tracked_total_size, header_size in *.
  rewrite total_size_sum by (done || lia). apply wrap_small. lia.
Qed.

(** The save loop writes the images one after the other. *)
Lemma save_regions_spec rs P s pre old post :
  Registry rs P -> P s -> length old = length (images rs s) ->
  save_regions rs s (pre ++ old ++ post) (Z.of_nat (length pre)) =
  (copy_tracked rs s s, pre ++ images rs s ++ post).
Proof.
  intros HR; revert s pre old.
  induction HR as [|r rs wf P Hr Hlens Hind HR IH]; intros s pre old HP Hlen.
  - by destruct old.
  - destruct HP as [Hwf HP]. rewrite images_cons in *. cbn [save_regions].
    unfold region_save. rewrite copy_tracked_cons.
    pose proof (lr_size (r_get r s) Hwf) as Hsz. fold (region_size r) in Hsz.
    destruct (save (r_ops r) (r_get r s)) as [a bs] eqn:Es. cbn [fst snd] in *.
    rewrite length_app in Hlen.
    assert (write_at (Z.to_nat (Z.of_nat (length pre))) bs (pre ++ old ++ post)
            = (pre ++ bs) ++ drop (length bs) old ++ post) as ->.
    { rewrite <-(take_drop (length bs) old) at 1. rewrite <-!app_assoc.
      apply write_at_app; [by rewrite Nat2Z.id|rewrite length_take; lia]. }
    rewrite <-Hsz, <-Nat2Z.inj_add, <-length_app.
    rewrite IH.
    + rewrite images_independent, copy_tracked_source by done.
      by rewrite <-!app_assoc.
    + by eapply registry_set.
    + rewrite images_independent, length_drop by done. lia.
Qed.

(** The load loop reads them back and restores every region. *)
Lemma load_regions_spec rs P s t pre rest endp :
  Registry rs P -> P s ->
  endp = Z.of_nat (length pre) + Z.of_nat (length (images rs s)) ->
  load_regions rs t (pre ++ images rs s ++ rest) (Z.of_nat (length pre)) endp =
  (copy_tracked rs s t, true).
Proof.
  intros HR; revert t pre.
  induction HR as [|r rs wf P Hr Hlens Hind HR IH]; intros t pre HP Hend.
  - simpl in *. rewrite Z.add_0_r in Hend. by rewrite Hend, Z.eqb_refl.
  - destruct HP as [Hwf HP]. rewrite images_cons in *. cbn [load_regions].
    rewrite length_app, Nat2Z.inj_add in Hend.
    pose proof (lr_size (r_get r s) Hwf) as Hsz. fold (region_size r) in Hsz.
    destruct (Z.ltb_spec endp (Z.of_nat (length pre) + region_size r)); [lia|].
    rewrite Nat2Z.id, drop_app_length. unfold region_load.
    rewrite <-(app_assoc _ (images rs s)).
    unfold region_size. rewrite lr_load by done.
    rewrite copy_tracked_cons.
    fold (region_size r). rewrite <-Hsz, <-Nat2Z.inj_add, <-length_app.
    rewrite (app_assoc pre). apply IH; [done|].
    rewrite length_app. lia.
Qed.

Lemma read_header_app h rest :
  lwf header_layout h -> read_header (lenc header_layout h ++ rest) = h.
Proof.
  intros Hh. unfold read_header. rewrite slice_app_l by (by rewrite length_lenc).
  by apply ldec_lenc.
Qed.
End lemmas.

(** A registry whose description fits the scratch buffer initializes. *)
Lemma save_state_init_works {S} (rs : list (region S)) :
  overflowed (runtime_tracked_describe rs (Sink [] 4096 false)) = false ->
  exists ctx, save_state_init rs = Some ctx /\ g_initialized ctx = true /\
    0 <= g_layout_hash ctx < 2 ^ 64.
Proof.
  intros H. unfold save_state_init. rewrite H. eexists. split; [done|].
  split; [done|]. apply fnv1a_64_range.
Qed.

Section theorems.
Context {S : Type} (rs : list (region S)) (P : S -> Prop).
Implicit Types (s t : S).

(** The buffer a successful save leaves: header, images, and whatever was
    behind them. *)
Lemma save_state_save_layout ctx s buf cap fr :
  Registry rs P -> total_fits rs -> P s -> g_initialized ctx = true ->
  save_state_buffer_capacity rs <= cap -> cap <= Z.of_nat (length buf) ->
  let need := save_state_buffer_capacity rs in
  save_state_save rs (ctx, s) buf cap fr =
  Some ((ctx, copy_tracked rs s s),
        lenc header_layout (Header SAVE_STATE_MAGIC SAVE_STATE_VERSION (g_layout_hash ctx) fr need)
          ++ images rs s ++ drop (Z.to_nat need) buf,
        need).
Proof.
  intros HR Hfit HP Hinit Hcap Hbuf need. unfold save_state_save, ensure_init.
  rewrite Hinit. fold need. destruct (Z.ltb_spec cap need) as [?|_]; [lia|].
  pose proof (capacity_images rs P s HR HP Hfit) as Hneed. fold need in Hneed.
  unfold header_size in *.
  set (hd := lenc header_layout _).
  assert (length hd = 24%nat) as Hhd by reflexivity.
  assert (write_at 0 hd buf = hd ++ slice 24 (length (images rs s)) buf
            ++ drop (Z.to_nat need) buf) as ->.
  { unfold write_at, slice. rewrite Hhd, take_0. cbn [app Nat.add]. f_equal.
    rewrite <-(take_drop (length (images rs s)) (drop 24 buf)) at 1. f_equal.
    rewrite drop_drop. f_equal. lia. }
  change 24 with (Z.of_nat 24). rewrite <-Hhd.
  erewrite save_regions_spec; [done..|]. apply length_slice. lia.
Qed.

(** Loading a buffer that starts with a matching header and the images of
    [s] restores them, whatever follows in the buffer. *)
Lemma load_image ctx s t fr rest size :
  Registry rs P -> total_fits rs -> P s -> g_initialized ctx = true ->
  0 <= g_layout_hash ctx < 2 ^ 64 -> 0 <= fr < 2 ^ 32 ->
  save_state_buffer_capacity rs <= size ->
  save_state_load rs (ctx, t)
    (lenc header_layout (Header SAVE_STATE_MAGIC SAVE_STATE_VERSION (g_layout_hash ctx) fr
       (save_state_buffer_capacity rs)) ++ images rs s ++ rest) size
  = Some ((ctx, copy_tracked rs s t), true).
Proof.
  intros HR Hfit HP Hinit Hhash Hfr Hsize.
  pose proof (capacity_images rs P s HR HP Hfit) as Hneed.
  assert (0 <= save_state_buffer_capacity rs < 2 ^ 32) as Hcr by by apply wrap_range.
  set (need := save_state_buffer_capacity rs) in *. unfold header_size in *.
  set (h := Header _ _ _ _ _).
  assert (lwf header_layout h) as Hh by (repeat split; simpl; try done; lia).
  unfold save_state_load, ensure_init. rewrite Hinit.
  rewrite read_header_app by done. unfold header_size.
  destruct (Z.ltb_spec size 24); [lia|].
  cbn [h magic version layout_hash total_size]. rewrite !Z.eqb_refl. cbn [negb].
  fold need. destruct (Z.ltb_spec size need); [lia|].
  pose proof (length_lenc h Hh) as Hlen.
  change 24 with (Z.of_nat (lsize header_layout)). rewrite <-Hlen.
  erewrite load_regions_spec; [done..|]. simpl lsize in Hlen. lia.
Qed.

(** C7: what [save_state_save] writes, [save_state_load] restores.  For every
    registry of lawful regions with disjoint globals, a save into a large
    enough buffer reports the buffer capacity, leaves the saver's regions
    canonical, and a load of that buffer in any other state [t] of a program
    with the same layout hash succeeds and gives every tracked region exactly
    the saver's value, leaving the rest of [t] alone. *)
Theorem save_load_roundtrip ctx s t buf cap fr size :
  Registry rs P -> total_fits rs -> P s -> g_initialized ctx = true ->
  0 <= g_layout_hash ctx < 2 ^ 64 -> 0 <= fr < 2 ^ 32 ->
  save_state_buffer_capacity rs <= cap -> cap <= Z.of_nat (length buf) ->
  save_state_buffer_capacity rs <= size ->
  exists buf',
    save_state_save rs (ctx, s) buf cap fr =
      Some ((ctx, copy_tracked rs s s), buf', save_state_buffer_capacity rs) /\
    length buf' = length buf /\
    hframe (read_header buf') = fr /\
    save_state_load rs (ctx, t) buf' size = Some ((ctx, copy_tracked rs s t), true) /\
    P (copy_tracked rs s t).
Proof.
  intros HR Hfit HP Hinit Hhash Hfr Hcap Hbuf Hsize.
  eexists. split; [by eapply save_state_save_layout|].
  pose proof (capacity_images rs P s HR HP Hfit) as Hneed. unfold header_size in Hneed.
  assert (0 <= save_state_buffer_capacity rs < 2 ^ 32) as Hcr by by apply wrap_range.
  set (h := Header _ _ _ _ _).
  assert (lwf header_layout h) as Hh by (repeat split; simpl; try done; lia).
  split_and!.
  - rewrite !length_app, length_lenc by done. rewrite length_drop. simpl. lia.
  - by rewrite read_header_app.
  - by apply load_image.
  - by apply copy_tracked_wf.
Qed.

(** The header gates of [save_state_load]. *)
Definition header_accepted (ctx : save_ctx) (buf : list Z) (size : Z) : Prop :=
  let h := read_header buf in
  header_size <= size /\ magic h = SAVE_STATE_MAGIC /\ version h = SAVE_STATE_VERSION /\
  layout_hash h = g_layout_hash ctx /\ total_size h <= size /\
  total_size h = save_state_buffer_capacity rs.

Lemma header_gate ctx s buf size :
  g_initialized ctx = true ->
  (exists ok t, save_state_load rs (ctx, s) buf size = Some ((ctx, t), ok) /\
     (ok = true -> header_accepted ctx buf size)) /\
  (~ header_accepted ctx buf size ->
     save_state_load rs (ctx, s) buf size = Some ((ctx, s), false)).
Proof.
  intros Hinit. unfold header_accepted, save_state_load, ensure_init. rewrite Hinit.
  assert (forall (rt' : runtime S) Q, (exists ok t, Some ((ctx, s), false) = Some ((ctx, t), ok) /\
    (ok = true -> Q)) /\ (~ Q -> Some ((ctx, s), false) = Some ((ctx, s), false))) as Hno.
  { intros _ Q. split; [by exists false, s|done]. }
  destruct (Z.ltb_spec size header_size); [by apply Hno|].
  destruct (Z.eqb_spec (magic (read_header buf)) SAVE_STATE_MAGIC); [|by apply Hno].
  destruct (Z.eqb_spec (version (read_header buf)) SAVE_STATE_VERSION); [|by apply Hno].
  destruct (Z.eqb_spec (layout_hash (read_header buf)) (g_layout_hash ctx)); [|by apply Hno].
  destruct (Z.ltb_spec size (total_size (read_header buf))); [by apply Hno|].
  destruct (Z.eqb_spec (total_size (read_header buf)) (save_state_buffer_capacity rs));
    [|by apply Hno].
  simpl. destruct (load_regions _ _ _ _ _) as [t ok]. split.
  - exists ok, t. by split_and!.
  - intros []. by split_and!.
Qed.

(** a load that succeeds has passed every header gate, and a buffer that
    fails a gate (short, wrong magic, version, layout hash or total size,
    truncated) is refused with every global untouched. *)
Theorem save_state_load_gates ctx s buf size :
  g_initialized ctx = true ->
  (forall rt', save_state_load rs (ctx, s) buf size = Some (rt', true) ->
     header_accepted ctx buf size) /\
  (~ header_accepted ctx buf size ->
     save_state_load rs (ctx, s) buf size = Some ((ctx, s), false)).
Proof.
  intros Hinit. destruct (header_gate ctx s buf size Hinit) as [(ok & t & E & Hok) Hno].
  split; [|done]. intros rt' E'. rewrite E in E'. injection E' as _ ->. by apply Hok.
Qed.
End theorems.

(** Whatever the regions do, a load of a short buffer reads nothing. *)
Lemma save_state_load_short {S} (rs : list (region S)) ctx s buf size :
  size < header_size -> save_state_load rs (ctx, s) buf size = Some ((ctx, s), false).
Proof. intros. unfold save_state_load. zcase. Qed.

(** C34: a layout description that differs in a single character gives a
    different layout hash, so a buffer saved under the one is refused under the
    other, with no global touched. *)
Theorem layout_drift_rejected {S1 S2} (rs1 : list (region S1)) (rs2 : list (region S2))
    pre c1 c2 post ctx1 ctx2 s2 buf size :
  sbuf (runtime_tracked_describe rs1 (Sink [] 4096 false)) = pre ++ c1 :: post ->
  sbuf (runtime_tracked_describe rs2 (Sink [] 4096 false)) = pre ++ c2 :: post ->
  bytes (pre ++ c1 :: post) -> is_byte c2 -> c1 <> c2 ->
  save_state_init rs1 = Some ctx1 -> save_state_init rs2 = Some ctx2 ->
  layout_hash (read_header buf) = g_layout_hash ctx1 ->
  save_state_load rs2 (ctx2, s2) buf size = Some ((ctx2, s2), false).
Proof.
  intros E1 E2 Hb Hc Hne Hi1 Hi2 Hh. unfold save_state_init in Hi1, Hi2.
  destruct (overflowed (runtime_tracked_describe rs1 _)); [done|].
  destruct (overflowed (runtime_tracked_describe rs2 _)); [done|].
  injection Hi1 as <-. injection Hi2 as <-. apply header_gate; [done|].
  intros (_ & _ & _ & E & _). rewrite Hh in E. simpl in E. rewrite E1, E2 in E.
  by apply (fnv1a_single_byte pre c1 c2 post).
Qed.
