(* ===== verification/SaveIo.v ===== *)
(** * Reading a save buffer back (spikes/spike-k/cart_runtime/save_io.c)

    [save_io_parse_hex] decodes the hex text [save_state_emit_hex] prints;
    [save_io_read_file] collects a host file through the guest's system calls,
    which are parameters of the model. *)

From S2P Require Import Prelude Layout SaveState.

(** ** Hex parsing *)

Definition hex_digit (c : Z) : Z :=
  if (48 <=? c) && (c <=? 57) then c - 48
  else if (97 <=? c) && (c <=? 102) then c - 97 + 10
  else if (65 <=? c) && (c <=? 70) then c - 65 + 10
  else -1.

Definition is_space (c : Z) : bool := (c =? 32) || (c =? 9) || (c =? 10) || (c =? 13).

Definition is_digit (c : Z) : bool := (48 <=? c) && (c <=? 57).

(** The skip loops [while (i < len && p(src[i])) i++], on the rest of the text. *)
Fixpoint skip_while (p : Z -> bool) (src : list Z) : list Z :=
  match src with
  | c :: src' => if p c then skip_while p src' else src
  | [] => []
  end.

(** The decoding loop on the unread text, with the bytes stored in [dst] so
    far; [-1] is the parse error. *)
Fixpoint hex_loop (src : list Z) (dst : list Z) (cap : Z) : list Z * Z :=
  match src with
  | [] => (dst, Z.of_nat (length dst))
  | c :: src1 =>
      if is_space c then hex_loop src1 dst cap
      else match src1 with
           | [] => (dst, -1)
           | d :: src2 =>
               let hi := hex_digit c in
               let lo := hex_digit d in
               if (hi <? 0) || (lo <? 0) then
                 if is_space c then hex_loop src1 dst cap else (dst, -1)
               else if cap <=? Z.of_nat (length dst) then (dst, -1)
               else hex_loop src2 (dst ++ [u8 (Z.lor (hi ≪ 4) lo)]) cap
           end
  end.

Definition has_buffer_prefix (src : list Z) : bool :=
  (7 <? Z.of_nat (length src)) && bool_decide (take 7 src = cstr "BUFFER ").

Definition save_io_parse_hex (src : list Z) (cap : Z) : list Z * Z :=
  let src := skip_while is_space src in
  let src :=
    if has_buffer_prefix src
    then skip_while is_space (skip_while is_digit (drop 7 src)) else src in
  hex_loop src [] cap.

(** ** File reading *)

Section read_file.
(** The host behind the [open], [read] and [close] ecalls: each call may
    change the host [W]; [read] returns the bytes it stored, or a negative
    error. *)
Context {W : Type} (sys_open : list Z -> W -> W * Z)
  (sys_read : Z -> Z -> W -> W * Z * list Z) (sys_close : Z -> W -> W * Z).

Definition CHUNK : Z := 4096.

(** The read loop.  Every round that continues stores at least one byte, so
    [cap] rounds plus the final one are enough. *)
Fixpoint read_loop (fuel : nat) (w : W) (fd : Z) (buf : list Z) (cap : Z)
  : option (W * list Z * Z) :=
  match fuel with
  | O => None
  | S fuel =>
      let total := Z.of_nat (length buf) in
      if total <? cap then
        let want := Z.min (cap - total) CHUNK in
        let '(w, n, bs) := sys_read fd want w in
        if n <? 0 then Some (fst (sys_close fd w), buf, -1)
        else if n =? 0 then Some (fst (sys_close fd w), buf, total)
        else read_loop fuel w fd (buf ++ take (Z.to_nat n) bs) cap
      else Some (fst (sys_close fd w), buf, total)
  end.

Definition save_io_read_file (w : W) (path : list Z) (cap : Z)
  : option (W * list Z * Z) :=
  let '(w, fd) := sys_open path w in
  if fd <? 0 then Some (w, [], -1)
  else read_loop (S (Z.to_nat cap)) w fd [] cap.
End read_file.

(** ** Lemmas on the hex text *)

Lemma nibble_range b : is_byte b ->
  0 <= Z.land (b ≫ 4) 0xf < 16 /\ 0 <= Z.land b 0xf < 16.
Proof.
  intros. change 15 with (Z.ones 4). rewrite !Z.land_ones by lia.
  split; apply Z.mod_pos_bound; lia.
Qed.

Lemma hex_digit_of_correct n : 0 <= n < 16 -> hex_digit (hex_digit_of n) = n.
Proof.
  intros. unfold hex_digit, hex_digit_of. zcase.
Qed.

Lemma hex_digit_of_not_space n : 0 <= n < 16 -> is_space (hex_digit_of n) = false.
Proof. intros. unfold is_space, hex_digit_of. zcase. Qed.

Lemma byte_nibbles b : is_byte b ->
  u8 (Z.lor (Z.land (b ≫ 4) 0xf ≪ 4) (Z.land b 0xf)) = b.
Proof.
  unfold is_byte. intros Hb. rewrite <-(Z.mod_small b (2 ^ 8)) at 3 by done.
  unfold wrap. apply Z.bits_inj'. intros i Hi.
  destruct (Z.ltb_spec i 8).
  - rewrite !Z.mod_pow2_bits_low by lia. change 15 with (Z.ones 4).
    rewrite Z.lor_spec, Z.shiftl_spec, !Z.land_spec by lia.
    destruct (Z.ltb_spec i 4).
    + rewrite !(Z.testbit_neg_r _ (i - 4)) by lia.
      rewrite Z.ones_spec_low by lia. by rewrite andb_true_r.
    + rewrite Z.shiftr_spec, (Z.ones_spec_low 4 (i - 4)) by lia.
      rewrite (Z.ones_spec_high 4 i) by lia.
      rewrite andb_true_r, andb_false_r, orb_false_r. f_equal. lia.
  - by rewrite !Z.mod_pow2_bits_high by lia.
Qed.

Lemma hex_loop_bytes bs rest dst cap :
  bytes bs -> Z.of_nat (length dst + length bs) <= cap ->
  hex_loop (concat (map hex_byte bs) ++ rest) dst cap = hex_loop rest (dst ++ bs) cap.
Proof.
  intros Hb; revert dst; induction Hb as [|b bs Hb Hbs IH]; intros dst Hcap.
  { simpl. by rewrite app_nil_r. }
  pose proof (nibble_range b Hb) as [Hh Hl].
  change (concat (map hex_byte (b :: bs)) ++ rest)
    with (hex_digit_of (Z.land (b ≫ 4) 0xf) :: hex_digit_of (Z.land b 0xf)
          :: concat (map hex_byte bs) ++ rest).
  cbn [hex_loop]. rewrite hex_digit_of_not_space, !hex_digit_of_correct by done.
  simpl in Hcap. rewrite Nat.add_succ_r in Hcap.
  destruct (Z.ltb_spec (Z.land (b ≫ 4) 0xf) 0); [lia|].
  destruct (Z.ltb_spec (Z.land b 0xf) 0); [lia|]. simpl.
  destruct (Z.leb_spec cap (Z.of_nat (length dst))); [lia|].
  rewrite byte_nibbles by done. rewrite IH.
  - by rewrite <-app_assoc.
  - rewrite length_app. simpl. lia.
Qed.

Lemma length_hex_bytes l : length (concat (map hex_byte l)) = (2 * length l)%nat.
Proof. induction l; simpl in *; lia. Qed.

(** The chunk loop prints the whole buffer: 256 bytes make 512 characters,
    which the 1023 of [printf] never cut. *)
Lemma emit_chunks_all fuel buf off size :
  0 <= off -> size <= Z.of_nat (length buf) -> size <= off + Z.of_nat fuel ->
  emit_chunks fuel buf off size =
  concat (map hex_byte (slice (Z.to_nat off) (Z.to_nat (size - off)) buf)).
Proof.
  revert off; induction fuel as [|fuel IH]; intros off Ho Hs Hf; cbn [emit_chunks].
  { replace (Z.to_nat (size - off)) with 0%nat by lia. done. }
  destruct (Z.ltb_spec off size).
  2:{ replace (Z.to_nat (size - off)) with 0%nat by lia. done. }
  set (n := Z.min (size - off) 256).
  unfold printf_s. rewrite take_ge.
  2:{ rewrite length_hex_bytes, length_slice; lia. }
  rewrite IH by lia. rewrite <-concat_app, <-map_app. do 2 f_equal.
  unfold slice.
  replace (Z.to_nat (size - off)) with (Z.to_nat n + Z.to_nat (size - (off + n)))%nat by lia.
  rewrite <-(take_drop (Z.to_nat n) (drop (Z.to_nat off) buf)) at 2.
  rewrite take_app_add', drop_drop.
  2:{ rewrite length_take, length_drop. lia. }
  do 3 f_equal. lia.
Qed.

Lemma skip_while_stop p c src : p c = false -> skip_while p (c :: src) = c :: src.
Proof. simpl. by intros ->. Qed.

Lemma skip_while_all p l src : Forall (fun c => p c = true) l ->
  skip_while p (l ++ src) = skip_while p src.
Proof. induction 1 as [|c l Hc Hl IH]; simpl; [done|]. by rewrite Hc. Qed.

Lemma hex_text_starts bs rest : bs <> [] -> bytes bs ->
  exists n tl, 0 <= n < 16 /\ concat (map hex_byte bs) ++ rest = hex_digit_of n :: tl.
Proof.
  intros Hne Hb. destruct Hb as [|b bs Hb Hbs]; [done|].
  exists (Z.land (b ≫ 4) 0xf). eexists. split; [exact (proj1 (nibble_range b Hb))|done].
Qed.

Lemma dec_length fr : 0 <= fr < 2 ^ 32 -> (length (dec fr) <= 20)%nat.
Proof.
  intros. unfold dec. destruct (_ =? _); [simpl; lia|]. rewrite length_rev.
  assert (forall f v, (length (dec_rev f v) <= f)%nat) as Hl; [|apply Hl].
  induction f as [|f IH]; intros v; simpl; [lia|].
  destruct (_ =? _); simpl; [lia|]. specialize (IH (v / 10)). lia.
Qed.

(** The text [save_state_emit_hex] prints, unrolled. *)
Lemma emit_hex_text buf size :
  bytes buf -> header_size <= size <= Z.of_nat (length buf) ->
  save_state_emit_hex buf size =
  cstr "BUFFER " ++ (dec (hframe (read_header buf)) ++ [32]) ++
  concat (map hex_byte (take (Z.to_nat size) buf)) ++ [10].
Proof.
  unfold header_size. intros Hb Hsz.
  assert (0 <= hframe (read_header buf) < 2 ^ 32) as Hfr.
  { assert (lwf header_layout (read_header buf)) as Hw.
    { apply lwf_ldec; [apply length_slice; simpl; lia|by apply slice_bytes]. }
    apply Hw. }
  pose proof (dec_length _ Hfr) as Hdlen.
  unfold save_state_emit_hex. rewrite emit_chunks_all by lia.
  rewrite Z.sub_0_r. unfold slice. rewrite drop_0.
  unfold printf_s at 1. rewrite take_ge; [by rewrite <-app_assoc|].
  rewrite !length_app. cbn [length cstr]. lia.
Qed.

(** The hex transport: parsing the printed line gives the bytes back. *)
Lemma hex_transport buf size cap :
  bytes buf -> header_size <= size <= Z.of_nat (length buf) -> size <= cap ->
  save_io_parse_hex (save_state_emit_hex buf size) cap = (take (Z.to_nat size) buf, size).
Proof.
  intros Hb Hsz Hcap. rewrite emit_hex_text by done. unfold header_size in Hsz.
  set (d := dec _). set (hx := concat _).
  assert (Forall (fun c => is_digit c = true) d) as Hd.
  { eapply Forall_impl; [by apply dec_digits|]. cbv beta. intros c Hc. unfold is_digit. zcase. }
  unfold save_io_parse_hex.
  change (cstr "BUFFER ") with (66 :: cstr "UFFER "). cbn [app].
  rewrite (skip_while_stop is_space 66) by done.
  assert (has_buffer_prefix (66 :: cstr "UFFER " ++ (d ++ [32]) ++ hx ++ [10]) = true) as ->.
  { unfold has_buffer_prefix. apply andb_true_intro. split.
    - apply Z.ltb_lt. cbn [length]. rewrite !length_app. simpl. lia.
    - by apply bool_decide_eq_true_2. }
  change (drop 7 (66 :: cstr "UFFER " ++ (d ++ [32]) ++ hx ++ [10]))
    with ((d ++ [32]) ++ hx ++ [10]).
  rewrite <-app_assoc, skip_while_all by done.
  cbn [app]. rewrite (skip_while_stop is_digit 32) by done. cbn [skip_while].
  change (is_space 32) with true. cbn iota.
  assert (bytes (take (Z.to_nat size) buf)) as Hbt by by apply Forall_take.
  assert (length (take (Z.to_nat size) buf) = Z.to_nat size) as Hlt by (rewrite length_take; lia).
  destruct (hex_text_starts (take (Z.to_nat size) buf) [10]) as (n & tl & Hn & E);
    [intros E; rewrite E in Hlt; simpl in Hlt; lia|done|].
  unfold hx. rewrite E, skip_while_stop, <-E by by apply hex_digit_of_not_space.
  rewrite hex_loop_bytes by (done || (simpl; lia)). cbn [app hex_loop is_space Z.eqb Pos.eqb orb].
  f_equal. simpl. lia.
Qed.

(** ** Properties *)

(** C39: the hex transport is lossless: parsing the line [save_state_emit_hex]
    prints for a buffer gives the buffer's bytes back, with the count of bytes
    decoded, for every buffer that holds a header and fits the destination. *)
Theorem parse_emit_hex buf size cap :
  bytes buf -> header_size <= size <= Z.of_nat (length buf) -> size <= cap ->
  save_io_parse_hex (save_state_emit_hex buf size) cap = (take (Z.to_nat size) buf, size).
Proof. apply hex_transport. Qed.

Lemma parse_emit_hex_witness :
  let buf := lenc header_layout (Header SAVE_STATE_MAGIC SAVE_STATE_VERSION 5 7 26) ++ [0xab; 0x0c] in
  save_io_parse_hex (save_state_emit_hex buf 26) 64 = (buf, 26).
Proof.
  intros buf. apply (parse_emit_hex buf 26 64); [by apply bytes_bool| |done].
  split; by apply Z.leb_le.
Defined.

Section read_file_correct.
Context {W : Type} (sys_open : list Z -> W -> W * Z)
  (sys_read : Z -> Z -> W -> W * Z * list Z) (sys_close : Z -> W -> W * Z).
(** The host's side of POSIX [read] on an open regular file: [remaining w] is
    what is still unread; a call returns a non-empty prefix of it of at most
    the requested length (a short read is allowed), and nothing only at the
    end of the file. *)
Context (remaining : W -> list Z).
Definition read_posix (fd : Z) : Prop := forall w want,
  0 < want ->
  exists n w', sys_read fd want w = (w', Z.of_nat n, take n (remaining w)) /\
    Z.of_nat n <= want /\ (n <= length (remaining w))%nat /\
    (n = 0%nat -> remaining w = []) /\ remaining w' = drop n (remaining w).

Lemma read_loop_correct fd fuel w buf cap :
  read_posix fd -> 0 <= cap -> Z.of_nat (length buf) <= cap ->
  cap - Z.of_nat (length buf) < Z.of_nat fuel ->
  exists w', read_loop sys_read sys_close fuel w fd buf cap =
    Some (w', take (Z.to_nat cap) (buf ++ remaining w),
          Z.of_nat (length (take (Z.to_nat cap) (buf ++ remaining w)))).
Proof.
  intros Hread Hcap; revert w buf; induction fuel as [|fuel IH]; intros w buf Hb Hf; [lia|].
  cbn [read_loop]. destruct (Z.ltb_spec (Z.of_nat (length buf)) cap).
  - destruct (Hread w (Z.min (cap - Z.of_nat (length buf)) CHUNK))
      as (n & w' & -> & Hn & Hle & Hend & Hrem); [unfold CHUNK; lia|].
    destruct (Z.ltb_spec (Z.of_nat n) 0); [lia|].
    destruct (Z.eqb_spec (Z.of_nat n) 0).
    + eexists. rewrite Hend, app_nil_r by lia. rewrite take_ge by lia. done.
    + rewrite Nat2Z.id, take_take, Nat.min_id.
      assert (length (take n (remaining w)) = n) by (rewrite length_take; lia).
      destruct (IH w' (buf ++ take n (remaining w))) as [w'' ->];
        [rewrite length_app; lia..|].
      exists w''. by rewrite Hrem, <-app_assoc, take_drop.
  - eexists. rewrite take_app_le, take_ge by lia. done.
Qed.

Lemma read_file_works path cap w w0 fd :
  0 <= cap -> sys_open path w = (w0, fd) -> 0 <= fd -> read_posix fd ->
  exists w', save_io_read_file sys_open sys_read sys_close w path cap =
    Some (w', take (Z.to_nat cap) (remaining w0),
          Z.of_nat (length (take (Z.to_nat cap) (remaining w0)))).
Proof.
  intros Hcap Ho Hfd Hread. unfold save_io_read_file. rewrite Ho.
  destruct (Z.ltb_spec fd 0); [lia|].
  destruct (read_loop_correct fd (S (Z.to_nat cap)) w0 [] cap) as [w' ->];
    simpl; [done|lia..|]. by exists w'.
Qed.

(** on a host whose [read] behaves as POSIX specifies, and for every
    pattern of short reads, [save_io_read_file] terminates and returns the
    longest prefix of the file that fits the buffer, with its length; when
    the open fails it returns [-1] and reads nothing. *)
Theorem save_io_read_file_correct path cap w :
  0 <= cap ->
  let '(w0, fd) := sys_open path w in
  (0 <= fd -> read_posix fd ->
   exists w', save_io_read_file sys_open sys_read sys_close w path cap =
     Some (w', take (Z.to_nat cap) (remaining w0),
           Z.of_nat (length (take (Z.to_nat cap) (remaining w0))))) /\
  (fd < 0 ->
   save_io_read_file sys_open sys_read sys_close w path cap = Some (w0, [], -1)).
Proof.
  intros Hcap. destruct (sys_open path w) as [w0 fd] eqn:Ho. split; intros Hfd.
  - intros Hread. by eapply read_file_works.
  - unfold save_io_read_file. rewrite Ho. destruct (Z.ltb_spec fd 0); [done|lia].
Qed.
End read_file_correct.

(** A host with one open file that hands out at most three bytes per call. *)
Definition toy_read (fd want : Z) (w : list Z) : list Z * Z * list Z :=
  let n := Nat.min 3 (Nat.min (Z.to_nat want) (length w)) in
  (drop n w, Z.of_nat n, take n w).

Lemma toy_read_posix fd : read_posix toy_read id fd.
Proof.
  intros w want Hw. exists (Nat.min 3 (Nat.min (Z.to_nat want) (length w))). eexists.
  split; [reflexivity|]. unfold id. split_and!; try done; try lia.
  intros E. destruct w; [done|]. cbn [length] in E. lia.
Qed.

Lemma save_io_read_file_correct_witness :
  exists w', save_io_read_file (fun _ w => (w, 4)) toy_read (fun _ w => (w, 0))
    [1; 2; 3; 4; 5; 6; 7; 8] (cstr "buf.hex") 7 = Some (w', [1; 2; 3; 4; 5; 6; 7], 7).
Proof.
  pose proof (save_io_read_file_correct (fun _ w => (w, 4)) toy_read (fun _ w => (w, 0))
    id (cstr "buf.hex") 7 [1; 2; 3; 4; 5; 6; 7; 8] ltac:(lia)) as [H _].
  apply H; [lia|apply toy_read_posix].
Defined.
