(* ===== verification/Regions.v ===== *)
(** * The tracked regions (spikes/spike-k/cart_runtime/region_*.c, cart_state_*.c)

    One Module per region: the packed struct of its global, the operations the
    cart and the runtime call, and the describe/save/load callbacks.  Every
    region discharges the [LawfulRegion] contract of [Tracked].  Voice handles
    and coroutine slots are shift amounts; C leaves shifts of 64 and more (32
    and more for slots) undefined, so the properties are about handles below 64
    and slots below the slot count. *)

From S2P Require Import Prelude Layout Float32 Determinism Tracked.

(** ** Shared shape of the callbacks *)

(** The calls a [describe] callback makes on its sink. *)
Inductive sink_call := Puts (s : string) | Putu (v : Z) | Putc (c : Z).

Definition sink_call_run (out : string_sink_t) (c : sink_call) : string_sink_t :=
  match c with
  | Puts s => string_sink_puts out (cstr s)
  | Putu v => string_sink_putu out v
  | Putc c => string_sink_putc out c
  end.

Definition emit (calls : list sink_call) (out : string_sink_t) : string_sink_t :=
  fold_left sink_call_run calls out.

Definition comma : Z := 44.

(** A region whose save canonicalizes and copies the struct out, and whose load
    checks the count, copies the struct in and then checks the result. *)
Lemma memcpy_region_lawful {A} (r : runtime_tracked_region_t A) (l : layout A)
    (canon : A -> A) (check : A -> bool) :
  Lawful l -> size r = Z.of_nat (lsize l) ->
  (forall a, save r a = (canon a, lenc l (canon a))) ->
  (forall b src n, load r b src n =
     if negb (n =? size r) then (b, false)
     else let a := ldec l (take (Z.to_nat n) src) in (a, check a)) ->
  (forall a, lwf l a -> lwf l (canon a)) ->
  (forall a, canon (canon a) = canon a) ->
  (forall a, check (canon a) = check a) ->
  LawfulRegion r (fun a => lwf l a /\ check a = true).
Proof.
  intros Hl Hsz Hsave Hload Hwf Hidem Hchk. split.
  - intros a [Ha _]. rewrite Hsave, Hsz. simpl. by rewrite length_lenc by auto.
  - intros a [Ha _]. rewrite Hsave. simpl. apply bytes_lenc; auto.
  - intros a [Ha Hc]. rewrite Hsave. simpl. by rewrite Hchk; auto.
  - intros a _. rewrite !Hsave. simpl. by rewrite Hidem.
  - intros a b rest [Ha Hc]. rewrite Hsave, Hload, Z.eqb_refl. simpl.
    rewrite Hsz, Nat2Z.id, take_app_length' by (by rewrite length_lenc by auto).
    rewrite ldec_lenc by auto. by rewrite Hchk, Hc.
  - intros b src n Hn. rewrite Hload. by destruct (Z.eqb_spec n (size r)).
Qed.

(** ** frame_state (region_frame_state.c) *)
Module FrameStateRegion.

Definition describe : string_sink_t -> string_sink_t := emit
  [Puts "frame:u32@"; Putu 0; Putc comma;
   Puts "rng_state:u64@"; Putu 4; Putc comma;
   Puts "rng_inc:u64@"; Putu 12; Putc comma;
   Puts "accum_sin:f32@"; Putu 20; Putc comma;
   Puts "accum_cos:f32@"; Putu 24; Putc comma;
   Puts "accum_sqrt:f32@"; Putu 28; Putc comma;
   Puts "accum_misc:f32@"; Putu 32; Putc comma;
   Puts "mobs[64]={x:f32,y:f32,vx:f32,vy:f32,state:u32}@";
   Putu 36].

Definition save (g_fs : frame_state_t) : frame_state_t * list Z :=
  let g_fs :=
    {| frame := frame g_fs; rng_state := rng_state g_fs; rng_inc := rng_inc g_fs;
       accum_sin := canonicalize_nanf (accum_sin g_fs);
       accum_cos := canonicalize_nanf (accum_cos g_fs);
       accum_sqrt := canonicalize_nanf (accum_sqrt g_fs);
       accum_misc := canonicalize_nanf (accum_misc g_fs);
       mobs := map (fun m =>
         Mob (canonicalize_nanf (x m)) (canonicalize_nanf (y m))
             (canonicalize_nanf (vx m)) (canonicalize_nanf (vy m)) (mob_state m))
         (mobs g_fs) |} in
  (g_fs, lenc frame_state_layout g_fs).

Definition load (g_fs : frame_state_t) (src : list Z) (n : Z) : frame_state_t * bool :=
  if negb (n =? 1316) then (g_fs, false)
  else (ldec frame_state_layout (take (Z.to_nat n) src), true).

Definition region_frame_state : runtime_tracked_region_t frame_state_t :=
  {| Tracked.name := cstr "frame_state"; Tracked.size := 1316;
     Tracked.describe := Some describe; Tracked.save := save; Tracked.load := load |}.

#[export] Instance lawful :
  LawfulRegion region_frame_state (fun s => lwf frame_state_layout s /\ true = true).
Proof.
  apply (memcpy_region_lawful _ frame_state_layout frame_state_canonicalize (fun _ => true));
    try done; [apply _|apply frame_state_canonicalize_wf|apply frame_state_canonicalize_idem].
Qed.
End FrameStateRegion.

(** ** screen_shake (region_screen_shake.c) *)
Module ScreenShake.

Record runtime_screen_shake_t := Shake {
  remaining_frames : Z;
  intensity : Z;
  decay : Z;
  seed : Z;
}.

Definition layout : layout runtime_screen_shake_t :=
  struct (sint 4 ⨾ uint 4 ⨾ uint 4 ⨾ sint 4)%layout
    (fun s => (remaining_frames s, (intensity s, (decay s, seed s))))
    (fun '(a, (b, (c, d))) => Shake a b c d).

#[export] Instance layout_lawful : Lawful layout.
Proof. apply struct_lawful; [apply _|by intros []|by intros (?&?&?&?)]. Qed.

(** [0.95f]. *)
Definition f32_0_95 : Z := 0x3f733333.

Definition blyt_screen_shake (frames intensity : Z) : runtime_screen_shake_t :=
  {| remaining_frames := frames;
     intensity := intensity;
     decay := f32_0_95;
     seed := i32 (Z.lxor intensity (u32 (u32 frames * 0x9e3779b1))) |}.

Definition fnv1a_32_step (h b : Z) : Z := u32 (Z.lxor h b * 0x01000193).

Definition hash3 (a b c : Z) : Z :=
  let h := 0x811c9dc5 in
  let h := fold_left fnv1a_32_step (le_bytes 4 a) h in
  let h := fold_left fnv1a_32_step (le_bytes 4 b) h in
  fold_left fnv1a_32_step (le_bytes 4 c) h.

Definition hash_to_unit_signed (h : Z) : Z :=
  let u := h ≫ 8 in
  let f := f32_mul (f32_of_Z u) f32_2pow_m24 in
  f32_sub f f32_half.

(** The state afterwards, [*dx] and [*dy]. *)
Definition screen_shake_tick (g_shake : runtime_screen_shake_t) (frame : Z)
  : runtime_screen_shake_t * Z * Z :=
  if remaining_frames g_shake <=? 0 then (g_shake, f32_zero, f32_zero)
  else
    let hx := hash3 frame (u32 (seed g_shake)) 0 in
    let hy := hash3 frame (u32 (seed g_shake)) 1 in
    let dx := f32_mul (hash_to_unit_signed hx) (intensity g_shake) in
    let dy := f32_mul (hash_to_unit_signed hy) (intensity g_shake) in
    ({| remaining_frames := remaining_frames g_shake - 1;
        intensity := f32_mul (intensity g_shake) (decay g_shake);
        decay := decay g_shake;
        seed := seed g_shake |}, dx, dy).

Definition describe : string_sink_t -> string_sink_t := emit
  [Puts "remaining_frames:i32@"; Putu 0; Putc comma;
   Puts "intensity:f32@"; Putu 4; Putc comma;
   Puts "decay:f32@"; Putu 8; Putc comma;
   Puts "seed:i32@"; Putu 12].

Definition canonicalize (s : runtime_screen_shake_t) : runtime_screen_shake_t :=
  {| remaining_frames := remaining_frames s;
     intensity := canonicalize_nanf (intensity s);
     decay := canonicalize_nanf (decay s);
     seed := seed s |}.

Definition save (g_shake : runtime_screen_shake_t) : runtime_screen_shake_t * list Z :=
  (canonicalize g_shake, lenc layout (canonicalize g_shake)).

Definition load (g_shake : runtime_screen_shake_t) (src : list Z) (n : Z)
  : runtime_screen_shake_t * bool :=
  if negb (n =? 16) then (g_shake, false)
  else (ldec layout (take (Z.to_nat n) src), true).

Definition region_screen_shake : runtime_tracked_region_t runtime_screen_shake_t :=
  {| Tracked.name := cstr "screen_shake"; Tracked.size := 16;
     Tracked.describe := Some describe; Tracked.save := save; Tracked.load := load |}.

#[export] Instance lawful :
  LawfulRegion region_screen_shake (fun s => lwf layout s /\ true = true).
Proof.
  apply (memcpy_region_lawful _ layout canonicalize (fun _ => true)); try done.
  - apply _.
  - intros s. cbn -[Z.pow]. intros (?&?&?&?). canon_fields.
  - intros s. unfold canonicalize; simpl. by autorewrite with blytrw.
Qed.

(** [k] ticks on successive frames. *)
Fixpoint ticks (k : nat) (s : runtime_screen_shake_t) (frame : Z) : runtime_screen_shake_t :=
  match k with
  | O => s
  | S k => ticks k (screen_shake_tick s frame).1.1 (frame + 1)
  end.

Lemma tick_remaining s f :
  remaining_frames (screen_shake_tick s f).1.1 =
  (if remaining_frames s <=? 0 then remaining_frames s else remaining_frames s - 1).
Proof. unfold screen_shake_tick. by destruct (_ <=? _). Qed.

(** A tick reads the state up to NaN encodings only. *)
Lemma tick_canon s g :
  screen_shake_tick (canonicalize s) g =
  (match screen_shake_tick s g with (s', dx, dy) =>
     (if remaining_frames s <=? 0 then canonicalize s'
      else Shake (remaining_frames s') (intensity s') (canonicalize_nanf (decay s')) (seed s'),
      dx, dy) end).
Proof.
  assert (forall a b, f32_mul a (canonicalize_nanf b) = f32_mul a b) as Hm.
  { intros a b. unfold f32_mul. by rewrite f32_of_bits_canon. }
  unfold screen_shake_tick. cbn [remaining_frames canonicalize seed intensity decay].
  destruct (_ <=? _); [done|]. cbn [remaining_frames intensity decay seed].
  rewrite !Hm. rewrite <-(Hm _ (decay s)), f32_mul_canon. done.
Qed.

(** a shake lasts exactly the frames it was asked for: ticks shift the
    picture and count down while frames remain, after that every tick reports
    zero offsets and changes nothing, and a tick depends on the state and the
    frame number up to NaN encodings only, so a save in mid-shake replays. *)
Theorem shake_lifetime frames i k f :
  0 <= frames < 2 ^ 31 ->
  let s := ticks k (blyt_screen_shake frames i) f in
  remaining_frames s = Z.max 0 (frames - Z.of_nat k) /\
  (frames <= Z.of_nat k -> forall g, screen_shake_tick s g = (s, f32_zero, f32_zero)) /\
  (forall g, let '(s1, dx1, dy1) := screen_shake_tick (canonicalize s) g in
             let '(s2, dx2, dy2) := screen_shake_tick s g in
             dx1 = dx2 /\ dy1 = dy2 /\ canonicalize s1 = canonicalize s2).
Proof.
  intros Hf s.
  assert (remaining_frames s = Z.max 0 (frames - Z.of_nat k)) as Hr.
  { assert (forall k s f, 0 <= remaining_frames s ->
      remaining_frames (ticks k s f) = Z.max 0 (remaining_frames s - Z.of_nat k)) as H.
    { clear. induction k as [|k IH]; intros s f Hs; [simpl; lia|].
      cbn [ticks]. rewrite IH; rewrite tick_remaining; zcase. }
    unfold s. rewrite H; simpl; lia. }
  split; [done|]. split.
  - intros Hk g. unfold screen_shake_tick. zcase.
  - intros g. rewrite tick_canon. destruct (screen_shake_tick s g) as [[s2 dx2] dy2].
    split; [done|]. split; [done|]. unfold canonicalize.
    destruct (_ <=? _); cbn [remaining_frames intensity decay seed];
      by autorewrite with blytrw.
Qed.

Lemma shake_lifetime_witness :
  remaining_frames (ticks 2 (blyt_screen_shake 5 f32_one) 0) = 3.
Proof. apply (shake_lifetime 5 f32_one 2 0); lia. Defined.
End ScreenShake.

(** ** voice_end_queue (region_voice_end_queue.c) *)
Module VoiceEndQueue.

Definition VOICE_END_PENDING_MAX : Z := 8.

Record voice_end_event_t := Event { eframe : Z; handle : Z; kind : Z }.

Record runtime_voice_end_queue_t := Queue {
  logical_view_bits : Z;
  pending_count : Z;
  pending : list voice_end_event_t;
}.

Definition event_layout : layout voice_end_event_t :=
  struct (uint 4 ⨾ uint 1 ⨾ uint 1)%layout
    (fun e => (eframe e, (handle e, kind e))) (fun '(a, (b, c)) => Event a b c).

Definition layout : layout runtime_voice_end_queue_t :=
  struct (uint 8 ⨾ uint 1 ⨾ array 8 event_layout)%layout
    (fun q => (logical_view_bits q, (pending_count q, pending q)))
    (fun '(a, (b, c)) => Queue a b c).

#[export] Instance event_lawful : Lawful event_layout.
Proof. apply struct_lawful; [apply _|by intros []|by intros (?&?&?)]. Qed.

#[export] Instance layout_lawful : Lawful layout.
Proof. apply struct_lawful; [apply _|by intros []|by intros (?&?&?)]. Qed.

(** The compaction loop of [voice_start], [n] rounds from index [i].  [None]
    is a read behind the array, which a count of at most 8 excludes. *)
Fixpoint drop_handle (n i out : nat) (p : list voice_end_event_t) (h : Z)
  : list voice_end_event_t * nat :=
  match n with
  | O => (p, out)
  | S n =>
      match p !! i with
      | None => (p, out)
      | Some e =>
          if negb (handle e =? h) then drop_handle n (S i) (S out) (<[out := e]> p) h
          else drop_handle n (S i) out p h
      end
  end.

Definition voice_start (g_q : runtime_voice_end_queue_t) (h : Z) : runtime_voice_end_queue_t :=
  let '(p, out) := drop_handle (Z.to_nat (pending_count g_q)) 0 0 (pending g_q) h in
  {| logical_view_bits := bit_set 64 (logical_view_bits g_q) h;
     pending_count := Z.of_nat out;
     pending := p |}.

Definition voice_is_playing (g_q : runtime_voice_end_queue_t) (h : Z) : bool :=
  bit_test 64 (logical_view_bits g_q) h.

Definition voice_end_apply_pending (g_q : runtime_voice_end_queue_t)
  : runtime_voice_end_queue_t :=
  {| logical_view_bits :=
       fold_left (fun bits e => bit_clear 64 bits (handle e))
         (take (Z.to_nat (pending_count g_q)) (pending g_q)) (logical_view_bits g_q);
     pending_count := 0;
     pending := pending g_q |}.

Definition voice_end_record (g_q : runtime_voice_end_queue_t) (frame h k : Z)
  : runtime_voice_end_queue_t :=
  if VOICE_END_PENDING_MAX <=? pending_count g_q then g_q
  else
    {| logical_view_bits := logical_view_bits g_q;
       pending_count := u8 (pending_count g_q + 1);
       pending := <[Z.to_nat (pending_count g_q) := Event frame h k]> (pending g_q) |}.

Definition describe : string_sink_t -> string_sink_t := emit
  [Puts "logical_view_bits:u64@"; Putu 0; Putc comma;
   Puts "pending_count:u8@"; Putu 8; Putc comma;
   Puts "pending[8]={frame:u32,handle:u8,kind:u8}@";
   Putu 9].

Definition save (g_q : runtime_voice_end_queue_t) : runtime_voice_end_queue_t * list Z :=
  (g_q, lenc layout g_q).

Definition load (g_q : runtime_voice_end_queue_t) (src : list Z) (n : Z)
  : runtime_voice_end_queue_t * bool :=
  if negb (n =? 57) then (g_q, false)
  else
    let g_q := ldec layout (take (Z.to_nat n) src) in
    if VOICE_END_PENDING_MAX <? pending_count g_q then (g_q, false) else (g_q, true).

Definition region_voice_end_queue : runtime_tracked_region_t runtime_voice_end_queue_t :=
  {| Tracked.name := cstr "voice_end_queue"; Tracked.size := 57;
     Tracked.describe := Some describe; Tracked.save := save; Tracked.load := load |}.

Definition queue_wf (q : runtime_voice_end_queue_t) : Prop :=
  lwf layout q /\ (pending_count q <=? VOICE_END_PENDING_MAX) = true.

#[export] Instance lawful : LawfulRegion region_voice_end_queue queue_wf.
Proof.
  apply (memcpy_region_lawful _ layout id (fun q => pending_count q <=? VOICE_END_PENDING_MAX));
    try done; [apply _|].
  intros b src n. change (load b src n = if negb (n =? 57) then (b, false) else
    let q := ldec layout (take (Z.to_nat n) src) in
    (q, pending_count q <=? VOICE_END_PENDING_MAX)).
  unfold load. destruct (negb _); [done|]. cbv zeta. rewrite Z.leb_antisym.
  by destruct (_ <? _).
Qed.

(** *** What the queue promises *)

(** The cart-observable view and the undelivered end events, in order. *)
Record view := View { playing : Z -> bool; ends : list voice_end_event_t }.

Definition live (q : runtime_voice_end_queue_t) : list voice_end_event_t :=
  take (Z.to_nat (pending_count q)) (pending q).

Definition view_of (q : runtime_voice_end_queue_t) : view :=
  {| playing := voice_is_playing q; ends := live q |}.

Inductive op :=
| Start (h : Z)
| Record_end (frame h k : Z)
| Apply.

Definition step (q : runtime_voice_end_queue_t) (o : op) : runtime_voice_end_queue_t :=
  match o with
  | Start h => voice_start q h
  | Record_end f h k => voice_end_record q f h k
  | Apply => voice_end_apply_pending q
  end.

(** The specification of each operation on the view. *)
Definition spec_step (v : view) (o : op) : view :=
  match o with
  | Start h =>
      {| playing := fun i => (i =? h) || playing v i;
         ends := filter (fun e => handle e <> h) (ends v) |}
  | Record_end f h k =>
      if 8 <=? Z.of_nat (length (ends v)) then v
      else {| playing := playing v; ends := ends v ++ [Event f h k] |}
  | Apply =>
      {| playing := fun i => playing v i && negb (existsb (fun e => handle e =? i) (ends v));
         ends := [] |}
  end.

Definition op_ok (o : op) : Prop :=
  match o with
  | Start h => 0 <= h < 64
  | Record_end f h k => 0 <= f < 2 ^ 32 /\ 0 <= h < 64 /\ 0 <= k < 256
  | Apply => True
  end.

(** The queue's invariant: well-formed, and every undelivered event is about
    one of the 64 handles. *)
Definition queue_inv (q : runtime_voice_end_queue_t) : Prop :=
  queue_wf q /\ Forall (fun e => 0 <= handle e < 64) (live q).

Definition view_eq (v w : view) : Prop :=
  ends v = ends w /\ forall i, 0 <= i < 64 -> playing v i = playing w i.

#[export] Instance view_eq_equiv : Equivalence view_eq.
Proof.
  split.
  - intros v. by split.
  - intros v w [E H]. split; [done|]. intros i Hi. by rewrite H.
  - intros u v w [E1 H1] [E2 H2]. split; [by rewrite E1|].
    intros i Hi. by rewrite H1, H2.
Qed.

#[export] Instance spec_step_proper : Proper (view_eq ==> eq ==> view_eq) spec_step.
Proof.
  intros v w [E H] o _ <-. destruct o as [h|f h k|]; simpl.
  - split; simpl; [by rewrite E|]. intros i Hi. by rewrite H.
  - rewrite E. destruct (8 <=? _); split; simpl; auto; by rewrite E.
  - split; simpl; [done|]. intros i Hi. by rewrite H, E.
Qed.

Lemma drop_handle_spec n i out p h :
  (out <= i)%nat -> (i + n <= length p)%nat ->
  exists p', drop_handle n i out p h =
    (p', out + length (filter (fun e => handle e <> h) (slice i n p)))%nat /\
    length p' = length p /\
    take (out + length (filter (fun e => handle e <> h) (slice i n p))) p' =
    take out p ++ filter (fun e => handle e <> h) (slice i n p) /\
    (forall Q, Forall Q p -> Forall Q p').
Proof.
  revert i out p; induction n as [|n IH]; intros i out p Ho Hi; cbn [drop_handle].
  { exists p. unfold slice. rewrite take_0. simpl. by rewrite Nat.add_0_r, app_nil_r. }
  destruct (lookup_lt_is_Some_2 p i) as [e He]; [lia|]. rewrite He.
  assert (slice i (S n) p = e :: slice (S i) n p) as ->.
  { unfold slice. by rewrite (drop_S p e i He). }
  destruct (Z.eqb_spec (handle e) h) as [Heq|Hne]; simpl.
  - rewrite filter_cons_False by tauto. apply IH; lia.
  - rewrite filter_cons_True by done.
    destruct (IH (S i) (S out) (<[out:=e]> p)) as (p' & -> & Hl & Ht & HQ);
      [lia|rewrite length_insert; lia|].
    assert (slice (S i) n (<[out:=e]> p) = slice (S i) n p) as Es.
    { unfold slice. by rewrite drop_insert_lt by lia. }
    rewrite Es in *. rewrite length_insert in Hl. exists p'. simpl.
    rewrite Nat.add_succ_r. split_and!; [done..| |].
    + rewrite <-Nat.add_succ_l, Ht.
      rewrite (take_S_r _ _ e) by (apply list_lookup_insert_eq; lia).
      rewrite take_insert_ge by lia. by rewrite <-app_assoc.
    + intros Q Hp. apply HQ, Forall_insert; [done|].
      by eapply Forall_lookup_1.
Qed.

Lemma slice_0 {A} n (l : list A) : slice 0 n l = take n l.
Proof. unfold slice. by rewrite drop_0. Qed.

Lemma clear_fold_testbit l bits i :
  Forall (fun e => 0 <= handle e < 64) l -> 0 <= i < 64 ->
  Z.testbit (fold_left (fun bits e => bit_clear 64 bits (handle e)) l bits) i =
  Z.testbit bits i && negb (existsb (fun e => handle e =? i) l).
Proof.
  intros Hl Hi; revert bits; induction Hl as [|e l He Hl IH]; intros bits; simpl.
  { by rewrite andb_true_r. }
  rewrite IH, testbit_bit_clear by done. rewrite (Z.eqb_sym i).
  destruct (handle e =? i), (Z.testbit bits i), (existsb _ l); done.
Qed.

Lemma clear_fold_range l bits :
  0 <= bits < 2 ^ 64 ->
  0 <= fold_left (fun bits e => bit_clear 64 bits (handle e)) l bits < 2 ^ 64.
Proof.
  revert bits; induction l as [|e l IH]; intros bits Hb; simpl; [done|].
  apply IH. by apply bit_clear_range.
Qed.

(** The arithmetic of the invariant, unpacked. *)
Lemma queue_inv_facts q :
  queue_inv q ->
  0 <= logical_view_bits q < 2 ^ 64 /\ 0 <= pending_count q <= 8 /\
  length (pending q) = 8%nat /\ Forall (lwf event_layout) (pending q) /\
  Forall (fun e => 0 <= handle e < 64) (live q).
Proof.
  intros [[Hw Hc] Hl]. apply Z.leb_le in Hc. unfold VOICE_END_PENDING_MAX in Hc.
  destruct Hw as (Hb & Hcnt & Hlen & Hev). split; [exact Hb|].
  split; [split; [exact (proj1 Hcnt)|exact Hc]|].
  split; [exact Hlen|]. split; [exact Hev|exact Hl].
Qed.

Lemma queue_inv_intro q :
  0 <= logical_view_bits q < 2 ^ 64 -> 0 <= pending_count q <= 8 ->
  length (pending q) = 8%nat -> Forall (lwf event_layout) (pending q) ->
  Forall (fun e => 0 <= handle e < 64) (live q) -> queue_inv q.
Proof.
  intros Hb Hc Hl He Hh. split; [|exact Hh]. split; [|apply Z.leb_le, Hc].
  split; [exact Hb|]. split; [|exact (conj Hl He)].
  change (0 <= pending_count q < 256). lia.
Qed.

Lemma length_live q : queue_inv q -> Z.of_nat (length (live q)) = pending_count q.
Proof.
  intros Hq. destruct (queue_inv_facts q Hq) as (_ & Hc & Hl & _).
  unfold live. rewrite length_take, Hl. lia.
Qed.

Lemma start_refines q h :
  queue_inv q -> 0 <= h < 64 ->
  queue_inv (voice_start q h) /\
  view_eq (view_of (voice_start q h)) (spec_step (view_of q) (Start h)).
Proof.
  intros Hq Hh. destruct (queue_inv_facts q Hq) as (Hb & Hc & Hl & He & Hlive).
  unfold voice_start.
  destruct (drop_handle_spec (Z.to_nat (pending_count q)) 0 0 (pending q) h)
    as (p' & -> & Hlen & Htake & Hall); [lia|rewrite Hl; lia|].
  rewrite slice_0, !Nat.add_0_l, take_0, app_nil_l in *. fold (live q) in *.
  assert (length (filter (fun e => handle e <> h) (live q)) <= length (live q))%nat
    as Hle by apply length_filter.
  pose proof (length_live q Hq) as Hlq.
  split.
  - apply queue_inv_intro; simpl; [by apply bit_set_range|lia|congruence|by apply Hall|].
    unfold live at 1; simpl. rewrite Nat2Z.id. rewrite Htake. by apply Forall_filter.
  - split; simpl.
    + unfold live at 1; simpl. by rewrite Nat2Z.id, Htake.
    + intros i Hi. unfold voice_is_playing. simpl.
      by rewrite !bit_test_spec, testbit_bit_set by lia.
Qed.

Lemma record_refines q f h k :
  queue_inv q -> op_ok (Record_end f h k) ->
  queue_inv (voice_end_record q f h k) /\
  view_eq (view_of (voice_end_record q f h k)) (spec_step (view_of q) (Record_end f h k)).
Proof.
  intros Hq (Hf & Hh & Hk). pose proof (length_live q Hq) as Hlq.
  destruct (queue_inv_facts q Hq) as (Hb & Hc & Hl & He & Hlive).
  unfold voice_end_record. simpl. rewrite Hlq. unfold VOICE_END_PENDING_MAX.
  destruct (Z.leb_spec 8 (pending_count q)); [by split|].
  rewrite wrap_small by lia.
  assert (take (Z.to_nat (pending_count q + 1))
            (<[Z.to_nat (pending_count q) := Event f h k]> (pending q))
          = live q ++ [Event f h k]) as Ht.
  { replace (Z.to_nat (pending_count q + 1)) with (S (Z.to_nat (pending_count q))) by lia.
    rewrite (take_S_r _ _ (Event f h k)) by (apply list_lookup_insert_eq; lia).
    by rewrite take_insert_ge by lia. }
  split.
  - apply queue_inv_intro; simpl; [done|lia|by rewrite length_insert| |].
    + apply Forall_insert; [exact He|]. exact (conj Hf (conj (conj (proj1 Hh) (Z.lt_trans _ 64 256 (proj2 Hh) eq_refl)) Hk)).
    + unfold live; simpl. rewrite Ht. apply Forall_app_2; [exact Hlive|].
      constructor; [exact Hh|constructor].
  - split; [exact Ht|done].
Qed.

Lemma apply_refines q :
  queue_inv q ->
  queue_inv (voice_end_apply_pending q) /\
  view_eq (view_of (voice_end_apply_pending q)) (spec_step (view_of q) Apply).
Proof.
  intros Hq. destruct (queue_inv_facts q Hq) as (Hb & Hc & Hl & He & Hlive).
  split.
  - apply queue_inv_intro; simpl; [by apply clear_fold_range|lia|done|done|].
    unfold live; simpl. constructor.
  - split; [done|]. intros i Hi. simpl. unfold voice_is_playing; simpl.
    rewrite !bit_test_spec by lia. by apply clear_fold_testbit.
Qed.

(** C36: every sequence of voice operations implements the queue's
    specification: a start makes the handle playing and withdraws its
    undelivered end events, a recorded end stays invisible until the next
    apply (and is dropped when eight are pending), an apply silences exactly
    the handles with a pending event and empties the FIFO; the invariant
    (well-formed struct, at most eight events) holds throughout. *)
Theorem voice_queue_refines q ops :
  queue_inv q -> Forall op_ok ops ->
  queue_inv (fold_left step ops q) /\
  view_eq (view_of (fold_left step ops q)) (fold_left spec_step ops (view_of q)).
Proof.
  intros Hq Hops.
  enough (forall v, view_eq (view_of q) v ->
    queue_inv (fold_left step ops q) /\
    view_eq (view_of (fold_left step ops q)) (fold_left spec_step ops v)) as H by by apply H.
  revert q Hq; induction Hops as [|o ops Ho Hops IH]; intros q Hq v Hv; simpl; [by split|].
  assert (queue_inv (step q o) /\ view_eq (view_of (step q o)) (spec_step (view_of q) o))
    as [Hq' Hv'].
  { destruct o; [by apply start_refines|by apply record_refines|by apply apply_refines]. }
  apply IH; [done|]. by rewrite Hv', Hv.
Qed.

(** The zeroed global at program start. *)
Definition queue_zero : runtime_voice_end_queue_t := Queue 0 0 (replicate 8 (Event 0 0 0)).

Lemma queue_zero_inv : queue_inv queue_zero.
Proof.
  apply queue_inv_intro; simpl; [lia|lia|done| |constructor].
  repeat constructor; simpl; lia.
Qed.

Lemma voice_queue_refines_witness :
  let ops := [Start 1; Start 2; Record_end 5 1 0; Apply; Record_end 6 2 0; Start 2; Apply] in
  let q := fold_left step ops queue_zero in
  queue_inv q /\ view_eq (view_of q) (fold_left spec_step ops (view_of queue_zero)) /\
  (voice_is_playing q 1, voice_is_playing q 2) = (false, true).
Proof.
  intros ops q.
  destruct (voice_queue_refines queue_zero ops queue_zero_inv) as [H1 H2];
    [repeat constructor; simpl; lia|].
  by split_and!.
Defined.

(** [load] of a corrupt queue image (a count above eight) reports failure,
    but only after it has overwritten the live queue with the image. *)
Theorem corrupt_queue_load_overwrites q bad :
  lwf layout bad -> 8 < pending_count bad ->
  load q (lenc layout bad) 57 = (bad, false).
Proof.
  intros Hw Hc. unfold load. cbn [negb Z.eqb Pos.eqb].
  pose proof (length_lenc bad Hw) as Hl. change (lsize layout) with 57%nat in Hl.
  rewrite take_ge by lia. rewrite ldec_lenc by done.
  unfold VOICE_END_PENDING_MAX. destruct (Z.ltb_spec 8 (pending_count bad)); [done|lia].
Qed.

Lemma corrupt_queue_load_overwrites_witness :
  let bad := Queue 6 9 (replicate 8 (Event 0 0 0)) in
  load queue_zero (lenc layout bad) 57 = (bad, false).
Proof.
  intros bad. apply (corrupt_queue_load_overwrites queue_zero bad); [|simpl; lia].
  split; [simpl; lia|]. split; [simpl; lia|]. split; [done|].
  repeat constructor; simpl; lia.
Defined.
End VoiceEndQueue.

(** ** coroutine_save_blob (region_coroutine_save_blob.c) *)
Module CoroutineSaveBlob.

Definition COROUTINE_SAVE_BLOB_MAX_SLOTS : Z := 4.
Definition COROUTINE_SAVE_BLOB_SLOT_SIZE : Z := 32.

Record runtime_coroutine_save_blob_t := Blob {
  active_slots_bits : Z;
  slots : list (list Z);
}.

Definition layout : layout runtime_coroutine_save_blob_t :=
  struct (uint 4 ⨾ array 4 (raw 32))%layout
    (fun b => (active_slots_bits b, slots b)) (fun '(a, b) => Blob a b).

#[export] Instance layout_lawful : Lawful layout.
Proof. apply struct_lawful; [apply _|by intros []|by intros (?&?)]. Qed.

Definition coroutine_blob_activate (g_blob : runtime_coroutine_save_blob_t) (slot : Z)
  : runtime_coroutine_save_blob_t :=
  if COROUTINE_SAVE_BLOB_MAX_SLOTS <=? slot then g_blob
  else {| active_slots_bits := bit_set 32 (active_slots_bits g_blob) slot;
          slots := slots g_blob |}.

(** [src] is the memory the source pointer names, at least [n] bytes of it. *)
Definition coroutine_blob_write (g_blob : runtime_coroutine_save_blob_t) (slot : Z)
    (src : list Z) (n : Z) : runtime_coroutine_save_blob_t :=
  if COROUTINE_SAVE_BLOB_MAX_SLOTS <=? slot then g_blob
  else
    let n := if COROUTINE_SAVE_BLOB_SLOT_SIZE <? n then COROUTINE_SAVE_BLOB_SLOT_SIZE else n in
    {| active_slots_bits := active_slots_bits g_blob;
       slots := alter (write_at 0 (take (Z.to_nat n) src)) (Z.to_nat slot) (slots g_blob) |}.

(** The bytes stored at [dst], or [None] for the return value 0. *)
Definition coroutine_blob_read (g_blob : runtime_coroutine_save_blob_t) (slot n : Z)
  : option (list Z) :=
  if COROUTINE_SAVE_BLOB_MAX_SLOTS <=? slot then None
  else if negb (bit_test 32 (active_slots_bits g_blob) slot) then None
  else
    let n := if COROUTINE_SAVE_BLOB_SLOT_SIZE <? n then COROUTINE_SAVE_BLOB_SLOT_SIZE else n in
    match slots g_blob !! Z.to_nat slot with
    | Some bs => Some (slice 0 (Z.to_nat n) bs)
    | None => None
    end.

Definition coroutine_blob_is_active (g_blob : runtime_coroutine_save_blob_t) (slot : Z) : bool :=
  if COROUTINE_SAVE_BLOB_MAX_SLOTS <=? slot then false
  else bit_test 32 (active_slots_bits g_blob) slot.

Definition describe : string_sink_t -> string_sink_t := emit
  [Puts "active_slots_bits:u32@"; Putu 0; Putc comma;
   Puts "slots["; Putu COROUTINE_SAVE_BLOB_MAX_SLOTS;
   Puts "]["; Putu COROUTINE_SAVE_BLOB_SLOT_SIZE;
   Puts "]:u8@"; Putu 4].

Definition save (g_blob : runtime_coroutine_save_blob_t)
  : runtime_coroutine_save_blob_t * list Z := (g_blob, lenc layout g_blob).

Definition load (g_blob : runtime_coroutine_save_blob_t) (src : list Z) (n : Z)
  : runtime_coroutine_save_blob_t * bool :=
  if negb (n =? 132) then (g_blob, false)
  else (ldec layout (take (Z.to_nat n) src), true).

Definition region_coroutine_save_blob : runtime_tracked_region_t runtime_coroutine_save_blob_t :=
  {| Tracked.name := cstr "coroutine_save_blob"; Tracked.size := 132;
     Tracked.describe := Some describe; Tracked.save := save; Tracked.load := load |}.

#[export] Instance lawful :
  LawfulRegion region_coroutine_save_blob (fun s => lwf layout s /\ true = true).
Proof. apply (memcpy_region_lawful _ layout id (fun _ => true)); try done; apply _. Qed.

(** The zeroed global at program start. *)
Definition blob_zero : runtime_coroutine_save_blob_t := Blob 0 (replicate 4 (replicate 32 0)).

Lemma blob_zero_wf : lwf layout blob_zero.
Proof.
  split; [simpl; lia|]. split; [done|]. apply Forall_replicate.
  split; [done|]. by apply Forall_replicate.
Qed.

Lemma activate_wf b s : 0 <= s -> lwf layout b -> lwf layout (coroutine_blob_activate b s).
Proof.
  unfold coroutine_blob_activate. intros Hs Hb. destruct (_ <=? _); [done|].
  destruct Hb as [Hbits Hslots]. split; [|exact Hslots].
  apply (bit_set_range 32); [done|exact Hbits].
Qed.

Lemma write_wf b s src n :
  bytes src -> lwf layout b -> lwf layout (coroutine_blob_write b s src n).
Proof.
  unfold coroutine_blob_write. intros Hsrc [Hbits [Hlen Hslots]].
  destruct (_ <=? _); [exact (conj Hbits (conj Hlen Hslots))|].
  split; [exact Hbits|]. cbn [slots struct lwf array fst snd pair_layout] in *.
  split; [by rewrite length_alter|]. apply Forall_alter; [exact Hslots|].
  intros bs _ [Hl Hb]. unfold COROUTINE_SAVE_BLOB_SLOT_SIZE. split.
  - rewrite length_write_at; [done|]. rewrite length_take, Hl. destruct (Z.ltb_spec 32 n); lia.
  - apply write_at_bytes; [by apply Forall_take|done].
Qed.

(** what a cart writes into an active slot it reads back (clipped to the
    32 bytes of a slot), a write touches no other slot and no activity bit,
    and a slot number beyond the table or a slot never activated reads as
    failure. *)
Theorem coroutine_blob_read_write b s src n :
  lwf layout b -> 0 <= s < 4 -> 0 <= n -> n <= Z.of_nat (length src) ->
  let b' := coroutine_blob_write b s src n in
  (coroutine_blob_is_active b s = true ->
   coroutine_blob_read b' s n = Some (take (Z.to_nat (Z.min n 32)) src)) /\
  (coroutine_blob_is_active b s = false -> coroutine_blob_read b' s n = None) /\
  (forall s', 0 <= s' -> coroutine_blob_is_active b' s' = coroutine_blob_is_active b s' /\
     (s' <> s -> coroutine_blob_read b' s' n = coroutine_blob_read b s' n)) /\
  (forall s', 4 <= s' -> coroutine_blob_write b s' src n = b /\
     coroutine_blob_activate b s' = b /\ coroutine_blob_read b s' n = None).
Proof.
  intros [_ [Hlen Hslots]] Hs Hn Hsrc b'. unfold b'.
  unfold coroutine_blob_write, coroutine_blob_read, coroutine_blob_is_active,
    coroutine_blob_activate, COROUTINE_SAVE_BLOB_MAX_SLOTS, COROUTINE_SAVE_BLOB_SLOT_SIZE.
  destruct (Z.leb_spec 4 s) as [?|_]; [lia|]. cbn [active_slots_bits slots].
  assert ((if 32 <? n then 32 else n) = Z.min n 32) as -> by zcase.
  split; [|split; [|split]].
  - intros ->. cbn [negb].
    destruct (lookup_lt_is_Some_2 (slots b) (Z.to_nat s)) as [bs Hbs].
    { change (length (slots b) = 4%nat) in Hlen. lia. }
    rewrite list_lookup_alter_eq, Hbs. cbn [fmap option_fmap option_map].
    set (src' := take _ src).
    assert (Z.to_nat (Z.min n 32) = length src') as ->.
    { unfold src'. rewrite length_take. lia. }
    rewrite slice_write_at_eq by lia. done.
  - by intros ->.
  - intros s' Hs'. split; [done|]. intros Hne.
    rewrite list_lookup_alter_ne by lia. done.
  - intros s' Hs'. destruct (Z.leb_spec 4 s'); [done|lia].
Qed.

Lemma coroutine_blob_read_write_witness :
  let b := coroutine_blob_activate blob_zero 2 in
  coroutine_blob_read (coroutine_blob_write b 2 [7; 8; 9] 3) 2 3 = Some [7; 8; 9].
Proof.
  intros b. apply (coroutine_blob_read_write b 2 [7; 8; 9] 3); try done; try lia.
  apply activate_wf; [done|apply blob_zero_wf].
Defined.
End CoroutineSaveBlob.

(** ** cart_state_lua_simple (cart_state_lua_simple.c) *)
Module CartStateLuaSimple.

Definition LUA_SIMPLE_NUM_ENTITIES : Z := 8.

Record entity := Entity { ex : Z; ey : Z; ea : Z }.

Record cart_state_lua_simple_t := CartState { entities : list entity }.

Definition entity_layout : layout entity :=
  struct (uint 4 ⨾ uint 4 ⨾ uint 4)%layout
    (fun e => (ex e, (ey e, ea e))) (fun '(a, (b, c)) => Entity a b c).

Definition layout : layout cart_state_lua_simple_t :=
  struct (array 8 entity_layout) entities CartState.

#[export] Instance entity_lawful : Lawful entity_layout.
Proof. apply struct_lawful; [apply _|by intros []|by intros (?&?&?)]. Qed.

#[export] Instance layout_lawful : Lawful layout.
Proof. apply struct_lawful; [apply _|by intros []|done]. Qed.

Definition describe : string_sink_t -> string_sink_t := emit
  [Puts "entities["; Putu LUA_SIMPLE_NUM_ENTITIES;
   Puts "]={x:f32@0,y:f32@4,a:f32@8}@"; Putu 0].

Definition canonicalize_entity (e : entity) : entity :=
  Entity (canonicalize_nanf (ex e)) (canonicalize_nanf (ey e)) (canonicalize_nanf (ea e)).

Definition canonicalize (s : cart_state_lua_simple_t) : cart_state_lua_simple_t :=
  CartState (map canonicalize_entity (entities s)).

Definition save (g_state : cart_state_lua_simple_t) : cart_state_lua_simple_t * list Z :=
  (canonicalize g_state, lenc layout (canonicalize g_state)).

Definition load (g_state : cart_state_lua_simple_t) (src : list Z) (n : Z)
  : cart_state_lua_simple_t * bool :=
  if negb (n =? 96) then (g_state, false)
  else (ldec layout (take (Z.to_nat n) src), true).

Definition region_cart_state_lua_simple : runtime_tracked_region_t cart_state_lua_simple_t :=
  {| Tracked.name := cstr "cart_state_lua_simple"; Tracked.size := 96;
     Tracked.describe := Some describe; Tracked.save := save; Tracked.load := load |}.

Lemma lua_canonicalize_wf s : lwf layout s -> lwf layout (canonicalize s).
Proof.
  intros [Hl He]. split; [by rewrite <-Hl; apply length_map|].
  apply Forall_map. eapply Forall_impl; [exact He|].
  intros e (?&?&?). cbn -[Z.pow] in *. canon_fields.
Qed.

Lemma canonicalize_entity_idem e : canonicalize_entity (canonicalize_entity e) = canonicalize_entity e.
Proof. unfold canonicalize_entity; simpl. by autorewrite with blytrw. Qed.

#[export] Instance lawful :
  LawfulRegion region_cart_state_lua_simple (fun s => lwf layout s /\ true = true).
Proof.
  apply (memcpy_region_lawful _ layout canonicalize (fun _ => true)); try done.
  - apply _.
  - apply lua_canonicalize_wf.
  - intros s. unfold canonicalize; simpl. f_equal. rewrite map_map.
    apply map_ext, canonicalize_entity_idem.
Qed.

Definition cart_state_zero : cart_state_lua_simple_t := CartState (replicate 8 (Entity 0 0 0)).
End CartStateLuaSimple.

(** ** cart_state_whetstone (cart_state_whetstone.c) *)
Module CartStateWhetstone.

Record cart_state_whetstone_t := CartState {
  a : Z; b : Z; c : Z; d : Z;
  e1 : list Z;
  t : Z; u : Z;
}.

Definition layout : layout cart_state_whetstone_t :=
  struct (uint 4 ⨾ uint 4 ⨾ uint 4 ⨾ uint 4 ⨾ array 4 (uint 4) ⨾ uint 4 ⨾ uint 4)%layout
    (fun s => (a s, (b s, (c s, (d s, (e1 s, (t s, u s)))))))
    (fun '(a, (b, (c, (d, (e, (t, u)))))) => CartState a b c d e t u).

#[export] Instance layout_lawful : Lawful layout.
Proof. apply struct_lawful; [apply _|by intros []|by intros (?&?&?&?&?&?&?)]. Qed.

Definition f32_minus_one : Z := 0xbf800000.
Definition f32_three_quarters : Z := 0x3f400000.

(** The initializer of [g_state]. *)
Definition g_state_init : cart_state_whetstone_t :=
  {| a := f32_one; b := f32_minus_one; c := f32_minus_one; d := f32_minus_one;
     e1 := [f32_one; f32_minus_one; f32_minus_one; f32_minus_one];
     t := f32_half;
     u := f32_three_quarters |}.

Definition describe : string_sink_t -> string_sink_t := emit
  [Puts "a:f32@"; Putu 0; Putc comma;
   Puts "b:f32@"; Putu 4; Putc comma;
   Puts "c:f32@"; Putu 8; Putc comma;
   Puts "d:f32@"; Putu 12; Putc comma;
   Puts "e1[4]:f32@"; Putu 16; Putc comma;
   Puts "t:f32@"; Putu 32; Putc comma;
   Puts "u:f32@"; Putu 36].

Definition canonicalize (s : cart_state_whetstone_t) : cart_state_whetstone_t :=
  {| a := canonicalize_nanf (a s); b := canonicalize_nanf (b s);
     c := canonicalize_nanf (c s); d := canonicalize_nanf (d s);
     e1 := map canonicalize_nanf (e1 s);
     t := canonicalize_nanf (t s); u := canonicalize_nanf (u s) |}.

Definition save (g_state : cart_state_whetstone_t) : cart_state_whetstone_t * list Z :=
  (canonicalize g_state, lenc layout (canonicalize g_state)).

Definition load (g_state : cart_state_whetstone_t) (src : list Z) (n : Z)
  : cart_state_whetstone_t * bool :=
  if negb (n =? 40) then (g_state, false)
  else (ldec layout (take (Z.to_nat n) src), true).

Definition region_cart_state_whetstone : runtime_tracked_region_t cart_state_whetstone_t :=
  {| Tracked.name := cstr "cart_state_whetstone"; Tracked.size := 40;
     Tracked.describe := Some describe; Tracked.save := save; Tracked.load := load |}.

Lemma whetstone_canonicalize_wf s : lwf layout s -> lwf layout (canonicalize s).
Proof.
  cbn -[Z.pow array]. intros (?&?&?&?&[Hl He]&?&?). canon_fields.
  - by rewrite length_map.
  - apply Forall_map. eapply Forall_impl; [exact He|]. apply canonicalize_nanf_range.
Qed.

#[export] Instance lawful :
  LawfulRegion region_cart_state_whetstone (fun s => lwf layout s /\ true = true).
Proof.
  apply (memcpy_region_lawful _ layout canonicalize (fun _ => true)); try done.
  - apply _.
  - apply whetstone_canonicalize_wf.
  - intros s. unfold canonicalize; simpl. autorewrite with blytrw. f_equal.
    rewrite map_map. apply map_ext, canonicalize_nanf_idem.
Qed.
End CartStateWhetstone.
