(* ===== verification/HostString.v ===== *)
(** * Strings on the host

    The host-side programs of spike j walk C strings with the hosted C library's
    [strchr], [strstr], [strncmp], [atoi] and [strtoul] and print with [snprintf].
    A string is the list of its characters before the NUL, a pointer into it the
    rest of the list; [int] has 32 bits, [long] and [size_t] 64. *)

From S2P Require Import Prelude.
Open Scope Z_scope.

Definition is_space (c : Z) : bool := (c =? 32) || ((9 <=? c) && (c <=? 13)).

Fixpoint skip_spaces (s : list Z) : list Z :=
  match s with
  | c :: rest => if is_space c then skip_spaces rest else s
  | [] => []
  end.

(** [p[0]] of the rest of a string. *)
Definition char0 (s : list Z) : Z := nth 0 s 0.

(** The rest of the string from the first [c] on. *)
Fixpoint strchr_rest (s : list Z) (c : Z) : option (list Z) :=
  match s with
  | x :: rest => if x =? c then Some s else strchr_rest rest c
  | [] => None
  end.

(** [strncmp(s, lit, strlen(lit)) == 0] *)
Fixpoint starts (lit s : list Z) : bool :=
  match lit, s with
  | [], _ => true
  | a :: lit, b :: s => (a =? b) && starts lit s
  | _, [] => false
  end.

(** [strstr(s, lit)]: the rest of the string from the first occurrence on. *)
Fixpoint strstr_rest (lit s : list Z) : option (list Z) :=
  if starts lit s then Some s
  else match s with
       | [] => None
       | _ :: rest => strstr_rest lit rest
       end.

(** The value of the leading decimal digits. *)
Fixpoint dec_value (acc : Z) (s : list Z) : Z :=
  match s with
  | c :: rest => if (48 <=? c) && (c <=? 57) then dec_value (acc * 10 + (c - 48)) rest else acc
  | [] => acc
  end.

(** [(int)strtol(s, NULL, 10)], which saturates at [long]. *)
Definition atoi (s : list Z) : Z :=
  let t := skip_spaces s in
  let '(neg, t) :=
    match t with 45 :: t => (true, t) | 43 :: t => (false, t) | _ => (false, t) end in
  let v := dec_value 0 t in
  let v := if neg then - v else v in
  i32 (Z.max (- 2 ^ 63) (Z.min v (2 ^ 63 - 1))).

(** [%d] *)
Definition print_int (v : Z) : list Z := if v <? 0 then 45 :: dec (- v) else dec v.

(** What an array of [cap] bytes holds after [snprintf(buf, cap, ...)]. *)
Definition clip (cap : Z) (text : list Z) : list Z :=
  if Z.of_nat (length text) <? cap then text else take (Z.to_nat (cap - 1)) text.

(** [off += snprintf(buf + off, sizeof(buf) - off, ...)]: what the array holds, and
    [off], which counts the whole text; undefined once [off] has left the array. *)
Definition snprintf_at (cap : Z) (x : list Z * Z) (text : list Z) : option (list Z * Z) :=
  let '(buf, off) := x in
  if cap <? off then None else Some (buf ++ clip (cap - off) text, off + Z.of_nat (length text)).

(** A C string: no NUL inside. *)
Definition cstring (s : list Z) : Prop := Forall (fun c => c <> 0) s.

(** ** Prefixes and searches *)

Lemma starts_app lit rest : starts lit (lit ++ rest) = true.
Proof. induction lit as [|a lit IH]; [done|]. cbn [app starts]. by rewrite Z.eqb_refl, IH. Qed.

Lemma starts_spec lit s : starts lit s = true <-> exists rest, s = lit ++ rest.
Proof.
  split; [|by intros [rest ->]; apply starts_app].
  revert s; induction lit as [|a lit IH]; intros [|b s]; cbn [starts]; try done; eauto.
  intros [->%Z.eqb_eq H]%andb_prop. destruct (IH _ H) as [rest ->]. by exists rest.
Qed.

Lemma strstr_here lit rest : strstr_rest lit (lit ++ rest) = Some (lit ++ rest).
Proof. pose proof (starts_app lit rest) as H. by destruct (lit ++ rest); cbn [strstr_rest]; rewrite H. Qed.

(** A literal whose first character does not occur in front is found. *)
Lemma strstr_skip a lit pre rest : ~ In a pre ->
  strstr_rest (a :: lit) (pre ++ (a :: lit) ++ rest) = Some ((a :: lit) ++ rest).
Proof.
  induction pre as [|b pre IH]; intros Hp; [exact (strstr_here (a :: lit) rest)|].
  cbn [app strstr_rest starts].
  rewrite (proj2 (Z.eqb_neq a b)) by (intros ->; apply Hp; by left).
  cbn [andb]. apply IH. intros H. apply Hp. by right.
Qed.

Lemma strchr_here c rest : strchr_rest (c :: rest) c = Some (c :: rest).
Proof. cbn. by rewrite Z.eqb_refl. Qed.

Lemma strchr_skip pre c rest : ~ In c pre -> strchr_rest (pre ++ c :: rest) c = Some (c :: rest).
Proof.
  induction pre as [|b pre IH]; intros Hp; [apply strchr_here|]. cbn [app strchr_rest].
  rewrite (proj2 (Z.eqb_neq b c)) by (intros ->; apply Hp; by left).
  apply IH. intros H. apply Hp. by right.
Qed.

Lemma strchr_suffix s c rest : strchr_rest s c = Some rest -> (length rest <= length s)%nat.
Proof.
  induction s as [|b s IH]; cbn [strchr_rest]; [done|].
  destruct (b =? c); intros H; [injection H as <-; done|]. apply IH in H. cbn [length]. lia.
Qed.

(** ** Texts that fit *)

Lemma clip_fits cap text : Z.of_nat (length text) < cap -> clip cap text = text.
Proof. intros H. unfold clip. by rewrite (proj2 (Z.ltb_lt _ _) H). Qed.

Lemma snprintf_at_fits cap buf text :
  Z.of_nat (length buf) + Z.of_nat (length text) < cap ->
  snprintf_at cap (buf, Z.of_nat (length buf)) text = Some (buf ++ text, Z.of_nat (length (buf ++ text))).
Proof.
  intros H. unfold snprintf_at. rewrite (proj2 (Z.ltb_ge _ _)), clip_fits by lia.
  rewrite length_app. do 2 f_equal. lia.
Qed.

(** ** [atoi] reads what [%d] prints *)

Definition ends_number (rest : list Z) : Prop :=
  match rest with [] => True | c :: _ => ~ (48 <= c <= 57) end.

Definition digits_value (acc : Z) (ds : list Z) : Z := fold_left (fun v c => v * 10 + (c - 48)) ds acc.

Lemma dec_value_app ds rest acc :
  Forall (fun d => 48 <= d <= 57) ds -> ends_number rest ->
  dec_value acc (ds ++ rest) = digits_value acc ds.
Proof.
  intros Hd Hr. revert acc. induction Hd as [|d ds Hd _ IH]; intros acc.
  - destruct rest as [|c rest]; [done|]. cbn [app dec_value]. cbn in Hr. zcase.
  - cbn [app dec_value]. destruct (Z.leb_spec 48 d), (Z.leb_spec d 57); try lia. cbn [andb]. apply IH.
Qed.

Lemma digits_value_rev ds acc :
  digits_value acc (rev ds) = acc * 10 ^ Z.of_nat (length ds) + dec_rev_val ds.
Proof.
  revert acc. induction ds as [|d ds IH]; intros acc; [cbn; lia|].
  cbn [rev length dec_rev_val]. unfold digits_value in *. rewrite fold_left_app, IH. cbn [fold_left].
  rewrite Nat2Z.inj_succ, Z.pow_succ_r by lia. lia.
Qed.

Lemma dec_value_dec v rest : 0 <= v < 2 ^ 64 -> ends_number rest -> dec_value 0 (dec v ++ rest) = v.
Proof.
  intros Hv Hr. rewrite dec_value_app by (done || apply dec_digits). unfold dec.
  destruct (Z.eqb_spec v 0) as [->|]; [done|].
  rewrite digits_value_rev, dec_rev_correct; [lia|]. change (10 ^ Z.of_nat 20) with (10 ^ 20). lia.
Qed.

Lemma dec_first v : exists d ds, dec v = d :: ds /\ (0 <= v < 2 ^ 64 -> 48 <= d <= 57).
Proof.
  pose proof (dec_digits v) as H. destruct (dec v) as [|d ds] eqn:E.
  - exfalso. unfold dec in E. destruct (Z.eqb_spec v 0); [done|].
    cbn [dec_rev] in E. rewrite (proj2 (Z.eqb_neq _ _)) in E by done. cbn [rev] in E.
    by apply app_nil in E as [_ E].
  - exists d, ds. split; [done|]. by inversion_clear H.
Qed.

Lemma atoi_print_int v rest : - 2 ^ 31 <= v < 2 ^ 31 -> ends_number rest -> atoi (print_int v ++ rest) = v.
Proof.
  intros Hv Hr. unfold atoi, print_int. destruct (Z.ltb_spec v 0).
  - cbn [app skip_spaces is_space]. change (is_space 45) with false. cbn match.
    rewrite dec_value_dec by (done || lia). rewrite signed_small; lia.
  - destruct (dec_first v) as (d & ds & E & Hd). specialize (Hd ltac:(lia)).
    rewrite E. cbn [app skip_spaces].
    assert (is_space d = false) as -> by (unfold is_space; zcase).
    assert (match d :: ds ++ rest with 45 :: t => (true, t) | 43 :: t => (false, t) | _ => (false, d :: ds ++ rest) end
            = (false, d :: ds ++ rest)) as ->.
    { clear E. destruct d as [|p|p]; try lia. do 6 (destruct p as [p|p|]; try reflexivity; try lia). }
    rewrite app_comm_cons, <-E, dec_value_dec by (done || lia). rewrite signed_small; lia.
Qed.

Lemma c_string_id s : cstring s -> c_string s = s.
Proof. induction 1 as [|c s Hc _ IH]; [done|]. cbn [c_string]. by rewrite (proj2 (Z.eqb_neq _ _) Hc), IH. Qed.

Lemma length_dec_rev fuel v : (length (dec_rev fuel v) <= fuel)%nat.
Proof. revert v. induction fuel as [|fuel IH]; intros v; [done|]. cbn. destruct (v =? 0); cbn; [lia|]. specialize (IH (v / 10)). lia. Qed.

(** Twenty digits and a sign. *)
Lemma length_print_int v : (length (print_int v) <= 21)%nat.
Proof.
  assert (forall u, (length (dec u) <= 20)%nat) as H.
  { intros u. unfold dec. destruct (u =? 0); [cbn; lia|]. rewrite length_rev. apply length_dec_rev. }
  unfold print_int. destruct (v <? 0); cbn [length]; [specialize (H (- v))|specialize (H v)]; lia.
Qed.

(** ** Nibbles *)

Lemma nibble_cases (P : Z -> Prop) :
  Forall P [0; 1; 2; 3; 4; 5; 6; 7; 8; 9; 10; 11; 12; 13; 14; 15] -> forall d, 0 <= d < 16 -> P d.
Proof.
  intros H d Hd. rewrite Forall_forall in H. apply H. apply list_elem_of_In. cbn. lia.
Qed.

Lemma land_f n : Z.land n 0xf = n mod 16.
Proof. change 0xf with (Z.ones 4). by rewrite Z.land_ones. Qed.

Lemma byte_of_nibbles b : is_byte b -> u8 (Z.lor (((b ≫ 4) mod 16) ≪ 4) (Z.land b 0xf mod 16)) = b.
Proof.
  intros Hb. unfold is_byte in Hb. rewrite land_f, Z.mod_mod by lia.
  rewrite Z.shiftr_div_pow2 by lia. change (2 ^ 4) with 16.
  rewrite (Z.mod_small (b / 16)) by (split; [apply Z.div_pos; lia|apply Z.div_lt_upper_bound; lia]).
  rewrite Z.shiftl_mul_pow2 by lia. change (2 ^ 4) with 16.
  assert (Z.lor (b / 16 * 16) (b mod 16) = b) as ->.
  { apply Z.bits_inj'. intros i Hi. rewrite Z.lor_spec. change 16 with (2 ^ 4).
    rewrite <-Z.shiftr_div_pow2, <-Z.shiftl_mul_pow2 by lia.
    destruct (Z.ltb_spec i 4).
    - rewrite Z.shiftl_spec_low, Z.mod_pow2_bits_low by lia. done.
    - rewrite Z.shiftl_spec, Z.shiftr_spec, Z.mod_pow2_bits_high by lia.
      rewrite orb_false_r. f_equal. lia. }
  by apply (wrap_small 8).
Qed.
