(* ===== verification/GdbStub.v ===== *)
(** * The GDB stub (spikes/spike-j/host/gdb_stub.c, gdb_stub_host.c)

    The remote-serial-protocol server inside the emulator: packet framing, the
    handlers, the dispatch, and the session loop of the server thread.  A socket is
    the bytes the client sends and the bytes sent to it; the state of the machine
    under the debugger is a type [M] the CPU callbacks act on.  The server thread is
    the only writer of the breakpoint table; the CPU loop reads it and waits in
    [fc_gdb_stub_step] while the server handles packets.  [None] is behaviour C
    leaves undefined: bytes past a buffer, a callback that transfers more than it was
    asked for.  [unsigned long] has 64 bits on the host. *)

From S2P Require Import Prelude CPrintf HostString.
Open Scope Z_scope.

Definition MAX_PACKET : Z := 1 ≪ 16.
Definition MAX_BREAKS : Z := 128.

(** ** Hexadecimal *)

Definition hexnyb (n : Z) : Z := hex_digit_of (Z.land n 0xf).

Definition from_hex (c : Z) : Z :=
  if (48 <=? c) && (c <=? 57) then c - 48
  else if (97 <=? c) && (c <=? 102) then c - 97 + 10
  else if (65 <=? c) && (c <=? 70) then c - 65 + 10
  else -1.

Definition hex_encode (src : list Z) : list Z :=
  concat (map (fun b => [hexnyb (b ≫ 4); hexnyb (Z.land b 0xf)]) src).

(** At most [cap] bytes, up to the first pair that is not hexadecimal. *)
Fixpoint hex_decode (cap : nat) (src : list Z) : list Z :=
  match cap, src with
  | S cap, h :: l :: src =>
      if (h =? 0) || (l =? 0) then []
      else
        let hi := from_hex h in
        let lo := from_hex l in
        if (hi <? 0) || (lo <? 0) then [] else u8 (Z.lor (hi ≪ 4) lo) :: hex_decode cap src
  | _, _ => []
  end.

(** ** The C library's [strtoul(p, &end, 16)] *)

(** Digits read, the value without saturation, the rest. *)
Fixpoint hex_digits (any : bool) (acc : Z) (s : list Z) : bool * Z * list Z :=
  match s with
  | c :: rest => if from_hex c <? 0 then (any, acc, s) else hex_digits true (acc * 16 + from_hex c) rest
  | [] => (any, acc, s)
  end.

Definition strtoul16 (s : list Z) : Z * list Z :=
  let t := skip_spaces s in
  let '(neg, t) :=
    match t with 45 :: t => (true, t) | 43 :: t => (false, t) | _ => (false, t) end in
  let t :=
    match t with
    | 48 :: x :: d :: _ => if ((x =? 120) || (x =? 88)) && negb (from_hex d <? 0) then drop 2 t else t
    | _ => t
    end in
  let '(any, v, rest) := hex_digits false 0 t in
  if negb any then (0, s)
  else if 2 ^ 64 <=? v then (2 ^ 64 - 1, rest)
  else (if neg then u64 (- v) else v, rest).

(** ** The state *)

Record fc_gdb_library_t := Library { path : list Z; l_addr : Z; l_ld : Z }.

Record fc_gdb_layout_t := Layout_ { exec_path : option (list Z); libraries : list fc_gdb_library_t }.

(** Null callbacks are [None]; the return values of the breakpoint callbacks are
    ignored by the stub. *)
Record fc_gdb_cpu_ops_t (M : Type) := Ops {
  read_regs : option (M -> list Z);
  write_regs : option (list Z -> M -> M);
  read_mem : option (Z -> Z -> M -> list Z);
  write_mem : option (Z -> list Z -> M -> M);
  set_breakpoint : option (Z -> M -> M);
  clear_breakpoint : option (Z -> M -> M);
  reload_cart : option (list Z -> M -> M * Z);
}.
Arguments read_regs {M}. Arguments write_regs {M}. Arguments read_mem {M}. Arguments write_mem {M}.
Arguments set_breakpoint {M}. Arguments clear_breakpoint {M}. Arguments reload_cart {M}.

(** [breaks] and [n_breaks]: the first [n_breaks] entries of the table. *)
Record gdb_state_t := Gdb {
  layout : fc_gdb_layout_t;
  breaks : list Z;
  halted : bool;
  pending_action : Z;
  reload_pending : bool;
}.

Definition set_breaks (bs : list Z) (g : gdb_state_t) : gdb_state_t :=
  Gdb (layout g) bs (halted g) (pending_action g) (reload_pending g).
Definition set_action (h : bool) (a : Z) (g : gdb_state_t) : gdb_state_t :=
  Gdb (layout g) (breaks g) h a (reload_pending g).
Definition set_reload (r : bool) (g : gdb_state_t) : gdb_state_t :=
  Gdb (layout g) (breaks g) (halted g) (pending_action g) r.

(** ** Handlers *)

Section handlers.
Context {M : Type} (ops : fc_gdb_cpu_ops_t M).

(** The state, the machine and the text in [out]. *)
Abbreviation answer := (option (gdb_state_t * M * list Z)).

Definition handle_qSupported (args : list Z) : list Z :=
  cstr "PacketSize=4000;qXfer:libraries-svr4:read+;qXfer:exec-file:read+;swbreak+;vContSupported+".

(** The part of the first [n] bytes at [data] a qXfer read asks for; [args] starts
    behind the colon. *)
Definition qXfer_slice (args data : list Z) (n cap : Z) : option (list Z) :=
  let '(off, p) := strtoul16 args in
  let off := u32 off in
  let p := if char0 p =? 44 then drop 1 p else p in
  let len := u32 (fst (strtoul16 p)) in
  if n <=? off then Some (cstr "l")
  else
    let avail := u32 (n - off) in
    let len := if avail <? len then avail else len in
    let prefix := if n <=? off + len then cstr "l" else cstr "m" in
    if cap <? len + 2 then Some (cstr "E02")
    else if Z.of_nat (length data) <? off + len then None
    else Some (prefix ++ slice (Z.to_nat off) (Z.to_nat len) data).

Definition handle_qXfer_exec_file (g : gdb_state_t) (args : list Z) (cap : Z) : option (list Z) :=
  match strchr_rest args 58 with
  | None => Some (cstr "E01")
  | Some p =>
      let path := default [] (exec_path (layout g)) in
      qXfer_slice (drop 1 p) path (Z.of_nat (length path)) cap
  end.

(** [%x] *)
Definition hex (v : Z) : list Z := rev (tmp_digits false 16 v (-1)).

Definition quote : list Z := [34].

Definition library_element (lib : fc_gdb_library_t) : list Z :=
  cstr "<library name=" ++ quote ++ path lib ++ quote ++ cstr " lm=" ++ quote ++ cstr "0x" ++ hex (l_addr lib) ++
  quote ++ cstr " l_addr=" ++ quote ++ cstr "0x" ++ hex (l_addr lib) ++ quote ++
  cstr " l_ld=" ++ quote ++ cstr "0x" ++ hex (l_ld lib) ++ quote ++
  cstr " lmid=" ++ quote ++ cstr "0x0" ++ quote ++ cstr "/>".

(** [xn += snprintf(xml + xn, sizeof(xml) - xn, ...)] into [char xml[4096]]. *)
Definition xml_append : list Z * Z -> list Z -> option (list Z * Z) := snprintf_at 4096.

Fixpoint xml_libraries (x : list Z * Z) (libs : list fc_gdb_library_t) : option (list Z * Z) :=
  match libs with
  | [] => Some x
  | lib :: libs => x ← xml_append x (library_element lib); xml_libraries x libs
  end.

Definition handle_qXfer_libraries (g : gdb_state_t) (args : list Z) (cap : Z) : option (list Z) :=
  match strchr_rest args 58 with
  | None => Some (cstr "E01")
  | Some p =>
      x ← xml_append ([], 0) (cstr "<library-list-svr4 version=" ++ quote ++ cstr "1.0" ++ quote ++
                              cstr " main-lm=" ++ quote ++ cstr "0x0" ++ quote ++ cstr ">");
      x ← xml_libraries x (libraries (layout g));
      '(xml, xn) ← xml_append x (cstr "</library-list-svr4>");
      qXfer_slice (drop 1 p) (xml ++ [0]) xn cap
  end.

Definition handle_g (g : gdb_state_t) (m : M) (cap : Z) : option (list Z) :=
  match read_regs ops with
  | None => Some (cstr "E01")
  | Some f =>
      let regs := f m in
      if negb (length regs =? 132)%nat then None
      else if cap <? 132 * 2 + 1 then Some (cstr "E02") else Some (hex_encode regs)
  end.

Definition handle_G (m : M) (args : list Z) : M * list Z :=
  match write_regs ops with
  | None => (m, cstr "E01")
  | Some f =>
      let regs := hex_decode 132 args in
      if negb (length regs =? 132)%nat then (m, cstr "E02") else (f regs m, cstr "OK")
  end.

(** [malloc] succeeds. *)
Definition handle_m (m : M) (args : list Z) (cap : Z) : option (list Z) :=
  let '(addr, end_) := strtoul16 args in
  let addr := u32 addr in
  if negb (char0 end_ =? 44) then Some (cstr "E01")
  else
    let len := u32 (fst (strtoul16 (drop 1 end_))) in
    match read_mem ops with
    | None => Some (cstr "E02")
    | Some f =>
        if (4096 <? len) || (cap <? u32 (u32 (len * 2) + 1)) then Some (cstr "E03")
        else
          let got := f addr len m in
          if len <? Z.of_nat (length got) then None else Some (hex_encode got)
    end.

Definition handle_M (m : M) (args : list Z) : M * list Z :=
  let '(addr, end_) := strtoul16 args in
  let addr := u32 addr in
  if negb (char0 end_ =? 44) then (m, cstr "E01")
  else
    let '(len, end_) := strtoul16 (drop 1 end_) in
    let len := u32 len in
    if negb (char0 end_ =? 58) then (m, cstr "E02")
    else
      match write_mem ops with
      | None => (m, cstr "E03")
      | Some f =>
          let buf := hex_decode (Z.to_nat len) (drop 1 end_) in
          if negb (i32 (Z.of_nat (length buf)) =? i32 len) then (m, cstr "E05")
          else (f addr buf m, cstr "OK")
      end.

Definition handle_Z0 (g : gdb_state_t) (m : M) (args : list Z) : gdb_state_t * M * list Z :=
  let addr := u32 (fst (strtoul16 args)) in
  if MAX_BREAKS <=? Z.of_nat (length (breaks g)) then (g, m, cstr "E01")
  else
    let m := match set_breakpoint ops with Some f => f addr m | None => m end in
    (set_breaks (breaks g ++ [addr]) g, m, cstr "OK").

Definition handle_z0 (g : gdb_state_t) (m : M) (args : list Z) : gdb_state_t * M * list Z :=
  let addr := u32 (fst (strtoul16 args)) in
  let g := set_breaks (List.filter (fun a => negb (a =? addr)) (breaks g)) g in
  (g, match clear_breakpoint ops with Some f => f addr m | None => m end, cstr "OK").

Definition handle_vCont_q : list Z := cstr "vCont;c;C;s;S".

Definition handle_vCont (g : gdb_state_t) (args : list Z) : gdb_state_t :=
  match strchr_rest args 115 with
  | Some _ => set_action false 1 g
  | None => set_action false 0 g
  end.

Definition handle_qFc32_reload (g : gdb_state_t) (m : M) (args : list Z) : gdb_state_t * M * list Z :=
  match reload_cart ops with
  | None => (g, m, cstr "E01")
  | Some f =>
      let '(m, rc) := f args m in
      if negb (rc =? 0) then (g, m, cstr "E02") else (set_reload true g, m, cstr "OK")
  end.

(** ** Dispatch: the answer to a packet *)

Definition handle_packet (g : gdb_state_t) (m : M) (pkt : list Z) : answer :=
  let cap := MAX_PACKET in
  let same out := Some (g, m, out) in
  if (char0 pkt =? 113) && starts (cstr "qSupported") pkt then same (handle_qSupported (drop 10 pkt))
  else if starts (cstr "qXfer:exec-file:read:") pkt then
    out ← handle_qXfer_exec_file g (drop 21 pkt) cap; same out
  else if starts (cstr "qXfer:libraries-svr4:read:") pkt then
    out ← handle_qXfer_libraries g (drop 26 pkt) cap; same out
  else if char0 pkt =? 63 then same (cstr "T05")
  else if bool_decide (pkt = [103]) then out ← handle_g g m cap; same out
  else if char0 pkt =? 71 then let '(m, out) := handle_G m (drop 1 pkt) in Some (g, m, out)
  else if char0 pkt =? 109 then out ← handle_m m (drop 1 pkt) cap; same out
  else if char0 pkt =? 77 then let '(m, out) := handle_M m (drop 1 pkt) in Some (g, m, out)
  else if starts (cstr "Z0,") pkt then Some (handle_Z0 g m (drop 3 pkt))
  else if starts (cstr "z0,") pkt then Some (handle_z0 g m (drop 3 pkt))
  else if bool_decide (pkt = cstr "vCont?") then same handle_vCont_q
  else if starts (cstr "vCont") pkt then Some (handle_vCont g (drop 5 pkt), m, [])
  else if starts (cstr "qFc32:reload:") pkt then Some (handle_qFc32_reload g m (drop 13 pkt))
  else if bool_decide (pkt = cstr "qAttached") then same (cstr "1")
  else if starts (cstr "qC") pkt then same (cstr "QC1")
  else same [].

(** ** Packets on the wire *)

Definition checksum (payload : list Z) : Z := Z.land (fold_left Z.add payload 0) 0xff.

(** [$<payload>#<csum>], the payload being the C string in [out]. *)
Definition frame (out : list Z) : list Z :=
  let payload := c_string out in
  let csum := checksum payload in
  [36] ++ payload ++ [35; hexnyb (csum ≫ 4); hexnyb csum].

(** Sends, and eats the byte the client acknowledges with; [malloc] succeeds. *)
Definition send_pkt (out : list Z) (inp : list Z) : list Z * list Z := (frame out, drop 1 inp).

(** The loop that waits for [$]. *)
Fixpoint await_dollar (inp : list Z) : option (list Z) :=
  match inp with
  | [] => None
  | c :: inp => if c =? 36 then Some inp else await_dollar inp
  end.

(** [while (i + 1 < cap)]: [room] is [cap - 1 - i]. *)
Fixpoint read_payload (room : nat) (inp : list Z) : option (list Z * list Z) :=
  match room with
  | O => Some ([], inp)
  | S room =>
      match inp with
      | [] => None
      | c :: inp =>
          if c =? 35 then Some ([], inp)
          else '(buf, rest) ← read_payload room inp; Some (c :: buf, rest)
      end
  end.

(** [cap - 1]: the most characters a packet keeps. *)
Definition packet_room : nat := Z.to_nat (MAX_PACKET - 1).

(** Whether one [recv] delivers both digits of the checksum, when this is the input from
    them on: it may return with the first alone. *)
Context (together : list Z -> bool).

(** The packet and what is left of the input; [None] is a closed connection, or a
    checksum that comes in two pieces, which ends the session as well.  The [+] is sent by
    the caller below. *)
Definition read_pkt (inp : list Z) : option (list Z * list Z) :=
  inp ← await_dollar inp;
  '(buf, csum) ← read_payload packet_room inp;
  match csum with
  | _ :: _ :: inp => if together csum then Some (buf, inp) else None
  | _ => None
  end.

(** The inner loop of [gdb_thread_main]: the state, the machine and the bytes sent.
    Every round reads at least one byte. *)
Fixpoint serve (fuel : nat) (g : gdb_state_t) (m : M) (inp : list Z)
  : option (gdb_state_t * M * list Z) :=
  match fuel with
  | O => None
  | S fuel =>
      match read_pkt inp with
      | None => Some (g, m, [])
      | Some (buf, inp) =>
          '(g, m, out) ← handle_packet g m (c_string buf);
          let '(sent, inp) := send_pkt out inp in
          let '(sent', inp, g) :=
            if reload_pending g then
              let '(sent', inp) := send_pkt (cstr "T05library:;") inp in (sent', inp, set_reload false g)
            else ([], inp, g) in
          '(g, m, rest) ← serve fuel g m inp;
          Some (g, m, [43] ++ sent ++ sent' ++ rest)
      end
  end.

(** One accepted connection. *)
Definition gdb_connection (g : gdb_state_t) (m : M) (inp : list Z)
  : option (gdb_state_t * M * list Z) :=
  '(g, m, sent) ← serve (S (length inp)) (set_action true (pending_action g) g) m inp;
  Some (set_action false (pending_action g) g, m, sent).

(** ** The CPU loop's side *)

Definition fc_gdb_stub_set_layout (l : fc_gdb_layout_t) (g : gdb_state_t) : gdb_state_t :=
  Gdb l (breaks g) (halted g) (pending_action g) (reload_pending g).

Definition fc_gdb_stub_check_break (g : gdb_state_t) (pc : Z) : bool :=
  existsb (fun a => a =? pc) (breaks g).

Definition fc_gdb_stub_notify_reload (g : gdb_state_t) : gdb_state_t := set_reload true g.

(** The packets the server handles while the CPU loop waits; the action once one
    of them has released it, [None] inside while it still waits. *)
Fixpoint wait_released (g : gdb_state_t) (m : M) (pkts : list (list Z))
  : option (gdb_state_t * M * option Z) :=
  if negb (halted g) then Some (g, m, Some (pending_action g))
  else
    match pkts with
    | [] => Some (g, m, None)
    | pkt :: pkts => '(g, m, _) ← handle_packet g m pkt; wait_released g m pkts
    end.

(** What is sent, and the wait. *)
Definition fc_gdb_stub_step (g : gdb_state_t) (m : M) (pkts : list (list Z))
  : list Z * option (gdb_state_t * M * option Z) :=
  (frame (cstr "T05swbreak:;"), wait_released (set_action true (pending_action g) g) m pkts).
End handlers.

(** ** The mock machine (gdb_stub_host.c) *)

Definition MOCK_RAM_BASE : Z := 0x10000.
Definition MOCK_RAM_SIZE : Z := 64 * 1024.

Record mock := Mock { mock_regs : list Z; mock_ram : list Z }.

(** [addr < BASE || addr - BASE >= SIZE] *)
Definition unmapped (addr : Z) : bool :=
  (addr <? MOCK_RAM_BASE) || (MOCK_RAM_SIZE <=? addr - MOCK_RAM_BASE).

Definition mock_count (addr n : Z) : Z :=
  let avail := MOCK_RAM_SIZE - (addr - MOCK_RAM_BASE) in if n <? avail then n else avail.

Definition mock_read_mem (addr n : Z) (m : mock) : list Z :=
  if unmapped addr then repeat 0 (Z.to_nat n)
  else slice (Z.to_nat (addr - MOCK_RAM_BASE)) (Z.to_nat (mock_count addr n)) (mock_ram m).

Definition mock_write_mem (addr : Z) (src : list Z) (m : mock) : mock :=
  if unmapped addr then m
  else Mock (mock_regs m)
         (write_at (Z.to_nat (addr - MOCK_RAM_BASE))
            (take (Z.to_nat (mock_count addr (Z.of_nat (length src)))) src) (mock_ram m)).

Definition mock_ops : fc_gdb_cpu_ops_t mock := {|
  read_regs := Some mock_regs;
  write_regs := Some (fun regs m => Mock regs (mock_ram m));
  read_mem := Some mock_read_mem;
  write_mem := Some mock_write_mem;
  set_breakpoint := Some (fun _ m => m);
  clear_breakpoint := Some (fun _ m => m);
  reload_cart := Some (fun _ m => (m, 0));
|}.

(** ** The dynamic segment of an ELF file (gdb_stub_host.c) *)

(** One [fread] of [e_phentsz] bytes into [uint8_t ph[32]] per program header.
    [None]: the read leaves the array, or a field is read that it did not fill. *)
Fixpoint program_headers (e_phnum : nat) (e_phentsz : nat) (rest : list Z) : option Z :=
  match e_phnum with
  | O => Some 0
  | S n =>
      let ph := take e_phentsz rest in
      if (32 <? length ph)%nat then None
      else if negb (length ph =? e_phentsz)%nat then Some 0
      else if (length ph <? 12)%nat then None
      else
        let p_type := le_val (slice 0 4 ph) in
        let p_vaddr := le_val (slice 8 4 ph) in
        if p_type =? 2 then Some p_vaddr else program_headers n e_phentsz (drop e_phentsz rest)
  end.

(** [None] is a file [fopen] does not open. *)
Definition elf32_dyn_vma (file : option (list Z)) : option Z :=
  match file with
  | None => Some 0
  | Some f =>
      let hdr := take 52 f in
      if negb (length hdr =? 52)%nat || negb (bool_decide (take 5 hdr = [127; 69; 76; 70; 1])) then Some 0
      else
        let e_phoff := le_val (slice 28 4 hdr) in
        let e_phentsz := le_val (slice 42 2 hdr) in
        let e_phnum := le_val (slice 44 2 hdr) in
        program_headers (Z.to_nat e_phnum) (Z.to_nat e_phentsz) (drop (Z.to_nat e_phoff) f)
  end.

(** ** Hexadecimal round trips *)

Lemma from_hex_digit d : 0 <= d < 16 -> from_hex (hex_digit_of d) = d /\ hex_digit_of d <> 0.
Proof. revert d. apply nibble_cases. repeat (constructor; [by split|]). constructor. Qed.

Lemma digit_char_hex d : 0 <= d < 16 -> digit_char false d = hex_digit_of d.
Proof. done. Qed.

Lemma hexnyb_nibble n : from_hex (hexnyb n) = n mod 16 /\ hexnyb n <> 0.
Proof. unfold hexnyb. rewrite land_f. apply from_hex_digit, Z.mod_pos_bound. lia. Qed.

Lemma hex_decode_encode bs : bytes bs -> hex_decode (length bs) (hex_encode bs) = bs.
Proof.
  induction 1 as [|b bs Hb Hbs IH]; [done|]. unfold hex_encode in *.
  cbn [map concat app length hex_decode].
  destruct (hexnyb_nibble (b ≫ 4)) as [Eh Nh]. destruct (hexnyb_nibble (Z.land b 15)) as [El Nl].
  rewrite (proj2 (Z.eqb_neq _ _) Nh), (proj2 (Z.eqb_neq _ _) Nl). cbn [orb]. rewrite Eh, El.
  pose proof (Z.mod_pos_bound (b ≫ 4) 16). pose proof (Z.mod_pos_bound (Z.land b 15) 16).
  destruct (Z.ltb_spec ((b ≫ 4) mod 16) 0); [lia|]. destruct (Z.ltb_spec (Z.land b 15 mod 16) 0); [lia|].
  cbn [orb]. rewrite byte_of_nibbles by done. f_equal. exact IH.
Qed.

(** The digits [%x] prints, followed by something that is not a digit. *)
Definition stops (rest : list Z) : Prop := match rest with [] => True | c :: _ => from_hex c < 0 end.

Definition hex_value (acc : Z) (ds : list Z) : Z := fold_left (fun a d => a * 16 + from_hex d) ds acc.

Lemma hex_digits_app ds : forall any acc rest,
  Forall (fun d => 0 <= from_hex d) ds -> stops rest ->
  hex_digits any acc (ds ++ rest) = (any || negb (length ds =? 0)%nat, hex_value acc ds, rest).
Proof.
  induction ds as [|d ds IH]; intros any acc rest Hd Hr.
  - cbn. rewrite orb_false_r. destruct rest as [|c rest]; [done|]. cbn in Hr |- *.
    by rewrite (proj2 (Z.ltb_lt _ _) Hr).
  - inversion_clear Hd. cbn [app hex_digits]. destruct (Z.ltb_spec (from_hex d) 0); [lia|].
    rewrite IH by done. cbn [length Nat.eqb negb]. by rewrite orb_true_r.
Qed.

Lemma hex_value_digits n v acc : 0 <= v < 16 ^ Z.of_nat n ->
  hex_value acc (rev (digits n false 16 v)) = acc * 16 ^ Z.of_nat (length (digits n false 16 v)) + v.
Proof.
  revert v; induction n as [|n IH]; intros v Hv; [cbn in *; lia|].
  cbn [digits]. destruct (Z.eqb_spec v 0) as [->|Hne]; [cbn; lia|].
  rewrite Nat2Z.inj_succ, Z.pow_succ_r in Hv by lia.
  assert (0 <= v / 16 < 16 ^ Z.of_nat n) as Hq
    by (split; [apply Z.div_pos; lia|apply Z.div_lt_upper_bound; lia]).
  cbn [rev length]. unfold hex_value in *. rewrite fold_left_app, IH by done. cbn [fold_left].
  pose proof (Z.mod_pos_bound v 16 ltac:(lia)) as Hm.
  rewrite digit_char_hex, (proj1 (from_hex_digit _ Hm)) by done.
  rewrite Nat2Z.inj_succ, Z.pow_succ_r by lia. pose proof (Z.div_mod v 16). lia.
Qed.

Lemma digits_hex n v : Forall (fun d => 0 <= from_hex d) (digits n false 16 v).
Proof.
  revert v; induction n as [|n IH]; intros v; cbn [digits]; [constructor|].
  destruct (v =? 0); constructor; [|apply IH].
  pose proof (Z.mod_pos_bound v 16 ltac:(lia)) as Hm.
  rewrite digit_char_hex by done. rewrite (proj1 (from_hex_digit _ Hm)). lia.
Qed.

Lemma hex_nonzero v : v <> 0 -> hex v = rev (digits 32 false 16 v).
Proof. intros Hv. unfold hex, tmp_digits. by rewrite (proj2 (Z.eqb_neq _ _) Hv). Qed.

(** The first digit is not a sign, not a blank, and zero only for zero. *)
Lemma last_digit n v : 0 < v < 16 ^ Z.of_nat n ->
  exists d ds, rev (digits n false 16 v) = hex_digit_of d :: ds /\ 0 < d < 16.
Proof.
  revert v; induction n as [|n IH]; intros v Hv; [cbn in Hv; lia|].
  cbn [digits]. destruct (Z.eqb_spec v 0); [lia|].
  rewrite Nat2Z.inj_succ, Z.pow_succ_r in Hv by lia. cbn [rev].
  destruct (Z.eqb_spec (v / 16) 0) as [E|Hne].
  - rewrite E. exists v, []. assert (v < 16) by (apply Z.div_small_iff in E; lia).
    rewrite Z.mod_small by lia. split; [by destruct n|lia].
  - destruct (IH (v / 16)) as (d & ds & -> & Hd).
    { pose proof (Z.div_pos v 16). split; [lia|apply Z.div_lt_upper_bound; lia]. }
    exists d, (ds ++ [digit_char false (v mod 16)]). by split.
Qed.

Lemma strtoul_start d ds rest : 0 < d < 16 ->
  let s := (hex_digit_of d :: ds) ++ rest in
  strtoul16 s =
    let '(any, v, rest) := hex_digits false 0 s in
    if negb any then (0, s) else if 2 ^ 64 <=? v then (2 ^ 64 - 1, rest) else (v, rest).
Proof.
  intros Hd. pose proof (nibble_cases (fun d => d = 0 \/ forall s : list Z,
    strtoul16 (hex_digit_of d :: s) =
    let '(any, v, rest) := hex_digits false 0 (hex_digit_of d :: s) in
    if negb any then (0, hex_digit_of d :: s) else if 2 ^ 64 <=? v then (2 ^ 64 - 1, rest) else (v, rest))) as H.
  destruct (H ltac:(constructor; [by left|repeat (constructor; [by right|]); constructor]) d ltac:(lia))
    as [->|E]; [lia|]. intros s. apply E.
Qed.

Lemma strtoul_hex v rest : 0 <= v < 2 ^ 32 -> stops rest -> nth 0 rest 0 <> 120 -> nth 0 rest 0 <> 88 ->
  strtoul16 (hex v ++ rest) = (v, rest).
Proof.
  intros Hv Hr Hx HX. destruct (Z.eqb_spec v 0) as [->|Hne].
  { change (hex 0) with [48]. cbn [app]. destruct rest as [|c rest]; [reflexivity|].
    cbn in Hr, Hx, HX. unfold strtoul16. cbn [skip_spaces is_space]. cbn.
    destruct rest as [|d rest]; cbn.
    - by rewrite (proj2 (Z.ltb_lt _ _) Hr).
    - rewrite (proj2 (Z.eqb_neq _ _) Hx), (proj2 (Z.eqb_neq _ _) HX). cbn.
      by rewrite (proj2 (Z.ltb_lt _ _) Hr). }
  rewrite hex_nonzero by done. rewrite (digits_fuel 8 32) by lia.
  destruct (last_digit 8 v ltac:(cbn; lia)) as (d & ds & E & Hd).
  pose proof (strtoul_start d ds rest Hd) as Es. rewrite <-E in Es. cbv zeta in Es. rewrite Es.
  rewrite hex_digits_app by (done || apply Forall_rev, digits_hex).
  rewrite hex_value_digits by (cbn; lia). rewrite E. cbn [length Nat.eqb negb orb].
  rewrite Z.mul_0_l, Z.add_0_l. destruct (Z.leb_spec (2 ^ 64) v); [lia|done].
Qed.

(** ** What the dispatch picks *)

Section dispatch.
Context {M : Type} (ops : fc_gdb_cpu_ops_t M) (g : gdb_state_t) (m : M).

Lemma not_cmd (c d : Z) (args rest : list Z) : c <> d -> bool_decide (c :: args = d :: rest) = false.
Proof. intros H. apply bool_decide_eq_false_2. congruence. Qed.

Lemma dispatch_M args :
  handle_packet ops g m (77 :: args) = let '(m, out) := handle_M ops m args in Some (g, m, out).
Proof. unfold handle_packet. by rewrite (not_cmd 77 103) by lia. Qed.

Lemma dispatch_m args :
  handle_packet ops g m (109 :: args) = out ← handle_m ops m args MAX_PACKET; Some (g, m, out).
Proof. unfold handle_packet. by rewrite (not_cmd 109 103) by lia. Qed.

Lemma dispatch_G args :
  handle_packet ops g m (71 :: args) = let '(m, out) := handle_G ops m args in Some (g, m, out).
Proof. unfold handle_packet. by rewrite (not_cmd 71 103) by lia. Qed.

Lemma dispatch_g : handle_packet ops g m [103] = out ← handle_g ops g m MAX_PACKET; Some (g, m, out).
Proof. done. Qed.

Lemma dispatch_Z0 args :
  handle_packet ops g m (cstr "Z0," ++ args) = Some (handle_Z0 ops g m args).
Proof. change (cstr "Z0," ++ args) with (90 :: 48 :: 44 :: args). unfold handle_packet. by rewrite (not_cmd 90 103) by lia. Qed.

Lemma dispatch_z0 args :
  handle_packet ops g m (cstr "z0," ++ args) = Some (handle_z0 ops g m args).
Proof. change (cstr "z0," ++ args) with (122 :: 48 :: 44 :: args). unfold handle_packet. by rewrite (not_cmd 122 103) by lia. Qed.
End dispatch.

(** ** The machine behind the callbacks *)

(** What a machine promises to the debugger: the bytes written to a mapped range
    are read back and no others change, and a register file is kept whole. *)
Class CpuLaws {M : Type} (ops : fc_gdb_cpu_ops_t M) (rd : Z -> Z -> M -> list Z)
    (wr : Z -> list Z -> M -> M) (mapped : Z -> Z -> Prop) (get : M -> list Z) (put : list Z -> M -> M)
    (ok : M -> Prop) : Prop := {
  cpu_read : read_mem ops = Some rd;
  cpu_write : write_mem ops = Some wr;
  cpu_get : read_regs ops = Some get;
  cpu_put : write_regs ops = Some put;
  cpu_length m a n : ok m -> mapped a n -> Z.of_nat (length (rd a n m)) = n;
  cpu_same m a bs : ok m -> mapped a (Z.of_nat (length bs)) ->
    ok (wr a bs m) /\ rd a (Z.of_nat (length bs)) (wr a bs m) = bs;
  cpu_other m a bs b n : ok m -> mapped a (Z.of_nat (length bs)) -> mapped b n ->
    b + n <= a \/ a + Z.of_nat (length bs) <= b -> rd b n (wr a bs m) = rd b n m;
  cpu_regs m regs : length regs = 132%nat -> get (put regs m) = regs;
}.

Lemma hex_stops_comma rest : stops (44 :: rest) /\ nth 0 (44 :: rest) 0 <> 120 /\ nth 0 (44 :: rest) 0 <> 88.
Proof. cbn. lia. Qed.

Lemma hex_stops_colon rest : stops (58 :: rest) /\ nth 0 (58 :: rest) 0 <> 120 /\ nth 0 (58 :: rest) 0 <> 88.
Proof. cbn. lia. Qed.

Section debugger.
Context {M : Type} (ops : fc_gdb_cpu_ops_t M) (rd : Z -> Z -> M -> list Z)
  (wr : Z -> list Z -> M -> M) (mapped : Z -> Z -> Prop) (get : M -> list Z) (put : list Z -> M -> M)
  (ok : M -> Prop) {laws : CpuLaws ops rd wr mapped get put ok}.

Lemma read_packet g m a n :
  ok m -> mapped a n -> 0 <= a < 2 ^ 32 -> 0 <= n <= 4096 ->
  handle_packet ops g m (cstr "m" ++ hex a ++ cstr "," ++ hex n) = Some (g, m, hex_encode (rd a n m)).
Proof.
  intros Hm Hmap Ha Hn. change (cstr "m" ++ hex a ++ cstr "," ++ hex n) with (109 :: (hex a ++ 44 :: hex n)).
  rewrite dispatch_m. unfold handle_m.
  destruct (hex_stops_comma (hex n)) as (Hs & Hx & HX). rewrite strtoul_hex by done.
  rewrite (wrap_small 32 a) by lia. cbn [char0 nth drop Z.eqb Pos.eqb negb].
  rewrite drop_0, <-(app_nil_r (hex n)), (strtoul_hex n []) by (try done; lia). cbn [fst].
  rewrite (wrap_small 32 n) by lia. rewrite cpu_read.
  rewrite (wrap_small 32 (n * 2)), (wrap_small 32) by lia. unfold MAX_PACKET.
  destruct (Z.ltb_spec 4096 n); [lia|]. destruct (Z.ltb_spec (1 ≪ 16) (n * 2 + 1)) as [Hlt|_].
  { change (1 ≪ 16) with 65536 in Hlt. lia. }
  cbn [orb]. rewrite cpu_length by done. by rewrite Z.ltb_irrefl.
Qed.

Lemma write_packet g m a bs :
  ok m -> bytes bs -> mapped a (Z.of_nat (length bs)) -> 0 <= a < 2 ^ 32 -> Z.of_nat (length bs) < 2 ^ 31 ->
  handle_packet ops g m (cstr "M" ++ hex a ++ cstr "," ++ hex (Z.of_nat (length bs)) ++ cstr ":" ++ hex_encode bs) =
  Some (g, wr a bs m, cstr "OK").
Proof.
  intros Hm Hb Hmap Ha Hn.
  change (cstr "M" ++ hex a ++ cstr "," ++ hex (Z.of_nat (length bs)) ++ cstr ":" ++ hex_encode bs)
    with (77 :: (hex a ++ 44 :: (hex (Z.of_nat (length bs)) ++ 58 :: hex_encode bs))).
  rewrite dispatch_M. unfold handle_M.
  destruct (hex_stops_comma (hex (Z.of_nat (length bs)) ++ 58 :: hex_encode bs)) as (Hs & Hx & HX).
  rewrite strtoul_hex by done. rewrite (wrap_small 32 a) by lia. cbn [char0 nth drop Z.eqb Pos.eqb negb].
  destruct (hex_stops_colon (hex_encode bs)) as (Hs' & Hx' & HX').
  rewrite drop_0, strtoul_hex by (try done; lia). rewrite (wrap_small 32) by lia.
  cbn [nth drop Z.eqb Pos.eqb negb]. rewrite drop_0, cpu_write, Nat2Z.id, hex_decode_encode by done.
  rewrite (Z.eqb_refl (i32 (Z.of_nat (length bs)))). reflexivity.
Qed.

(** What the debugger writes it reads back.  An [M] packet for bytes in a
    mapped range is answered with OK, an [m] packet for that range then answers
    their hexadecimal, and an [m] packet for a range that does not overlap answers
    what it answered before; the same for the register file with [G] and [g]. *)
Theorem gdb_memory_roundtrip g m a bs regs :
  ok m -> bytes bs -> mapped a (Z.of_nat (length bs)) -> 0 <= a < 2 ^ 32 ->
  Z.of_nat (length bs) <= 4096 -> bytes regs -> length regs = 132%nat ->
  (exists m',
    handle_packet ops g m
      (cstr "M" ++ hex a ++ cstr "," ++ hex (Z.of_nat (length bs)) ++ cstr ":" ++ hex_encode bs) =
      Some (g, m', cstr "OK") /\
    handle_packet ops g m' (cstr "m" ++ hex a ++ cstr "," ++ hex (Z.of_nat (length bs))) =
      Some (g, m', hex_encode bs) /\
    forall b n, mapped b n -> 0 <= b < 2 ^ 32 -> 0 <= n <= 4096 ->
      b + n <= a \/ a + Z.of_nat (length bs) <= b ->
      exists out,
        handle_packet ops g m (cstr "m" ++ hex b ++ cstr "," ++ hex n) = Some (g, m, out) /\
        handle_packet ops g m' (cstr "m" ++ hex b ++ cstr "," ++ hex n) = Some (g, m', out)) /\
  exists m',
    handle_packet ops g m (cstr "G" ++ hex_encode regs) = Some (g, m', cstr "OK") /\
    handle_packet ops g m' (cstr "g") = Some (g, m', hex_encode regs).
Proof.
  intros Hm Hb Hmap Ha Hn Hr Hl. split.
  - exists (wr a bs m). destruct (cpu_same m a bs Hm Hmap) as [Hm' E].
    split; [apply write_packet; try done; lia|]. split.
    + rewrite read_packet by (try done; lia). by rewrite E.
    + intros b n Hb' Hb2 Hn2 Hd. exists (hex_encode (rd b n m)). split; [by apply read_packet|].
      rewrite read_packet by done. by rewrite cpu_other.
  - exists (put regs m). split.
    + change (cstr "G" ++ hex_encode regs) with (71 :: hex_encode regs). rewrite dispatch_G.
      unfold handle_G. rewrite cpu_put, <-Hl, hex_decode_encode, Nat.eqb_refl by done. done.
    + change (cstr "g") with [103]. rewrite dispatch_g. unfold handle_g.
      rewrite cpu_get, cpu_regs by done. by rewrite Hl.
Qed.
End debugger.

(** ** Breakpoints *)

(** The breakpoint table is a set.  After [Z0] the CPU loop stops at the new
    address and where it stopped before, unless the table of 128 is full, when
    nothing changes; after [z0] it stops where it stopped before but not at that
    address, however often it was set; no other packet changes where it stops. *)
Theorem gdb_breakpoints {M} (ops : fc_gdb_cpu_ops_t M) g m a kind pkt :
  0 <= a < 2 ^ 32 -> starts (cstr "Z0,") pkt = false -> starts (cstr "z0,") pkt = false ->
  let args := hex a ++ cstr "," ++ kind in
  (exists g' m' out,
     handle_packet ops g m (cstr "Z0," ++ args) = Some (g', m', out) /\
     if MAX_BREAKS <=? Z.of_nat (length (breaks g)) then g' = g /\ m' = m /\ out = cstr "E01"
     else out = cstr "OK" /\
          forall pc, fc_gdb_stub_check_break g' pc = (a =? pc) || fc_gdb_stub_check_break g pc) /\
  (exists g' m',
     handle_packet ops g m (cstr "z0," ++ args) = Some (g', m', cstr "OK") /\
     (length (breaks g') <= length (breaks g))%nat /\
     forall pc, fc_gdb_stub_check_break g' pc = negb (a =? pc) && fc_gdb_stub_check_break g pc) /\
  (forall g' m' out, handle_packet ops g m pkt = Some (g', m', out) ->
     forall pc, fc_gdb_stub_check_break g' pc = fc_gdb_stub_check_break g pc).
Proof.
  intros Ha HZ Hz args.
  assert (fst (strtoul16 args) = a) as Es.
  { subst args. change (hex a ++ cstr "," ++ kind) with (hex a ++ 44 :: kind).
    destruct (hex_stops_comma kind) as (Hs & Hx & HX). by rewrite strtoul_hex. }
  split_and!.
  - rewrite dispatch_Z0. unfold handle_Z0. rewrite Es, (wrap_small 32) by lia.
    destruct (MAX_BREAKS <=? _); [by eexists _, _, _|]. eexists _, _, _. split; [reflexivity|].
    split; [done|]. intros pc. unfold fc_gdb_stub_check_break. cbn [breaks set_breaks].
    rewrite existsb_app. cbn [existsb]. by rewrite orb_false_r, orb_comm.
  - rewrite dispatch_z0. unfold handle_z0. rewrite Es, (wrap_small 32) by lia.
    eexists _, _. split; [reflexivity|]. cbn [breaks set_breaks]. split; [apply List.filter_length_le|].
    intros pc. unfold fc_gdb_stub_check_break. cbn [breaks set_breaks].
    induction (breaks g) as [|b bs IH]; cbn [List.filter existsb]; [by rewrite andb_false_r|].
    destruct (Z.eqb_spec b a) as [->|Hne]; cbn [negb existsb]; rewrite IH.
    + destruct (a =? pc); [done|]. by rewrite orb_false_l.
    + destruct (Z.eqb_spec b pc) as [->|]; [|done].
      destruct (Z.eqb_spec a pc) as [->|]; done.
  - intros g' m' out. unfold handle_packet, handle_qFc32_reload, handle_vCont. rewrite HZ, Hz.
    intros E. assert (breaks g' = breaks g) as Eb; [|by unfold fc_gdb_stub_check_break; rewrite Eb].
    repeat (case_match; simplify_option_eq; try done).
Qed.

(** ** Sessions *)

(** A payload a client may send. *)
Definition payload_ok (p : list Z) : Prop :=
  Forall (fun c => c <> 0 /\ c <> 35) p /\ Z.of_nat (length p) < MAX_PACKET - 1.

(** The packets that start the CPU; the protocol answers them when it stops again. *)
Definition resumes (p : list Z) : bool := starts (cstr "vCont") p && negb (bool_decide (p = cstr "vCont?")).

Section session.
Context {M : Type} (ops : fc_gdb_cpu_ops_t M) (together : list Z -> bool).

(** When a packet has a defined answer, of those the machine's callbacks promise and the
    list of libraries that fits its array. *)
Lemma handle_packet_defined g m pkt :
  (forall f, read_regs ops = Some f -> length (f m) = 132%nat) ->
  (forall f a n, read_mem ops = Some f -> Z.of_nat (length (f a n m)) <= n) ->
  (forall args, is_Some (handle_qXfer_libraries g args MAX_PACKET)) ->
  is_Some (handle_packet ops g m pkt).
Proof.
  intros Hr Hm Hl. unfold handle_packet.
  assert (is_Some (handle_qXfer_exec_file g (drop 21 pkt) MAX_PACKET)) as He.
  { unfold handle_qXfer_exec_file. destruct (strchr_rest _ _) as [p|]; [|done]. unfold qXfer_slice.
    destruct (strtoul16 (drop 1 p)) as [off q]. set (path := default [] _). set (len := u32 (fst _)).
    destruct (Z.leb_spec (Z.of_nat (length path)) (u32 off)); [done|].
    assert (0 <= u32 off) by (apply Z.mod_pos_bound; lia). assert (0 <= len) by (apply Z.mod_pos_bound; lia).
    pose proof (Z.mod_le (Z.of_nat (length path) - u32 off) (2 ^ 32) ltac:(lia) ltac:(lia)).
    assert (exists l, l = (if u32 (Z.of_nat (length path) - u32 off) <? len then u32 (Z.of_nat (length path) - u32 off) else len)
      /\ u32 off + l <= Z.of_nat (length path)) as (l & <- & Hle).
    { eexists. split; [reflexivity|].
      destruct (Z.ltb_spec (u32 (Z.of_nat (length path) - u32 off)) len); unfold wrap in *; lia. }
    destruct (MAX_PACKET <? l + 2); [done|]. by rewrite (proj2 (Z.ltb_ge _ _)) by lia. }
  assert (is_Some (handle_g ops g m MAX_PACKET)) as Hg.
  { unfold handle_g. destruct (read_regs ops) as [f|] eqn:E; [|done]. rewrite (Hr f eq_refl). cbn [Nat.eqb negb].
    by destruct (_ <? _). }
  assert (is_Some (handle_m ops m (drop 1 pkt) MAX_PACKET)) as Hh.
  { unfold handle_m. destruct (strtoul16 _) as [a e]. destruct (negb _); [done|].
    destruct (read_mem ops) as [f|] eqn:E; [|done]. destruct (_ || _); [done|].
    by rewrite (proj2 (Z.ltb_ge _ _)) by (apply (Hm f); congruence). }
  destruct He as [x ->], Hg as [y ->], Hh as [z ->], (Hl (drop 26 pkt)) as [u ->]. cbn [mbind option_bind].
  destruct (handle_G _ _ _), (handle_M _ _ _). repeat (case_match; [done|]). done.
Qed.

(** What the client sends, what it is sent, and the states before and after: a
    byte outside of a packet is skipped; a packet is acknowledged and answered, the
    client acknowledges the answer, and a reload it caused is reported behind the
    answer. *)
Inductive dialogue : gdb_state_t -> M -> list Z -> list Z -> gdb_state_t -> M -> Prop :=
  | dialogue_end g m : dialogue g m [] [] g m
  | dialogue_noise g m c inp sent g' m' :
      c <> 36 -> dialogue g m inp sent g' m' -> dialogue g m (c :: inp) sent g' m'
  | dialogue_packet g m p c1 c2 ack g1 m1 out inp sent g' m' :
      payload_ok p -> resumes p = false -> together ([c1; c2; ack] ++ inp) = true ->
      handle_packet ops g m p = Some (g1, m1, out) -> reload_pending g1 = false ->
      dialogue g1 m1 inp sent g' m' ->
      dialogue g m ([36] ++ p ++ [35; c1; c2] ++ [ack] ++ inp) ([43] ++ frame out ++ sent) g' m'
  | dialogue_reload g m p c1 c2 ack ack' g1 m1 out inp sent g' m' :
      payload_ok p -> resumes p = false -> together ([c1; c2; ack; ack'] ++ inp) = true ->
      handle_packet ops g m p = Some (g1, m1, out) -> reload_pending g1 = true ->
      dialogue (set_reload false g1) m1 inp sent g' m' ->
      dialogue g m ([36] ++ p ++ [35; c1; c2] ++ [ack; ack'] ++ inp)
        ([43] ++ frame out ++ frame (cstr "T05library:;") ++ sent) g' m'.

Lemma read_payload_spec room p rest :
  Forall (fun c => c <> 0 /\ c <> 35) p -> (length p < room)%nat ->
  read_payload room (p ++ 35 :: rest) = Some (p, rest).
Proof.
  intros Hp. revert room. induction Hp as [|c p [_ Hc] Hp IH]; intros room Hl; cbn [length] in Hl.
  - destruct room; [lia|]. reflexivity.
  - destruct room as [|room]; [lia|]. cbn [app read_payload].
    rewrite (proj2 (Z.eqb_neq _ _) Hc), IH by lia. reflexivity.
Qed.

Lemma read_pkt_spec pieces p c1 c2 rest :
  payload_ok p -> pieces ([c1; c2] ++ rest) = true ->
  read_pkt pieces ([36] ++ p ++ [35; c1; c2] ++ rest) = Some (p, rest).
Proof.
  intros [Hp Hl] Ht. assert (length p < packet_room)%nat as Hroom by (unfold packet_room; lia).
  unfold read_pkt. clear Hl. revert Hroom. generalize packet_room as room. intros room Hroom.
  cbn [app await_dollar Z.eqb Pos.eqb mbind option_bind].
  rewrite (read_payload_spec room p (c1 :: c2 :: rest) Hp Hroom). cbn [app mbind option_bind] in Ht |- *. by rewrite Ht.
Qed.

Lemma c_string_payload p : Forall (fun c => c <> 0 /\ c <> 35) p -> c_string p = p.
Proof.
  induction 1 as [|c p [Hc _] Hp IH]; [done|]. cbn [c_string].
  by rewrite (proj2 (Z.eqb_neq _ _) Hc), IH.
Qed.

Lemma serve_noise fuel g m c inp : c <> 36 -> serve ops together (S fuel) g m (c :: inp) = serve ops together (S fuel) g m inp.
Proof.
  intros Hc. cbn [serve]. unfold read_pkt. cbn [await_dollar].
  by rewrite (proj2 (Z.eqb_neq _ _) Hc).
Qed.

Lemma serve_dialogue g m inp sent g' m' :
  dialogue g m inp sent g' m' ->
  forall fuel, (length inp < fuel)%nat -> serve ops together fuel g m inp = Some (g', m', sent).
Proof.
  induction 1 as [g m|g m c inp sent g' m' Hc _ IH|g m p c1 c2 ack g1 m1 out inp sent g' m' Hp _ Ht Hh Hr _ IH
                 |g m p c1 c2 ack ack' g1 m1 out inp sent g' m' Hp _ Ht Hh Hr _ IH]; intros [|fuel] Hf; try lia.
  - reflexivity.
  - rewrite serve_noise by done. apply IH. cbn [length] in Hf. lia.
  - rewrite !length_app in Hf. cbn [length] in Hf.
    cbn [serve]. rewrite read_pkt_spec by done. rewrite c_string_payload, Hh by apply Hp.
    cbn [mbind option_bind send_pkt app drop]. rewrite Hr, drop_0, (IH fuel) by lia. reflexivity.
  - rewrite !length_app in Hf. cbn [length] in Hf.
    cbn [serve]. rewrite read_pkt_spec by done. rewrite c_string_payload, Hh by apply Hp.
    cbn [mbind option_bind send_pkt app drop]. rewrite Hr, drop_0. cbn [drop]. rewrite (IH fuel) by lia.
    reflexivity.
Qed.

(** C19: A session answers every packet, in order.  For a client that sends packets of
    fewer than 65535 characters other than NUL and #, with noise in between, any checksum
    digits that arrive in one piece, and an acknowledgement per answer, as long as it does
    not resume the CPU and the CPU loop does not stop by itself meanwhile, and
    [handle_packet] is defined on each packet (see [handle_packet_defined]): the server
    thread sends exactly the acknowledgements and the framed answers of [handle_packet],
    one behind the other, with the notice of a reload behind the answer of the packet that
    caused it, and ends when the client does, running again; and a frame it sends is one
    its own reader parses back to the answer.  The packets that resume the CPU are left
    out: their answer should wait for the next stop, but an empty one is sent at once
    ([vCont_answers_empty]). *)
Theorem gdb_session g m inp sent g' m' :
  dialogue (set_action true (pending_action g) g) m inp sent g' m' ->
  gdb_connection ops together g m inp = Some (set_action false (pending_action g') g', m', sent) /\
  forall out rest, payload_ok (c_string out) -> read_pkt (fun _ => true) (frame out ++ rest) = Some (c_string out, rest).
Proof.
  intros H. split.
  - unfold gdb_connection. by rewrite (serve_dialogue _ _ _ _ _ _ H _ (Nat.lt_succ_diag_r _)).
  - intros out rest Hp. unfold frame. rewrite <-!app_assoc. by apply read_pkt_spec.
Qed.

(** A checksum that arrives in two pieces ends the session: the packet is neither
    acknowledged nor answered. *)
Lemma split_checksum g m p c1 c2 rest :
  payload_ok p -> together ([c1; c2] ++ rest) = false ->
  gdb_connection ops together g m ([36] ++ p ++ [35; c1; c2] ++ rest)
  = Some (set_action false (pending_action g) g, m, []).
Proof.
  intros [Hp Hl] Ht. assert (length p < packet_room)%nat as Hroom by (unfold packet_room; lia).
  unfold gdb_connection. cbn [serve]. assert (read_pkt together ([36] ++ p ++ [35; c1; c2] ++ rest) = None) as ->; [|done].
  unfold read_pkt. clear Hl. revert Hroom. generalize packet_room as room. intros room Hroom.
  cbn [app await_dollar Z.eqb Pos.eqb mbind option_bind].
  rewrite (read_payload_spec room p (c1 :: c2 :: rest) Hp Hroom). cbn [app mbind option_bind] in Ht |- *. by rewrite Ht.
Qed.

(** The CPU loop waits until a [vCont] packet, and is told to step or to run. *)
Lemma step_released g m :
  fc_gdb_stub_step ops g m [cstr "?"; cstr "vCont;s"] =
    (frame (cstr "T05swbreak:;"), Some (set_action false 1 g, m, Some 1)) /\
  fc_gdb_stub_step ops g m [cstr "vCont;c"] =
    (frame (cstr "T05swbreak:;"), Some (set_action false 0 g, m, Some 0)).
Proof. split; reflexivity. Qed.
End session.

(** ** The library list overruns its array

    [sizeof(xml) - xn] wraps once the list is longer than 4096 bytes. *)

Lemma library_list_overruns args cap :
  let lib := Library (repeat 97 4000) 0 0 in
  handle_qXfer_libraries (Gdb (Layout_ None [lib; lib]) [] false 0 false) (58 :: args) cap = None.
Proof. vm_compute. reflexivity. Qed.

(** The answer to [vCont] is not silence but an empty packet, which the protocol
    reads as "not supported". *)
Lemma vCont_answers_empty {M} (ops : fc_gdb_cpu_ops_t M) g m :
  handle_packet ops g m (cstr "vCont;c") = Some (set_action false 0 g, m, []) /\ frame [] = cstr "$#00".
Proof. split; reflexivity. Qed.

(** ** The dynamic segment is found *)

Definition dynamic_header (ph : list Z) : bool := le_val (slice 0 4 ph) =? 2.

Lemma program_headers_spec sz phs post :
  (12 <= sz <= 32)%nat -> Forall (fun ph => length ph = sz) phs ->
  program_headers (length phs) sz (concat phs ++ post) =
    Some (match List.find dynamic_header phs with Some ph => le_val (slice 8 4 ph) | None => 0 end).
Proof.
  intros Hs H. induction H as [|ph phs Hl _ IH]; [done|].
  cbn [length concat program_headers List.find]. rewrite <-app_assoc, <-Hl, take_app_length, drop_app_length.
  rewrite Hl. rewrite (proj2 (Nat.ltb_ge _ _)), Nat.eqb_refl, (proj2 (Nat.ltb_ge _ _)) by lia.
  cbn [negb]. unfold dynamic_header at 1. by destruct (_ =? 2).
Qed.

(** The address of the first [PT_DYNAMIC] header behind the file header, zero if
    there is none: for headers of 12 to 32 bytes. *)
Lemma elf32_dyn_vma_spec hdr gap phs post sz :
  length hdr = 52%nat -> take 5 hdr = [127; 69; 76; 70; 1] ->
  le_val (slice 28 4 hdr) = 52 + Z.of_nat (length gap) ->
  le_val (slice 42 2 hdr) = Z.of_nat sz -> le_val (slice 44 2 hdr) = Z.of_nat (length phs) ->
  (12 <= sz <= 32)%nat -> Forall (fun ph => length ph = sz) phs ->
  elf32_dyn_vma (Some (hdr ++ gap ++ concat phs ++ post)) =
    Some (match List.find dynamic_header phs with Some ph => le_val (slice 8 4 ph) | None => 0 end).
Proof.
  intros Hl Hm Ho Hs Hn Hr Hp. cbn [elf32_dyn_vma].
  rewrite (take_app_length' hdr) by lia.
  rewrite Hl, Nat.eqb_refl, (bool_decide_eq_true_2 _ Hm). cbn [negb orb]. rewrite Ho, Hs, Hn, !Nat2Z.id.
  rewrite app_assoc, drop_app_length' by (rewrite length_app; lia). by apply program_headers_spec.
Qed.

(** [e_phentsz] comes from the file: with longer headers the read leaves [ph]. *)
Lemma long_program_header_overruns rest sz n :
  (32 < sz)%nat -> (32 < length rest)%nat -> program_headers (S n) sz rest = None.
Proof.
  intros Hs Hr. cbn [program_headers]. rewrite length_take.
  by rewrite (proj2 (Nat.ltb_lt _ _)) by lia.
Qed.

(** ** The mock machine keeps the promises *)

Definition mock_mapped (a n : Z) : Prop := MOCK_RAM_BASE <= a /\ 0 <= n /\ a + n <= MOCK_RAM_BASE + MOCK_RAM_SIZE.
Definition mock_ok (m : mock) : Prop := Z.of_nat (length (mock_ram m)) = MOCK_RAM_SIZE.

Lemma mock_mapped_count a n : mock_mapped a n ->
  (n = 0 \/ unmapped a = false) /\ mock_count a n = n /\ 0 <= a - MOCK_RAM_BASE.
Proof.
  unfold mock_mapped, unmapped, mock_count. generalize MOCK_RAM_BASE MOCK_RAM_SIZE. intros base size H.
  destruct (Z.ltb_spec n (size - (a - base))), (Z.ltb_spec a base), (Z.leb_spec size (a - base)); cbn; lia.
Qed.

#[export] Instance mock_laws :
  CpuLaws mock_ops mock_read_mem mock_write_mem mock_mapped mock_regs (fun regs m => Mock regs (mock_ram m)) mock_ok.
Proof.
  assert (forall a n (m : mock), mock_ok m -> mock_mapped a n ->
    mock_read_mem a n m = slice (Z.to_nat (a - MOCK_RAM_BASE)) (Z.to_nat n) (mock_ram m)) as Hrd.
  { intros a n m Hm H. destruct (mock_mapped_count a n H) as (Hu & Hc & _).
    unfold mock_read_mem. rewrite Hc. destruct Hu as [-> | ->]; [|done]. destruct (unmapped a); reflexivity. }
  assert (forall a bs (m : mock), mock_mapped a (Z.of_nat (length bs)) ->
    bs = [] \/ mock_write_mem a bs m = Mock (mock_regs m) (write_at (Z.to_nat (a - MOCK_RAM_BASE)) bs (mock_ram m))) as Hwr.
  { intros a bs m H. destruct (mock_mapped_count _ _ H) as (Hu & Hc & _).
    unfold mock_write_mem. rewrite Hc, Nat2Z.id, firstn_all.
    destruct Hu as [Hz | ->]; [left; destruct bs; [done|cbn in Hz; lia]|by right]. }
  assert (forall a n (m : mock), mock_ok m -> mock_mapped a n ->
    (Z.to_nat (a - MOCK_RAM_BASE) + Z.to_nat n <= length (mock_ram m))%nat) as Hin.
  { unfold mock_ok, mock_mapped. generalize MOCK_RAM_BASE MOCK_RAM_SIZE. lia. }
  split; try reflexivity.
  - intros m a n Hm H. rewrite Hrd by done. rewrite length_slice by auto.
    destruct H as (_ & ? & _). lia.
  - intros m a bs Hm H. pose proof (Hin a _ m Hm H) as Hl. rewrite Nat2Z.id in Hl.
    destruct (Hwr a bs m H) as [-> | ->].
    + assert (mock_ok (mock_write_mem a [] m)) as Hm'.
      { unfold mock_write_mem. destruct (unmapped a); [done|].
        unfold mock_ok in *. cbn [mock_ram]. rewrite firstn_nil, length_write_at; [done|].
        cbn [length] in *. lia. }
      split; [exact Hm'|]. rewrite Hrd by done. reflexivity.
    + assert (mock_ok (Mock (mock_regs m) (write_at (Z.to_nat (a - MOCK_RAM_BASE)) bs (mock_ram m)))) as Hm'
        by (unfold mock_ok in *; cbn [mock_ram]; by rewrite length_write_at).
      split; [exact Hm'|]. rewrite Hrd by done. cbn [mock_ram]. rewrite Nat2Z.id.
      apply slice_write_at_eq. lia.
  - intros m a bs b n Hm Ha Hb Hd. pose proof (Hin a _ m Hm Ha) as Hl. rewrite Nat2Z.id in Hl.
    destruct (Hwr a bs m Ha) as [-> | E].
    + unfold mock_write_mem. destruct (unmapped a); [done|]. rewrite take_nil. unfold write_at.
      cbn [length app]. rewrite Nat.add_0_r, take_drop. by destruct m.
    + rewrite E, !Hrd; [|exact Hm|exact Hb| |exact Hb].
      * cbn [mock_ram]. apply slice_write_at_disjoint; [|exact Hl].
        destruct (mock_mapped_count _ _ Ha) as (_ & _ & ?). destruct (mock_mapped_count _ _ Hb) as (_ & _ & ?).
        destruct Hb as (_ & ? & _). lia.
      * unfold mock_ok in *. cbn [mock_ram]. by rewrite length_write_at.
Qed.

(** ** Witnesses *)

Definition idle : gdb_state_t := Gdb (Layout_ None []) [] false 0 false.
Definition blank : mock := Mock (repeat 0 132) (repeat 0 65536).

Lemma mock_roundtrip m : mock_ok m ->
  exists m',
    handle_packet mock_ops idle m (cstr "M10010,2:beef") = Some (idle, m', cstr "OK") /\
    handle_packet mock_ops idle m' (cstr "m10010,2") = Some (idle, m', cstr "beef").
Proof.
  intros Hm.
  destruct (gdb_memory_roundtrip mock_ops mock_read_mem mock_write_mem mock_mapped mock_regs
    (fun regs m => Mock regs (mock_ram m)) mock_ok idle m 0x10010 [0xbe; 0xef] (repeat 0 132))
    as [(m' & H1 & H2 & _) _];
    [exact Hm
    |repeat constructor; unfold is_byte; lia
    |unfold mock_mapped, MOCK_RAM_BASE, MOCK_RAM_SIZE; cbn [length]; lia|lia|cbn [length]; lia
    |apply List.Forall_forall; intros x ->%repeat_spec; unfold is_byte; lia|apply repeat_length|].
  exists m'. exact (conj H1 H2).
Qed.

Lemma gdb_memory_roundtrip_witness :
  exists m',
    handle_packet mock_ops idle blank (cstr "M10010,2:beef") = Some (idle, m', cstr "OK") /\
    handle_packet mock_ops idle m' (cstr "m10010,2") = Some (idle, m', cstr "beef").
Proof. apply mock_roundtrip, Z.eqb_eq. vm_compute. reflexivity. Qed.

Lemma gdb_breakpoints_witness :
  exists g' m' out, handle_packet mock_ops idle blank (cstr "Z0,10000,4") = Some (g', m', out) /\
    fc_gdb_stub_check_break g' 0x10000 = true.
Proof.
  destruct (gdb_breakpoints mock_ops idle blank 0x10000 (cstr "4") (cstr "?"))
    as [(g' & m' & out & H1 & _ & H2) _]; [lia|reflexivity|reflexivity|].
  exists g', m', out. split; [exact H1|]. exact (H2 0x10000).
Defined.

Lemma gdb_session_witness :
  exists sent, gdb_connection mock_ops (fun _ => true) idle blank (cstr "+$?#3f+$qFc32:reload:x#00++") =
      Some (set_action false 0 idle, blank, sent) /\
    sent = cstr "+$T05#b9+$OK#9a$T05library:;#23".
Proof.
  eexists. split; [|reflexivity].
  apply (gdb_session mock_ops (fun _ => true) idle blank (cstr "+$?#3f+$qFc32:reload:x#00++")
    (cstr "+$T05#b9+$OK#9a$T05library:;#23") (set_action true 0 idle) blank).
  apply (dialogue_noise mock_ops _ _ _ 43); [lia|].
  apply (dialogue_packet mock_ops _ _ _ [63] 51 102 43 (set_action true 0 idle) blank (cstr "T05")
           (cstr "$qFc32:reload:x#00++") (cstr "+$OK#9a$T05library:;#23"));
    [split; [repeat constructor; lia|reflexivity]|reflexivity..|].
  apply (dialogue_reload mock_ops _ _ _ (cstr "qFc32:reload:x") 48 48 43 43 (set_reload true (set_action true 0 idle)) blank
           (cstr "OK") [] []);
    [split; [apply (bool_decide_eq_true_1 _); vm_compute; reflexivity|reflexivity]|reflexivity..|constructor].
Defined.
