(* ===== verification/MasterHook.v ===== *)
(** * The master hook (spikes/spike-j/lib/master_hook.c)

    One Lua hook serves three parts: the tic budget, the line throttle, and the
    debugger.  The configuration is a record, the clock the list of readings still
    to come, and the debug server's two entry points are a record of operations
    ([dap_link]) because the code links them weakly.  A Lua state is a parameter
    with its stack of activation records, innermost first, which is what
    [lua_getstack] walks.  [fc_dap_pause_loop] blocks the cart thread; the hook ends
    in [Pausing] where it is called, and [DapServer] says how it goes on. *)

From S2P Require Import Prelude.
Open Scope Z_scope.

(** ** Configuration and events *)

Inductive dap_step_mode_t := DAP_STEP_NONE | DAP_STEP_OVER | DAP_STEP_IN | DAP_STEP_OUT | DAP_STEP_PAUSE.

#[export] Instance dap_step_mode_dec : EqDecision dap_step_mode_t.
Proof. solve_decision. Defined.

Record hook_config_t := Config {
  budget_enabled : bool;
  throttle_enabled : bool;
  dap_enabled : bool;
  budget_ns : Z;
  budget_tic_start_ns : Z;
  throttle_start_ns : Z;
  throttle_target_ns : Z;
  throttle_delay_ns : Z;
  dap_step_mode : dap_step_mode_t;
  dap_step_base_depth : Z;
  dap_pending_pause : bool;
}.

Definition set_budget_start (t : Z) (c : hook_config_t) : hook_config_t :=
  Config (budget_enabled c) (throttle_enabled c) (dap_enabled c) (budget_ns c) t
    (throttle_start_ns c) (throttle_target_ns c) (throttle_delay_ns c)
    (dap_step_mode c) (dap_step_base_depth c) (dap_pending_pause c).

Definition set_throttle (start target : Z) (c : hook_config_t) : hook_config_t :=
  Config (budget_enabled c) (throttle_enabled c) (dap_enabled c) (budget_ns c) (budget_tic_start_ns c)
    start target (throttle_delay_ns c)
    (dap_step_mode c) (dap_step_base_depth c) (dap_pending_pause c).

Definition set_step (m : dap_step_mode_t) (c : hook_config_t) : hook_config_t :=
  Config (budget_enabled c) (throttle_enabled c) (dap_enabled c) (budget_ns c) (budget_tic_start_ns c)
    (throttle_start_ns c) (throttle_target_ns c) (throttle_delay_ns c)
    m (dap_step_base_depth c) (dap_pending_pause c).

Definition set_step_base (d : Z) (c : hook_config_t) : hook_config_t :=
  Config (budget_enabled c) (throttle_enabled c) (dap_enabled c) (budget_ns c) (budget_tic_start_ns c)
    (throttle_start_ns c) (throttle_target_ns c) (throttle_delay_ns c)
    (dap_step_mode c) d (dap_pending_pause c).

Definition set_pending_pause (p : bool) (c : hook_config_t) : hook_config_t :=
  Config (budget_enabled c) (throttle_enabled c) (dap_enabled c) (budget_ns c) (budget_tic_start_ns c)
    (throttle_start_ns c) (throttle_target_ns c) (throttle_delay_ns c)
    (dap_step_mode c) (dap_step_base_depth c) p.

(** The hook events of lua.h and the masks that select them; a tail call comes
    under the mask of calls. *)
Inductive hook_event := LUA_HOOKCALL | LUA_HOOKRET | LUA_HOOKLINE | LUA_HOOKCOUNT | LUA_HOOKTAILCALL.

#[export] Instance hook_event_dec : EqDecision hook_event.
Proof. solve_decision. Defined.

Definition LUA_MASKCALL : Z := 1.
Definition LUA_MASKRET : Z := 2.
Definition LUA_MASKLINE : Z := 4.
Definition LUA_MASKCOUNT : Z := 8.

Definition mask_of (e : hook_event) : Z :=
  match e with
  | LUA_HOOKCALL | LUA_HOOKTAILCALL => LUA_MASKCALL
  | LUA_HOOKRET => LUA_MASKRET
  | LUA_HOOKLINE => LUA_MASKLINE
  | LUA_HOOKCOUNT => LUA_MASKCOUNT
  end.

Definition is_line (e : hook_event) : bool := bool_decide (e = LUA_HOOKLINE).

(** A local variable's value: its type's name, and its text where it has one. *)
Record lua_value := Value { typename : list Z; tostring : option (list Z) }.

(** What [lua_getinfo] and [lua_getlocal] tell of an activation record. *)
Record activation := Activation {
  ar_name : option (list Z);
  ar_what : option (list Z);
  ar_source : option (list Z);
  currentline : Z;
  locals : list (list Z * lua_value);
}.

(** ** The dispatcher *)

Section hook.
Context {L : Type} (lua_stack : L -> list activation).

(** The debug server's weak symbols: absent, or present. *)
Record dap_link := Link {
  fc_dap_should_break : option (L -> activation -> bool);
  fc_dap_pause_loop : bool;
}.

Inductive hook_result :=
  | Returned (c : hook_config_t) (clock : list Z)
  | Raised (msg : list Z) (c : hook_config_t) (clock : list Z)
  | Pausing (c : hook_config_t) (clock : list Z)
  | NoReading.

(** [None] is the Lua error. *)
Definition budget_check (c : hook_config_t) (now : Z) : option hook_config_t :=
  if budget_ns c <? u64 (now - budget_tic_start_ns c) then None else Some c.

(** [while (hook_now_ns() < deadline) { }] *)
Fixpoint spin (deadline : Z) (clock : list Z) : option (list Z) :=
  match clock with
  | [] => None
  | t :: clock => if t <? deadline then spin deadline clock else Some clock
  end.

Definition throttle_step (c : hook_config_t) (clock : list Z) : option (hook_config_t * list Z) :=
  '(c, clock) ←
    (if throttle_start_ns c =? 0 then
       match clock with
       | [] => None
       | t :: clock => Some (set_throttle t (throttle_target_ns c) c, clock)
       end
     else Some (c, clock));
  let c := set_throttle (throttle_start_ns c) (u64 (throttle_target_ns c + throttle_delay_ns c)) c in
  let deadline := u64 (throttle_start_ns c + throttle_target_ns c) in
  clock ← spin deadline clock;
  Some (c, clock).

(** [while (lua_getstack(L, depth, &ar)) depth++] *)
Fixpoint count_levels (fuel : nat) (depth : nat) (s : list activation) : Z :=
  match fuel with
  | O => Z.of_nat depth
  | S fuel => match s !! depth with Some _ => count_levels fuel (S depth) s | None => Z.of_nat depth end
  end.

Definition dap_call_depth (l : L) : Z := count_levels (S (length (lua_stack l))) 0 (lua_stack l).

(** The configuration, and whether the pause loop is entered. *)
Definition dap_dispatch (dap : dap_link) (c : hook_config_t) (l : L) (e : hook_event) (ar : activation)
  : hook_config_t * bool :=
  if negb (dap_enabled c) then (c, false)
  else if dap_pending_pause c then (c, fc_dap_pause_loop dap)
  else
    let should_pause :=
      if is_line e && negb (bool_decide (dap_step_mode c = DAP_STEP_NONE)) then
        let depth := dap_call_depth l in
        match dap_step_mode c with
        | DAP_STEP_IN => true
        | DAP_STEP_OVER => depth <=? dap_step_base_depth c
        | DAP_STEP_OUT => depth <? dap_step_base_depth c
        | _ => false
        end
      else false in
    if should_pause then (set_step DAP_STEP_NONE c, fc_dap_pause_loop dap)
    else if is_line e then
      match fc_dap_should_break dap with
      | Some f => if f l ar then (c, fc_dap_pause_loop dap) else (c, false)
      | None => (c, false)
      end
    else (c, false).

Definition fc_consolelua_master_hook (dap : dap_link) (c : hook_config_t) (clock : list Z)
    (l : L) (e : hook_event) (ar : activation) : hook_result :=
  let budget :=
    if budget_enabled c && bool_decide (e = LUA_HOOKCOUNT) then
      match clock with
      | [] => NoReading
      | now :: clock =>
          match budget_check c now with
          | Some c => Returned c clock
          | None => Raised (cstr "budget exceeded") c clock
          end
      end
    else Returned c clock in
  match budget with
  | Returned c clock =>
      let throttle :=
        if throttle_enabled c && is_line e then throttle_step c clock else Some (c, clock) in
      match throttle with
      | None => NoReading
      | Some (c, clock) =>
          if dap_enabled c then
            let '(c, pause) := dap_dispatch dap c l e ar in
            if pause then Pausing c clock else Returned c clock
          else Returned c clock
      end
  | r => r
  end.

(** ** Arming and installing *)

Definition fc_consolelua_master_hook_rearm (c : hook_config_t) (clock : list Z)
  : option (hook_config_t * list Z) :=
  '(c, clock) ←
    (if budget_enabled c then
       match clock with [] => None | t :: clock => Some (set_budget_start t c, clock) end
     else Some (c, clock));
  Some (if throttle_enabled c then set_throttle 0 0 c else c, clock).

Definition MASTER_HOOK_DEFAULT_COUNT : Z := 1000.

(** What [lua_sethook] is called with: [None] removes the hook. *)
Definition fc_consolelua_master_hook_install (c : hook_config_t) : option (Z * Z) :=
  let '(mask, count) :=
    if budget_enabled c then (LUA_MASKCOUNT, MASTER_HOOK_DEFAULT_COUNT) else (0, 0) in
  let mask := if throttle_enabled c then Z.lor mask LUA_MASKLINE else mask in
  let mask :=
    if dap_enabled c then Z.lor mask (Z.lor (Z.lor LUA_MASKLINE LUA_MASKCALL) LUA_MASKRET) else mask in
  if mask =? 0 then None else Some (mask, count).

(** Lua runs the installed hook on the events its mask selects. *)
Definition selects (hook : option (Z * Z)) (e : hook_event) : bool :=
  match hook with Some (mask, _) => negb (Z.land mask (mask_of e) =? 0) | None => false end.
End hook.
Arguments dap_link : clear implicits.
Arguments Link {L}.
Arguments fc_dap_should_break {L}.
Arguments fc_dap_pause_loop {L}.

(** ** Depth and stopping *)

Lemma count_levels_spec fuel depth s :
  (length s - depth < fuel)%nat -> (depth <= length s)%nat -> count_levels fuel depth s = Z.of_nat (length s).
Proof.
  revert depth. induction fuel as [|fuel IH]; intros depth Hf Hd; [lia|]. cbn [count_levels].
  destruct (s !! depth) eqn:E.
  - apply lookup_lt_Some in E. apply IH; lia.
  - apply lookup_ge_None in E. f_equal. lia.
Qed.

Section laws.
Context {L : Type} (lua_stack : L -> list activation).

Lemma dap_call_depth_spec l : dap_call_depth lua_stack l = Z.of_nat (length (lua_stack l)).
Proof. apply count_levels_spec; lia. Qed.

(** Where a step in a given mode, started at depth [base], is over. *)
Definition step_over_at (m : dap_step_mode_t) (base depth : Z) : bool :=
  match m with
  | DAP_STEP_IN => true
  | DAP_STEP_OVER => depth <=? base
  | DAP_STEP_OUT => depth <? base
  | DAP_STEP_NONE | DAP_STEP_PAUSE => false
  end.

(** When the debugger stops the cart. *)
Definition stops (dap : dap_link L) (c : hook_config_t) (l : L) (e : hook_event) (ar : activation) : bool :=
  dap_pending_pause c ||
  (is_line e &&
   (step_over_at (dap_step_mode c) (dap_step_base_depth c) (Z.of_nat (length (lua_stack l))) ||
    match fc_dap_should_break dap with Some f => f l ar | None => false end)).

(** With the server linked, the dispatch pauses exactly where [stops] says; only a
    step that ends changes the configuration. *)
Lemma dap_dispatch_spec dap c l e ar :
  dap_enabled c = true -> fc_dap_pause_loop dap = true ->
  snd (dap_dispatch lua_stack dap c l e ar) = stops dap c l e ar /\
  (stops dap c l e ar = false -> fst (dap_dispatch lua_stack dap c l e ar) = c).
Proof.
  intros He Hp. unfold dap_dispatch, stops. rewrite He, Hp, dap_call_depth_spec. cbn [negb].
  destruct (dap_pending_pause c); [done|]. cbn [orb].
  destruct (is_line e); [|done]. cbn [andb].
  assert (match fc_dap_should_break dap with
          | Some f => if f l ar then (c, true) else (c, false)
          | None => (c, false)
          end = (c, match fc_dap_should_break dap with Some f => f l ar | None => false end)) as ->
    by (destruct (fc_dap_should_break dap) as [f|]; [destruct (f l ar)|]; done).
  generalize (match fc_dap_should_break dap with Some f => f l ar | None => false end). intros hit.
  unfold step_over_at.
  destruct (dap_step_mode c), (Z.of_nat (length (lua_stack l)) <=? dap_step_base_depth c),
    (Z.of_nat (length (lua_stack l)) <? dap_step_base_depth c); done.
Qed.

(** ** The mask *)

(** The installed mask loses nothing.  Whatever is configured, the events Lua
    leaves out under the installed mask are events on which the dispatcher would
    have done nothing (short of a pause request, which waits for the next event of
    a selected kind), and without a mask there is nothing to do at all; and every
    selected event is one some enabled part asked for. *)
Theorem hook_mask_exact dap c clock l e ar :
  (selects (fc_consolelua_master_hook_install c) e = false -> dap_pending_pause c = false ->
   fc_consolelua_master_hook lua_stack dap c clock l e ar = Returned c clock) /\
  selects (fc_consolelua_master_hook_install c) e =
    (budget_enabled c && bool_decide (e = LUA_HOOKCOUNT)) || (throttle_enabled c && is_line e) ||
    (dap_enabled c && negb (bool_decide (e = LUA_HOOKCOUNT))).
Proof.
  assert (selects (fc_consolelua_master_hook_install c) e =
    (budget_enabled c && bool_decide (e = LUA_HOOKCOUNT)) || (throttle_enabled c && is_line e) ||
    (dap_enabled c && negb (bool_decide (e = LUA_HOOKCOUNT)))) as Hs.
  { unfold fc_consolelua_master_hook_install.
    destruct (budget_enabled c), (throttle_enabled c), (dap_enabled c), e; reflexivity. }
  split; [|exact Hs]. rewrite Hs. intros H Hp. unfold fc_consolelua_master_hook.
  destruct (budget_enabled c && bool_decide (e = LUA_HOOKCOUNT)); [done|].
  destruct (throttle_enabled c && is_line e); [done|]. cbn [orb] in H.
  destruct (dap_enabled c) eqn:Ed; [|done]. cbn [andb] in H.
  assert (is_line e = false) as Hl.
  { apply negb_false_iff, bool_decide_eq_true in H as ->. done. }
  unfold dap_dispatch. by rewrite Ed, Hp, Hl.
Qed.

(** ** The budget *)

(** The error is raised on the first count event past the budget. *)
Lemma budget_raises dap c now clock l ar :
  budget_enabled c = true -> dap_enabled c = false ->
  fc_consolelua_master_hook lua_stack dap c (now :: clock) l LUA_HOOKCOUNT ar =
    if budget_ns c <? u64 (now - budget_tic_start_ns c)
    then Raised (cstr "budget exceeded") c clock else Returned c clock.
Proof.
  intros Hb Hd. unfold fc_consolelua_master_hook, budget_check.
  rewrite Hb, (bool_decide_eq_true_2 (LUA_HOOKCOUNT = LUA_HOOKCOUNT)) by done.
  cbn [andb]. destruct (budget_ns c <? _); [done|].
  change (is_line LUA_HOOKCOUNT) with false. by rewrite andb_false_r, Hd.
Qed.

(** ** The throttle *)

(** [n] lines. *)
Fixpoint throttle_lines (n : nat) (c : hook_config_t) (clock : list Z) : option (hook_config_t * list Z) :=
  match n with
  | O => Some (c, clock)
  | S n => '(c, clock) ← throttle_step c clock; throttle_lines n c clock
  end.

(** The readings never go back. *)
Fixpoint monotone (t : Z) (clock : list Z) : Prop :=
  match clock with [] => True | u :: clock => t <= u /\ monotone u clock end.

Lemma monotone_bound t clock : monotone t clock -> Forall (fun u => t <= u) clock.
Proof.
  revert t. induction clock as [|u clock IH]; intros t; cbn [monotone]; [constructor|].
  intros [Hu H]. constructor; [done|]. eapply Forall_impl; [apply IH, H|]. cbn. lia.
Qed.

Lemma spin_spec deadline clock t rest :
  monotone t clock -> spin deadline clock = Some rest ->
  exists u, t <= u /\ deadline <= u /\ monotone u rest.
Proof.
  revert t. induction clock as [|u clock IH]; intros t; cbn [spin monotone]; [done|].
  intros [Hu H]. destruct (Z.ltb_spec u deadline); intros E.
  - destruct (IH u H E) as (v & ? & ? & ?). exists v. repeat split; [lia|done|done].
  - injection E as <-. by exists u.
Qed.

(** Enough late readings end the wait, and leave all of them but one. *)
Lemma spin_ends deadline pre late :
  Forall (fun u => deadline <= u) late -> (0 < length late)%nat ->
  exists pre' late', spin deadline (pre ++ late) = Some (pre' ++ late') /\
    (exists used, late = used ++ late' /\ (length used <= 1)%nat).
Proof.
  intros Hl Hn. induction pre as [|u pre IH]; cbn [app spin].
  - destruct late as [|u late]; [cbn in Hn; lia|]. inversion_clear Hl. cbn [spin].
    destruct (Z.ltb_spec u deadline); [lia|]. exists [], late. split; [done|]. exists [u]. by cbn.
  - destruct (u <? deadline); [apply IH|]. exists pre, late. split; [done|]. exists []. cbn. split; [done|lia].
Qed.

Lemma throttle_step_started c clock :
  0 < throttle_start_ns c ->
  0 <= throttle_target_ns c -> 0 <= throttle_delay_ns c ->
  throttle_start_ns c + throttle_target_ns c + throttle_delay_ns c < 2 ^ 64 ->
  throttle_step c clock =
    clock ← spin (throttle_start_ns c + (throttle_target_ns c + throttle_delay_ns c)) clock;
    Some (set_throttle (throttle_start_ns c) (throttle_target_ns c + throttle_delay_ns c) c, clock).
Proof.
  intros Hs Ht Hd Hw. unfold throttle_step. rewrite (proj2 (Z.eqb_neq _ _)) by lia.
  cbn [mbind option_bind set_throttle throttle_start_ns throttle_target_ns throttle_delay_ns].
  by rewrite !(wrap_small 64) by (try rewrite (wrap_small 64) by lia; lia).
Qed.

(** After [n] further lines the target is [n] delays further and the readings left
    are past it; and the lines return when the clock gets there. *)
Lemma throttle_lines_spec n c clock t :
  0 < throttle_start_ns c -> 0 <= throttle_target_ns c -> 0 <= throttle_delay_ns c ->
  throttle_start_ns c + throttle_target_ns c + Z.of_nat n * throttle_delay_ns c < 2 ^ 64 ->
  throttle_start_ns c + throttle_target_ns c <= t -> monotone t clock ->
  (forall c' rest, throttle_lines n c clock = Some (c', rest) ->
   c' = set_throttle (throttle_start_ns c) (throttle_target_ns c + Z.of_nat n * throttle_delay_ns c) c /\
   exists u, throttle_start_ns c + throttle_target_ns c + Z.of_nat n * throttle_delay_ns c <= u /\ monotone u rest) /\
  (forall pre late, clock = pre ++ late -> (n <= length late)%nat ->
   Forall (fun u => throttle_start_ns c + throttle_target_ns c + Z.of_nat n * throttle_delay_ns c <= u) late ->
   is_Some (throttle_lines n c clock)).
Proof.
  revert c clock t. induction n as [|n IH]; intros c clock t Hs Ht Hd Hw Hu Hm.
  - split; [|by eexists]. intros c' rest [= <- <-]. split; [|exists t; split; [lia|done]].
    rewrite Z.mul_0_l, Z.add_0_r. by destruct c.
  - assert (0 <= Z.of_nat n * throttle_delay_ns c) by (apply Z.mul_nonneg_nonneg; lia).
    rewrite Nat2Z.inj_succ, Z.mul_succ_l in *. cbn [throttle_lines].
    rewrite throttle_step_started by (try done; lia).
    set (c1 := set_throttle _ _ c). split.
    + intros c' rest E. destruct (spin _ clock) as [clock1|] eqn:Es; [|done]. cbn [mbind option_bind] in E.
      destruct (spin_spec _ _ _ _ Hm Es) as (u & _ & Hu1 & Hm1).
      destruct (IH c1 clock1 u) as [H1 _]; cbn; try done; try lia.
      destruct (H1 _ _ E) as [-> (v & Hv & Hmv)]. cbn in Hv |- *. split.
      * unfold c1, set_throttle. cbn. f_equal. lia.
      * exists v. split; [lia|done].
    + intros pre late -> Hl Hlate.
      destruct (spin_ends (throttle_start_ns c + (throttle_target_ns c + throttle_delay_ns c)) pre late)
        as (pre' & late' & Es & used & -> & Hused); [|lia|].
      { eapply Forall_impl; [exact Hlate|]. cbn. lia. }
      rewrite Es. cbn [mbind option_bind].
      destruct (spin_spec _ _ _ _ Hm Es) as (u & _ & Hu1 & Hm1).
      rewrite length_app in Hl. apply Forall_app in Hlate as [_ Hlate].
      destruct (IH c1 (pre' ++ late') u) as [_ H2]; cbn; try done; try lia.
      apply (H2 pre' late'); [done|lia|]. eapply Forall_impl; [exact Hlate|]. cbn. lia.
Qed.

(** The throttle keeps its pace.  From an armed throttle, [n] lines return as
    soon as the clock has reached [n] delays after the first reading, and not
    before: they return whenever enough readings are that late, and whatever is
    read afterwards is not earlier.  The clock does not go back, and the deadline
    fits in 64 bits. *)
Theorem throttle_pace c t0 clock n :
  throttle_start_ns c = 0 -> throttle_target_ns c = 0 -> 0 <= throttle_delay_ns c ->
  0 < t0 -> monotone t0 clock -> t0 + Z.of_nat (S n) * throttle_delay_ns c < 2 ^ 64 ->
  (forall c' rest, throttle_lines (S n) c (t0 :: clock) = Some (c', rest) ->
   Forall (fun u => t0 + Z.of_nat (S n) * throttle_delay_ns c <= u) rest /\
   throttle_start_ns c' = t0 /\ throttle_target_ns c' = Z.of_nat (S n) * throttle_delay_ns c) /\
  (forall pre late, clock = pre ++ late -> (S n <= length late)%nat ->
   Forall (fun u => t0 + Z.of_nat (S n) * throttle_delay_ns c <= u) late ->
   is_Some (throttle_lines (S n) c (t0 :: clock))).
Proof.
  intros Hs Ht Hd H0 Hm Hw.
  assert (throttle_lines (S n) c (t0 :: clock) = throttle_lines (S n) (set_throttle t0 0 c) clock) as ->.
  { cbn [throttle_lines]. f_equal. unfold throttle_step. rewrite Hs, Ht.
    cbn [Z.eqb mbind option_bind throttle_start_ns set_throttle].
    by rewrite (proj2 (Z.eqb_neq t0 0)) by lia. }
  destruct (throttle_lines_spec (S n) (set_throttle t0 0 c) clock t0) as [H1 H2];
    cbn [set_throttle throttle_start_ns throttle_target_ns throttle_delay_ns] in *; try done; try lia.
  rewrite Z.add_0_r, Z.add_0_l in *. split; [|exact H2].
  intros c' rest E. destruct (H1 _ _ E) as [-> (u & Hu & Hmu)]. repeat split.
  eapply Forall_impl; [apply monotone_bound, Hmu|]. cbn. lia.
Qed.
End laws.

(** ** Witnesses *)

Definition throttled : hook_config_t :=
  Config false true false 0 0 0 0 10 DAP_STEP_NONE 0 false.

Lemma hook_mask_exact_witness :
  fc_consolelua_master_hook (L := list activation) id (Link None false) throttled [] [] LUA_HOOKCALL
    (Activation None None None 1 []) = Returned throttled [].
Proof.
  apply (proj1 (hook_mask_exact id (Link None false) throttled [] [] LUA_HOOKCALL (Activation None None None 1 [])));
    reflexivity.
Defined.

Lemma throttle_pace_witness :
  throttle_lines 2 throttled [100; 104; 111; 115; 130; 131] =
    Some (set_throttle 100 20 throttled, [131]) /\ Forall (fun u => 120 <= u) [131].
Proof.
  split; [reflexivity|].
  apply (proj1 (throttle_pace throttled 100 [104; 111; 115; 130; 131] 1
    eq_refl eq_refl ltac:(cbn; lia) ltac:(lia) ltac:(cbn; lia) ltac:(cbn; lia))
    (set_throttle 100 20 throttled)).
  reflexivity.
Defined.
