(* ===== verification/DapServer.v ===== *)
(** * The debug-adapter server (spikes/spike-j/host/dap_server.c)

    The server thread reads framed JSON requests from a socket, changes the
    breakpoint table, the stop state and the hook's configuration, and answers; the
    cart thread asks the table on every line and waits in the pause loop.  A socket
    is the bytes read and the messages sent.  The handlers run one at a time and the
    cart thread's critical sections between them, which is how the mutex orders
    them; [None] is behaviour C leaves undefined.  JSON is searched with [strstr]
    and not parsed, as the code does.  The Lua state is a parameter with its stack of
    activation records.  A reload (spikes/spike-j/host/dap_lua_host.c) runs the new chunk on
    the server's thread, with the hook installed; what the chunk does is a parameter, a tree
    of hook events. *)

From stdpp Require Import relations.
From S2P Require Import Prelude HostString MasterHook.
Open Scope Z_scope.

Definition MAX_BREAKPOINTS : Z := 256.
Definition MAX_FRAMES : nat := 64.
Definition MAX_VARS : nat := 64.
Definition MAX_SOURCE_PATH : Z := 1024.
Definition MAX_MSG : Z := 1 ≪ 20.

(** A text in which ' stands for the quotation mark. *)
Definition js (s : string) : list Z := map (fun c => if c =? 39 then 34 else c) (cstr s).

(** ** JSON *)

Definition json_key (key : list Z) : list Z := clip 64 ([34] ++ key ++ [34]).

(** [while ( *p == ' ' || *p == '\t') p++] *)
Fixpoint skip_tabs (p : list Z) : list Z :=
  match p with
  | c :: rest => if (c =? 32) || (c =? 9) then skip_tabs rest else p
  | [] => []
  end.

(** Behind the colon of the first occurrence of the key. *)
Definition json_find (buf key : list Z) : option (list Z) :=
  p ← strstr_rest (json_key key) buf;
  p ← strchr_rest p 58;
  Some (skip_tabs (drop 1 p)).

Definition json_get_int (buf key : list Z) (def : Z) : Z :=
  match json_find buf key with Some p => atoi p | None => def end.

(** The characters of a string literal; [room] is [n - 1 - i]. *)
Fixpoint json_chars (room : Z) (p : list Z) : list Z :=
  match p with
  | [] => []
  | c :: rest =>
      if (c =? 34) || (room <=? 0) then []
      else
        match rest with
        | d :: rest' => if c =? 92 then d :: json_chars (room - 1) rest' else c :: json_chars (room - 1) rest
        | [] => [c]
        end
  end.

Definition json_get_string (buf key : list Z) (n : Z) : option (list Z) :=
  p ← json_find buf key;
  if char0 p =? 34 then Some (json_chars (n - 1) (drop 1 p)) else None.

(** [while ( *p == ' ' || *p == ',' || *p == '\t' || *p == '\n') p++] *)
Fixpoint skip_separators (p : list Z) : list Z :=
  match p with
  | c :: rest => if (c =? 32) || (c =? 44) || (c =? 9) || (c =? 10) then skip_separators rest else p
  | [] => []
  end.

(** [while ( *p && *p != ',' && *p != ']') p++] *)
Fixpoint skip_item (p : list Z) : list Z :=
  match p with
  | c :: rest => if (c =? 44) || (c =? 93) then p else skip_item rest
  | [] => []
  end.

(** [None] is a loop that goes on; [max] is [max - n]. *)
Fixpoint int_items (fuel : nat) (p : list Z) (max : Z) : option (list Z) :=
  match fuel with
  | O => None
  | S fuel =>
      match p with
      | [] => Some []
      | c :: _ =>
          if (c =? 93) || (max <=? 0) then Some []
          else
            let p := skip_separators p in
            if char0 p =? 93 then Some []
            else ns ← int_items fuel (skip_item p) (max - 1); Some (atoi p :: ns)
      end
  end.

Definition json_get_int_array (buf key : list Z) (max : Z) : option (list Z) :=
  match p ← strstr_rest (json_key key) buf; strchr_rest p 91 with
  | Some p => int_items (S (length p)) (drop 1 p) max
  | None => Some []
  end.

(** ** The state *)

Record dap_breakpoint_t := Breakpoint { source : list Z; line : Z; verified : bool; id_ : Z }.

(** The harness's configuration (dap_lua_host.c). *)
Definition apply_default_config (c : hook_config_t) : hook_config_t :=
  Config true false true 16667000 (budget_tic_start_ns c) (throttle_start_ns c) (throttle_target_ns c) 0
    (dap_step_mode c) (dap_step_base_depth c) (dap_pending_pause c).

(** The stack slots Lua has for a hook (lua.h). *)
Definition LUA_MINSTACK : nat := 20.

Section server.
Context {L : Type} (lua_stack : L -> list activation).

(** [client]: [client_fd >= 0].  [bps] and [n_bps]: the first [n_bps] entries of
    the table.  [paused_L] is read while [paused]. *)
Record dap_state_t := Dap {
  client : bool;
  running : bool;
  configuration_done : bool;
  seq : Z;
  bps : list dap_breakpoint_t;
  next_bp_id : Z;
  paused_L : option L;
  paused : bool;
  continue_pending : bool;
  loaded_source_pending : bool;
  loaded_source_path : list Z;
}.

(** What the chunk of a reloaded cart does: it ends, or an event the hook is installed for
    comes, at a reading of the clock; the code goes on, [true] when the hook has raised an
    error, which it may catch.  Loading that fails is a chunk that ends. *)
Inductive chunk_run :=
  | ChunkEnd
  | ChunkEvent (now : Z) (l : L) (e : hook_event) (ar : activation) (k : bool -> chunk_run).

(** The cart's thread: outside of Lua, inside, or inside and in the pause loop. *)
Inductive cart_thread := Outside | Inside | Held.

(** The server's state, the hook's configuration, the messages sent; whether [paused_L]
    points to a state a reload has closed, and how many values the server has left on its
    stack; where the cart's thread is, and whether a reload has closed the state it is in;
    and when the server's own thread is in the pause loop, inside of a reload: the
    request's number, the source and the rest of the chunk. *)
Record world := World {
  dap : dap_state_t;
  hook : hook_config_t;
  sent : list (list Z);
  dangling : bool;
  leaked : nat;
  cart : cart_thread;
  closed : bool;
  waiting : option (Z * list Z * chunk_run);
}.

Definition set_dap (d : dap_state_t) (w : world) : world :=
  World d (hook w) (sent w) (dangling w) (leaked w) (cart w) (closed w) (waiting w).
Definition set_hook (c : hook_config_t) (w : world) : world :=
  World (dap w) c (sent w) (dangling w) (leaked w) (cart w) (closed w) (waiting w).
Definition set_sent (ms : list (list Z)) (w : world) : world :=
  World (dap w) (hook w) ms (dangling w) (leaked w) (cart w) (closed w) (waiting w).
Definition set_stack (dang : bool) (n : nat) (w : world) : world :=
  World (dap w) (hook w) (sent w) dang n (cart w) (closed w) (waiting w).
Definition set_cart (t : cart_thread) (w : world) : world :=
  World (dap w) (hook w) (sent w) (dangling w) (leaked w) t (closed w) (waiting w).
Definition set_closed (b : bool) (w : world) : world :=
  World (dap w) (hook w) (sent w) (dangling w) (leaked w) (cart w) b (waiting w).
Definition set_waiting (r : option (Z * list Z * chunk_run)) (w : world) : world :=
  World (dap w) (hook w) (sent w) (dangling w) (leaked w) (cart w) (closed w) r.

Definition set_seq (s : Z) (d : dap_state_t) : dap_state_t :=
  Dap (client d) (running d) (configuration_done d) s (bps d) (next_bp_id d) (paused_L d) (paused d)
    (continue_pending d) (loaded_source_pending d) (loaded_source_path d).
Definition set_client (b : bool) (d : dap_state_t) : dap_state_t :=
  Dap b (running d) (configuration_done d) (seq d) (bps d) (next_bp_id d) (paused_L d) (paused d)
    (continue_pending d) (loaded_source_pending d) (loaded_source_path d).
Definition set_running (b : bool) (d : dap_state_t) : dap_state_t :=
  Dap (client d) b (configuration_done d) (seq d) (bps d) (next_bp_id d) (paused_L d) (paused d)
    (continue_pending d) (loaded_source_pending d) (loaded_source_path d).
Definition set_configured (d : dap_state_t) : dap_state_t :=
  Dap (client d) (running d) true (seq d) (bps d) (next_bp_id d) (paused_L d) (paused d)
    (continue_pending d) (loaded_source_pending d) (loaded_source_path d).
Definition set_bps (bs : list dap_breakpoint_t) (next : Z) (d : dap_state_t) : dap_state_t :=
  Dap (client d) (running d) (configuration_done d) (seq d) bs next (paused_L d) (paused d)
    (continue_pending d) (loaded_source_pending d) (loaded_source_path d).
Definition set_stop (l : option L) (p c : bool) (d : dap_state_t) : dap_state_t :=
  Dap (client d) (running d) (configuration_done d) (seq d) (bps d) (next_bp_id d) l p
    c (loaded_source_pending d) (loaded_source_path d).
Definition set_loaded (path : list Z) (d : dap_state_t) : dap_state_t :=
  Dap (client d) (running d) (configuration_done d) (seq d) (bps d) (next_bp_id d) (paused_L d) (paused d)
    (continue_pending d) true path.

(** ** Messages *)

Definition send_msg (json : list Z) (w : world) : world :=
  if client (dap w) then set_sent (sent w ++ [json]) w else w.

(** [++g_dap.seq] *)
Definition next_seq (w : world) : Z * world :=
  let s := i32 (seq (dap w) + 1) in (s, set_dap (set_seq s (dap w)) w).

Definition response_text (seq request_seq : Z) (command : list Z) (success : bool) (body : list Z) : list Z :=
  js "{'seq':" ++ print_int seq ++ js ",'type':'response','request_seq':" ++ print_int request_seq ++
  js ",'command':'" ++ command ++
  (if success then js "','success':true,'body':" ++ body ++ js "}"
   else js "','success':false,'message':'" ++ body ++ js "'}").

Definition send_response (request_seq : Z) (command : list Z) (success : bool) (body : list Z) (w : world) : world :=
  let '(seq, w) := next_seq w in
  send_msg (clip MAX_MSG (response_text seq request_seq command success body)) w.

Definition event_text (seq : Z) (event body : list Z) : list Z :=
  js "{'seq':" ++ print_int seq ++ js ",'type':'event','event':'" ++ event ++ js "','body':" ++ body ++ js "}".

Definition send_event (event body : list Z) (w : world) : world :=
  let '(seq, w) := next_seq w in send_msg (clip MAX_MSG (event_text seq event body)) w.

(** ** Simple requests *)

Definition handle_initialize (sq : Z) (w : world) : world :=
  let body := js "{'supportsConfigurationDoneRequest':true,'supportsLoadedSourcesRequest':true,'supportsRestartRequest':false,'supportsStepBack':false,'supportsTerminateRequest':true}" in
  send_event (js "initialized") (js "{}") (send_response sq (js "initialize") true body w).

Definition handle_launch (sq : Z) (w : world) : world := send_response sq (js "launch") true (js "{}") w.

Definition handle_configuration_done (sq : Z) (w : world) : world :=
  send_response sq (js "configurationDone") true (js "{}") (set_dap (set_configured (dap w)) w).

Definition fc_dap_configuration_done (w : world) : bool := configuration_done (dap w).

Definition handle_threads (sq : Z) (w : world) : world :=
  send_response sq (js "threads") true (js "{'threads':[{'id':1,'name':'cart'}]}") w.

(** ** Breakpoints *)

Definition verify_breakpoint (source : list Z) (line : Z) : bool := 0 <? line.

Fixpoint add_breakpoints (source : list Z) (lines : list Z) (bs : list dap_breakpoint_t) (next : Z)
  : list dap_breakpoint_t * Z :=
  match lines with
  | [] => (bs, next)
  | l :: lines =>
      if Z.of_nat (length bs) <? MAX_BREAKPOINTS then
        let next := i32 (next + 1) in
        add_breakpoints source lines
          (bs ++ [Breakpoint (clip MAX_SOURCE_PATH source) l (verify_breakpoint source l) next]) next
      else (bs, next)
  end.

Definition same_source (s : list Z) (b : dap_breakpoint_t) : bool := bool_decide (source b = s).

(** The object of the answer for a line: that of the first entry of the table for
    the source and the line. *)
Definition breakpoint_text (bs : list dap_breakpoint_t) (source : list Z) (l : Z) : list Z :=
  let '(found_id, found_verified) :=
    match List.find (fun b => same_source source b && (line b =? l)) bs with
    | Some b => (id_ b, verified b)
    | None => (0, false)
    end in
  js "{'id':" ++ print_int found_id ++ js ",'verified':" ++
  (if found_verified : bool then js "true" else js "false") ++ js ",'line':" ++ print_int l ++ js "}".

Fixpoint breakpoint_items (bs : list dap_breakpoint_t) (source : list Z) (first : bool) (lines : list Z)
    (x : list Z * Z) : option (list Z * Z) :=
  match lines with
  | [] => Some x
  | l :: lines =>
      x ← snprintf_at MAX_MSG x ((if first then [] else js ",") ++ breakpoint_text bs source l);
      breakpoint_items bs source false lines x
  end.

Definition handle_set_breakpoints (sq : Z) (msg : list Z) (w : world) : option world :=
  let source := default [] (json_get_string msg (js "path") MAX_SOURCE_PATH) in
  lines ← json_get_int_array msg (js "lines") MAX_BREAKPOINTS;
  let kept := List.filter (fun b => negb (same_source source b)) (bps (dap w)) in
  let '(bs, next) := add_breakpoints source lines kept (next_bp_id (dap w)) in
  let w := set_dap (set_bps bs next (dap w)) w in
  x ← snprintf_at MAX_MSG ([], 0) (js "{'breakpoints':[");
  x ← breakpoint_items bs source true lines x;
  '(body, _) ← snprintf_at MAX_MSG x (js "]}");
  Some (send_response sq (js "setBreakpoints") true body w).

(** ** Stack, scopes, variables *)

(** A request that needs the paused state; reading a closed one is undefined. *)
Definition paused_state (w : world) : option (option L) :=
  match paused_L (dap w) with
  | Some l => if dangling w then None else Some (Some l)
  | None => Some None
  end.

(** [if ( *src == '@') src++] *)
Definition strip_at (src : list Z) : list Z := if char0 src =? 64 then drop 1 src else src.

Definition frame_text (frame : nat) (a : activation) : list Z :=
  let name := match ar_name a with Some n => n | None => default (js "?") (ar_what a) end in
  let src := strip_at (default (js "?") (ar_source a)) in
  (if (frame =? 0)%nat then [] else js ",") ++
  js "{'id':" ++ print_int (Z.of_nat frame) ++ js ",'name':'" ++ name ++ js "','source':{'path':'" ++ src ++
  js "'},'line':" ++ print_int (currentline a) ++ js ",'column':1}".

(** [while (frame < MAX_FRAMES && lua_getstack(L, frame, &ar))] *)
Fixpoint frame_items (rounds frame : nat) (s : list activation) (x : list Z * Z) : option (nat * (list Z * Z)) :=
  match rounds with
  | O => Some (frame, x)
  | S rounds =>
      match s !! frame with
      | Some a => x ← snprintf_at MAX_MSG x (frame_text frame a); frame_items rounds (S frame) s x
      | None => Some (frame, x)
      end
  end.

Definition handle_stack_trace (sq : Z) (w : world) : option world :=
  l ← paused_state w;
  match l with
  | None => Some (send_response sq (js "stackTrace") false (js "not paused") w)
  | Some l =>
      x ← snprintf_at MAX_MSG ([], 0) (js "{'stackFrames':[");
      '(frame, x) ← frame_items MAX_FRAMES 0 (lua_stack l) x;
      '(body, _) ← snprintf_at MAX_MSG x (js "],'totalFrames':" ++ print_int (Z.of_nat frame) ++ js "}");
      Some (send_response sq (js "stackTrace") true body w)
  end.

Definition handle_scopes (sq : Z) (msg : list Z) (w : world) : world :=
  let frame_id := json_get_int msg (js "frameId") 0 in
  send_response sq (js "scopes") true
    (clip 256 (js "{'scopes':[{'name':'Locals','variablesReference':" ++ print_int (i32 (frame_id + 1)) ++
               js ",'expensive':false}]}")) w.

Definition variable_text (first : bool) (vn : list Z) (v : lua_value) : list Z :=
  let val := clip 256 (default (typename v) (tostring v)) in
  let val := map (fun c => if (c =? 34) || (c =? 92) then 95 else c) val in
  (if first then [] else js ",") ++
  js "{'name':'" ++ vn ++ js "','value':'" ++ val ++ js "','type':'" ++ typename v ++ js "','variablesReference':0}".

(** [lua_getlocal] from index 1 on; a name that starts with a parenthesis is a
    temporary.  What was left on the stack shows as temporaries of the running function. *)
Definition visible (frame_id : Z) (leaked : nat) (a : activation) : list (list Z * lua_value) :=
  locals a ++ (if frame_id =? 0 then repeat (cstr "(temporary)", Value (cstr "nil") None) leaked else []).

Fixpoint variable_items (rounds : nat) (first : bool) (vs : list (list Z * lua_value)) (x : list Z * Z)
  : option (list Z * Z) :=
  match rounds, vs with
  | S rounds, (vn, v) :: vs =>
      if char0 vn =? 40 then variable_items rounds first vs x
      else x ← snprintf_at MAX_MSG x (variable_text first vn v); variable_items rounds false vs x
  | _, _ => Some x
  end.

(** Each value is pushed and popped, but for the one at index [MAX_VARS + 1], which ends
    the loop and stays on the stack; a push without a free slot is undefined. *)
Definition handle_variables (sq : Z) (msg : list Z) (w : world) : option world :=
  let vref := json_get_int msg (js "variablesReference") 0 in
  let frame_id := i32 (vref - 1) in
  l ← (match paused_L (dap w) with
       | Some _ => if frame_id <? 0 then Some None else paused_state w
       | None => Some None
       end);
  match l with
  | None => Some (send_response sq (js "variables") false (js "not paused") w)
  | Some l =>
      x ← snprintf_at MAX_MSG ([], 0) (js "{'variables':[");
      '(x, w) ← (match lua_stack l !! Z.to_nat frame_id with
           | Some a =>
               let vs := visible frame_id (leaked w) a in
               if negb (length vs =? 0)%nat && negb (leaked w <? LUA_MINSTACK)%nat then None
               else
                 x ← variable_items MAX_VARS true vs x;
                 Some (x, if (MAX_VARS <? length vs)%nat then set_stack (dangling w) (S (leaked w)) w else w)
           | None => Some (x, w)
           end);
      '(body, _) ← snprintf_at MAX_MSG x (js "]}");
      Some (send_response sq (js "variables") true body w)
  end.

(** ** Running and stopping *)

(** [continue_pending = 1; dap_step_mode = mode; dap_pending_pause = 0] *)
Definition release (mode : dap_step_mode_t) (w : world) : world :=
  set_hook (set_pending_pause false (set_step mode (hook w)))
    (set_dap (set_stop (paused_L (dap w)) (paused (dap w)) true (dap w)) w).

Definition handle_continue (sq : Z) (w : world) : world :=
  send_response sq (js "continue") true (js "{'allThreadsContinued':true}") (release DAP_STEP_NONE w).

Definition step_command (mode : dap_step_mode_t) : list Z :=
  match mode with DAP_STEP_OVER => js "next" | DAP_STEP_IN => js "stepIn" | _ => js "stepOut" end.

Definition handle_step (sq : Z) (mode : dap_step_mode_t) (w : world) : option world :=
  l ← paused_state w;
  let depth := match l with Some l => dap_call_depth lua_stack l | None => 0 end in
  let w := set_hook (set_step_base depth (hook w)) w in
  Some (send_response sq (step_command mode) true (js "{'allThreadsContinued':true}") (release mode w)).

Definition handle_pause (sq : Z) (w : world) : world :=
  send_response sq (js "pause") true (js "{}") (set_hook (set_pending_pause true (hook w)) w).

Definition handle_disconnect (sq : Z) (w : world) : world :=
  release DAP_STEP_NONE (send_response sq (js "disconnect") true (js "{}") w).

(** ** Where Lua runs *)

Fixpoint basename_from (b q : list Z) : list Z :=
  match q with
  | [] => b
  | c :: q => basename_from (if c =? 47 then q else b) q
  end.

Definition basename_of (p : list Z) : list Z := basename_from p p.

Definition fc_dap_should_break (w : world) (l : L) (ar : activation) : bool :=
  if negb (client (dap w)) then false
  else
    let src_base := basename_of (strip_at (default [] (ar_source ar))) in
    existsb (fun b => verified b && (line b =? currentline ar) && bool_decide (basename_of (source b) = src_base))
      (bps (dap w)).

(** [fc_dap_pause_loop] up to the wait. *)
Definition pause_enter (l : L) (w : world) : world :=
  send_event (js "stopped") (clip 256 (js "{'reason':'breakpoint','threadId':1,'allThreadsStopped':true}"))
    (set_stack false 0 (set_dap (set_stop (Some l) true false (dap w)) w)).

(** One round of the wait: [None] while it lasts, and what follows it. *)
Definition pause_poll (w : world) : option world :=
  if negb (running (dap w)) || continue_pending (dap w) then
    Some (send_event (js "continued") (js "{'threadId':1,'allThreadsContinued':true}")
            (set_stack false 0 (set_dap (set_stop None false false (dap w)) w)))
  else None.

(** The server linked into the hook. *)
Definition dap_hooks (w : world) : dap_link L := Link (Some (fc_dap_should_break w)) true.

(** The whole hook on an event of running Lua code, with the clock's readings: the code
    goes on, or with an error, or its thread enters the pause loop; or the readings do not
    say, because the hook is still waiting for one. *)
Inductive outcome :=
  | Goes (w : world)
  | Breaks (msg : list Z) (w : world)
  | Halts (w : world)
  | Starves.

Definition cart_event (clock : list Z) (l : L) (e : hook_event) (ar : activation) (w : world) : outcome :=
  match fc_consolelua_master_hook lua_stack (dap_hooks w) (hook w) clock l e ar with
  | Returned c _ => Goes (set_hook c w)
  | Raised msg c _ => Breaks msg (set_hook c w)
  | Pausing c _ => Halts (pause_enter l (set_hook c w))
  | NoReading => Starves
  end.

(** ** Reloading *)

Definition fc_dap_emit_loaded_source (source_path : list Z) (w : world) : world :=
  send_event (js "loadedSource")
    (clip (MAX_SOURCE_PATH + 128)
      (js "{'reason':'changed','source':{'path':'" ++ source_path ++ js "','name':'" ++ source_path ++ js "'}}")) w.

Definition hex_char (c : Z) : Z :=
  if 97 <=? c then c - 97 + 10 else if 65 <=? c then c - 65 + 10 else c - 48.

(** [char] is signed on the host, a negative digit shifts as the compiler shifts it;
    [malloc] succeeds. *)
Fixpoint hex_pairs (hex : list Z) : list Z :=
  match hex with
  | c1 :: c2 :: hex => u8 (Z.lor (hex_char (signed 8 c1) ≪ 4) (hex_char (signed 8 c2))) :: hex_pairs hex
  | _ => []
  end.

Definition decode_hex (hex : list Z) : option (list Z) :=
  if Nat.even (length hex) then Some (hex_pairs hex) else None.

(** The reload is the harness's (dap_lua_host.c).  Parameters: whether [malloc] gives the
    copy and [luaL_newstate] a state, and what the chunk does. *)
Context (made : list Z -> bool) (chunk : list Z -> chunk_run).

(** [lua_close]: of the paused state, of the one the cart's thread is in. *)
Definition close_state (w : world) : world :=
  set_closed (closed w || match cart w with Outside => false | _ => true end)
    (set_stack (match paused_L (dap w) with Some _ => true | None => dangling w end) (leaked w) w).

(** [run_chunk] on the server's thread, with the hook installed; the rest of the chunk
    when it stops.  The one reading is enough, the throttle is off. *)
Fixpoint run_chunk (t : chunk_run) (w : world) : world * option chunk_run :=
  match t with
  | ChunkEnd => (w, None)
  | ChunkEvent now l e ar k =>
      match cart_event [now] l e ar w with
      | Goes w => run_chunk (k false) w
      | Breaks _ w => run_chunk (k true) w
      | Halts w => (w, Some (k false))
      | Starves => run_chunk (k false) w
      end
  end.

Definition fc_consolelua_synthetic_reload (bytecode : list Z) (w : world) : world * option chunk_run :=
  let w := close_state w in
  if made bytecode then run_chunk (chunk bytecode) (set_hook (apply_default_config (hook w)) w)
  else (w, None).

(** The end of the handler, or the wait in the middle of it. *)
Definition after_reload (sq : Z) (src : list Z) (r : world * option chunk_run) : world :=
  match r with
  | (w, None) =>
      fc_dap_emit_loaded_source src
        (send_response sq (js "hot_reload") true (js "{}")
           (set_dap (set_loaded (clip MAX_SOURCE_PATH src) (dap w)) w))
  | (w, Some rest) => set_waiting (Some (sq, src, rest)) w
  end.

Definition handle_hot_reload (sq : Z) (msg : list Z) (w : world) : world :=
  match json_get_string msg (js "source") MAX_SOURCE_PATH with
  | None => send_response sq (js "hot_reload") false (js "missing source") w
  | Some src =>
      match json_get_string msg (js "bytecodeHex") MAX_MSG with
      | None => send_response sq (js "hot_reload") false (js "missing bytecodeHex") w
      | Some hex =>
          match decode_hex hex with
          | None => send_response sq (js "hot_reload") false (js "bad hex") w
          | Some bytecode => after_reload sq src (fc_consolelua_synthetic_reload bytecode w)
          end
      end
  end.

(** ** The dispatcher *)

Definition dispatch (msg : list Z) (w : world) : option world :=
  let sq := json_get_int msg (js "seq") 0 in
  match json_get_string msg (js "command") 64 with
  | None => Some w
  | Some cmd =>
      let cmd_is s := bool_decide (cmd = js s) in
      if cmd_is "initialize" then Some (handle_initialize sq w)
      else if cmd_is "launch" then Some (handle_launch sq w)
      else if cmd_is "configurationDone" then Some (handle_configuration_done sq w)
      else if cmd_is "setBreakpoints" then handle_set_breakpoints sq msg w
      else if cmd_is "threads" then Some (handle_threads sq w)
      else if cmd_is "stackTrace" then handle_stack_trace sq w
      else if cmd_is "scopes" then Some (handle_scopes sq msg w)
      else if cmd_is "variables" then handle_variables sq msg w
      else if cmd_is "continue" then Some (handle_continue sq w)
      else if cmd_is "next" then handle_step sq DAP_STEP_OVER w
      else if cmd_is "stepIn" then handle_step sq DAP_STEP_IN w
      else if cmd_is "stepOut" then handle_step sq DAP_STEP_OUT w
      else if cmd_is "pause" then Some (handle_pause sq w)
      else if cmd_is "disconnect" then Some (handle_disconnect sq w)
      else if cmd_is "terminate" then Some (handle_disconnect sq w)
      else if cmd_is "hot_reload" then Some (handle_hot_reload sq msg w)
      else Some (send_response sq cmd false (js "unknown command") w)
  end.

(** ** The wire *)

Definition crlf2 : list Z := [13; 10; 13; 10].

(** What [send_msg] puts on the socket. *)
Definition wire (json : list Z) : list Z :=
  clip 64 (cstr "Content-Length: " ++ dec (Z.of_nat (length json)) ++ crlf2) ++ json.

(** Header bytes up to the empty line, or to the end of the buffer; [room] is
    [buf_size - 3 - hi], [acc] the bytes read, last first. *)
Fixpoint read_header (room : Z) (acc inp : list Z) : option (list Z * list Z) :=
  if room <=? 0 then Some (rev acc, inp)
  else
    match inp with
    | [] => None
    | c :: inp =>
        if starts (rev crlf2) (c :: acc) then Some (rev (c :: acc), inp)
        else read_header (room - 1) (c :: acc) inp
    end.

(** The message and the rest of the input; [None] ends the connection. *)
Definition read_msg (inp : list Z) : option (list Z * list Z) :=
  '(hdr, inp) ← read_header (MAX_MSG - 3) [] inp;
  cl ← strstr_rest (cstr "Content-Length:") (c_string hdr);
  let len := atoi (drop 15 cl) in
  if (len <? 0) || (MAX_MSG <? len + 1) then None
  else if Z.of_nat (length inp) <? len then None
  else Some (take (Z.to_nat len) inp, drop (Z.to_nat len) inp).

(** The server's thread is in the pause loop and handles nothing more. *)
Definition blocked (w : world) : bool := match waiting w with Some _ => true | None => false end.

(** The inner loop of [dap_thread_main], up to where it blocks if it does; every message
    consumes input. *)
Fixpoint serve (fuel : nat) (inp : list Z) (w : world) : option world :=
  match fuel with
  | O => None
  | S fuel =>
      if negb (running (dap w)) then Some w
      else
        match read_msg inp with
        | None => Some w
        | Some (msg, inp) =>
            if (length msg =? 0)%nat then Some w
            else w ← dispatch (c_string msg) w; if blocked w then Some w else serve fuel inp w
        end
  end.

(** One accepted connection. *)
Definition dap_connection (inp : list Z) (w : world) : option world :=
  w ← serve (S (length inp)) inp (set_dap (set_client true (dap w)) w);
  Some (if blocked w then w else set_dap (set_client false (dap w)) w).

(** ** Server and cart together

    The server's thread takes clients and handles their requests, unless it is in the pause
    loop itself.  The cart's thread builds its state, calls the cart's functions with the
    hook rearmed, and leaves them; inside it takes hook events - none is defined once a
    reload has closed the state it is in - and polls while it is held; outside it may shut
    the server down, which ends the program and is what a server's thread in the pause
    loop waits for. *)
Inductive step : world -> world -> Prop :=
  | step_client b w : waiting w = None -> step w (set_dap (set_client b (dap w)) w)
  | step_request msg w w' :
      waiting w = None -> running (dap w) = true -> dispatch msg w = Some w' -> step w w'
  | step_build w :
      cart w = Outside -> running (dap w) = true ->
      step w (set_cart Inside (set_hook (apply_default_config (hook w)) w))
  | step_call clock c clock' w :
      cart w = Outside -> running (dap w) = true ->
      fc_consolelua_master_hook_rearm (hook w) clock = Some (c, clock') ->
      step w (set_cart Inside (set_hook c w))
  | step_event clock l e ar w w' :
      cart w = Inside -> closed w = false ->
      cart_event clock l e ar w = Goes w' \/ (exists msg, cart_event clock l e ar w = Breaks msg w') ->
      step w w'
  | step_halt clock l e ar w w' :
      cart w = Inside -> closed w = false -> cart_event clock l e ar w = Halts w' -> step w (set_cart Held w')
  | step_poll w w' : cart w = Held -> pause_poll w = Some w' -> step w (set_cart Inside w')
  | step_return w : cart w = Inside -> closed w = false -> step w (set_cart Outside w)
  | step_shutdown w : cart w = Outside -> step w (set_dap (set_running false (dap w)) w)
  | step_release sq src rest w w' :
      waiting w = Some (sq, src, rest) -> pause_poll w = Some w' ->
      step w (after_reload sq src (run_chunk rest (set_waiting None w'))).
End server.

(** ** Searching a text *)

(** [lit] and [s] differ before either ends. *)
Fixpoint differ (lit s : list Z) : bool :=
  match lit, s with
  | a :: lit, b :: s => negb (a =? b) || differ lit s
  | _, _ => false
  end.

(** No occurrence of [lit] starts in [pre], whatever follows. *)
Fixpoint misses (lit pre : list Z) : bool :=
  match pre with
  | [] => true
  | _ :: pre' => differ lit pre && misses lit pre'
  end.

Lemma differ_starts lit s rest : differ lit s = true -> starts lit (s ++ rest) = false.
Proof.
  revert s. induction lit as [|a lit IH]; intros [|b s]; cbn [differ]; try done. cbn [app starts].
  destruct (a =? b); cbn [negb orb andb]; [apply IH|done].
Qed.

Lemma strstr_misses lit pre rest : misses lit pre = true -> strstr_rest lit (pre ++ rest) = strstr_rest lit rest.
Proof.
  induction pre as [|c pre IH]; [done|]. cbn [misses]. intros [H1 H2]%andb_prop.
  pose proof (differ_starts _ _ rest H1) as H. cbn [app strstr_rest] in *. by rewrite H, IH.
Qed.

Lemma strstr_plain a lit pre rest : Forall (fun c => c <> a) pre ->
  strstr_rest (a :: lit) (pre ++ rest) = strstr_rest (a :: lit) rest.
Proof.
  intros H. apply strstr_misses. induction H as [|c pre Hc _ IH]; [done|].
  cbn [misses differ]. by rewrite (proj2 (Z.eqb_neq a c)) by auto.
Qed.

Abbreviation plain := (Forall (fun c : Z => c <> 34)).

(** A quoted text that is not the key is passed over. *)
Lemma strstr_quoted k s c rest :
  plain k -> plain s -> k <> s -> c <> 34 -> hd 34 k <> c -> k <> [] ->
  strstr_rest ([34] ++ k ++ [34]) ([34] ++ s ++ [34; c] ++ rest) = strstr_rest ([34] ++ k ++ [34]) (c :: rest).
Proof.
  intros Hk Hs Hne Hc Hh Hn. cbn [app].
  assert (starts (k ++ [34]) (s ++ 34 :: c :: rest) = false) as E1.
  { apply not_true_iff_false. intros [t Ht]%starts_spec. rewrite <-app_assoc in Ht. cbn [app] in Ht.
    apply Hne. clear -Ht Hk Hs. revert s Ht Hs. induction Hk as [|a k Ha _ IH]; intros [|b s] Ht Hs; try done.
    - inversion Hs; simplify_eq/=.
    - simplify_eq/=.
    - inversion_clear Hs. cbn in Ht. injection Ht as -> Ht. f_equal. by apply IH. }
  cbn [strstr_rest starts Z.eqb Pos.eqb andb]. rewrite E1. rewrite (strstr_plain 34 (k ++ [34]) s) by done.
  cbn [strstr_rest starts Z.eqb Pos.eqb andb].
  assert (starts (k ++ [34]) (c :: rest) = false) as ->; [|done].
  destruct k as [|a k]; [done|]. cbn in Hh |- *. by rewrite (proj2 (Z.eqb_neq _ _) Hh).
Qed.

Lemma json_find_spec buf key rest :
  Z.of_nat (length key) < 62 -> Forall (fun c => c <> 58) key ->
  strstr_rest ([34] ++ key ++ [34]) buf = Some (([34] ++ key ++ [34]) ++ 58 :: rest) ->
  json_find buf key = Some (skip_tabs rest).
Proof.
  intros Hl Hk E. unfold json_find, json_key. rewrite clip_fits by (rewrite !length_app; cbn; lia).
  rewrite E. cbn [mbind option_bind]. rewrite strchr_skip; [done|].
  rewrite !in_app_iff. cbn. intros [[|[]]|[H|[|[]]]]; try lia.
  by apply (proj1 (List.Forall_forall _ _) Hk) in H.
Qed.

(** ** Literals *)

Lemma json_chars_plain s rest room :
  Forall (fun c => c <> 34 /\ c <> 92) s -> Z.of_nat (length s) <= room ->
  json_chars room (s ++ 34 :: rest) = s.
Proof.
  intros Hs. revert room. induction Hs as [|c s [Hc Hb] _ IH]; intros room Hr; [done|].
  cbn [length] in Hr. cbn [app json_chars].
  rewrite (proj2 (Z.eqb_neq _ _) Hc), (proj2 (Z.leb_gt room 0)) by lia. cbn [orb].
  rewrite (proj2 (Z.eqb_neq _ _) Hb), IH by lia. by destruct (s ++ 34 :: rest) eqn:?; [destruct s|].
Qed.

Definition number_char (c : Z) : Prop := c = 45 \/ 48 <= c <= 57.

Lemma print_int_chars v : Forall number_char (print_int v).
Proof.
  assert (forall u, Forall number_char (dec u)) as H
    by (intros u; eapply Forall_impl; [apply dec_digits|]; intros c Hc; by right).
  unfold print_int. destruct (v <? 0); [constructor; [by left|]|]; apply H.
Qed.

Lemma print_int_first v : exists c cs, print_int v = c :: cs.
Proof.
  unfold print_int. destruct (v <? 0); [by do 2 eexists|].
  destruct (dec_first v) as (d & ds & -> & _). by do 2 eexists.
Qed.

Definition separator (c : Z) : Prop := c = 44 \/ c = 93.

Lemma skip_item_number v c rest : separator c -> skip_item (print_int v ++ c :: rest) = c :: rest.
Proof.
  intros Hc. induction (print_int_chars v) as [|d ds Hd _ IH]; cbn [app skip_item].
  - by destruct Hc as [-> | ->].
  - unfold number_char in Hd. destruct (Z.eqb_spec d 44), (Z.eqb_spec d 93); try lia. done.
Qed.

Lemma skip_separators_number v rest : skip_separators (print_int v ++ rest) = print_int v ++ rest.
Proof.
  destruct (print_int_first v) as (c & cs & E). pose proof (print_int_chars v) as H. rewrite E in *.
  inversion_clear H. unfold number_char in *. cbn [app skip_separators].
  destruct (Z.eqb_spec c 32), (Z.eqb_spec c 44), (Z.eqb_spec c 9), (Z.eqb_spec c 10); try lia. done.
Qed.

Lemma skip_tabs_head c rest : c <> 32 -> c <> 9 -> skip_tabs (c :: rest) = c :: rest.
Proof. intros H1 H2. cbn. by rewrite (proj2 (Z.eqb_neq _ _) H1), (proj2 (Z.eqb_neq _ _) H2). Qed.

Lemma skip_tabs_number v rest : skip_tabs (print_int v ++ rest) = print_int v ++ rest.
Proof.
  destruct (print_int_first v) as (c & cs & E). pose proof (print_int_chars v) as H. rewrite E in *.
  inversion_clear H. unfold number_char in *. apply skip_tabs_head; lia.
Qed.

(** One number of an array. *)
Lemma int_items_number fuel p v c rest max :
  skip_separators p = print_int v ++ c :: rest -> separator c ->
  (forall d q, p = d :: q -> d <> 93) -> 0 < max -> - 2 ^ 31 <= v < 2 ^ 31 ->
  int_items (S fuel) p max = ns ← int_items fuel (c :: rest) (max - 1); Some (v :: ns).
Proof.
  intros Hp Hc Hd Hm Hv. cbn [int_items]. destruct p as [|d q].
  { destruct (print_int_first v) as (? & ? & E). rewrite E in Hp. done. }
  rewrite (proj2 (Z.eqb_neq d 93)) by eauto. rewrite (proj2 (Z.leb_gt max 0)) by done. cbn [orb].
  rewrite Hp, skip_item_number by done.
  rewrite atoi_print_int by (done || (destruct Hc as [-> | ->]; cbn; lia)).
  destruct (print_int_first v) as (a & ? & E). pose proof (print_int_chars v) as H. rewrite E in *.
  inversion_clear H. unfold number_char in *. cbn [app char0 nth].
  by rewrite (proj2 (Z.eqb_neq a 93)) by lia.
Qed.

Definition print_tail (lines : list Z) : list Z := concat (map (fun l => 44 :: print_int l) lines).

Definition print_lines (lines : list Z) : list Z :=
  match lines with [] => [] | l :: lines => print_int l ++ print_tail lines end.

Lemma tail_separator lines rest : exists c t, print_tail lines ++ 93 :: rest = c :: t /\ separator c.
Proof.
  destruct lines as [|l lines]; cbn; eexists _, _; (split; [reflexivity|]); [by right|by left].
Qed.

Lemma int_items_tail lines : forall fuel rest max,
  (length lines < fuel)%nat -> Z.of_nat (length lines) <= max -> Forall (fun l => - 2 ^ 31 <= l < 2 ^ 31) lines ->
  int_items fuel (print_tail lines ++ 93 :: rest) max = Some lines.
Proof.
  induction lines as [|l lines IH]; intros [|fuel] rest max Hf Hm Hl; cbn [length] in *; try lia; [done|].
  inversion_clear Hl. destruct (tail_separator lines rest) as (c & t & E & Hc).
  rewrite (int_items_number fuel _ l c t) by
    (try done; try lia; try (cbn [print_tail map concat app skip_separators Z.eqb Pos.eqb orb];
       rewrite <-app_assoc, skip_separators_number; by rewrite <-E); intros d q [= <-]; done).
  rewrite <-E, IH by (done || lia). done.
Qed.

Lemma int_items_lines lines fuel rest max :
  (length lines < fuel)%nat -> Z.of_nat (length lines) <= max -> Forall (fun l => - 2 ^ 31 <= l < 2 ^ 31) lines ->
  int_items fuel (print_lines lines ++ 93 :: rest) max = Some lines.
Proof.
  destruct lines as [|l lines]; intros Hf Hm Hl; [destruct fuel; [cbn in Hf; lia|done]|].
  destruct fuel as [|fuel]; [lia|]. cbn [length print_lines] in *. inversion_clear Hl.
  destruct (tail_separator lines rest) as (c & t & E & Hc). rewrite <-app_assoc, E.
  rewrite (int_items_number fuel _ l c t); try done; try lia.
  - rewrite <-E, int_items_tail by (done || lia). done.
  - by rewrite skip_separators_number.
  - destruct (print_int_first l) as (a & ? & El). pose proof (print_int_chars l) as H'. rewrite El in *.
    inversion_clear H'. unfold number_char in *. intros d q [= <-]. lia.
Qed.

(** ** Requests as a client prints them *)

Definition set_breakpoints_request (sq : Z) (path lines : list Z) : list Z :=
  js "{'seq':" ++ print_int sq ++
  js ",'type':'request','command':'setBreakpoints','arguments':{'source':{'path':" ++
  [34] ++ path ++ [34; 125] ++ js ",'lines':[" ++ print_lines lines ++ js "]}}".

(** A request without arguments. *)
Definition simple_request (sq : Z) (command : list Z) : list Z :=
  js "{'seq':" ++ print_int sq ++ js ",'type':'request','command':" ++ [34] ++ command ++ [34; 125].

Lemma number_plain v : plain (print_int v).
Proof. eapply Forall_impl; [apply print_int_chars|]. unfold number_char. lia. Qed.

(** Passing over what stands in front of the key in both requests. *)
Lemma find_seq sq rest : - 2 ^ 31 <= sq < 2 ^ 31 ->
  json_get_int (js "{'seq':" ++ print_int sq ++ 44 :: rest) (js "seq") 0 = sq.
Proof.
  intros Hs. unfold json_get_int.
  rewrite (json_find_spec _ (js "seq") (print_int sq ++ 44 :: rest)).
  - rewrite skip_tabs_number, atoi_print_int by (done || (cbn; lia)). done.
  - reflexivity.
  - repeat (constructor; [done|]). constructor.
  - reflexivity.
Qed.

Lemma find_command sq command c rest : Forall (fun c => c <> 34 /\ c <> 92) command ->
  Z.of_nat (length command) <= 63 ->
  json_get_string (js "{'seq':" ++ print_int sq ++ js ",'type':'request','command':" ++ [34] ++ command ++ [34; c] ++ rest)
    (js "command") 64 = Some command.
Proof.
  intros Hc Hl. unfold json_get_string.
  rewrite (json_find_spec _ (js "command") ([34] ++ command ++ [34; c] ++ rest)).
  - cbn [mbind option_bind app]. rewrite skip_tabs_head by done. cbn [char0 nth Z.eqb Pos.eqb drop].
    rewrite drop_0, json_chars_plain by done. done.
  - reflexivity.
  - repeat (constructor; [done|]). constructor.
  - rewrite strstr_misses by reflexivity. change ([34] ++ js "command" ++ [34]) with (34 :: (js "command" ++ [34])).
    rewrite strstr_plain by apply number_plain. reflexivity.
Qed.

(** The four fields the server searches the text of a setBreakpoints request for
    are the ones the client printed, for any path without quotation marks and
    backslashes that is not itself the name of the field searched for last, and at
    most 256 lines. *)
Lemma request_fields sq path lines :
  - 2 ^ 31 <= sq < 2 ^ 31 -> Forall (fun c => c <> 34 /\ c <> 92) path -> path <> js "lines" ->
  Z.of_nat (length path) < MAX_SOURCE_PATH ->
  Forall (fun l => - 2 ^ 31 <= l < 2 ^ 31) lines -> Z.of_nat (length lines) <= MAX_BREAKPOINTS ->
  let msg := set_breakpoints_request sq path lines in
  json_get_int msg (js "seq") 0 = sq /\
  json_get_string msg (js "command") 64 = Some (js "setBreakpoints") /\
  json_get_string msg (js "path") MAX_SOURCE_PATH = Some path /\
  json_get_int_array msg (js "lines") MAX_BREAKPOINTS = Some lines.
Proof.
  intros Hs Hp Hne Hl Hls Hn msg. repeat split.
  - apply find_seq, Hs.
  - apply (find_command sq (js "setBreakpoints") 44); [repeat (constructor; [done|]); constructor|].
    change (Z.of_nat (length (js "setBreakpoints"))) with 14. lia.
  - unfold msg, set_breakpoints_request, json_get_string.
    rewrite (json_find_spec _ (js "path") ([34] ++ path ++ [34; 125] ++ js ",'lines':[" ++ print_lines lines ++ js "]}}")).
    + cbn [mbind option_bind app]. rewrite skip_tabs_head by done. cbn [char0 nth Z.eqb Pos.eqb drop].
      rewrite drop_0, json_chars_plain by (done || (unfold MAX_SOURCE_PATH in *; lia)). done.
    + reflexivity.
    + repeat (constructor; [done|]). constructor.
    + rewrite strstr_misses by reflexivity. change ([34] ++ js "path" ++ [34]) with (34 :: (js "path" ++ [34])).
      rewrite strstr_plain by apply number_plain. reflexivity.
  - unfold msg, set_breakpoints_request, json_get_int_array, json_key. rewrite clip_fits by (cbn; lia).
    rewrite strstr_misses by reflexivity.
    change ([34] ++ js "lines" ++ [34]) with (34 :: (js "lines" ++ [34])).
    rewrite strstr_plain by apply number_plain. rewrite strstr_misses by reflexivity.
    change (34 :: (js "lines" ++ [34])) with ([34] ++ js "lines" ++ [34]).
    rewrite strstr_quoted;
      [|repeat (constructor; [done|]); constructor|eapply Forall_impl; [exact Hp|]; cbn; tauto|congruence|done|done|done].
    change (125 :: js ",'lines':[" ++ print_lines lines ++ js "]}}")
      with ([125; 44] ++ ([34] ++ js "lines" ++ [34]) ++ [58; 91] ++ print_lines lines ++ js "]}}").
    rewrite strstr_misses by reflexivity. rewrite strstr_here. cbn [mbind option_bind].
    change (([34] ++ js "lines" ++ [34]) ++ [58; 91] ++ print_lines lines ++ js "]}}")
      with ((([34] ++ js "lines" ++ [34]) ++ [58]) ++ 91 :: (print_lines lines ++ 93 :: js "}}")).
    rewrite strchr_skip by (vm_compute; intuition discriminate). cbn [drop]. rewrite drop_0.
    apply int_items_lines; [|done|done]. cbn [length]. rewrite length_app. cbn [length].
    enough (length lines <= length (print_lines lines))%nat by lia.
    clear. destruct lines as [|l lines]; [done|]. cbn [print_lines length]. rewrite length_app.
    destruct (print_int_first l) as (? & ? & ->). cbn [length].
    enough (length lines <= length (print_tail lines))%nat by lia.
    induction lines as [|a lines IH]; [done|]. cbn. rewrite length_app. unfold print_tail in IH. lia.
Qed.

(** ** The wire *)

Lemma read_header_line s : forall room acc rest,
  Forall (fun c => c <> 10) s -> Forall (fun c => c <> 10) acc -> Z.of_nat (length s) + 4 <= room ->
  read_header room acc (s ++ crlf2 ++ rest) = Some (rev acc ++ s ++ crlf2, rest).
Proof.
  induction s as [|c s IH]; intros room acc rest Hs Ha Hr.
  - change (crlf2 ++ rest) with (13 :: 10 :: 13 :: 10 :: rest). cbn [app length] in *. cbn [read_header].
    change (rev crlf2) with [10; 13; 10; 13].
    do 4 rewrite (proj2 (Z.leb_gt _ 0)) by lia.
    assert (starts [10; 13; 10; 13] (10 :: 13 :: acc) = false) as E.
    { destruct acc as [|a acc]; [done|]. inversion_clear Ha. cbn [starts].
      by rewrite (proj2 (Z.eqb_neq 10 a)), !andb_false_r by auto. }
    change (starts [10; 13; 10; 13] (13 :: acc)) with false.
    change (starts [10; 13; 10; 13] (13 :: 10 :: 13 :: acc)) with false.
    change (starts [10; 13; 10; 13] (10 :: 13 :: 10 :: 13 :: acc)) with true. rewrite E.
    cbn [rev app]. by rewrite <-!app_assoc.
  - inversion_clear Hs. cbn [length app read_header] in *. rewrite (proj2 (Z.leb_gt _ 0)) by lia.
    change (rev crlf2) with [10; 13; 10; 13]. cbn [starts].
    rewrite (proj2 (Z.eqb_neq 10 c)) by auto. cbn [andb].
    rewrite IH by (try done; try (by constructor); lia). cbn [rev]. by rewrite <-app_assoc.
Qed.

(** A message that fits the reader's buffer. *)
Definition sendable (m : list Z) : Prop := cstring m /\ m <> [] /\ Z.of_nat (length m) < MAX_MSG.

Lemma read_msg_wire m rest : sendable m -> read_msg (wire m ++ rest) = Some (m, rest).
Proof.
  intros (Hc & Hn & Hl). unfold wire.
  assert (dec (Z.of_nat (length m)) = print_int (Z.of_nat (length m))) as ->
    by (unfold print_int; by rewrite (proj2 (Z.ltb_ge _ 0)) by lia).
  pose proof (length_print_int (Z.of_nat (length m))) as Hd.
  rewrite clip_fits.
  2: { rewrite !length_app. change (length (cstr "Content-Length: ")) with 16%nat. change (length crlf2) with 4%nat. lia. }
  rewrite !app_assoc, <-(app_assoc _ m), <-(app_assoc _ crlf2). unfold read_msg. rewrite read_header_line.
  - change (rev []) with (@nil Z). cbn [app mbind option_bind]. rewrite c_string_id.
    2: { unfold cstring. rewrite !Forall_app. repeat split;
         [repeat (constructor; [done|]); constructor| |repeat (constructor; [done|]); constructor].
         eapply Forall_impl; [apply print_int_chars|]. unfold number_char. lia. }
    change (cstr "Content-Length: ") with (cstr "Content-Length:" ++ [32]).
    rewrite <-!app_assoc, strstr_here. cbn [mbind option_bind].
    change (drop 15 (cstr "Content-Length:" ++ [32] ++ print_int (Z.of_nat (length m)) ++ crlf2))
      with (32 :: print_int (Z.of_nat (length m)) ++ crlf2).
    change (atoi (32 :: print_int (Z.of_nat (length m)) ++ crlf2))
      with (atoi (print_int (Z.of_nat (length m)) ++ crlf2)).
    unfold MAX_MSG in *. change (1 ≪ 20) with 1048576 in *. rewrite atoi_print_int by (try (cbn; lia); lia).
    rewrite (proj2 (Z.ltb_ge _ 0)), (proj2 (Z.ltb_ge 1048576 _)) by lia. cbn [orb].
    rewrite (proj2 (Z.ltb_ge _ _)) by (rewrite length_app; lia).
    by rewrite Nat2Z.id, take_app_length, drop_app_length.
  - apply Forall_app. split; [repeat (constructor; [done|]); constructor|].
    eapply Forall_impl; [apply print_int_chars|]. unfold number_char. lia.
  - constructor.
  - rewrite length_app. change (length (cstr "Content-Length: ")) with 16%nat.
    unfold MAX_MSG. change (1 ≪ 20) with 1048576. lia.
Qed.

Section session.
Context {L : Type} (lua_stack : L -> list activation)
  (made : list Z -> bool) (chunk : list Z -> chunk_run (L := L)).

Abbreviation dispatch := (dispatch lua_stack made chunk).

(** The requests one behind the other, up to one that blocks the server. *)
Fixpoint dispatch_all (msgs : list (list Z)) (w : world (L := L)) : option world :=
  match msgs with
  | [] => Some w
  | m :: msgs => w ← dispatch m w; if blocked w then Some w else dispatch_all msgs w
  end.

End session.

(** ** The lines of a request *)

Lemma skip_separators_le p : (length (skip_separators p) <= length p)%nat /\
  (forall c q, skip_separators p = c :: q -> c <> 44).
Proof.
  induction p as [|c p [IH1 IH2]]; [done|]. cbn [skip_separators].
  destruct (Z.eqb_spec c 32), (Z.eqb_spec c 44), (Z.eqb_spec c 9), (Z.eqb_spec c 10); cbn [orb length];
    split; try lia; try done; intros d q [= <- _]; done.
Qed.

Lemma skip_item_le p : (length (skip_item p) <= length p)%nat.
Proof. induction p as [|c p IH]; [done|]. cbn [skip_item]. destruct (_ || _); cbn [length]; lia. Qed.

(** The loop ends, with at most [max] numbers. *)
Lemma int_items_ends fuel p max : (length p < fuel)%nat ->
  exists ls, int_items fuel p max = Some ls /\ Z.of_nat (length ls) <= Z.max 0 max.
Proof.
  revert p max. induction fuel as [|fuel IH]; intros p max Hf; [lia|]. cbn [int_items].
  destruct p as [|c p]; [by exists []; split; [|cbn; lia]|].
  destruct (Z.leb_spec max 0); rewrite ?orb_true_r, ?orb_false_r; [by exists []; split; [|cbn; lia]|].
  destruct (Z.eqb_spec c 93); [by exists []; split; [|cbn; lia]|].
  destruct (skip_separators_le (c :: p)) as [Hl Hs].
  destruct (skip_separators (c :: p)) as [|d q] eqn:E.
  - cbn [char0 nth Z.eqb skip_item]. destruct (IH [] (max - 1)) as (ls & -> & Hn); [cbn in *; lia|].
    eexists. split; [reflexivity|]. cbn [length]. lia.
  - cbn [char0 nth]. destruct (Z.eqb_spec d 93); [by exists []; split; [|cbn; lia]|].
    cbn [skip_item]. rewrite (proj2 (Z.eqb_neq d 44)), (proj2 (Z.eqb_neq d 93)) by eauto. cbn [orb].
    pose proof (skip_item_le q). cbn [length] in *. destruct (IH (skip_item q) (max - 1)) as (ls & -> & Hn); [lia|].
    eexists. split; [reflexivity|]. cbn [length]. lia.
Qed.

Lemma json_get_int_array_ends msg key :
  exists ls, json_get_int_array msg key MAX_BREAKPOINTS = Some ls /\ Z.of_nat (length ls) <= MAX_BREAKPOINTS.
Proof.
  unfold json_get_int_array.
  destruct (p ← strstr_rest (json_key key) msg; strchr_rest p 91) as [p|]; [|by exists []].
  destruct (int_items_ends (S (length p)) (drop 1 p) MAX_BREAKPOINTS) as (ls & -> & H).
  { rewrite length_drop. lia. }
  exists ls. split; [done|]. unfold MAX_BREAKPOINTS in *. lia.
Qed.

(** ** The breakpoint table *)

Fixpoint new_breakpoints (source lines : list Z) (next : Z) : list dap_breakpoint_t :=
  match lines with
  | [] => []
  | l :: lines =>
      let next := i32 (next + 1) in
      Breakpoint (clip MAX_SOURCE_PATH source) l (verify_breakpoint source l) next :: new_breakpoints source lines next
  end.

Lemma add_breakpoints_spec source lines : forall bs next,
  Z.of_nat (length bs) <= MAX_BREAKPOINTS ->
  fst (add_breakpoints source lines bs next) =
    bs ++ take (256 - length bs) (new_breakpoints source lines next).
Proof.
  induction lines as [|l lines IH]; intros bs next Hb; cbn [add_breakpoints new_breakpoints fst].
  { by rewrite take_nil, app_nil_r. }
  unfold MAX_BREAKPOINTS in *. destruct (Z.ltb_spec (Z.of_nat (length bs)) 256).
  - rewrite IH by (rewrite length_app; cbn; lia). rewrite <-app_assoc, length_app. cbn [length].
    replace (256 - length bs)%nat with (S (256 - (length bs + 1)))%nat by lia. done.
  - cbn [fst]. replace (256 - length bs)%nat with 0%nat by lia. by rewrite take_0, app_nil_r.
Qed.

Lemma length_new_breakpoints source lines next : length (new_breakpoints source lines next) = length lines.
Proof. revert next. induction lines as [|l lines IH]; intros next; [done|]. cbn. by rewrite IH. Qed.

(** The objects of the answer, separated by commas. *)
Fixpoint items_text (bs : list dap_breakpoint_t) (source : list Z) (first : bool) (lines : list Z) : list Z :=
  match lines with
  | [] => []
  | l :: lines => ((if first then [] else js ",") ++ breakpoint_text bs source l) ++ items_text bs source false lines
  end.

Lemma length_breakpoint_text bs source l : (length (breakpoint_text bs source l) <= 80)%nat.
Proof.
  unfold breakpoint_text.
  assert (forall i v l, length (js "{'id':" ++ print_int i ++ js ",'verified':" ++
    (if v : bool then js "true" else js "false") ++ js ",'line':" ++ print_int l ++ js "}") <= 80)%nat as H.
  { intros i v l'. rewrite !length_app. pose proof (length_print_int i). pose proof (length_print_int l').
    change (length (js "{'id':")) with 6%nat. change (length (js ",'verified':")) with 12%nat.
    change (length (js ",'line':")) with 8%nat. change (length (js "}")) with 1%nat.
    assert (length (if v then js "true" else js "false") <= 5)%nat by (destruct v; vm_compute; lia). lia. }
  destruct (List.find _ bs) as [b|]; [apply H|exact (H 0 false l)].
Qed.

Lemma breakpoint_items_spec bs source lines : forall first buf,
  Z.of_nat (length buf) + 81 * Z.of_nat (length lines) < MAX_MSG ->
  breakpoint_items bs source first lines (buf, Z.of_nat (length buf)) =
    Some (buf ++ items_text bs source first lines, Z.of_nat (length (buf ++ items_text bs source first lines))).
Proof.
  induction lines as [|l lines IH]; intros first buf Hl; cbn [breakpoint_items items_text].
  { by rewrite app_nil_r. }
  assert (length ((if first then [] else js ",") ++ breakpoint_text bs source l) <= 81)%nat as Hi.
  { rewrite length_app. pose proof (length_breakpoint_text bs source l).
    assert (length (if first then [] else js ",") <= 1)%nat by (destruct first; vm_compute; lia). lia. }
  cbn [length] in Hl. rewrite snprintf_at_fits by lia. cbn [mbind option_bind].
  rewrite IH by (rewrite length_app; lia). by rewrite <-!app_assoc.
Qed.

Lemma length_items_text bs source lines : forall first,
  Z.of_nat (length (items_text bs source first lines)) <= 81 * Z.of_nat (length lines).
Proof.
  induction lines as [|l lines IH]; intros first; cbn [items_text length]; [lia|].
  rewrite !length_app. pose proof (length_breakpoint_text bs source l). specialize (IH false).
  assert (length (if first then [] else js ",") <= 1)%nat by (destruct first; vm_compute; lia). lia.
Qed.

Definition breakpoints_body (bs : list dap_breakpoint_t) (source lines : list Z) : list Z :=
  js "{'breakpoints':[" ++ items_text bs source true lines ++ js "]}".

Section requests.
Context {L : Type} (lua_stack : L -> list activation)
  (made : list Z -> bool) (chunk : list Z -> chunk_run (L := L)).

Abbreviation world := (world (L := L)).

(** Sending counts, and changes nothing else. *)
Lemma send_response_eq rs cmd ok body (w : world) :
  exists ms, send_response rs cmd ok body w = set_sent ms (set_dap (set_seq (i32 (seq (dap w) + 1)) (dap w)) w).
Proof.
  unfold send_response, send_msg. cbn [next_seq]. case_match; [by eexists|]. exists (sent w). by destruct w.
Qed.

Lemma send_event_eq event body (w : world) :
  exists ms, send_event event body w = set_sent ms (set_dap (set_seq (i32 (seq (dap w) + 1)) (dap w)) w).
Proof.
  unfold send_event, send_msg. cbn [next_seq]. case_match; [by eexists|]. exists (sent w). by destruct w.
Qed.

Lemma send_response_dap rs cmd ok body (w : world) :
  dap (send_response rs cmd ok body w) = set_seq (i32 (seq (dap w) + 1)) (dap w).
Proof. unfold send_response, send_msg. cbn [next_seq]. by case_match. Qed.

Lemma send_event_dap event body (w : world) :
  dap (send_event event body w) = set_seq (i32 (seq (dap w) + 1)) (dap w).
Proof. unfold send_event, send_msg. cbn [next_seq]. by case_match. Qed.

Lemma send_response_rest rs cmd ok body (w : world) :
  hook (send_response rs cmd ok body w) = hook w /\ dangling (send_response rs cmd ok body w) = dangling w.
Proof. unfold send_response, send_msg. cbn [next_seq]. by case_match. Qed.

Lemma send_event_rest event body (w : world) :
  hook (send_event event body w) = hook w /\ dangling (send_event event body w) = dangling w.
Proof. unfold send_event, send_msg. cbn [next_seq]. by case_match. Qed.

(** The whole of the request, for any text. *)
Lemma set_breakpoints_spec sq msg (w : world) path lines :
  default [] (json_get_string msg (js "path") MAX_SOURCE_PATH) = path ->
  json_get_int_array msg (js "lines") MAX_BREAKPOINTS = Some lines ->
  Z.of_nat (length lines) <= MAX_BREAKPOINTS ->
  let kept := List.filter (fun b => negb (same_source path b)) (bps (dap w)) in
  let '(bs, next) := add_breakpoints path lines kept (next_bp_id (dap w)) in
  handle_set_breakpoints sq msg w =
    Some (send_response sq (js "setBreakpoints") true (breakpoints_body bs path lines)
            (set_dap (set_bps bs next (dap w)) w)).
Proof.
  intros Hp Hl Hn kept. destruct (add_breakpoints _ _ _ _) as [bs next] eqn:E.
  unfold handle_set_breakpoints. rewrite Hp, Hl. cbn [mbind option_bind]. unfold kept in E. rewrite E.
  unfold MAX_MSG, MAX_BREAKPOINTS in *. change (1 ≪ 20) with 1048576.
  rewrite (snprintf_at_fits 1048576 []) by (vm_compute; done). cbn [mbind option_bind app].
  rewrite breakpoint_items_spec.
  2: { unfold MAX_MSG. change (1 ≪ 20) with 1048576. change (length (js "{'breakpoints':[")) with 16%nat. lia. }
  cbn [mbind option_bind]. rewrite snprintf_at_fits.
  2: { rewrite length_app. pose proof (length_items_text bs path lines true).
       change (length (js "{'breakpoints':[")) with 16%nat. change (length (js "]}")) with 2%nat. lia. }
  cbn [mbind option_bind]. unfold breakpoints_body. by rewrite <-app_assoc.
Qed.

(** ** What stops the cart *)

(** A line of a source a stop is armed for. *)
Definition armed (w : world) (s : list Z) (ln : Z) : Prop :=
  exists b, In b (bps (dap w)) /\ source b = s /\ line b = ln /\ verified b = true.

Lemma should_break_armed (w : world) l ar :
  fc_dap_should_break w l ar = true <->
  client (dap w) = true /\
  exists s, armed w s (currentline ar) /\ basename_of s = basename_of (strip_at (default [] (ar_source ar))).
Proof.
  unfold fc_dap_should_break. destruct (client (dap w)); cbn [negb]; [|split; [done|by intros [? _]]].
  rewrite existsb_exists. split.
  - intros (b & Hb & [[Hv Hl%Z.eqb_eq]%andb_prop Hs%bool_decide_eq_true]%andb_prop). split; [done|].
    exists (source b). split; [|done]. by exists b.
  - intros [_ (s & (b & Hb & <- & Hl & Hv) & Hs)]. exists b. split; [done|].
    by rewrite Hv, Hl, Z.eqb_refl, (bool_decide_eq_true_2 _ Hs).
Qed.

Lemma in_new_breakpoints source_ lines b : forall next,
  Z.of_nat (length source_) < MAX_SOURCE_PATH ->
  In b (new_breakpoints source_ lines next) -> source b = source_ /\ In (line b) lines /\ verified b = (0 <? line b).
Proof.
  induction lines as [|l lines IH]; intros next Hs; [done|]. cbn [new_breakpoints In].
  rewrite clip_fits by done. intros [<- | H]; [split; [done|split; [by left|done]]|].
  destruct (IH _ Hs H) as (? & ? & ?). repeat split; try done. by right.
Qed.

Lemma new_breakpoints_in source_ lines ln : forall next, In ln lines ->
  exists b, In b (new_breakpoints source_ lines next) /\
    source b = clip MAX_SOURCE_PATH source_ /\ line b = ln /\ verified b = (0 <? ln).
Proof.
  induction lines as [|l lines IH]; intros next; [done|]. intros [-> | H].
  - eexists. split; [by left|]. done.
  - destruct (IH (i32 (next + 1)) H) as (b & Hb & ?). exists b. split; [by right|done].
Qed.

Abbreviation dispatch := (dispatch lua_stack made chunk).

(** C16: A setBreakpoints request replaces the stops of its source and no others.
    After the request a client prints, the lines that stop the cart in the
    request's source are its positive lines, those of every other source are what
    they were, the cart stops on a line exactly if a client is connected and a
    source with the same base name has the line armed, and the answer tells the
    entries of the new table in the order of the request; while there is room in
    the table. *)
Theorem set_breakpoints_refines (w : world) sq path lines :
  - 2 ^ 31 <= sq < 2 ^ 31 -> Forall (fun c => c <> 34 /\ c <> 92) path -> path <> js "lines" ->
  Z.of_nat (length path) < MAX_SOURCE_PATH -> Forall (fun l => - 2 ^ 31 <= l < 2 ^ 31) lines ->
  Z.of_nat (length (List.filter (fun b => negb (same_source path b)) (bps (dap w)))) +
    Z.of_nat (length lines) <= MAX_BREAKPOINTS ->
  exists w', dispatch (set_breakpoints_request sq path lines) w = Some w' /\
    (forall ln, armed w' path ln <-> In ln lines /\ 0 < ln) /\
    (forall s ln, s <> path -> armed w' s ln <-> armed w s ln) /\
    (forall l ar, fc_dap_should_break w' l ar = true <->
       client (dap w) = true /\ exists s, armed w' s (currentline ar) /\
         basename_of s = basename_of (strip_at (default [] (ar_source ar)))) /\
    w' = send_response sq (js "setBreakpoints") true (breakpoints_body (bps (dap w')) path lines)
           (set_dap (set_bps (bps (dap w')) (next_bp_id (dap w')) (dap w)) w).
Proof.
  intros Hs Hp Hne Hl Hls Hr.
  assert (Z.of_nat (length lines) <= MAX_BREAKPOINTS) as Hn by lia.
  destruct (request_fields sq path lines Hs Hp Hne Hl Hls Hn) as (F1 & F2 & F3 & F4).
  pose proof (set_breakpoints_spec sq (set_breakpoints_request sq path lines) w path lines) as H.
  rewrite F3 in H. specialize (H eq_refl F4 Hn). cbv zeta in H.
  pose proof (add_breakpoints_spec path lines
    (List.filter (fun b => negb (same_source path b)) (bps (dap w))) (next_bp_id (dap w)) ltac:(lia)) as Ha.
  destruct (add_breakpoints _ _ _ _) as [bs next]. cbn [fst] in Ha.
  rewrite firstn_all2 in Ha by (rewrite length_new_breakpoints; unfold MAX_BREAKPOINTS in *; lia).
  set (w' := send_response _ _ _ _ _) in H.
  assert (bps (dap w') = bs /\ next_bp_id (dap w') = next /\ client (dap w') = client (dap w)) as (Eb & En & Ec).
  { subst w'. rewrite send_response_dap. repeat split. }
  exists w'. split; [|split; [|split; [|split]]].
  - unfold dispatch. rewrite F1, F2. exact H.
  - intros ln. unfold armed. rewrite Eb, Ha. split.
    + intros (b & [Hb|Hb]%in_app_iff & E & <- & Hv).
      * apply filter_In in Hb as [_ Hb]. by apply negb_true_iff, bool_decide_eq_false in Hb.
      * destruct (in_new_breakpoints _ _ _ _ Hl Hb) as (_ & Hin & E'). rewrite E' in Hv. split; [done|by apply Z.ltb_lt].
    + intros [Hin Hpos]. destruct (new_breakpoints_in path lines ln (next_bp_id (dap w)) Hin) as (b & Hb & E & El & Ev).
      exists b. rewrite in_app_iff, E, clip_fits, Ev by done. split; [by right|]. split; [done|]. split; [done|].
        by apply Z.ltb_lt.
  - intros s ln Hsp. unfold armed. rewrite Eb, Ha. split.
    + intros (b & [Hb|Hb]%in_app_iff & E & Hrest).
      * apply filter_In in Hb as [Hb _]. by exists b.
      * destruct (in_new_breakpoints _ _ _ _ Hl Hb) as (E' & _). congruence.
    + intros (b & Hb & E & Hrest). exists b. split; [|done]. apply in_app_iff. left. apply filter_In. split; [done|].
      unfold same_source. by rewrite bool_decide_eq_false_2 by congruence.
  - intros l ar. rewrite <-Ec. apply should_break_armed.
  - by rewrite Eb, En.
Qed.
End requests.

(** ** Well-formed states *)

Create HintDb dap.

Definition bp_wf (b : dap_breakpoint_t) : Prop :=
  Z.of_nat (length (source b)) < MAX_SOURCE_PATH /\ verified b = (0 <? line b).

Section invariant.
Context {L : Type} (lua_stack : L -> list activation)
  (made : list Z -> bool) (chunk : list Z -> chunk_run (L := L)).

Abbreviation world := (world (L := L)).

(** The table fits its array, every entry its slot; a stack is recorded exactly while
    the server is told of a stop, and the slots of its hook are not overrun; once the
    server is shut down the cart's thread stays outside. *)
Record core (w : world) : Prop := {
  core_room : Z.of_nat (length (bps (dap w))) <= MAX_BREAKPOINTS;
  core_bps : Forall bp_wf (bps (dap w));
  core_paused : paused (dap w) = true <-> paused_L (dap w) <> None;
  core_dangling : dangling w = true -> paused (dap w) = true;
  core_leaked : (leaked w <= LUA_MINSTACK)%nat;
  core_shut : running (dap w) = false -> cart w = Outside;
}.

(** The server is told of a stop exactly while a thread is in the pause loop: the cart's,
    or its own, which nothing but the shutdown then lets go. *)
Record wf (w : world) : Prop := {
  wf_core : core w;
  wf_held : paused (dap w) = true <-> cart w = Held \/ waiting w <> None;
  wf_waiting : waiting w <> None -> continue_pending (dap w) = false;
}.

(** What [core] looks at. *)
Record alike (w w' : world) : Prop := Alike {
  alike_bps : bps (dap w') = bps (dap w);
  alike_paused : paused (dap w') = paused (dap w);
  alike_paused_L : paused_L (dap w') = paused_L (dap w);
  alike_running : running (dap w') = running (dap w);
  alike_dangling : dangling w' = dangling w;
  alike_leaked : leaked w' = leaked w;
  alike_cart : cart w' = cart w;
  alike_waiting : waiting w' = waiting w;
}.

Lemma alike_core w w' : alike w w' -> core w -> core w'.
Proof. intros [E1 E2 E3 E4 E5 E6 E7 E8] []. split; by rewrite ?E1, ?E2, ?E3, ?E4, ?E5, ?E6, ?E7. Qed.

Lemma alike_trans w1 w2 w3 : alike w1 w2 -> alike w2 w3 -> alike w1 w3.
Proof. intros [] []. split; congruence. Qed.

Lemma alike_refl w : alike w w.
Proof. by split. Qed.

Lemma send_response_alike rs cmd ok body w w' : alike w w' -> alike w (send_response rs cmd ok body w').
Proof. intros H. destruct (send_response_eq rs cmd ok body w') as [ms ->]. eapply alike_trans; [exact H|by split]. Qed.

Lemma send_event_alike event body w w' : alike w w' -> alike w (send_event event body w').
Proof. intros H. destruct (send_event_eq event body w') as [ms ->]. eapply alike_trans; [exact H|by split]. Qed.

Lemma release_alike mode w w' : alike w w' -> alike w (release mode w').
Proof. intros H. eapply alike_trans; [exact H|by split]. Qed.

Lemma set_hook_alike c w w' : alike w w' -> alike w (set_hook c w').
Proof. intros H. eapply alike_trans; [exact H|by split]. Qed.

Lemma set_configured_alike w : alike w (set_dap (set_configured (dap w)) w).
Proof. by split. Qed.

Lemma set_loaded_alike path w : alike w (set_dap (set_loaded path (dap w)) w).
Proof. by split. Qed.

Hint Resolve send_response_alike send_event_alike release_alike set_hook_alike set_configured_alike
  set_loaded_alike alike_refl : dap.

(** What a request leads to: a well-formed state in which no thread has moved, or, for a
    reload, one in which the server's own thread has entered the pause loop. *)
Record handled (msg : list Z) (w w' : world) : Prop := Handled {
  handled_core : core w';
  handled_cart : cart w' = cart w;
  handled_running : running (dap w') = running (dap w);
  handled_stop :
    waiting w' = None /\ paused (dap w') = paused (dap w) \/
    waiting w' <> None /\ paused (dap w') = true /\ continue_pending (dap w') = false /\
      json_get_string msg (js "command") 64 = Some (js "hot_reload");
}.

Lemma alike_handled msg w w' : core w -> waiting w = None -> alike w w' -> handled msg w w'.
Proof.
  intros H Hw Ha. pose proof (alike_core w w' Ha H) as H'. destruct Ha. split; [done|done|done|]. left. split; congruence.
Qed.

Lemma handled_wf msg w w' : wf w -> waiting w = None -> handled msg w w' -> wf w'.
Proof.
  intros [Hc Hh _] Hw [H1 H2 H3 H4]. split; [done| |].
  - rewrite H2. destruct H4 as [[E Ep]|(E & Ep & _)]; rewrite Ep; [by rewrite Hh, E, Hw|]. split; [by right|done].
  - destruct H4 as [[E _]|(_ & _ & E & _)]; [by rewrite E|by intros _].
Qed.

Lemma clip_length cap s : 0 < cap -> Z.of_nat (length (clip cap s)) < cap.
Proof. intros H. unfold clip. destruct (Z.ltb_spec (Z.of_nat (length s)) cap); [done|]. rewrite length_take. lia. Qed.

Lemma new_breakpoints_wf source_ lines : forall next, Forall bp_wf (new_breakpoints source_ lines next).
Proof.
  induction lines as [|l lines IH]; intros next; constructor; [|apply IH].
  split; [by apply clip_length|done].
Qed.

(** Every setBreakpoints request is answered, whatever its text. *)
Lemma handle_set_breakpoints_handled sq msg w : core w -> waiting w = None ->
  exists w', handle_set_breakpoints sq msg w = Some w' /\ handled msg w w'.
Proof.
  intros H Hw. destruct (json_get_int_array_ends msg (js "lines")) as (ls & El & Hn).
  pose proof (set_breakpoints_spec sq msg w _ ls eq_refl El Hn) as Hs. cbv zeta in Hs.
  set (path := default [] _) in *. set (kept := List.filter _ _) in *.
  assert (Forall bp_wf kept /\ Z.of_nat (length kept) <= MAX_BREAKPOINTS) as [Hk Hl].
  { destruct H. split; [by apply incl_Forall with (2 := core_bps0), incl_filter|].
    pose proof (filter_length_le (fun b => negb (same_source path b)) (bps (dap w))). unfold kept. lia. }
  pose proof (add_breakpoints_spec path ls kept (next_bp_id (dap w)) Hl) as Ha.
  destruct (add_breakpoints _ _ _ _) as [bs next]. cbn [fst] in Ha. eexists. split; [exact Hs|].
  assert (core (set_dap (set_bps bs next (dap w)) w)) as Hc.
  { destruct H. split; cbn; try done; subst bs.
    - rewrite length_app, length_take. unfold MAX_BREAKPOINTS in *. lia.
    - apply Forall_app. split; [done|]. apply Forall_take, new_breakpoints_wf. }
  destruct (alike_handled msg _ (send_response sq (js "setBreakpoints") true (breakpoints_body bs path ls)
    (set_dap (set_bps bs next (dap w)) w)) Hc Hw) as [? ? ? ?]; [auto with dap|]. by split.
Qed.

(** What an event does: the code goes on in the same state, or it stops. *)
Lemma cart_event_cases clock l e ar w : core w ->
  match cart_event lua_stack clock l e ar w with
  | Goes w' | Breaks _ w' => exists c, w' = set_hook c w
  | Halts w' =>
      core w' /\ cart w' = cart w /\ waiting w' = waiting w /\ running (dap w') = running (dap w) /\
      paused (dap w') = true /\ continue_pending (dap w') = false /\ closed w' = closed w
  | Starves => True
  end.
Proof.
  intros H. unfold cart_event. destruct (fc_consolelua_master_hook _ _ _ _ _ _ _) as [c k|msg c k|c k|];
    [by eexists|by eexists| |done].
  unfold pause_enter. destruct (send_event_eq (js "stopped") (clip 256 (js "{'reason':'breakpoint','threadId':1,'allThreadsStopped':true}"))
    (set_stack false 0 (set_dap (set_stop (Some l) true false (dap (set_hook c w))) (set_hook c w)))) as [ms ->].
  cbn. split; [|done]. destruct H. split; cbn; try done. lia.
Qed.

Lemma set_hook_core c w : core w -> core (set_hook c w).
Proof. apply alike_core. by split. Qed.

(** A chunk that does not stop changes the hook's configuration at most. *)
Lemma run_chunk_cases t : forall w, core w ->
  match run_chunk lua_stack t w with
  | (w', None) => exists c, w' = set_hook c w
  | (w', Some _) =>
      core w' /\ cart w' = cart w /\ waiting w' = waiting w /\ running (dap w') = running (dap w) /\
      paused (dap w') = true /\ continue_pending (dap w') = false
  end.
Proof.
  induction t as [|now l e ar k IH]; intros w H; cbn [run_chunk].
  { exists (hook w). by destruct w. }
  pose proof (cart_event_cases [now] l e ar w H) as He.
  destruct (cart_event lua_stack [now] l e ar w) as [w1|msg w1|w1|].
  - destruct He as [c ->]. specialize (IH false _ (set_hook_core c w H)). destruct (run_chunk _ _ _) as [w2 [r|]]; [done|].
    destruct IH as [c' ->]. by eexists.
  - destruct He as [c ->]. specialize (IH true _ (set_hook_core c w H)). destruct (run_chunk _ _ _) as [w2 [r|]]; [done|].
    destruct IH as [c' ->]. by eexists.
  - by destruct He as (? & ? & ? & ? & ? & ? & _).
  - by apply IH.
Qed.

(** The end of a reload: the answer, or the server's thread in the pause loop. *)
Lemma after_reload_cases sq src t w : core w -> waiting w = None ->
  let w' := after_reload sq src (run_chunk lua_stack t w) in
  core w' /\ cart w' = cart w /\ running (dap w') = running (dap w) /\
  (waiting w' = None /\ paused (dap w') = paused (dap w) \/
   waiting w' <> None /\ paused (dap w') = true /\ continue_pending (dap w') = false).
Proof.
  intros H Hw. pose proof (run_chunk_cases t w H) as Hr. cbv zeta.
  destruct (run_chunk lua_stack t w) as [w1 [r|]]; cbn [after_reload].
  - destruct Hr as (Hc & E1 & E2 & E3 & Hp & Hn). split; [|by repeat split; try done; right].
    destruct Hc. by split.
  - destruct Hr as [c ->]. unfold fc_dap_emit_loaded_source.
    match goal with |- core ?x /\ _ => assert (alike w x) as Ha end.
    { apply send_event_alike, send_response_alike. eapply alike_trans; [apply (set_hook_alike c w w), alike_refl|].
      apply set_loaded_alike. }
    split; [by apply (alike_core w)|]. destruct Ha. split; [done|]. split; [done|]. left. split; congruence.
Qed.

Lemma close_state_core w : core w -> core (close_state w).
Proof.
  intros []. split; cbn; try done. destruct (paused_L (dap w)) eqn:E; [|done]. intros _. by apply core_paused0.
Qed.

Lemma handle_hot_reload_handled sq msg w :
  json_get_string msg (js "command") 64 = Some (js "hot_reload") -> core w -> waiting w = None ->
  handled msg w (handle_hot_reload lua_stack made chunk sq msg w).
Proof.
  intros Hm H Hw. unfold handle_hot_reload.
  destruct (json_get_string msg (js "source") _) as [src|]; [|apply alike_handled; auto with dap].
  destruct (json_get_string msg (js "bytecodeHex") _) as [hex|]; [|apply alike_handled; auto with dap].
  destruct (decode_hex hex) as [code|]; [|apply alike_handled; auto with dap].
  assert (exists t c, fc_consolelua_synthetic_reload lua_stack made chunk code w = run_chunk lua_stack t (set_hook c (close_state w)))
    as (t & c & ->).
  { unfold fc_consolelua_synthetic_reload. destruct (made code); [by eexists _, _|]. exists ChunkEnd, (hook (close_state w)).
    by destruct w. }
  destruct (after_reload_cases sq src t (set_hook c (close_state w))) as (H1 & H2 & H3 & H4);
    [by apply set_hook_core, close_state_core|done|].
  split; [done|done|done|]. destruct H4 as [H4|(? & ? & ?)]; [by left|by right].
Qed.

Lemma variables_handled sq msg w w' : core w -> waiting w = None ->
  handle_variables lua_stack sq msg w = Some w' -> handled msg w w'.
Proof.
  intros H Hw. unfold handle_variables. destruct (match paused_L (dap w) with Some _ => _ | None => _ end) as [[l|]|];
    cbn [mbind option_bind]; try done; [|intros [= <-]; apply alike_handled; auto with dap].
  destruct (snprintf_at _ _ _) as [x|]; [|done]. cbn [mbind option_bind].
  destruct (lua_stack l !! _) as [a|].
  - set (vs := visible _ _ _). destruct (negb (length vs =? 0)%nat && negb (leaked w <? LUA_MINSTACK)%nat) eqn:Eg; [done|].
    destruct (variable_items _ _ _ _) as [y|]; [|done]. cbn [mbind option_bind].
    destruct (snprintf_at _ _ _) as [[b o]|]; [|done]. cbn [mbind option_bind]. intros [= <-].
    destruct (Nat.ltb_spec MAX_VARS (length vs)) as [Hv|]; [|apply alike_handled; auto with dap].
    assert (core (set_stack (dangling w) (S (leaked w)) w)) as Hc.
    { destruct H. split; cbn; try done. apply andb_false_iff in Eg as [Eg|Eg]; apply negb_false_iff in Eg.
      - apply Nat.eqb_eq in Eg. unfold MAX_VARS in Hv. lia.
      - apply Nat.ltb_lt in Eg. lia. }
    destruct (alike_handled msg _ (send_response sq (js "variables") true b (set_stack (dangling w) (S (leaked w)) w)) Hc Hw)
      as [? ? ? ?]; [auto with dap|]. by split.
  - cbn [mbind option_bind]. destruct (snprintf_at _ _ _) as [[b o]|]; [|done]. cbn [mbind option_bind]. intros [= <-].
    apply alike_handled; auto with dap.
Qed.

Lemma dispatch_handled msg w w' : core w -> waiting w = None ->
  dispatch lua_stack made chunk msg w = Some w' -> handled msg w w'.
Proof.
  intros H Hw. unfold dispatch. destruct (json_get_string msg _ 64) as [cmd|] eqn:Ec;
    [|intros [= <-]; apply alike_handled; auto with dap].
  repeat match goal with |- context [if ?b then _ else _] => destruct b eqn:?; try (intros [= <-]) end.
  all: try (apply alike_handled; [done|done|]; unfold handle_initialize, handle_launch, handle_configuration_done,
    handle_threads, handle_scopes, handle_continue, handle_pause, handle_disconnect; by auto 6 with dap).
  - destruct (handle_set_breakpoints_handled (json_get_int msg (js "seq") 0) msg w H Hw) as (w1 & -> & Hh). by intros [= <-].
  - unfold handle_stack_trace. destruct (paused_state w) as [[l|]|]; cbn [mbind option_bind]; try done.
    + destruct (snprintf_at _ _ _) as [x|]; [|done]. cbn [mbind option_bind].
      destruct (frame_items _ _ _ _) as [[n y]|]; [|done]. cbn [mbind option_bind].
      destruct (snprintf_at _ _ _) as [[b o]|]; [|done]. cbn [mbind option_bind]. intros [= <-]. apply alike_handled; auto with dap.
    + intros [= <-]. apply alike_handled; auto with dap.
  - by apply variables_handled.
  - unfold handle_step. destruct (paused_state w) as [l|]; [|done]. intros [= <-]. apply alike_handled; auto with dap.
  - unfold handle_step. destruct (paused_state w) as [l|]; [|done]. intros [= <-]. apply alike_handled; auto with dap.
  - unfold handle_step. destruct (paused_state w) as [l|]; [|done]. intros [= <-]. apply alike_handled; auto with dap.
  - apply handle_hot_reload_handled; [|done|done]. rewrite Ec. f_equal.
    match goal with E : bool_decide (cmd = js "hot_reload") = true |- _ => by apply bool_decide_eq_true in E end.
Qed.

(** The end of a wait. *)
Lemma pause_poll_cases w w' : core w -> pause_poll w = Some w' ->
  core w' /\ cart w' = cart w /\ waiting w' = waiting w /\ running (dap w') = running (dap w) /\
  paused (dap w') = false /\ (running (dap w) = false \/ continue_pending (dap w) = true).
Proof.
  intros H. unfold pause_poll. destruct (negb (running (dap w)) || continue_pending (dap w)) eqn:E; [|done].
  destruct (send_event_eq (js "continued") (js "{'threadId':1,'allThreadsContinued':true}")
    (set_stack false 0 (set_dap (set_stop None false false (dap w)) w))) as [ms ->]. intros [= <-]. cbn.
  apply orb_prop in E as [E|E]; [apply negb_true_iff in E|];
    (split; [destruct H; split; cbn; try done; lia|]); repeat split; try done; [by left|by right].
Qed.

(** A server's thread in the pause loop stays there while the server runs. *)
Lemma waiting_stuck w : wf w -> waiting w <> None -> running (dap w) = true -> pause_poll w = None.
Proof. intros [_ _ Hw] H Hr. unfold pause_poll. by rewrite Hr, Hw. Qed.

Lemma step_wf w w' : wf w -> step lua_stack made chunk w w' -> wf w'.
Proof.
  intros H Hs. pose proof H as [Hc Hh Hw].
  destruct Hs as [b w Hn|msg w w' Hn Hr E|w Ho Hr|clock c clock' w Ho Hr E|clock l e ar w w' Hi Hcl E
                 |clock l e ar w w' Hi Hcl E|w w' Hi E|w Hi Hcl|w Ho|sq src rest w w' Hn E].
  - split; [destruct Hc; by split|done|done].
  - eapply handled_wf; [done|done|]. by apply dispatch_handled.
  - split; [|cbn; rewrite Hh, Ho; intuition done|done]. destruct Hc. split; cbn; try done. congruence.
  - split; [|cbn; rewrite Hh, Ho; intuition done|done]. destruct Hc. split; cbn; try done. congruence.
  - pose proof (cart_event_cases clock l e ar w Hc) as He.
    assert (exists c, w' = set_hook c w) as [c ->] by (destruct E as [E|[msg E]]; by rewrite E in He).
    split; [by apply set_hook_core|done|done].
  - pose proof (cart_event_cases clock l e ar w Hc) as He. rewrite E in He. destruct He as (Hc' & E1 & E2 & E3 & Hp & Hcp & _).
    split; [|cbn; split; [by left|done]|done]. destruct Hc'. split; cbn; try done.
    intros Hr. rewrite E3 in Hr. apply (core_shut _ Hc) in Hr. congruence.
  - destruct (pause_poll_cases w w' Hc E) as (Hc' & E1 & E2 & E3 & Hp & Ho).
    assert (running (dap w) = true) as Hr by (destruct (running (dap w)) eqn:Er; [done|]; apply (core_shut _ Hc) in Er; congruence).
    assert (waiting w = None) as Hn.
    { destruct (waiting w) eqn:En; [|done]. destruct Ho as [Ho|Ho]; [congruence|]. by rewrite Hw in Ho. }
    split; [|cbn; rewrite Hp, E2, Hn; intuition done|cbn; by rewrite E2, Hn].
    destruct Hc'. split; cbn; try done. congruence.
  - split; [|cbn; rewrite Hh, Hi; intuition done|done]. destruct Hc. split; cbn; try done.
  - split; [|done|done]. destruct Hc. by split.
  - destruct (pause_poll_cases w w' Hc E) as (Hc' & E1 & E2 & E3 & Hp & Ho).
    assert (running (dap w) = false) as Hr by (destruct Ho as [Ho|Ho]; [done|]; rewrite Hw in Ho by congruence; done).
    destruct (after_reload_cases sq src rest (set_waiting None w')) as (H1 & H2 & H3 & H4);
      [destruct Hc'; by split|done|].
    split; [done| |destruct H4 as [[E4 _]|(_ & _ & E4)]; [by rewrite E4|by intros _]].
    rewrite H2. cbn [set_waiting cart]. rewrite E1, (core_shut _ Hc Hr).
    destruct H4 as [[E4 E5]|(E4 & E5 & _)]; rewrite E5; [cbn; rewrite Hp, E4; intuition done|]. split; [by right|done].
Qed.

(** ** Every request is defined *)

(** The names of a stack are shorter than the room the answers have for 64 frames
    or variables. *)
Definition text_of (o : option (list Z)) : Z := Z.of_nat (length (default [] o)).

Definition short_activation (a : activation) : Prop :=
  (text_of (ar_name a) <= 8000 /\ text_of (ar_what a) <= 8000 /\ text_of (ar_source a) <= 8000) /\
  Forall (fun '(vn, v) => Z.of_nat (length vn) <= 8000 /\ Z.of_nat (length (typename v)) <= 8000) (locals a).



Lemma length_variable_text first vn v :
  Z.of_nat (length vn) <= 8000 -> Z.of_nat (length (typename v)) <= 8000 ->
  Z.of_nat (length (variable_text first vn v)) <= 16350.
Proof.
  intros Hn Ht. unfold variable_text. rewrite !length_app, length_map.
  assert (length (if first then [] else js ",") <= 1)%nat by (destruct first; vm_compute; lia).
  pose proof (clip_length 256 (default (typename v) (tostring v)) ltac:(lia)).
  change (length (js "{'name':'")) with 9%nat. change (length (js "','value':'")) with 11%nat.
  change (length (js "','type':'")) with 10%nat. change (length (js "','variablesReference':0}")) with 25%nat. lia.
Qed.

Lemma variable_items_defined rounds : forall first vs buf,
  Forall (fun '(vn, v) => Z.of_nat (length vn) <= 8000 /\ Z.of_nat (length (typename v)) <= 8000) vs ->
  Z.of_nat (length buf) + 16350 * Z.of_nat rounds < MAX_MSG - 100 ->
  exists buf', variable_items rounds first vs (buf, Z.of_nat (length buf)) = Some (buf', Z.of_nat (length buf')) /\
    Z.of_nat (length buf') < MAX_MSG - 100.
Proof.
  induction rounds as [|rounds IH]; intros first vs buf Hv Hb; cbn [variable_items].
  { exists buf. split; [done|lia]. }
  destruct Hv as [|[vn v] vs [Hn Ht] Hv]; [exists buf; split; [done|lia]|].
  destruct (char0 vn =? 40); [apply IH; [done|lia]|].
  pose proof (length_variable_text first vn v Hn Ht). rewrite snprintf_at_fits by lia. cbn [mbind option_bind].
  apply IH; [done|]. rewrite length_app. lia.
Qed.
End invariant.

(** ** Server and cart *)

Section together.
Context {L : Type} (lua_stack : L -> list activation)
  (made : list Z -> bool) (chunk : list Z -> chunk_run (L := L)).

Abbreviation world := (world (L := L)).
Abbreviation dispatch := (dispatch lua_stack made chunk).

(** The state at the start of the program. *)
Definition initial (c : hook_config_t) : world :=
  World (Dap false true false 0 [] 0 None false false false []) c [] false 0 Outside false None.

Lemma initial_wf c : wf (initial c).
Proof. split; [split; cbn; try done; lia|cbn; intuition done|done]. Qed.






Lemma reachable_wf c w : rtc (step lua_stack made chunk) (initial c) w -> wf w.
Proof.
  generalize (initial_wf c). generalize (initial c). intros w0 H0 Hr.
  induction Hr as [|w1 w2 w3 Hs _ IH]; [done|]. by apply IH, (step_wf lua_stack made chunk w1).
Qed.


Lemma serve_all msgs : forall fuel (w : world),
  core w -> waiting w = None -> running (dap w) = true -> Forall sendable msgs -> (length (concat (map wire msgs)) < fuel)%nat ->
  serve lua_stack made chunk fuel (concat (map wire msgs)) w = dispatch_all lua_stack made chunk msgs w.
Proof.
  induction msgs as [|m msgs IH]; intros [|fuel] w Hc Hn Hw Hm Hf; try (cbn in Hf; lia);
    cbn [serve]; rewrite Hw; cbn [negb].
  - reflexivity.
  - inversion_clear Hm. cbn [map concat dispatch_all]. rewrite read_msg_wire by done.
    rewrite (proj2 (Nat.eqb_neq (length m) 0)) by (by destruct m; [destruct H as (_ & ? & _)|]).
    rewrite c_string_id by apply H. destruct (dispatch m w) as [w'|] eqn:E; [|done]. cbn [mbind option_bind].
    destruct (dispatch_handled lua_stack made chunk m w w' Hc Hn E) as [Hc' _ Hr' _].
    unfold blocked. destruct (waiting w') eqn:En; [done|].
    apply IH; [done|done|by rewrite Hr'|done|]. cbn [map concat] in Hf. rewrite length_app in Hf.
    enough (0 < length (wire m))%nat by lia. unfold wire. rewrite length_app.
    destruct m; [by destruct H as (_ & ? & _)|cbn [length]; lia].
Qed.

(** A connection handles every request, in order.  Whatever messages a client
    frames the way the server frames its own, the connection is the requests
    dispatched one behind the other, up to one that blocks the server, between the client's
    coming and going; the reader takes exactly one message off the input at a time,
    whatever follows. *)
Theorem dap_session msgs (w : world) :
  wf w -> waiting w = None -> running (dap w) = true -> Forall sendable msgs ->
  dap_connection lua_stack made chunk (concat (map wire msgs)) w =
    (w ← dispatch_all lua_stack made chunk msgs (set_dap (set_client true (dap w)) w);
     Some (if blocked w then w else set_dap (set_client false (dap w)) w)) /\
  forall m rest, In m msgs -> read_msg (wire m ++ rest) = Some (m, rest).
Proof.
  intros Hw Hn Hr H. split.
  - unfold dap_connection. assert (core (set_dap (set_client true (dap w)) w)) as Hc by (destruct Hw as [[] _ _]; by split).
    by rewrite serve_all by (done || lia).
  - intros m rest Hm. by apply read_msg_wire, (proj1 (List.Forall_forall _ _) H).
Qed.

(** ** Stepping *)

Lemma simple_dispatch sq cmd (w : world) :
  - 2 ^ 31 <= sq < 2 ^ 31 -> Forall (fun c => c <> 34 /\ c <> 92) cmd -> Z.of_nat (length cmd) <= 63 ->
  json_get_int (simple_request sq cmd) (js "seq") 0 = sq /\
  json_get_string (simple_request sq cmd) (js "command") 64 = Some cmd.
Proof.
  intros Hs Hc Hl. split; [by apply find_seq|].
  pose proof (find_command sq cmd 125 [] Hc Hl) as H. by rewrite app_nil_r in H.
Qed.

Definition is_step (m : dap_step_mode_t) : Prop := m = DAP_STEP_OVER \/ m = DAP_STEP_IN \/ m = DAP_STEP_OUT.

Lemma dispatch_step sq mode (w : world) :
  - 2 ^ 31 <= sq < 2 ^ 31 -> is_step mode ->
  dispatch (simple_request sq (step_command mode)) w = handle_step lua_stack sq mode w.
Proof.
  intros Hs Hm. destruct (simple_dispatch sq (step_command mode) w Hs) as [E1 E2].
  - destruct Hm as [-> | [-> | ->]]; vm_compute; repeat (constructor; [done|]); constructor.
  - destruct Hm as [-> | [-> | ->]]; vm_compute; done.
  - unfold dispatch. rewrite E1, E2. destruct Hm as [-> | [-> | ->]]; reflexivity.
Qed.

(** Hook events one behind the other, each with the clock's readings, as long as the code
    goes on. *)
Definition an_event : Type := list Z * L * hook_event * activation.

Fixpoint run (evs : list an_event) (w : world) : outcome (L := L) :=
  match evs with
  | [] => Goes w
  | (clock, l, e, ar) :: evs =>
      match cart_event lua_stack clock l e ar w with Goes w => run evs w | r => r end
  end.

(** The reading of a count event is within the budget. *)
Definition in_budget (c : hook_config_t) (clock : list Z) (e : hook_event) : Prop :=
  e = LUA_HOOKCOUNT -> budget_enabled c = true ->
  exists now rest, clock = now :: rest /\ u64 (now - budget_tic_start_ns c) <= budget_ns c.

Lemma cart_event_in_budget clock l e ar (w : world) :
  dap_enabled (hook w) = true -> throttle_enabled (hook w) = false -> in_budget (hook w) clock e ->
  exists clock', fc_consolelua_master_hook lua_stack (dap_hooks w) (hook w) clock l e ar =
    let '(c, pause) := dap_dispatch lua_stack (dap_hooks w) (hook w) l e ar in
    if pause then Pausing c clock' else Returned c clock'.
Proof.
  intros Hd Ht Hb. unfold fc_consolelua_master_hook.
  destruct (budget_enabled (hook w) && bool_decide (e = LUA_HOOKCOUNT)) eqn:Eb.
  - apply andb_prop in Eb as [Eb He%bool_decide_eq_true]. destruct (Hb He Eb) as (now & rest & -> & Hl).
    unfold budget_check. rewrite (proj2 (Z.ltb_ge _ _)) by done. cbv zeta. rewrite Ht. cbn [andb]. rewrite Hd. by exists rest.
  - cbv zeta. rewrite Ht. cbn [andb]. rewrite Hd. by exists clock.
Qed.

Lemma cart_event_quiet clock l e ar (w : world) :
  dap_enabled (hook w) = true -> throttle_enabled (hook w) = false -> in_budget (hook w) clock e ->
  stops lua_stack (dap_hooks w) (hook w) l e ar = false -> cart_event lua_stack clock l e ar w = Goes w.
Proof.
  intros Hd Ht Hb Hs. unfold cart_event. destruct (cart_event_in_budget clock l e ar w Hd Ht Hb) as [clock' ->].
  destruct (dap_dispatch_spec lua_stack (dap_hooks w) (hook w) l e ar Hd eq_refl) as [E1 E2].
  destruct (dap_dispatch _ _ _ _ _ _) as [c p]. cbn [fst snd] in *. rewrite E1, Hs, E2 by done. by destruct w.
Qed.

Lemma cart_event_stops clock l e ar (w : world) :
  dap_enabled (hook w) = true -> throttle_enabled (hook w) = false -> in_budget (hook w) clock e ->
  stops lua_stack (dap_hooks w) (hook w) l e ar = true ->
  exists w', cart_event lua_stack clock l e ar w = Halts w' /\ paused_L (dap w') = Some l /\ paused (dap w') = true.
Proof.
  intros Hd Ht Hb Hs. unfold cart_event. destruct (cart_event_in_budget clock l e ar w Hd Ht Hb) as [clock' ->].
  destruct (dap_dispatch_spec lua_stack (dap_hooks w) (hook w) l e ar Hd eq_refl) as [E1 _].
  destruct (dap_dispatch _ _ _ _ _ _) as [c p]. cbn [fst snd] in *. rewrite E1, Hs. eexists. split; [reflexivity|].
  unfold pause_enter. by rewrite send_event_dap.
Qed.

(** A count event read past the budget raises the error, whatever the debugger is about;
    the time a cart was paused counts. *)
Lemma cart_event_late now clock l ar (w : world) :
  budget_enabled (hook w) = true -> budget_ns (hook w) < u64 (now - budget_tic_start_ns (hook w)) ->
  cart_event lua_stack (now :: clock) l LUA_HOOKCOUNT ar w = Breaks (cstr "budget exceeded") w.
Proof.
  intros Hb Hl. unfold cart_event, fc_consolelua_master_hook, budget_check. rewrite Hb, (bool_decide_eq_true_2 _ eq_refl).
  cbn [andb]. rewrite (proj2 (Z.ltb_lt _ _)) by done. by destruct w.
Qed.

Lemma run_quiet evs (w : world) :
  Forall (fun '(clock, l, e, ar) => cart_event lua_stack clock l e ar w = Goes w) evs -> run evs w = Goes w.
Proof. intros H. induction H as [|[[[clock l] e] ar] evs Hq _ IH]; [done|]. cbn [run]. by rewrite Hq. Qed.

(** C17: A step ends where it should, or with the budget.  When a client asks a paused
    cart to step, the throttle being off as the harness configures it, the cart runs on at
    its next poll, passes every event that is not a line and every line that neither ends
    the step nor has a stop armed - a count event only if the clock read for it is within
    the tic's budget - and is paused again on the first line that does: for next a line at
    most as deep as the paused stack, for stepIn any line, for stepOut a line of a
    caller.  The first count event read past the budget raises "budget exceeded" instead;
    the budget counts from the start of the tic, with the time the cart was paused. *)
Theorem step_stops sq mode l0 (w : world) :
  - 2 ^ 31 <= sq < 2 ^ 31 -> is_step mode -> paused_L (dap w) = Some l0 -> dangling w = false ->
  dap_enabled (hook w) = true -> throttle_enabled (hook w) = false ->
  let depth l := Z.of_nat (length (lua_stack l)) in
  exists w1 w2, dispatch (simple_request sq (step_command mode)) w = Some w1 /\ pause_poll w1 = Some w2 /\
    paused (dap w2) = false /\ budget_tic_start_ns (hook w2) = budget_tic_start_ns (hook w) /\
    forall evs,
      Forall (fun '(clock, l', e, ar') => in_budget (hook w) clock e /\
        (is_line e = false \/
         step_over_at mode (depth l0) (depth l') = false /\ fc_dap_should_break w2 l' ar' = false)) evs ->
      run evs w2 = Goes w2 /\
      (forall clock l ar, step_over_at mode (depth l0) (depth l) = true \/ fc_dap_should_break w2 l ar = true ->
       exists w3, run (evs ++ [(clock, l, LUA_HOOKLINE, ar)]) w2 = Halts w3 /\
         paused_L (dap w3) = Some l /\ paused (dap w3) = true) /\
      (forall now clock l ar, budget_enabled (hook w) = true ->
       budget_ns (hook w) < u64 (now - budget_tic_start_ns (hook w)) ->
       run (evs ++ [(now :: clock, l, LUA_HOOKCOUNT, ar)]) w2 = Breaks (cstr "budget exceeded") w2).
Proof.
  intros Hs Hm Hl Hd He Ht depth. rewrite dispatch_step by done. unfold handle_step, paused_state.
  rewrite Hl, Hd. cbn [mbind option_bind]. rewrite dap_call_depth_spec.
  set (w0 := release mode (set_hook (set_step_base (Z.of_nat (length (lua_stack l0))) (hook w)) w)).
  destruct (send_response_eq sq (step_command mode) true (js "{'allThreadsContinued':true}") w0) as [ms ->].
  set (w1 := set_sent ms _).
  destruct (send_event_eq (js "continued") (js "{'threadId':1,'allThreadsContinued':true}")
    (set_stack false 0 (set_dap (set_stop None false false (dap w1)) w1))) as [ms' E2].
  set (w2 := set_sent ms' (set_dap (set_seq (i32 (seq (dap w1) + 1)) (set_stop None false false (dap w1)))
               (set_stack false 0 (set_dap (set_stop None false false (dap w1)) w1)))).
  exists w1, w2. split; [reflexivity|]. split.
  { unfold pause_poll. change (continue_pending (dap w1)) with true. rewrite orb_true_r. f_equal. exact E2. }
  assert (hook w2 = set_pending_pause false (set_step mode (set_step_base (depth l0) (hook w)))) as Eh by reflexivity.
  split; [reflexivity|]. split; [by rewrite Eh|].
  assert (dap_enabled (hook w2) = true /\ throttle_enabled (hook w2) = false) as [He2 Ht2] by (rewrite Eh; by split).
  assert (forall l' e ar', stops lua_stack (dap_hooks w2) (hook w2) l' e ar' =
    is_line e && (step_over_at mode (depth l0) (depth l') || fc_dap_should_break w2 l' ar')) as Est.
  { intros l' e ar'. unfold stops. rewrite Eh. reflexivity. }
  clearbody w2. intros evs Hq. assert (forall evs', run (evs ++ evs') w2 = run evs' w2) as Er.
  { induction Hq as [|[[[clock l'] e] ar'] evs [Hb Hx] _ IH]; intros evs'; [done|]. cbn [app run].
    rewrite cart_event_quiet; [apply IH|done|done|by rewrite Eh|]. rewrite Est.
    destruct Hx as [-> | [-> ->]]; [done|]. by rewrite andb_false_r. }
  split; [rewrite <-(app_nil_r evs), Er; reflexivity|]. split.
  - intros clock l ar Hx. rewrite Er. cbn [run].
    destruct (cart_event_stops clock l LUA_HOOKLINE ar w2) as (w3 & E & Hw3); [done|done|done| |by exists w3; rewrite E].
    rewrite Est. change (is_line LUA_HOOKLINE) with true. destruct Hx as [-> | ->]; [done|]. by rewrite orb_true_r.
  - intros now clock l ar Hb Hl'. rewrite Er. cbn [run]. by rewrite cart_event_late by by rewrite Eh.
Qed.
End together.

(** ** Reloading *)

Lemma hex_char_digit d : 0 <= d < 16 -> hex_char (signed 8 (hex_digit_of d)) = d.
Proof. revert d. apply nibble_cases. repeat (constructor; [reflexivity|]). constructor. Qed.

(** The payload a client prints in lower-case hexadecimal arrives. *)
Lemma decode_hex_encode bs : bytes bs ->
  decode_hex (concat (map (fun b => [hex_digit_of ((b ≫ 4) mod 16); hex_digit_of (b mod 16)]) bs)) = Some bs.
Proof.
  intros Hb. unfold decode_hex.
  assert (forall bs : list Z, Nat.even (length (concat (map (fun b => [hex_digit_of ((b ≫ 4) mod 16); hex_digit_of (b mod 16)]) bs))) = true)
    as -> by (intros l; induction l as [|b l IH]; [done|exact IH]).
  f_equal. induction Hb as [|b bs H _ IH]; [done|]. cbn [map concat app hex_pairs]. rewrite IH.
  pose proof (byte_of_nibbles b H) as E. rewrite land_f, Z.mod_mod in E by lia.
  by rewrite !hex_char_digit, E by (apply Z.mod_pos_bound; lia).
Qed.

(** What is not hexadecimal is decoded all the same. *)
Lemma decode_hex_accepts_any : decode_hex (cstr "zq") = Some [58].
Proof. vm_compute. reflexivity. Qed.

Section findings.
Context {L : Type} (lua_stack : L -> list activation)
  (made : list Z -> bool) (chunk : list Z -> chunk_run (L := L)).

Definition reload_request : list Z :=
  js "{'seq':1,'command':'hot_reload','arguments':{'source':'cart.lua','bytecodeHex':'1b'}}".

Lemma dispatch_reload (w : world) : dispatch lua_stack made chunk reload_request w =
  Some (after_reload 1 (js "cart.lua") (fc_consolelua_synthetic_reload lua_stack made chunk [27] w)).
Proof. reflexivity. Qed.

(** A reload while the cart is paused leaves the server with a closed state: the
    next request for the stack reads it. *)
Lemma reload_while_paused_dangles l0 (w : world) :
  paused_L (dap w) = Some l0 -> chunk [27] = ChunkEnd ->
  exists w', dispatch lua_stack made chunk reload_request w = Some w' /\
    dispatch lua_stack made chunk (js "{'seq':2,'command':'stackTrace'}") w' = None.
Proof.
  intros H Hc. rewrite dispatch_reload. eexists. split; [reflexivity|].
  set (w' := after_reload _ _ _).
  assert (paused_L (dap w') = Some l0 /\ dangling w' = true) as [E1 E2].
  { assert (exists c, fc_consolelua_synthetic_reload lua_stack made chunk [27] w = (set_hook c (close_state w), None)) as [c Er].
    { unfold fc_consolelua_synthetic_reload. rewrite Hc. destruct (made [27]); [by eexists|].
      exists (hook (close_state w)). by destruct w. }
    assert (alike (close_state w) w') as Ha.
    { unfold w'. rewrite Er. apply send_event_alike, send_response_alike.
      eapply alike_trans; [apply (set_hook_alike c), alike_refl|apply set_loaded_alike]. }
    rewrite (alike_paused_L _ _ Ha), (alike_dangling _ _ Ha). cbn. by rewrite H. }
  change (handle_stack_trace lua_stack 2 w' = None).
  unfold handle_stack_trace, paused_state. by rewrite E1, E2.
Qed.

(** A reload whose chunk stops, at an armed line say, leaves the server's only thread in
    the pause loop: no answer, no further request - a continue among them - and, while
    the program runs, no way out. *)
Lemma stopped_reload_never_answers c (w w' : world) :
  rtc (step lua_stack made chunk) (initial c) w -> waiting w <> None -> running (dap w) = true ->
  pause_poll w = None /\
  (step lua_stack made chunk w w' -> running (dap w') = true -> waiting w' = waiting w).
Proof.
  intros Hr Hn Hrun. pose proof (reachable_wf lua_stack made chunk c w Hr) as Hw.
  assert (pause_poll w = None) as Hp by by apply waiting_stuck.
  split; [done|]. intros Hs Hrun'. pose proof (wf_core _ Hw) as Hc.
  destruct Hs as [b w Hn'|msg w w' Hn' _ E|w Ho _|clk c0 clock' w Ho _ E|clk l e ar w w' Hi Hcl E
                 |clk l e ar w w' Hi Hcl E|w w' Hi E|w Hi Hcl|w Ho|sq src rest w w' Hn' E]; try done; try congruence.
  - pose proof (cart_event_cases lua_stack clk l e ar w Hc) as He. by destruct E as [E|[msg E]]; rewrite E in He; destruct He as [c' ->].
  - pose proof (cart_event_cases lua_stack clk l e ar w Hc) as He. rewrite E in He. by destruct He as (_ & _ & ? & _).
Qed.

(** A frame with more than 64 locals: every request for its variables leaves a value on
    the stack, and after twenty of them the next is undefined. *)
Lemma variables_leak l0 a sq msg (w : world) :
  paused_L (dap w) = Some l0 -> dangling w = false -> lua_stack l0 !! 0%nat = Some a -> short_activation a ->
  (MAX_VARS < length (locals a))%nat -> json_get_int msg (js "variablesReference") 0 = 1 ->
  if (leaked w <? LUA_MINSTACK)%nat
  then exists w', handle_variables lua_stack sq msg w = Some w' /\ leaked w' = S (leaked w)
  else handle_variables lua_stack sq msg w = None.
Proof.
  intros Hl Hd Ha Hs Hv Hm. unfold handle_variables, paused_state. rewrite Hm, Hl, Hd. cbn [Z.ltb mbind option_bind].
  change (i32 (1 - 1)) with 0. change (0 <? 0) with false. change (Z.to_nat 0) with 0%nat.
  cbn [mbind option_bind]. rewrite (snprintf_at_fits MAX_MSG []) by (vm_compute; done). cbn [mbind option_bind app].
  rewrite Ha. set (vs := visible 0 (leaked w) a).
  assert (MAX_VARS < length vs)%nat as Hvs by (unfold vs, visible; rewrite length_app; lia).
  rewrite (proj2 (Nat.eqb_neq (length vs) 0)) by (unfold MAX_VARS in Hvs; lia). cbn [negb andb].
  destruct (Nat.ltb_spec (leaked w) LUA_MINSTACK) as [Hk|Hk]; cbn [negb]; [|done].
  destruct (variable_items_defined MAX_VARS true vs (js "{'variables':[")) as (b & -> & Hb); [|vm_compute; done|].
  { unfold vs, visible. apply Forall_app. split; [exact (proj2 Hs)|].
    apply Forall_forall. intros [vn v] Hx%list_elem_of_In%repeat_spec. injection Hx as -> ->. vm_compute. done. }
  cbn [mbind option_bind]. rewrite (proj2 (Nat.ltb_lt _ _) Hvs). rewrite snprintf_at_fits.
  2: { change (length (js "]}")) with 2%nat. lia. }
  cbn [mbind option_bind]. eexists. split; [reflexivity|].
  match goal with |- context [send_response ?a ?b ?d ?e ?x] => destruct (send_response_eq a b d e x) as [ms ->] end. done.
Qed.

(** A client that goes away without a request leaves a paused cart waiting. *)
Lemma dropped_client_keeps_waiting (w : world) :
  running (dap w) = true -> continue_pending (dap w) = false ->
  exists w', dap_connection lua_stack made chunk [] w = Some w' /\ pause_poll w' = None.
Proof.
  intros Hr H. eexists. split; [unfold dap_connection; cbn; by rewrite Hr|].
  unfold pause_poll. destruct (blocked _); cbn; by rewrite Hr, H.
Qed.
End findings.

(** ** Witnesses *)

Abbreviation stack := (list activation).

Definition listening : hook_config_t := Config true false true 16667000 0 0 0 0 DAP_STEP_NONE 0 false.
Definition at_line (n : Z) : activation := Activation None None (Some (cstr "@/a/cart.lua")) n [].

(** Chunks that end at once, and chunks that come to line 4. *)
Definition always : list Z -> bool := fun _ => true.
Definition empty_chunk : list Z -> chunk_run (L := stack) := fun _ => ChunkEnd.
Definition line_chunk : list Z -> chunk_run (L := stack) :=
  fun _ => ChunkEvent 7 [at_line 4] LUA_HOOKLINE (at_line 4) (fun _ => ChunkEnd).

Lemma dap_session_witness :
  exists w', dap_connection (L := stack) id always empty_chunk (wire (js "{'seq':1,'command':'pause'}") ++ []) (initial listening)
    = Some w' /\ dap_pending_pause (hook w') = true.
Proof.
  destruct (dap_session (L := stack) id always empty_chunk [js "{'seq':1,'command':'pause'}"] (initial listening)) as [H _];
    [apply initial_wf|reflexivity|reflexivity| |].
  - constructor; [|constructor]. split; [vm_compute; repeat (constructor; [done|]); constructor|done].
  - eexists. split; [exact H|]. reflexivity.
Defined.

Lemma set_breakpoints_refines_witness :
  exists w', dispatch (L := stack) id always empty_chunk (set_breakpoints_request 3 (cstr "/a/cart.lua") [4; 7]) (initial listening)
    = Some w' /\ armed w' (cstr "/a/cart.lua") 7.
Proof.
  destruct (set_breakpoints_refines (L := stack) id always empty_chunk (initial listening) 3 (cstr "/a/cart.lua") [4; 7])
    as (w' & H & Ha & _);
    [lia|vm_compute; repeat (constructor; [done|]); constructor|done|vm_compute; done
    |repeat (constructor; [lia|]); constructor|vm_compute; done|].
  exists w'. split; [exact H|]. apply Ha. cbn. lia.
Defined.

(** The cart runs, a client sets a breakpoint, and a reload's chunk stops on it. *)
Definition armed_world : world (L := stack) :=
  set_cart Inside (set_hook (apply_default_config listening)
    (set_dap (set_bps [Breakpoint (cstr "cart.lua") 4 true 1] 1 (set_client true (dap (initial listening)))) (initial listening))).

Lemma reload_stops_on_line :
  exists w', dispatch (L := stack) id always line_chunk reload_request armed_world = Some w' /\
    is_Some (waiting w') /\ paused_L (dap w') = Some [at_line 4] /\ length (sent w') = 1%nat.
Proof. eexists. split; [vm_compute; reflexivity|]. by repeat split; eexists. Qed.


(** The state in which the cart has stopped in a function one call deep. *)
Definition stopped : world (L := stack) := pause_enter [at_line 4; at_line 9] (initial listening).

Lemma step_stops_witness :
  exists w1 w2, dispatch (L := stack) id always empty_chunk (simple_request 5 (js "next")) stopped = Some w1 /\
    pause_poll w1 = Some w2 /\
    (exists w3, run id [([], [at_line 2; at_line 5; at_line 9], LUA_HOOKLINE, at_line 2);
                ([16667000], [at_line 2; at_line 5; at_line 9], LUA_HOOKCOUNT, at_line 2);
                ([], [at_line 5; at_line 9], LUA_HOOKLINE, at_line 5)] w2 = Halts w3 /\
       paused_L (dap w3) = Some [at_line 5; at_line 9]) /\
    run id [([20000000], [at_line 4; at_line 9], LUA_HOOKCOUNT, at_line 4)] w2 = Breaks (cstr "budget exceeded") w2.
Proof.
  destruct (step_stops (L := stack) id always empty_chunk 5 DAP_STEP_OVER [at_line 4; at_line 9] stopped)
    as (w1 & w2 & H1 & H2 & _ & _ & H); [lia|by left|reflexivity..|].
  exists w1, w2. split; [exact H1|]. split; [exact H2|]. split.
  - destruct (H [([], [at_line 2; at_line 5; at_line 9], LUA_HOOKLINE, at_line 2);
                ([16667000], [at_line 2; at_line 5; at_line 9], LUA_HOOKCOUNT, at_line 2)]) as (_ & Hl & _).
    + constructor; [|constructor; [|constructor]].
      * split; [intros E; discriminate E|]. right. split; [reflexivity|].
        injection H1 as <-. injection H2 as <-. reflexivity.
      * split; [|by left]. intros _ _. eexists _, _. split; [reflexivity|]. vm_compute. discriminate.
    + destruct (Hl [] [at_line 5; at_line 9] (at_line 5)) as (w3 & E & Hw3 & _); [by left|]. exists w3. split; [exact E|exact Hw3].
  - destruct (H []) as (_ & _ & Hb); [constructor|]. apply (Hb 20000000 [] [at_line 4; at_line 9] (at_line 4)); reflexivity.
Defined.
