(* ===== verification/Seccomp.v ===== *)
(** * The seccomp filters (spikes/spike-s/seccomp_allowlist_s.h,
    spikes/spike-r/seccomp_allowlist.h, and the raw tests beside them)

    Builders that write classic BPF programs into an array, the lists of system
    calls they are built from, and what the kernel makes of the programs.  The
    kernel is a parameter: [Bpf] is the documented meaning of the instructions the
    builders use, [Precedence] how it combines the filters of a process.  System
    calls are told by their numbers on RISC-V. *)

From stdpp Require Import relations.
From S2P Require Import Prelude.
Open Scope Z_scope.

(** ** Instructions *)

(** linux/filter.h and linux/seccomp.h *)
Definition BPF_LD : Z := 0x00.
Definition BPF_JMP : Z := 0x05.
Definition BPF_RET : Z := 0x06.
Definition BPF_W : Z := 0x00.
Definition BPF_ABS : Z := 0x20.
Definition BPF_JEQ : Z := 0x10.
Definition BPF_K : Z := 0x00.
Definition SECCOMP_RET_KILL_PROCESS : Z := 0x80000000.
Definition SECCOMP_RET_ERRNO : Z := 0x00050000.
Definition SECCOMP_RET_ALLOW : Z := 0x7fff0000.

Definition AUDIT_ARCH_RISCV64 : Z := 0xC00000F3.
Definition AUDIT_ARCH_RISCV32 : Z := 0x400000F3.
Definition SDAT_NR : Z := 0.
Definition SDAT_ARCH : Z := 4.
Definition SECCOMP_MAX_INSNS : Z := 512.

Record sock_filter := Filter { code : Z; jt : Z; jf : Z; k : Z }.

Definition LD_ABS : Z := Z.lor (Z.lor BPF_LD BPF_W) BPF_ABS.
Definition JEQ_K : Z := Z.lor (Z.lor BPF_JMP BPF_JEQ) BPF_K.
Definition RET_K : Z := Z.lor BPF_RET BPF_K.

(** The macros FS and FJ. *)
Definition FS (code k : Z) : sock_filter := Filter (u16 code) 0 0 (u32 k).
Definition FJ (code k jt jf : Z) : sock_filter := Filter (u16 code) (u8 jt) (u8 jf) (u32 k).

(** ** Builders *)

(** What a builder ends in: -1, a program, or a write behind the array. *)
Inductive build_result := Refused | Program (p : list sock_filter) | Overrun.

(** [buf[i] = ...; i++] in an array of [bufsz] instructions. *)
Definition emit (bufsz : Z) (ins : sock_filter) (p : option (list sock_filter)) : option (list sock_filter) :=
  p ← p; if Z.of_nat (length p) <? bufsz then Some (p ++ [ins]) else None.

Fixpoint emit_rules (bufsz : Z) (nrs : list Z) (p : option (list sock_filter)) : option (list sock_filter) :=
  match nrs with
  | [] => p
  | nr :: nrs => emit_rules bufsz nrs (emit bufsz (FS RET_K SECCOMP_RET_ALLOW) (emit bufsz (FJ JEQ_K nr 0 1) p))
  end.

Definition built (p : option (list sock_filter)) : build_result :=
  match p with Some p => Program p | None => Overrun end.

Definition build_arch_dispatch_filter (bufsz : Z) (rv64_nrs rv32_nrs : list Z) : build_result :=
  let rv64_n := Z.of_nat (length rv64_nrs) in
  let rv32_n := Z.of_nat (length rv32_nrs) in
  let total := i32 (8 + 2 * (rv64_n + rv32_n)) in
  if bufsz <? total then Refused
  else if 255 <? i32 (2 + 2 * rv64_n) then Refused
  else
    let p := emit bufsz (FS LD_ABS SDAT_ARCH) (Some []) in
    let p := emit bufsz (FJ JEQ_K AUDIT_ARCH_RISCV64 0 (2 + 2 * rv64_n)) p in
    let p := emit bufsz (FS LD_ABS SDAT_NR) p in
    let p := emit_rules bufsz rv64_nrs p in
    let p := emit bufsz (FS RET_K SECCOMP_RET_KILL_PROCESS) p in
    let p := emit bufsz (FJ JEQ_K AUDIT_ARCH_RISCV32 1 0) p in
    let p := emit bufsz (FS RET_K SECCOMP_RET_KILL_PROCESS) p in
    let p := emit bufsz (FS LD_ABS SDAT_NR) p in
    let p := emit_rules bufsz rv32_nrs p in
    built (emit bufsz (FS RET_K SECCOMP_RET_KILL_PROCESS) p).

(** The part the two single-architecture builders share: [total] is the size the
    builder compares with the array. *)
Definition build_single (bufsz total arch : Z) (nrs : list Z) (default_action : Z) : build_result :=
  if bufsz <? total then Refused
  else
    let p := emit bufsz (FS LD_ABS SDAT_ARCH) (Some []) in
    let p := emit bufsz (FJ JEQ_K arch 1 0) p in
    let p := emit bufsz (FS RET_K SECCOMP_RET_KILL_PROCESS) p in
    let p := emit bufsz (FS LD_ABS SDAT_NR) p in
    let p := emit_rules bufsz nrs p in
    built (emit bufsz (FS RET_K default_action) p).

Definition build_riscv32_only_filter (bufsz : Z) (nrs : list Z) : build_result :=
  build_single bufsz (i32 (4 + 2 * Z.of_nat (length nrs))) AUDIT_ARCH_RISCV32 nrs SECCOMP_RET_KILL_PROCESS.

Definition build_unified_filter_with_default (bufsz : Z) (nrs : list Z) (default_action : Z) : build_result :=
  build_single bufsz (i32 (5 + Z.of_nat (length nrs) * 2)) AUDIT_ARCH_RISCV64 nrs default_action.

Definition build_unified_filter (bufsz : Z) (nrs : list Z) : build_result :=
  build_unified_filter_with_default bufsz nrs SECCOMP_RET_KILL_PROCESS.

(** ** The lists *)

Definition seccomp_phase1_riscv64_nrs : list Z := [221; 64; 94].

Definition seccomp_phase1_riscv32_nrs : list Z :=
  [56; 57; 63; 25; 291; 222; 226; 214; 96; 66; 277; 62; 80; 79; 215; 48; 99; 293; 278; 261; 134; 139; 29; 64; 93; 94].

Definition seccomp_phase2_riscv32_nrs : list Z := [29; 63; 64; 93; 94].

(** spike r *)
Definition seccomp_unified_nrs : list Z :=
  [221; 48; 56; 57; 63; 62; 80; 79; 222; 226; 215; 214; 96; 99; 293; 278; 261; 134; 139; 29; 64; 94; 93].

(** The programs [install_phase1_filter], [install_phase2_filter] and
    [install_raw_bpf_filter] hand to the kernel. *)
Definition install_phase1_filter : build_result :=
  build_arch_dispatch_filter SECCOMP_MAX_INSNS seccomp_phase1_riscv64_nrs seccomp_phase1_riscv32_nrs.

Definition install_phase2_filter : build_result :=
  build_riscv32_only_filter SECCOMP_MAX_INSNS seccomp_phase2_riscv32_nrs.

Definition install_raw_bpf_filter : build_result :=
  build_unified_filter SECCOMP_MAX_INSNS seccomp_unified_nrs.

(** ** The filters of the raw tests *)

Definition test_rv64_nrs : list Z := [221; 64; 94].
Definition test_rv32_nrs : list Z := [96; 64; 94].

Definition build_test_dispatch_filter (bufsz : Z) : build_result :=
  build_arch_dispatch_filter bufsz test_rv64_nrs test_rv32_nrs.

Definition build_riscv32_write_errno_filter (bufsz : Z) : build_result :=
  if bufsz <? 6 then Refused
  else
    let p := emit bufsz (FS LD_ABS SDAT_ARCH) (Some []) in
    let p := emit bufsz (FJ JEQ_K AUDIT_ARCH_RISCV32 0 3) p in
    let p := emit bufsz (FS LD_ABS SDAT_NR) p in
    let p := emit bufsz (FJ JEQ_K 64 0 1) p in
    let p := emit bufsz (FS RET_K (Z.lor SECCOMP_RET_ERRNO 42)) p in
    built (emit bufsz (FS RET_K SECCOMP_RET_ALLOW) p).

Definition build_riscv64_only_allowall (bufsz : Z) : build_result :=
  if bufsz <? 4 then Refused
  else
    let p := emit bufsz (FS LD_ABS SDAT_ARCH) (Some []) in
    let p := emit bufsz (FJ JEQ_K AUDIT_ARCH_RISCV64 1 0) p in
    let p := emit bufsz (FS RET_K SECCOMP_RET_KILL_PROCESS) p in
    built (emit bufsz (FS RET_K SECCOMP_RET_ALLOW) p).

(** spike r: kill uname, allow the rest; allow everything. *)
Definition build_phase1 : list sock_filter :=
  [FS LD_ABS SDAT_NR; FJ JEQ_K 160 0 1; FS RET_K SECCOMP_RET_KILL_PROCESS; FS RET_K SECCOMP_RET_ALLOW].

Definition build_phase2 : list sock_filter := [FS RET_K SECCOMP_RET_ALLOW].

(** ** The kernel *)

(** What the instructions mean: [run p pc a arch nr] is the answer of the program
    from instruction [pc] on with accumulator [a], for the system call [nr] of a
    process of the architecture [arch]. *)
Class Bpf (run : list sock_filter -> nat -> Z -> Z -> Z -> option Z) : Prop := {
  bpf_load_arch p pc a arch nr : p !! pc = Some (Filter LD_ABS 0 0 SDAT_ARCH) ->
    run p pc a arch nr = run p (S pc) arch arch nr;
  bpf_load_nr p pc a arch nr : p !! pc = Some (Filter LD_ABS 0 0 SDAT_NR) ->
    run p pc a arch nr = run p (S pc) nr arch nr;
  bpf_jump p pc a arch nr t f v : p !! pc = Some (Filter JEQ_K t f v) -> 0 <= t -> 0 <= f ->
    run p pc a arch nr = run p (S pc + Z.to_nat (if (a =? v)%Z then t else f))%nat a arch nr;
  bpf_return p pc a arch nr v : p !! pc = Some (Filter RET_K 0 0 v) -> run p pc a arch nr = Some v;
}.

(** All filters of a process are asked; the most severe answer counts. *)
Class Precedence (combine : list Z -> Z) : Prop := {
  combine_allow l : Forall (fun a => a = SECCOMP_RET_ALLOW) l -> combine l = SECCOMP_RET_ALLOW;
  combine_kill l : In SECCOMP_RET_KILL_PROCESS l -> combine l = SECCOMP_RET_KILL_PROCESS;
}.

(** ** A kernel *)

Fixpoint bpf_steps (fuel : nat) (p : list sock_filter) (pc : nat) (a arch nr : Z) : option Z :=
  match fuel with
  | O => None
  | S fuel =>
      match p !! pc with
      | None => None
      | Some i =>
          if code i =? LD_ABS then
            if k i =? SDAT_ARCH then bpf_steps fuel p (S pc) arch arch nr
            else if k i =? SDAT_NR then bpf_steps fuel p (S pc) nr arch nr else None
          else if code i =? JEQ_K then
            bpf_steps fuel p (S pc + Z.to_nat (if a =? k i then jt i else jf i)) a arch nr
          else if code i =? RET_K then Some (k i)
          else None
      end
  end.

(** Jumps go forward, so a program runs no longer than it is. *)
Definition bpf_run (p : list sock_filter) (pc : nat) (a arch nr : Z) : option Z :=
  bpf_steps (length p - pc) p pc a arch nr.

Lemma bpf_steps_fuel p : forall f1 f2 pc a arch nr,
  (length p - pc <= f1)%nat -> (length p - pc <= f2)%nat ->
  bpf_steps f1 p pc a arch nr = bpf_steps f2 p pc a arch nr.
Proof.
  induction f1 as [|f1 IH]; intros [|f2] pc a arch nr H1 H2; cbn [bpf_steps].
  - done.
  - by rewrite lookup_ge_None_2 by lia.
  - by rewrite lookup_ge_None_2 by lia.
  - destruct (p !! pc) as [i|] eqn:E; [|done]. apply lookup_lt_Some in E.
    destruct (code i =? LD_ABS); [destruct (k i =? SDAT_ARCH); [apply IH; lia|]; destruct (k i =? SDAT_NR); [apply IH; lia|done]|].
    destruct (code i =? JEQ_K); [apply IH; lia|done].
Qed.

Lemma bpf_run_step p pc i a arch nr : p !! pc = Some i ->
  bpf_run p pc a arch nr =
    if code i =? LD_ABS then
      if k i =? SDAT_ARCH then bpf_run p (S pc) arch arch nr
      else if k i =? SDAT_NR then bpf_run p (S pc) nr arch nr else None
    else if code i =? JEQ_K then bpf_run p (S pc + Z.to_nat (if a =? k i then jt i else jf i)) a arch nr
    else if code i =? RET_K then Some (k i)
    else None.
Proof.
  intros E. pose proof (lookup_lt_Some _ _ _ E) as Hl. unfold bpf_run.
  replace (length p - pc)%nat with (S (length p - S pc)) by lia. cbn [bpf_steps]. rewrite E.
  destruct (code i =? LD_ABS).
  - destruct (k i =? SDAT_ARCH); [apply bpf_steps_fuel; lia|].
    destruct (k i =? SDAT_NR); [apply bpf_steps_fuel; lia|done].
  - destruct (code i =? JEQ_K); [apply bpf_steps_fuel; lia|done].
Qed.

#[export] Instance bpf_run_laws : Bpf bpf_run.
Proof. split; intros; (erewrite bpf_run_step by eassumption; reflexivity). Qed.

(** Precedence by the action's value as a signed 32-bit integer, as the kernel
    compares them. *)
Definition most_severe (l : list Z) : Z :=
  fold_left (fun a b => if i32 (u32 b) <? i32 a then u32 b else a) l SECCOMP_RET_ALLOW.

Lemma severe_kill a : 0 <= a < 2 ^ 32 -> i32 a <= i32 SECCOMP_RET_KILL_PROCESS -> a = SECCOMP_RET_KILL_PROCESS.
Proof.
  intros Ha H. change (i32 SECCOMP_RET_KILL_PROCESS) with (- 2 ^ 31) in H.
  pose proof (signed_range 32 a ltac:(lia)). rewrite <-(wrap_signed_small 32 a) by lia.
  replace (i32 a) with (- 2 ^ 31) by lia. done.
Qed.

Lemma most_severe_kill l : forall a, 0 <= a < 2 ^ 32 ->
  In SECCOMP_RET_KILL_PROCESS l \/ a = SECCOMP_RET_KILL_PROCESS ->
  fold_left (fun a b => if i32 (u32 b) <? i32 a then u32 b else a) l a = SECCOMP_RET_KILL_PROCESS.
Proof.
  induction l as [|b l IH]; intros a Ha H; cbn [fold_left]; [by destruct H|].
  pose proof (wrap_range 32 b ltac:(lia)). apply IH; [by destruct (_ <? _)|].
  destruct H as [[-> | H] | ->]; [|by left|].
  - right. change (u32 SECCOMP_RET_KILL_PROCESS) with SECCOMP_RET_KILL_PROCESS.
    destruct (Z.ltb_spec (i32 SECCOMP_RET_KILL_PROCESS) (i32 a)); [done|by apply severe_kill].
  - right. destruct (Z.ltb_spec (i32 (u32 b)) (i32 SECCOMP_RET_KILL_PROCESS)); [|done].
    apply severe_kill; [done|lia].
Qed.

#[export] Instance most_severe_laws : Precedence most_severe.
Proof.
  split.
  - intros l H. unfold most_severe. induction H as [|a l -> _ IH]; [done|].
    cbn [fold_left]. by rewrite Z.ltb_irrefl.
  - intros l H. apply most_severe_kill; [by vm_compute|by left].
Qed.

(** ** Emitting into a large enough array *)

Definition rules (nrs : list Z) : list sock_filter :=
  concat (map (fun nr => [FJ JEQ_K nr 0 1; FS RET_K SECCOMP_RET_ALLOW]) nrs).

Lemma length_rules nrs : length (rules nrs) = (2 * length nrs)%nat.
Proof. induction nrs as [|nr nrs IH]; [done|]. cbn [rules map concat app length]. unfold rules in IH. lia. Qed.

Lemma emit_fits bufsz ins p : Z.of_nat (length p) < bufsz -> emit bufsz ins (Some p) = Some (p ++ [ins]).
Proof. intros H. cbn. by rewrite (proj2 (Z.ltb_lt _ _) H). Qed.

Lemma emit_rules_fit bufsz nrs : forall p, Z.of_nat (length p) + 2 * Z.of_nat (length nrs) <= bufsz ->
  emit_rules bufsz nrs (Some p) = Some (p ++ rules nrs).
Proof.
  induction nrs as [|nr nrs IH]; intros p H; cbn [emit_rules length] in *; [by rewrite app_nil_r|].
  rewrite !emit_fits by (rewrite ?length_app; cbn; lia). rewrite IH by (rewrite !length_app; cbn; lia).
  by rewrite <-!app_assoc.
Qed.

Definition single (arch : Z) (nrs : list Z) (default_action : Z) : list sock_filter :=
  [FS LD_ABS SDAT_ARCH; FJ JEQ_K arch 1 0; FS RET_K SECCOMP_RET_KILL_PROCESS; FS LD_ABS SDAT_NR] ++
  rules nrs ++ [FS RET_K default_action].

Definition arch_dispatch (rv64_nrs rv32_nrs : list Z) : list sock_filter :=
  [FS LD_ABS SDAT_ARCH; FJ JEQ_K AUDIT_ARCH_RISCV64 0 (2 + 2 * Z.of_nat (length rv64_nrs)); FS LD_ABS SDAT_NR] ++
  rules rv64_nrs ++
  [FS RET_K SECCOMP_RET_KILL_PROCESS; FJ JEQ_K AUDIT_ARCH_RISCV32 1 0; FS RET_K SECCOMP_RET_KILL_PROCESS;
   FS LD_ABS SDAT_NR] ++
  rules rv32_nrs ++ [FS RET_K SECCOMP_RET_KILL_PROCESS].

Lemma build_single_spec bufsz total arch nrs default_action :
  total <= bufsz -> 5 + 2 * Z.of_nat (length nrs) <= bufsz ->
  build_single bufsz total arch nrs default_action = Program (single arch nrs default_action).
Proof.
  intros Ht Hb. unfold build_single. rewrite (proj2 (Z.ltb_ge _ _)) by done.
  rewrite !emit_fits by (rewrite ?length_app; cbn; lia).
  rewrite emit_rules_fit by (rewrite ?length_app; cbn; lia).
  rewrite emit_fits by (rewrite ?length_app, length_rules; cbn; lia).
  cbn [built]. unfold single. by rewrite <-!app_assoc.
Qed.

Lemma build_arch_dispatch_spec bufsz rv64_nrs rv32_nrs :
  2 + 2 * Z.of_nat (length rv64_nrs) <= 255 -> Z.of_nat (length rv32_nrs) < 2 ^ 29 ->
  8 + 2 * (Z.of_nat (length rv64_nrs) + Z.of_nat (length rv32_nrs)) <= bufsz ->
  build_arch_dispatch_filter bufsz rv64_nrs rv32_nrs = Program (arch_dispatch rv64_nrs rv32_nrs).
Proof.
  intros H64 H32 Hb. unfold build_arch_dispatch_filter.
  rewrite !signed_small by lia. rewrite (proj2 (Z.ltb_ge _ _)), (proj2 (Z.ltb_ge _ _)) by lia.
  rewrite !emit_fits by (rewrite ?length_app; cbn; lia).
  rewrite emit_rules_fit by (rewrite ?length_app; cbn; lia).
  rewrite !emit_fits by (rewrite ?length_app, length_rules; cbn; lia).
  rewrite emit_rules_fit by (rewrite ?length_app, length_rules; cbn; lia).
  rewrite emit_fits by (rewrite ?length_app, !length_rules; cbn; lia).
  cbn [built]. unfold arch_dispatch. by rewrite <-!app_assoc.
Qed.

(** ** What the programs answer *)

Definition numbers : list Z -> Prop := Forall (fun nr => 0 <= nr < 2 ^ 32).
Definition listed (nr : Z) (nrs : list Z) : bool := existsb (Z.eqb nr) nrs.

Lemma listed_spec nr nrs : listed nr nrs = true <-> In nr nrs.
Proof.
  unfold listed. rewrite existsb_exists. split; [by intros (x & H & ->%Z.eqb_eq)|].
  intros H. exists nr. split; [done|apply Z.eqb_refl].
Qed.

Section programs.
Context (run : list sock_filter -> nat -> Z -> Z -> Z -> option Z) {bpf : Bpf run}.

Lemma run_jump p pc a arch nr v t f :
  p !! pc = Some (FJ JEQ_K v t f) -> 0 <= v < 2 ^ 32 -> 0 <= t < 2 ^ 8 -> 0 <= f < 2 ^ 8 ->
  run p pc a arch nr = run p (S pc + Z.to_nat (if (a =? v)%Z then t else f))%nat a arch nr.
Proof.
  intros H Hv Ht Hf. apply bpf_jump; [|lia|lia]. rewrite H. unfold FJ. change (u16 JEQ_K) with JEQ_K.
  by rewrite !(wrap_small 8), (wrap_small 32) by lia.
Qed.

Lemma run_return p pc a arch nr v : p !! pc = Some (FS RET_K v) -> 0 <= v < 2 ^ 32 -> run p pc a arch nr = Some v.
Proof.
  intros H Hv. apply bpf_return. rewrite H. unfold FS. change (u16 RET_K) with RET_K. by rewrite (wrap_small 32) by lia.
Qed.

(** The rules at [pc], with the system call's number in the accumulator. *)
Lemma run_rules d nrs : forall pre post arch nr,
  numbers nrs -> 0 <= d < 2 ^ 32 ->
  run (pre ++ rules nrs ++ FS RET_K d :: post) (length pre) nr arch nr =
    Some (if listed nr nrs then SECCOMP_RET_ALLOW else d).
Proof.
  induction nrs as [|n nrs IH]; intros pre post arch nr Hn Hd.
  - cbn [rules map concat app listed existsb]. apply run_return; [by apply list_lookup_middle|done].
  - inversion_clear Hn.
    change (rules (n :: nrs)) with (FJ JEQ_K n 0 1 :: FS RET_K SECCOMP_RET_ALLOW :: rules nrs).
    cbn [app]. rewrite (run_jump _ _ _ _ _ n 0 1) by (try lia; by apply list_lookup_middle).
    cbn [listed existsb]. destruct (Z.eqb_spec nr n).
    + change (Z.to_nat 0) with 0%nat. rewrite Nat.add_0_r. cbn [orb].
      apply run_return; [|by vm_compute]. rewrite cons_middle, app_assoc. apply list_lookup_middle.
      rewrite length_app. cbn. lia.
    + change (Z.to_nat 1) with 1%nat. cbn [orb].
      specialize (IH (pre ++ [FJ JEQ_K n 0 1; FS RET_K SECCOMP_RET_ALLOW]) post arch nr H0 Hd).
      rewrite <-app_assoc in IH. cbn [app] in IH. unfold listed in IH. rewrite <-IH. f_equal.
      rewrite length_app. cbn. lia.
Qed.

Lemma run_single arch_ nrs d arch nr :
  numbers nrs -> 0 <= d < 2 ^ 32 -> 0 <= arch_ < 2 ^ 32 ->
  run (single arch_ nrs d) 0 0 arch nr =
    Some (if arch =? arch_ then if listed nr nrs then SECCOMP_RET_ALLOW else d else SECCOMP_RET_KILL_PROCESS).
Proof.
  intros Hn Hd Ha. rewrite (bpf_load_arch _ 0) by reflexivity.
  rewrite (run_jump _ 1 _ _ _ arch_ 1 0) by (reflexivity || lia).
  destruct (arch =? arch_).
  - change (2 + Z.to_nat 1)%nat with 3%nat. rewrite (bpf_load_nr _ 3) by reflexivity.
    change (single arch_ nrs d) with
      ([FS LD_ABS SDAT_ARCH; FJ JEQ_K arch_ 1 0; FS RET_K SECCOMP_RET_KILL_PROCESS; FS LD_ABS SDAT_NR] ++
       rules nrs ++ FS RET_K d :: []). by apply (run_rules d nrs [_; _; _; _]).
  - change (2 + Z.to_nat 0)%nat with 2%nat. by apply run_return.
Qed.

Lemma run_arch_dispatch nrs64 nrs32 arch nr :
  numbers nrs64 -> numbers nrs32 -> 2 + 2 * Z.of_nat (length nrs64) <= 255 ->
  run (arch_dispatch nrs64 nrs32) 0 0 arch nr =
    Some (if arch =? AUDIT_ARCH_RISCV64 then if listed nr nrs64 then SECCOMP_RET_ALLOW else SECCOMP_RET_KILL_PROCESS
          else if arch =? AUDIT_ARCH_RISCV32 then if listed nr nrs32 then SECCOMP_RET_ALLOW else SECCOMP_RET_KILL_PROCESS
          else SECCOMP_RET_KILL_PROCESS).
Proof.
  intros H64 H32 Hl. rewrite (bpf_load_arch _ 0) by reflexivity.
  rewrite (run_jump _ 1 _ _ _ AUDIT_ARCH_RISCV64 0 (2 + 2 * Z.of_nat (length nrs64))) by (reflexivity || (by vm_compute) || lia).
  set (head := [FS LD_ABS SDAT_ARCH; FJ JEQ_K AUDIT_ARCH_RISCV64 0 (2 + 2 * Z.of_nat (length nrs64)); FS LD_ABS SDAT_NR]).
  set (tail := [FJ JEQ_K AUDIT_ARCH_RISCV32 1 0; FS RET_K SECCOMP_RET_KILL_PROCESS; FS LD_ABS SDAT_NR] ++
    rules nrs32 ++ [FS RET_K SECCOMP_RET_KILL_PROCESS]).
  change (arch_dispatch nrs64 nrs32) with (head ++ rules nrs64 ++ FS RET_K SECCOMP_RET_KILL_PROCESS :: tail).
  destruct (arch =? AUDIT_ARCH_RISCV64).
  - change (2 + Z.to_nat 0)%nat with 2%nat. rewrite (bpf_load_nr _ 2) by reflexivity.
    by apply (run_rules SECCOMP_RET_KILL_PROCESS nrs64 head).
  - replace (2 + Z.to_nat (2 + 2 * Z.of_nat (length nrs64)))%nat
      with (length (head ++ rules nrs64 ++ [FS RET_K SECCOMP_RET_KILL_PROCESS]))
      by (rewrite !length_app, length_rules; cbn; lia).
    replace (head ++ rules nrs64 ++ FS RET_K SECCOMP_RET_KILL_PROCESS :: tail)
      with ((head ++ rules nrs64 ++ [FS RET_K SECCOMP_RET_KILL_PROCESS]) ++ tail) by (rewrite <-!app_assoc; done).
    generalize (head ++ rules nrs64 ++ [FS RET_K SECCOMP_RET_KILL_PROCESS]). intros pre.
    assert (forall n i, tail !! n = Some i -> (pre ++ tail) !! (length pre + n)%nat = Some i) as Hlook
      by (intros n i E; rewrite lookup_app_r by lia; by replace (length pre + n - length pre)%nat with n by lia).
    assert ((pre ++ tail) !! length pre = Some (FJ JEQ_K AUDIT_ARCH_RISCV32 1 0)) as E0
      by (pose proof (Hlook 0%nat _ eq_refl) as E0; by rewrite Nat.add_0_r in E0).
    rewrite (run_jump _ _ _ _ _ AUDIT_ARCH_RISCV32 1 0 E0) by ((by vm_compute) || lia).
    destruct (arch =? AUDIT_ARCH_RISCV32).
    + replace (S (length pre) + Z.to_nat 1)%nat with (length pre + 2)%nat by (change (Z.to_nat 1) with 1%nat; lia).
      rewrite bpf_load_nr by (by apply Hlook).
      replace (S (length pre + 2)) with (length (pre ++ take 3 tail)) by (rewrite length_app; change (length (take 3 tail)) with 3%nat; lia).
      unfold tail. cbn [app firstn].
      replace (pre ++ FJ JEQ_K AUDIT_ARCH_RISCV32 1 0 :: FS RET_K SECCOMP_RET_KILL_PROCESS :: FS LD_ABS SDAT_NR ::
               rules nrs32 ++ [FS RET_K SECCOMP_RET_KILL_PROCESS])
        with ((pre ++ [FJ JEQ_K AUDIT_ARCH_RISCV32 1 0; FS RET_K SECCOMP_RET_KILL_PROCESS; FS LD_ABS SDAT_NR]) ++
               rules nrs32 ++ [FS RET_K SECCOMP_RET_KILL_PROCESS]) by (rewrite <-app_assoc; done).
      by apply run_rules.
    + replace (S (length pre) + Z.to_nat 0)%nat with (length pre + 1)%nat by (change (Z.to_nat 0) with 0%nat; lia).
      apply run_return; [by apply Hlook|by vm_compute].
Qed.
End programs.

(** ** Programs the kernel accepts *)

(** Every jump lands inside the program. *)
Fixpoint jumps_inside (p : list sock_filter) : Prop :=
  match p with
  | [] => True
  | i :: p' =>
      (code i = JEQ_K -> 0 <= jt i < Z.of_nat (length p') /\ 0 <= jf i < Z.of_nat (length p')) /\ jumps_inside p'
  end.

(** The last instruction returns. *)
Definition ends_in_return (p : list sock_filter) : Prop := exists p' i, p = p' ++ [i] /\ code i = RET_K.

Lemma jumps_inside_cons i p : code i <> JEQ_K -> jumps_inside p -> jumps_inside (i :: p).
Proof. by split. Qed.

Lemma jumps_inside_rules nrs p : p <> [] -> jumps_inside p -> jumps_inside (rules nrs ++ p).
Proof.
  intros Hne Hp. induction nrs as [|nr nrs IH]; [done|].
  change (rules (nr :: nrs) ++ p) with (FJ JEQ_K nr 0 1 :: FS RET_K SECCOMP_RET_ALLOW :: (rules nrs ++ p)).
  split; [|apply jumps_inside_cons; [by vm_compute|done]]. intros _.
  change (jt (FJ JEQ_K nr 0 1)) with 0. change (jf (FJ JEQ_K nr 0 1)) with 1. cbn [length].
  assert (0 < length (rules nrs ++ p))%nat by (rewrite length_app; destruct p; [done|cbn; lia]). lia.
Qed.

Lemma single_accepted arch nrs d : jumps_inside (single arch nrs d) /\ ends_in_return (single arch nrs d).
Proof.
  split.
  - unfold single. cbn [app]. apply jumps_inside_cons; [by vm_compute|]. split.
    + intros _. change (jt (FJ JEQ_K arch 1 0)) with 1. change (jf (FJ JEQ_K arch 1 0)) with 0.
      cbn [length]. lia.
    + do 2 (apply jumps_inside_cons; [by vm_compute|]). apply jumps_inside_rules; [done|].
      by apply jumps_inside_cons.
  - eexists ([_; _; _; _] ++ rules nrs), _. by split; [rewrite <-app_assoc|].
Qed.

Lemma arch_dispatch_accepted nrs64 nrs32 : 2 + 2 * Z.of_nat (length nrs64) <= 255 ->
  jumps_inside (arch_dispatch nrs64 nrs32) /\ ends_in_return (arch_dispatch nrs64 nrs32).
Proof.
  intros Hl. split.
  - unfold arch_dispatch. cbn [app]. apply jumps_inside_cons; [by vm_compute|]. split.
    + intros _. cbn [jt jf FJ]. rewrite (wrap_small 8 (2 + _)) by lia. change (u8 0) with 0.
      cbn [length]. rewrite !length_app, length_rules. cbn [length]. rewrite length_app, length_rules. cbn [length]. lia.
    + apply jumps_inside_cons; [by vm_compute|]. apply jumps_inside_rules; [done|].
      apply jumps_inside_cons; [by vm_compute|]. split.
      * intros _. change (jt (FJ JEQ_K AUDIT_ARCH_RISCV32 1 0)) with 1.
        change (jf (FJ JEQ_K AUDIT_ARCH_RISCV32 1 0)) with 0. cbn [length]. lia.
      * do 2 (apply jumps_inside_cons; [by vm_compute|]). apply jumps_inside_rules; [done|].
        by apply jumps_inside_cons.
  - unfold arch_dispatch.
    eexists ([_; _; _] ++ rules nrs64 ++ [_; _; _; _] ++ rules nrs32), _. split; [by rewrite <-!app_assoc|done].
Qed.

Section kernel.
Context (run : list sock_filter -> nat -> Z -> Z -> Z -> option Z) {bpf : Bpf run}.

(** C20: The filter is the two lists.  For lists that fit, the arch-dispatch builder
    writes as many instructions as its layout says, every jump of the program lands
    inside and the last instruction returns, and the program allows a system call
    exactly if it is in the list of the process's architecture, and kills the
    process otherwise. *)
Theorem arch_dispatch_exact bufsz rv64_nrs rv32_nrs :
  numbers rv64_nrs -> numbers rv32_nrs ->
  2 + 2 * Z.of_nat (length rv64_nrs) <= 255 -> Z.of_nat (length rv32_nrs) < 2 ^ 29 ->
  8 + 2 * (Z.of_nat (length rv64_nrs) + Z.of_nat (length rv32_nrs)) <= bufsz ->
  exists p, build_arch_dispatch_filter bufsz rv64_nrs rv32_nrs = Program p /\
    Z.of_nat (length p) = 8 + 2 * (Z.of_nat (length rv64_nrs) + Z.of_nat (length rv32_nrs)) /\
    jumps_inside p /\ ends_in_return p /\
    forall arch nr,
      (run p 0 0 arch nr = Some SECCOMP_RET_ALLOW <->
       (arch = AUDIT_ARCH_RISCV64 /\ In nr rv64_nrs) \/ (arch = AUDIT_ARCH_RISCV32 /\ In nr rv32_nrs)) /\
      (run p 0 0 arch nr = Some SECCOMP_RET_ALLOW \/ run p 0 0 arch nr = Some SECCOMP_RET_KILL_PROCESS).
Proof.
  intros H64 H32 Hl64 Hl32 Hb. exists (arch_dispatch rv64_nrs rv32_nrs).
  split; [by apply build_arch_dispatch_spec|]. split.
  { unfold arch_dispatch. rewrite !length_app, !length_rules. cbn [length]. lia. }
  destruct (arch_dispatch_accepted rv64_nrs rv32_nrs Hl64). split; [done|]. split; [done|].
  intros arch nr. rewrite run_arch_dispatch, <-!listed_spec by done.
  change SECCOMP_RET_KILL_PROCESS with 0x80000000. change SECCOMP_RET_ALLOW with 0x7fff0000.
  destruct (Z.eqb_spec arch AUDIT_ARCH_RISCV64) as [->|].
  - destruct (listed nr rv64_nrs); (split; [split; [intros [=]; auto|intros [[_ ?]|[? _]]; done]|auto]).
  - destruct (Z.eqb_spec arch AUDIT_ARCH_RISCV32) as [->|].
    + destruct (listed nr rv32_nrs); (split; [split; [intros [=]; auto|intros [[? _]|[_ ?]]; done]|auto]).
    + split; [split; [intros [=]|intros [[? _]|[? _]]; done]|auto].
Qed.

(** The unified filter of spike r, whatever its default action. *)
Lemma unified_exact bufsz nrs d arch nr :
  numbers nrs -> 0 <= d < 2 ^ 32 -> 5 + 2 * Z.of_nat (length nrs) <= bufsz -> bufsz < 2 ^ 31 ->
  exists p, build_unified_filter_with_default bufsz nrs d = Program p /\
    jumps_inside p /\ ends_in_return p /\
    run p 0 0 arch nr =
      Some (if arch =? AUDIT_ARCH_RISCV64 then if listed nr nrs then SECCOMP_RET_ALLOW else d
            else SECCOMP_RET_KILL_PROCESS).
Proof.
  intros Hn Hd Hb Hs. exists (single AUDIT_ARCH_RISCV64 nrs d).
  split; [apply build_single_spec; [rewrite signed_small|]; lia|].
  destruct (single_accepted AUDIT_ARCH_RISCV64 nrs d). split; [done|]. split; [done|].
  by apply run_single.
Qed.

(** ** Two phases *)

Context (combine : list Z -> Z) {precedence : Precedence combine}.

(** A process: its architecture, and its filters, the last installed first. *)
Record process := Process { p_arch : Z; filters : list (list sock_filter) }.

Definition answer (pr : process) (nr : Z) (p : list sock_filter) : Z :=
  default SECCOMP_RET_KILL_PROCESS (run p 0 0 (p_arch pr) nr).

Definition permitted (pr : process) (nr : Z) : Prop :=
  combine (map (answer pr nr) (filters pr)) = SECCOMP_RET_ALLOW.

(** A system call: any may be made that is permitted; seccomp installs a further
    filter, execve may change the architecture, and nothing removes a filter. *)
Inductive system_call : process -> Z -> process -> Prop :=
  | call_any pr nr : permitted pr nr -> system_call pr nr pr
  | call_seccomp pr p : permitted pr 277 -> system_call pr 277 (Process (p_arch pr) (p :: filters pr))
  | call_execve pr arch : permitted pr 221 -> system_call pr 221 (Process arch (filters pr)).

Inductive calls : process -> list Z -> process -> Prop :=
  | calls_nil pr : calls pr [] pr
  | calls_cons pr nr pr1 nrs pr2 : system_call pr nr pr1 -> calls pr1 nrs pr2 -> calls pr (nr :: nrs) pr2.

Definition phase1 : list sock_filter := arch_dispatch seccomp_phase1_riscv64_nrs seccomp_phase1_riscv32_nrs.
Definition phase2 : list sock_filter := single AUDIT_ARCH_RISCV32 seccomp_phase2_riscv32_nrs SECCOMP_RET_KILL_PROCESS.

Lemma phases_built : install_phase1_filter = Program phase1 /\ install_phase2_filter = Program phase2.
Proof. split; vm_compute; reflexivity. Qed.

Lemma lists_numbers :
  numbers seccomp_phase1_riscv64_nrs /\ numbers seccomp_phase1_riscv32_nrs /\ numbers seccomp_phase2_riscv32_nrs.
Proof.
  unfold numbers, seccomp_phase1_riscv64_nrs, seccomp_phase1_riscv32_nrs, seccomp_phase2_riscv32_nrs.
  split; [|split]; repeat (apply Forall_cons_2; [lia|]); apply Forall_nil_2.
Qed.

Lemma phase2_subset nr : listed nr seccomp_phase2_riscv32_nrs = true -> listed nr seccomp_phase1_riscv32_nrs = true.
Proof. rewrite !listed_spec. cbn. intuition. Qed.

(** What each phase permits. *)
Lemma answer_phase1 arch fs nr :
  answer (Process arch fs) nr phase1 =
    if arch =? AUDIT_ARCH_RISCV64 then if listed nr seccomp_phase1_riscv64_nrs then SECCOMP_RET_ALLOW else SECCOMP_RET_KILL_PROCESS
    else if arch =? AUDIT_ARCH_RISCV32 then if listed nr seccomp_phase1_riscv32_nrs then SECCOMP_RET_ALLOW else SECCOMP_RET_KILL_PROCESS
    else SECCOMP_RET_KILL_PROCESS.
Proof.
  destruct lists_numbers as (H1 & H2 & _). unfold answer, phase1. cbn [p_arch].
  by rewrite run_arch_dispatch by (done || by vm_compute).
Qed.

Lemma answer_phase2 arch fs nr :
  answer (Process arch fs) nr phase2 =
    if arch =? AUDIT_ARCH_RISCV32 then if listed nr seccomp_phase2_riscv32_nrs then SECCOMP_RET_ALLOW else SECCOMP_RET_KILL_PROCESS
    else SECCOMP_RET_KILL_PROCESS.
Proof.
  destruct lists_numbers as (_ & _ & H3). unfold answer, phase2. cbn [p_arch].
  by rewrite run_single by (done || by vm_compute).
Qed.

Lemma permitted_under arch fs p nr : In p fs -> permitted (Process arch fs) nr ->
  answer (Process arch fs) nr p <> SECCOMP_RET_KILL_PROCESS.
Proof.
  intros Hp Hn E. unfold permitted in Hn. rewrite combine_kill in Hn; [done|].
  cbn [filters]. apply in_map_iff. by exists p.
Qed.

Lemma permitted_one arch p nr : answer (Process arch [p]) nr p = SECCOMP_RET_ALLOW ->
  permitted (Process arch [p]) nr.
Proof. intros E. unfold permitted. cbn [filters map]. rewrite E. apply combine_allow. by constructor. Qed.

(** C21: A cart is confined.  Under the first phase the launcher can execute the
    cart and report failure and no more, and the loader of the cart can make the
    calls of its list, among them the one that installs the second phase; from then
    on, whatever the cart does, in any order and number, each system call it
    survives is one of the five of the second list, all of which it may make, no
    filter is added, and the architecture stays. *)
Theorem cart_confined :
  install_phase1_filter = Program phase1 /\ install_phase2_filter = Program phase2 /\
  (forall nr, permitted (Process AUDIT_ARCH_RISCV64 [phase1]) nr <-> In nr seccomp_phase1_riscv64_nrs) /\
  (forall nr, permitted (Process AUDIT_ARCH_RISCV32 [phase1]) nr <-> In nr seccomp_phase1_riscv32_nrs) /\
  In 277 seccomp_phase1_riscv32_nrs /\
  let cart := Process AUDIT_ARCH_RISCV32 [phase2; phase1] in
  (forall nr, permitted cart nr <-> In nr seccomp_phase2_riscv32_nrs) /\
  forall nrs pr, calls cart nrs pr -> Forall (fun nr => In nr seccomp_phase2_riscv32_nrs) nrs /\ pr = cart.
Proof.
  split; [apply phases_built|]. split; [apply phases_built|].
  assert (forall nr, permitted (Process AUDIT_ARCH_RISCV32 [phase2; phase1]) nr <-> In nr seccomp_phase2_riscv32_nrs) as Hcart.
  { intros nr. rewrite <-listed_spec. split.
    - intros H%(permitted_under _ _ phase2); [|by left]. rewrite answer_phase2, Z.eqb_refl in H. by case_match.
    - intros H. unfold permitted. apply combine_allow. cbn [filters map].
      rewrite answer_phase1, answer_phase2, H, (phase2_subset _ H). by repeat constructor. }
  split; [|split; [|split; [cbn; tauto|split; [exact Hcart|]]]].
  - intros nr. rewrite <-listed_spec. split; intros H.
    + apply (permitted_under _ _ phase1) in H; [|by left]. rewrite answer_phase1, Z.eqb_refl in H. by case_match.
    + apply permitted_one. by rewrite answer_phase1, Z.eqb_refl, H.
  - intros nr. rewrite <-listed_spec. split; intros H.
    + apply (permitted_under _ _ phase1) in H; [|by left]. rewrite answer_phase1 in H. cbn in H. by case_match.
    + apply permitted_one. by rewrite answer_phase1, H.
  - intros nrs pr H. remember (Process AUDIT_ARCH_RISCV32 [phase2; phase1]) as cart eqn:E.
    induction H as [pr|pr nr pr1 nrs pr2 Hs _ IH]; [by split|]. subst pr.
    assert (In nr seccomp_phase2_riscv32_nrs /\ pr1 = Process AUDIT_ARCH_RISCV32 [phase2; phase1]) as [Hin ->].
    { inversion Hs as [pr' nr' Hp|pr' p Hp|pr' arch Hp]; subst; apply Hcart in Hp; [done| |];
        exfalso; revert Hp; clear; cbn; lia. }
    destruct (IH eq_refl Hcart) as [IH1 IH2]. split; [constructor; [exact Hin|exact IH1]|exact IH2].
Qed.
End kernel.

(** ** The raw tests *)

Definition outcome (combine : list Z -> Z) (ps : list build_result) (arch nr : Z) : Z :=
  combine (map (fun b => match b with Program p => default 0 (bpf_run p 0 0 arch nr) | _ => 0 end) ps).

(** The outcomes the tests of spike s expect (A to E, then F and G), and the one of
    spike r about two filters. *)
Lemma raw_tests_expect :
  let dispatch := build_test_dispatch_filter SECCOMP_MAX_INSNS in
  outcome most_severe [dispatch] AUDIT_ARCH_RISCV64 64 = SECCOMP_RET_ALLOW /\
  outcome most_severe [dispatch] AUDIT_ARCH_RISCV64 198 = SECCOMP_RET_KILL_PROCESS /\
  outcome most_severe [dispatch] AUDIT_ARCH_RISCV32 64 = SECCOMP_RET_ALLOW /\
  outcome most_severe [dispatch] AUDIT_ARCH_RISCV32 198 = SECCOMP_RET_KILL_PROCESS /\
  outcome most_severe [dispatch] AUDIT_ARCH_RISCV32 221 = SECCOMP_RET_KILL_PROCESS /\
  outcome most_severe [build_riscv64_only_allowall 8] AUDIT_ARCH_RISCV32 64 = SECCOMP_RET_KILL_PROCESS /\
  outcome most_severe [build_riscv32_write_errno_filter 8] AUDIT_ARCH_RISCV32 64 = Z.lor SECCOMP_RET_ERRNO 42 /\
  outcome most_severe [build_riscv32_write_errno_filter 8] AUDIT_ARCH_RISCV32 96 = SECCOMP_RET_ALLOW /\
  outcome most_severe [Program build_phase2; Program build_phase1] AUDIT_ARCH_RISCV64 160 = SECCOMP_RET_KILL_PROCESS /\
  outcome most_severe [install_raw_bpf_filter] AUDIT_ARCH_RISCV64 64 = SECCOMP_RET_ALLOW /\
  outcome most_severe [install_raw_bpf_filter] AUDIT_ARCH_RISCV64 198 = SECCOMP_RET_KILL_PROCESS.
Proof. vm_compute. repeat split. Qed.

(** The header of the raw test says its RV64 rules kill execve; the list allows it,
    since the test's child must execute the probe. *)
Lemma raw_test_allows_execve :
  outcome most_severe [build_test_dispatch_filter SECCOMP_MAX_INSNS] AUDIT_ARCH_RISCV64 221 = SECCOMP_RET_ALLOW.
Proof. vm_compute. reflexivity. Qed.

(** [build_riscv32_only_filter] counts 4 + 2n instructions and writes 5 + 2n: an
    array of the size it accepts is one too short. *)
Lemma riscv32_only_overruns nrs : Z.of_nat (length nrs) < 2 ^ 29 ->
  build_riscv32_only_filter (4 + 2 * Z.of_nat (length nrs)) nrs = Overrun.
Proof.
  intros Hn. unfold build_riscv32_only_filter, build_single. rewrite signed_small, Z.ltb_irrefl by lia.
  rewrite !emit_fits by (rewrite ?length_app; cbn; lia).
  rewrite emit_rules_fit by (rewrite ?length_app; cbn; lia).
  cbn [emit mbind option_bind]. rewrite !length_app, length_rules. cbn [length].
  by rewrite (proj2 (Z.ltb_ge _ _)) by lia.
Qed.

(** The calls of stdio under musl are writev, which the second phase kills. *)
Lemma phase2_kills_stdio :
  In 66 seccomp_phase1_riscv32_nrs /\ ~ In 66 seccomp_phase2_riscv32_nrs.
Proof. split; cbn; [tauto|lia]. Qed.

(** ** Witnesses *)

Lemma arch_dispatch_exact_witness :
  exists p, build_arch_dispatch_filter 12 [64] [96] = Program p /\
    bpf_run p 0 0 AUDIT_ARCH_RISCV32 96 = Some SECCOMP_RET_ALLOW.
Proof.
  destruct (arch_dispatch_exact bpf_run 12 [64] [96]) as (p & H & _ & _ & _ & Ha);
    [repeat constructor; lia|repeat constructor; lia|cbn; lia|cbn; lia|cbn; lia|].
  exists p. split; [exact H|]. apply (proj1 (Ha AUDIT_ARCH_RISCV32 96)). right. split; [reflexivity|by left].
Defined.

Lemma cart_confined_witness :
  calls bpf_run most_severe (Process AUDIT_ARCH_RISCV32 [phase2; phase1]) [64; 94]
    (Process AUDIT_ARCH_RISCV32 [phase2; phase1]) /\
  forall nrs pr, calls bpf_run most_severe (Process AUDIT_ARCH_RISCV32 [phase2; phase1]) nrs pr ->
    Forall (fun nr => In nr seccomp_phase2_riscv32_nrs) nrs.
Proof.
  destruct (cart_confined bpf_run most_severe) as (_ & _ & _ & _ & _ & Hp & Hc). split.
  - apply calls_cons with (Process AUDIT_ARCH_RISCV32 [phase2; phase1]);
      [apply call_any, Hp; cbn; lia|].
    apply calls_cons with (Process AUDIT_ARCH_RISCV32 [phase2; phase1]);
      [apply call_any, Hp; cbn; lia|constructor].
  - intros nrs pr H. exact (proj1 (Hc nrs pr H)).
Defined.
