(* ===== verification/Launcher.v ===== *)
(** * The launchers (spikes/spike-r/launcher_r.c, spikes/spike-s/launcher_s.c,
    spikes/spike-s/libblyt32_stub_s.c)

    A launcher parses its arguments, forks, isolates the child step by step, and
    executes the cart.  The operating system is a parameter that answers every call
    with its return value, a failure with a negative one ([-errno]); a run is the
    calls made, in order, and how it ends.  A message is one call, [close] is left out.  The
    launcher of spike h is that of spike r with another filter ([SandboxH]). *)

From S2P Require Import Prelude Seccomp.
Open Scope Z_scope.

(** ** Calls *)

Inductive call :=
  | Prctl_no_new_privs
  | Unshare (newns newnet : bool)
  | Mount_private
  | Bind_mount (dir : string)
  | Mkdir (dir : string)
  | Pivot_root (new_root put_old : string)
  | Chdir_root
  | Umount_put_old
  | Rmdir_put_old
  | Open_procs (path : string)
  | Write_pid (path : string)
  | Stat (path : string)
  | Open_cart (path : string)
  | Read_magic (path : string)
  | Setenv_library_path (dir : string)
  | Install (filter : build_result)
  | Seccomp_load (allowed : list Z)
  | Execve (argv : list string)
  | Print.

#[export] Instance sock_filter_dec : EqDecision sock_filter.
Proof. solve_decision. Defined.
#[export] Instance build_result_dec : EqDecision build_result.
Proof. solve_decision. Defined.
#[export] Instance call_dec : EqDecision call.
Proof. solve_decision. Defined.

(** [_exit] with a code, or the cart in the place of the launcher. *)
Inductive outcome := Exit (code : Z) | Execed.

Definition EEXIST : Z := 17.

(** The snprintf of a path into 512 bytes. *)
Definition path512 (dir suffix : string) : string := String.substring 0 511 (dir +:+ suffix).

Section launchers.
Context (os : call -> Z).

Abbreviation run := (list call * outcome)%type.

Definition after (c : list call) (r : run) : run := (c ++ fst r, snd r).

(** [if (call fails) { message; return 127; }] and what follows otherwise. *)
Definition attempt (c : call) (rest : run) : run :=
  after [c] (if os c <? 0 then ([Print], Exit 127) else rest).

(** The call under a condition. *)
Definition attempt_if (b : bool) (c : call) (rest : run) : run := if b then attempt c rest else rest.

(** The filter's program is built before it is installed; a builder that refuses
    has printed why. *)
Definition install (filter : build_result) (rest : run) : run :=
  match filter with
  | Program _ => after [Print] (attempt (Install filter) rest)
  | _ => ([Print], Exit 127)
  end.

(** [execve] returns on failure only. *)
Definition execve (argv : list string) : run :=
  after [Execve argv] (if os (Execve argv) <? 0 then ([Print], Exit 127) else ([], Execed)).

Inductive parsed (O : Type) := Parsed (o : O) | Help | Bad.
Arguments Parsed {O}. Arguments Help {O}. Arguments Bad {O}.

(** The exit status of the child as [waitpid] tells it. *)
Inductive status := Exited (rc : Z) | Signaled (sig : Z) | Stopped.

Definition SIGSYS : Z := 31.

(** The end of both [main]s. *)
Definition report (s : status) : Z :=
  match s with
  | Exited rc => rc
  | Signaled sig => if sig =? SIGSYS then 159 else 128 + sig
  | Stopped => 1
  end.

(** ** spike r *)

Record opts_r := OptsR {
  cgroup_dir : option string;
  rootfs : option string;
  do_seccomp : bool;
  do_netns : bool;
  do_mountns : bool;
  cart_argv : list string;
}.

Fixpoint parse_args_r (args : list string) (o : opts_r) : parsed opts_r :=
  match args with
  | [] => Bad
  | a :: rest =>
      if bool_decide (a = "--"%string) then
        match rest with
        | [] => Bad
        | _ => Parsed (OptsR (cgroup_dir o) (rootfs o) (do_seccomp o) (do_netns o) (do_mountns o) rest)
        end
      else if bool_decide (a = "--cgroup"%string) then
        match rest with
        | d :: rest => parse_args_r rest (OptsR (Some d) (rootfs o) (do_seccomp o) (do_netns o) (do_mountns o) [])
        | [] => Bad
        end
      else if bool_decide (a = "--rootfs"%string) then
        match rest with
        | d :: rest => parse_args_r rest (OptsR (cgroup_dir o) (Some d) (do_seccomp o) (do_netns o) (do_mountns o) [])
        | [] => Bad
        end
      else if bool_decide (a = "--no-seccomp"%string) then
        parse_args_r rest (OptsR (cgroup_dir o) (rootfs o) false (do_netns o) (do_mountns o) [])
      else if bool_decide (a = "--no-netns"%string) then
        parse_args_r rest (OptsR (cgroup_dir o) (rootfs o) (do_seccomp o) false (do_mountns o) [])
      else if bool_decide (a = "--no-mountns"%string) then
        parse_args_r rest (OptsR (cgroup_dir o) (rootfs o) (do_seccomp o) (do_netns o) false [])
      else if bool_decide (a = "-h"%string) || bool_decide (a = "--help"%string) then Help
      else Bad
  end.

Definition defaults_r : opts_r := OptsR None None true true true [].

(** [open], [write] of the process number, [close].  The answer to [Write_pid] is what
    [write] returned less the length of the line, so that it is negative when the call
    fails and when it writes in part: [write] never returns more than it was given. *)
Definition join_cgroup (cgroup : string) (rest : run) : run :=
  let path := path512 cgroup "/cgroup.procs" in
  attempt (Open_procs path) (attempt (Write_pid path) rest).

Definition do_pivot_root (rootfs : string) (rest : run) : run :=
  let put_old := path512 rootfs "/put_old" in
  attempt (Bind_mount rootfs)
    (after [Mkdir put_old]
      (if (os (Mkdir put_old) <? 0) && negb (os (Mkdir put_old) =? - EEXIST) then ([Print], Exit 127)
       else
         attempt (Pivot_root rootfs put_old)
           (attempt Chdir_root (attempt Umount_put_old (after [Rmdir_put_old] rest))))).

(** [inst]: the installation of the filter. *)
Definition child_main (inst : run -> run) (o : opts_r) : run :=
  attempt Prctl_no_new_privs
    (attempt_if (do_mountns o || do_netns o) (Unshare (do_mountns o) (do_netns o))
      (attempt_if (do_mountns o) Mount_private
        ((match rootfs o with Some d => do_pivot_root d | None => fun r => r end)
          ((match cgroup_dir o with Some d => join_cgroup d | None => fun r => r end)
            ((if do_seccomp o then inst else fun r => r) (execve (cart_argv o))))))).

Definition child_main_r (filter : build_result) (o : opts_r) : run := child_main (install filter) o.

(** ** spike s *)

Record opts_s := OptsS { lib_dir : option string; do_seccomp_s : bool; cart_argv_s : list string }.

Fixpoint parse_args_s (args : list string) (o : opts_s) : parsed opts_s :=
  match args with
  | [] => Bad
  | a :: rest =>
      if bool_decide (a = "--"%string) then
        match rest with
        | [] => Bad
        | _ => Parsed (OptsS (lib_dir o) (do_seccomp_s o) rest)
        end
      else if bool_decide (a = "--lib-dir"%string) then
        match rest with
        | d :: rest => parse_args_s rest (OptsS (Some d) (do_seccomp_s o) [])
        | [] => Bad
        end
      else if bool_decide (a = "--no-seccomp"%string) then parse_args_s rest (OptsS (lib_dir o) false [])
      else if bool_decide (a = "-h"%string) || bool_decide (a = "--help"%string) then Help
      else Bad
  end.

Definition defaults_s : opts_s := OptsS None true [].

(** [stat] tells a regular file with a positive value; [magic] is what [read]
    delivered. *)
Definition validate_cart (magic : list Z) (path : string) (rest : run) : run :=
  attempt (Stat path)
    (if negb (0 <? os (Stat path)) then ([Print], Exit 127)
     else
       attempt (Open_cart path)
         (after [Read_magic path]
           (if negb (bool_decide (magic = [0x7f; 69; 76; 70])) then ([Print], Exit 127) else rest))).

Definition child_main_s (magic : list Z) (o : opts_s) : run :=
  attempt Prctl_no_new_privs
    (validate_cart magic (hd EmptyString (cart_argv_s o))
      ((match lib_dir o with
        | Some d => fun r => attempt (Setenv_library_path d) (after [Print] r)
        | None => fun r => r
        end)
        ((if do_seccomp_s o then install install_phase1_filter else fun r => r) (execve (cart_argv_s o))))).

(** The constructor of libblyt32: it returns into the cart, or ends the process. *)
Definition libblyt32_phase2_constructor : list call * option Z :=
  match install_phase2_filter with
  | Program _ =>
      if os (Install install_phase2_filter) <? 0
      then ([Print; Install install_phase2_filter; Print; Print], Some 127)
      else ([Print; Install install_phase2_filter], None)
  | _ => ([Print; Print], Some 127)
  end.
End launchers.
Arguments Parsed {O}. Arguments Help {O}. Arguments Bad {O}.

(** [main]: -1 of the parser is 2, -1 of [fork] 1. *)
Definition main_ {O} (p : parsed O) (forked : bool) (s : status) : Z :=
  match p with
  | Parsed _ => if forked then report s else 1
  | Help => 0
  | Bad => 2
  end.

(** ** Runs that reach the cart *)

Section theorems.
Context (os : call -> Z).

Abbreviation run := (list call * outcome)%type.

Lemma attempt_execed c (rest : run) tr :
  attempt os c rest = (tr, Execed) -> exists tr', tr = c :: tr' /\ 0 <= os c /\ rest = (tr', Execed).
Proof.
  unfold attempt, after. destruct (Z.ltb_spec (os c) 0); [done|]. intros H0.
  destruct rest as [tr' o]. cbn in H0. injection H0 as <- ->. by exists tr'.
Qed.

Lemma attempt_if_execed b c (rest : run) tr :
  attempt_if os b c rest = (tr, Execed) ->
  exists tr', tr = (if b : bool then [c] else []) ++ tr' /\ (b = true -> 0 <= os c) /\ rest = (tr', Execed).
Proof.
  destruct b; cbn; [|by exists tr]. intros (tr' & -> & H & E)%attempt_execed. by exists tr'.
Qed.

Lemma after_execed c (rest : run) tr :
  after c rest = (tr, Execed) -> exists tr', tr = c ++ tr' /\ rest = (tr', Execed).
Proof. destruct rest as [tr' o]. cbn. intros [= <- ->]. by exists tr'. Qed.

Lemma install_execed f argv tr :
  install os f (execve os argv) = (tr, Execed) -> tr = [Print; Install f; Execve argv] /\ 0 <= os (Install f).
Proof.
  unfold install. destruct f; try done. intros (tr1 & -> & (tr2 & -> & H & E)%attempt_execed)%after_execed.
  unfold execve in E. apply after_execed in E as (tr3 & -> & E). destruct (_ <? 0); [done|].
  injection E as <-. done.
Qed.

Lemma execve_execed argv tr : execve os argv = (tr, Execed) -> tr = [Execve argv].
Proof.
  unfold execve. intros (tr3 & -> & E)%after_execed. destruct (_ <? 0); [done|]. by injection E as <-.
Qed.

(** A call was made and succeeded. *)
Definition made (c : call) (tr : list call) : Prop := In c tr /\ 0 <= os c.

Lemma pivot_execed dir (rest : run) tr :
  do_pivot_root os dir rest = (tr, Execed) ->
  exists pre tr', tr = pre ++ tr' /\ rest = (tr', Execed) /\
    made (Pivot_root dir (path512 dir "/put_old")) pre /\ made Umount_put_old pre.
Proof.
  unfold do_pivot_root. intros (t1 & -> & _ & (t2 & -> & E)%after_execed)%attempt_execed.
  destruct (_ && _); [done|].
  apply attempt_execed in E as (t3 & -> & H1 & (t4 & -> & _ & (t5 & -> & H2 & (t6 & -> & E)%after_execed)%attempt_execed)%attempt_execed).
  eexists [_; _; _; _; _; _], t6. split; [reflexivity|]. split; [done|].
  split; (split; [cbn; tauto|done]).
Qed.

(** The isolation of a child that executes the cart; [last] is what the installation of
    the filter calls, [P] what is known when it succeeds. *)
Lemma child_main_isolated (inst : run -> run) o tr (last : list call) (P : Prop) :
  (forall t, inst (execve os (cart_argv o)) = (t, Execed) -> t = last ++ [Execve (cart_argv o)] /\ P) ->
  child_main os inst o = (tr, Execed) ->
  made Prctl_no_new_privs tr /\
  (do_mountns o = true -> made (Unshare true (do_netns o)) tr /\ made Mount_private tr) /\
  (do_netns o = true -> made (Unshare (do_mountns o) true) tr) /\
  (forall d, rootfs o = Some d -> made (Pivot_root d (path512 d "/put_old")) tr /\ made Umount_put_old tr) /\
  (forall d, cgroup_dir o = Some d -> made (Write_pid (path512 d "/cgroup.procs")) tr) /\
  (do_seccomp o = true -> P /\ exists pre, tr = pre ++ last ++ [Execve (cart_argv o)]).
Proof.
  intros Hinst. unfold child_main.
  intros (t1 & -> & Hn & (t2 & -> & Hu & (t3 & -> & Hm & E)%attempt_if_execed)%attempt_if_execed)%attempt_execed.
  assert (exists pre t4, t3 = pre ++ t4 /\
    (forall d, rootfs o = Some d -> made (Pivot_root d (path512 d "/put_old")) pre /\ made Umount_put_old pre) /\
    (match cgroup_dir o with Some d => join_cgroup os d | None => fun r => r end)
      ((if do_seccomp o then inst else fun r => r) (execve os (cart_argv o))) = (t4, Execed))
    as (pre & t4 & -> & Hroot & E4).
  { destruct (rootfs o) as [d|]; [|by exists [], t3].
    apply pivot_execed in E as (pre & t4 & -> & E & H1 & H2). exists pre, t4.
    split; [done|]. split; [by intros ? [= <-]|exact E]. }
  assert (exists pre' t5, t4 = pre' ++ t5 /\
    (forall d, cgroup_dir o = Some d -> made (Write_pid (path512 d "/cgroup.procs")) pre') /\
    (if do_seccomp o then inst else fun r => r) (execve os (cart_argv o)) = (t5, Execed))
    as (pre' & t5 & -> & Hcg & E5).
  { destruct (cgroup_dir o) as [d|]; [|by exists [], t4].
    apply attempt_execed in E4 as (t5 & -> & _ & (t6 & -> & Hw & E5)%attempt_execed).
    exists [Open_procs (path512 d "/cgroup.procs"); Write_pid (path512 d "/cgroup.procs")], t6.
    split; [done|]. split; [|exact E5]. intros ? [= <-]. split; [cbn; tauto|done]. }
  split; [split; [by left|done]|]. split.
  { intros Eb. rewrite Eb in *. cbn [orb app]. split; (split; [cbn; tauto|auto]). }
  split.
  { intros Eb. rewrite Eb in *. rewrite orb_true_r in *. split; [cbn; tauto|auto]. }
  split.
  { intros d Hd. destruct (Hroot d Hd) as [[H1 H1'] [H2 H2']].
    split; (split; [|done]); right; rewrite !in_app_iff; tauto. }
  split.
  { intros d Hd. destruct (Hcg d Hd) as [H1 H1']. split; [|done]. right. rewrite !in_app_iff. tauto. }
  intros Eb. rewrite Eb in E5. apply Hinst in E5 as [-> Hi]. split; [exact Hi|].
  exists (Prctl_no_new_privs :: (if do_mountns o || do_netns o then [Unshare (do_mountns o) (do_netns o)] else []) ++
    (if do_mountns o then [Mount_private] else []) ++ pre ++ pre').
  cbn [app]. by rewrite <-!app_assoc.
Qed.

(** C22: No cart without its isolation (spike r).  When the child executes the cart,
    every isolation its options ask for has been set up by a call that succeeded -
    the namespaces, the private mounts, the new root without the old one, the
    cgroup - no new privileges can be gained, and the last thing before the cart
    is the installation of the filter. *)
Theorem cart_isolated filter o tr :
  child_main_r os filter o = (tr, Execed) ->
  made Prctl_no_new_privs tr /\
  (do_mountns o = true -> made (Unshare true (do_netns o)) tr /\ made Mount_private tr) /\
  (do_netns o = true -> made (Unshare (do_mountns o) true) tr) /\
  (forall d, rootfs o = Some d -> made (Pivot_root d (path512 d "/put_old")) tr /\ made Umount_put_old tr) /\
  (forall d, cgroup_dir o = Some d -> made (Write_pid (path512 d "/cgroup.procs")) tr) /\
  (do_seccomp o = true -> made (Install filter) tr /\
     exists pre, tr = pre ++ [Install filter; Execve (cart_argv o)]).
Proof.
  intros E. apply (child_main_isolated _ _ _ [Print; Install filter] (0 <= os (Install filter))) in E
    as (H1 & H2 & H3 & H4 & H5 & H6); [|apply install_execed].
  split_and!; try done. intros Hs. destruct (H6 Hs) as [Hi [pre ->]]. split.
  - split; [|done]. rewrite !in_app_iff. cbn. tauto.
  - exists (pre ++ [Print]). by rewrite <-app_assoc.
Qed.

(** ** spike s *)

(** The number of a call the launcher makes behind its filter; [_exit] is 94. *)
Definition call_nr (c : call) : option Z :=
  match c with Execve _ => Some 221 | Print => Some 64 | _ => None end.

Definition exit_group : Z := 94.

(** The first phase lets the call pass. *)
Definition passes (c : call) : Prop := exists nr, call_nr c = Some nr /\ In nr seccomp_phase1_riscv64_nrs.

(** The calls behind the installation of a filter. *)
Fixpoint behind (tr : list call) : list call :=
  match tr with
  | [] => []
  | Install _ :: tr => tr
  | _ :: tr => behind tr
  end.

(** The launcher of spike s lives with its own filter.  When it executes the
    cart, the cart is a regular file with the ELF magic, and the last call before
    is the first phase's installation; and in every run with the filter, also one
    that fails, whatever is called behind the installation - and the exit - is in
    the list of the first phase, so the launcher is not killed by it. *)
Theorem launcher_s_filtered magic o tr out :
  do_seccomp_s o = true ->
  child_main_s os magic o = (tr, out) ->
  (out = Execed ->
     magic = [0x7f; 69; 76; 70] /\ made Prctl_no_new_privs tr /\ made (Install install_phase1_filter) tr /\
     exists pre, tr = pre ++ [Install install_phase1_filter; Execve (cart_argv_s o)]) /\
  Forall passes (behind tr) /\ In exit_group seccomp_phase1_riscv64_nrs.
Proof.
  intros Hs E. split.
  - intros ->. unfold child_main_s in E. rewrite Hs in E.
    apply attempt_execed in E as (t1 & -> & Hn & (t2 & -> & _ & E)%attempt_execed).
    destruct (negb _); [done|]. apply attempt_execed in E as (t3 & -> & _ & (t4 & -> & E)%after_execed).
    destruct (bool_decide (magic = [127; 69; 76; 70])) eqn:Em; [|done]. apply bool_decide_eq_true in Em.
    cbn [negb] in E. split; [done|].
    assert (exists pre, t4 = pre ++ [Print; Install install_phase1_filter; Execve (cart_argv_s o)] /\
      0 <= os (Install install_phase1_filter)) as (pre & -> & Hi).
    { destruct (lib_dir o) as [d|].
      - apply attempt_execed in E as (t5 & -> & _ & (t6 & -> & [-> Hi]%install_execed)%after_execed).
        by eexists [_; _].
      - apply install_execed in E as [-> Hi]. by exists []. }
    split; [split; [by left|done]|]. split.
    + split; [|done]. do 3 right. cbn [app]. right. rewrite in_app_iff. cbn. tauto.
    + exists (Prctl_no_new_privs :: Stat (hd EmptyString (cart_argv_s o)) :: Open_cart (hd EmptyString (cart_argv_s o)) ::
        Read_magic (hd EmptyString (cart_argv_s o)) :: pre ++ [Print]).
      cbn [app]. by rewrite <-app_assoc.
  - split; [|cbn; tauto]. unfold child_main_s, validate_cart in E. rewrite Hs in E.
    revert E. generalize install_phase1_filter. intros f.
    assert (forall r : run, Forall passes (behind (fst (install os f (execve os (cart_argv_s o)))))) as Hi.
    { intros _. unfold install, attempt, execve, after. destruct f; cbn; repeat (case_match; cbn); repeat constructor;
        eexists; (split; [reflexivity|cbn; tauto]). }
    intros E. apply (f_equal fst) in E. cbn [fst] in E. subst tr. revert Hi.
    generalize (install os f (execve os (cart_argv_s o))). intros r Hi. specialize (Hi r).
    unfold attempt, after. destruct (lib_dir o) as [d|]; cbn; repeat (case_match; cbn); done || constructor.
Qed.
End theorems.

(** ** Arguments *)

Definition flag (b : bool) (name : string) : list string := if b then [] else [name].

Definition print_args_r (o : opts_r) : list string :=
  match cgroup_dir o with Some d => ["--cgroup"%string; d] | None => [] end ++
  match rootfs o with Some d => ["--rootfs"%string; d] | None => [] end ++
  flag (do_seccomp o) "--no-seccomp" ++ flag (do_netns o) "--no-netns" ++ flag (do_mountns o) "--no-mountns" ++
  ["--"%string] ++ cart_argv o.

(** The options a user writes are the options the launcher runs with. *)
Lemma parse_args_print o : cart_argv o <> [] -> parse_args_r (print_args_r o) defaults_r = Parsed o.
Proof.
  intros Hc. destruct o as [cg rf se ne mo [|c argv]]; [done|].
  destruct cg, rf, se, ne, mo; reflexivity.
Qed.

Lemma parse_args_missing o : parse_args_r ["--"%string] o = Bad /\ parse_args_r [] o = Bad.
Proof. by split. Qed.

(** ** Witnesses *)

(** An operating system in which everything succeeds, and files are regular. *)
Definition willing (c : call) : Z := match c with Stat _ => 1 | _ => 0 end.

Definition asked : opts_r := OptsR (Some "/cg"%string) (Some "/root"%string) true true true ["/cart"%string].

Lemma cart_isolated_witness :
  made willing (Install install_raw_bpf_filter) (fst (child_main_r willing install_raw_bpf_filter asked)).
Proof.
  apply (cart_isolated willing install_raw_bpf_filter asked); [|reflexivity].
  vm_compute. reflexivity.
Defined.

Lemma launcher_s_filtered_witness :
  Forall passes (behind (fst (child_main_s willing [0x7f; 69; 76; 70] (OptsS None true ["/cart"%string])))).
Proof.
  apply (launcher_s_filtered willing [0x7f; 69; 76; 70] (OptsS None true ["/cart"%string])
    (fst (child_main_s willing [0x7f; 69; 76; 70] (OptsS None true ["/cart"%string]))) Execed);
    [reflexivity|vm_compute; reflexivity].
Defined.
