(* ===== verification/Facade.v ===== *)
(** * The runtime facade (spikes/spike-l/lib/blyt_facade.c)

    The entry points a frontend drives the runtime through, in the synthetic
    mode the file builds: a cart with an animated rectangle, the mixer's schedule
    of voice ends, a two-tone mixer, and its own save-state code for the packed
    images of three structs.  [None] is undefined behaviour (a write outside of
    the framebuffer, a signed overflow, a float that no [int16_t] can hold) or the
    [abort] of [blyt_runtime_assert_slots_locked].  A runtime pointer is an
    [option]; the build without BLYT_FACADE_ALT_LAYOUT is modelled. *)

From Stdlib Require Import SpecFloat.
From S2P Require Import Prelude Layout Float32 FloatExact Determinism SaveState.
Open Scope Z_scope.

Definition FB_WIDTH : Z := 320.
Definition FB_HEIGHT : Z := 240.
Definition FB_BYTES : Z := FB_WIDTH * FB_HEIGHT.

Definition BLYT_BUTTON_UP : Z := 1 ≪ 0.
Definition BLYT_BUTTON_DOWN : Z := 1 ≪ 1.
Definition BLYT_BUTTON_LEFT : Z := 1 ≪ 2.
Definition BLYT_BUTTON_RIGHT : Z := 1 ≪ 3.
Definition BLYT_BUTTON_A : Z := 1 ≪ 4.

(** ** The tracked structs *)

Record cart_state_t := CartState {
  cframe : Z; rect_x : Z; rect_y : Z; rect_color : Z; cart_pad : list Z;
  cbutton_mask : Z; accel_count : Z }.

Definition cart_layout : layout cart_state_t :=
  struct (uint 4 ⨾ sint 4 ⨾ sint 4 ⨾ uint 1 ⨾ raw 3 ⨾ uint 4 ⨾ uint 4)%layout
    (fun c => (cframe c, (rect_x c, (rect_y c, (rect_color c, (cart_pad c, (cbutton_mask c, accel_count c)))))))
    (fun '(a, (b, (c, (d, (e, (f, g)))))) => CartState a b c d e f g).

Record pending_t := Pending { frame_n : Z; voice_handle : Z; pending_pad : list Z }.

Definition pending_layout : layout pending_t :=
  struct (uint 4 ⨾ uint 1 ⨾ raw 3)%layout
    (fun e => (frame_n e, (voice_handle e, pending_pad e))) (fun '(a, (b, c)) => Pending a b c).

Record voice_end_queue_t := Queue { pending_count : Z; pending : list pending_t }.

Definition queue_layout : layout voice_end_queue_t :=
  struct (uint 4 ⨾ array 16 pending_layout)%layout
    (fun q => (pending_count q, pending q)) (fun '(a, b) => Queue a b).

Record screen_shake_t := Shake { frame_count : Z; seed : Z; intensity : Z; remaining_frames : Z }.

Definition shake_layout : layout screen_shake_t :=
  struct (uint 4 ⨾ uint 4 ⨾ uint 4 ⨾ uint 4)%layout
    (fun s => (frame_count s, (seed s, (intensity s, remaining_frames s))))
    (fun '(a, (b, (c, d))) => Shake a b c d).

#[export] Instance cart_lawful : Lawful cart_layout.
Proof. apply struct_lawful; [apply _|by intros []|by intros (?&?&?&?&?&?&?)]. Qed.
#[export] Instance pending_lawful : Lawful pending_layout.
Proof. apply struct_lawful; [apply _|by intros []|by intros (?&?&?)]. Qed.
#[export] Instance queue_lawful : Lawful queue_layout.
Proof. apply struct_lawful; [apply _|by intros []|by intros (?&?)]. Qed.
#[export] Instance shake_lawful : Lawful shake_layout.
Proof. apply struct_lawful; [apply _|by intros []|by intros (?&?&?&?)]. Qed.

(** ** The runtime instance *)

Record blyt_runtime_t := Runtime {
  cart : cart_state_t;
  voice_q : voice_end_queue_t;
  shake : screen_shake_t;
  framebuffer : list Z;
  palette : list Z;
  button_mask : list Z;
  audio_phase_hi : Z;
  audio_phase_lo : Z;
  audio_total_frames_emitted : Z;
  rt_layout_hash : Z;
  slots_locked : bool;
  save_upper_bound : Z;
}.

Definition set_tracked (c : cart_state_t) (q : voice_end_queue_t) (s : screen_shake_t)
    (rt : blyt_runtime_t) : blyt_runtime_t :=
  Runtime c q s (framebuffer rt) (palette rt) (button_mask rt) (audio_phase_hi rt) (audio_phase_lo rt)
    (audio_total_frames_emitted rt) (rt_layout_hash rt) (slots_locked rt) (save_upper_bound rt).
Definition set_framebuffer (fb : list Z) (rt : blyt_runtime_t) : blyt_runtime_t :=
  Runtime (cart rt) (voice_q rt) (shake rt) fb (palette rt) (button_mask rt) (audio_phase_hi rt)
    (audio_phase_lo rt) (audio_total_frames_emitted rt) (rt_layout_hash rt) (slots_locked rt)
    (save_upper_bound rt).
Definition set_audio (hi lo total : Z) (rt : blyt_runtime_t) : blyt_runtime_t :=
  Runtime (cart rt) (voice_q rt) (shake rt) (framebuffer rt) (palette rt) (button_mask rt) hi lo total
    (rt_layout_hash rt) (slots_locked rt) (save_upper_bound rt).
Definition set_button_mask (m : list Z) (rt : blyt_runtime_t) : blyt_runtime_t :=
  Runtime (cart rt) (voice_q rt) (shake rt) (framebuffer rt) (palette rt) m (audio_phase_hi rt)
    (audio_phase_lo rt) (audio_total_frames_emitted rt) (rt_layout_hash rt) (slots_locked rt)
    (save_upper_bound rt).

Definition layout_desc : list Z :=
  cstr "cart_state|24|" ++
  cstr "frame:u32:0,rect_x:i32:4,rect_y:i32:8,rect_color:u8:12," ++
  cstr "button_mask:u32:16,accel_count:u32:20" ++ [0] ++
  cstr "voice_end_queue|132|pending_count:u32:0,pending[16]:rec:4" ++ [0] ++
  cstr "screen_shake|16|frame_count:u32:0,seed:u32:4,intensity:u32:8," ++
  cstr "remaining_frames:u32:12" ++ [0; 0].

Definition compute_layout_hash : Z := fnv1a_64 layout_desc.

(** ** The mixer's schedule *)

Record mixer_event_t := MixerEvent { handle : Z; ends_at_frame : Z }.

Definition synthetic_schedule : list mixer_event_t := [MixerEvent 1 150; MixerEvent 2 150].

(** One round of the loop; the padding of an entry is kept. *)
Definition report_event (frame : Z) (q : voice_end_queue_t) (e : mixer_event_t) : voice_end_queue_t :=
  if negb (ends_at_frame e =? frame) then q
  else if 16 <=? pending_count q then q
  else Queue (u32 (pending_count q + 1))
         (alter (fun p => Pending frame (handle e) (pending_pad p))
            (Z.to_nat (pending_count q)) (pending q)).

Definition mixer_report_end_of_frame (q : voice_end_queue_t) (frame : Z) : voice_end_queue_t :=
  fold_left (report_event frame) synthetic_schedule q.

(** ** Creation and reset *)

Definition palette_entry (i : Z) : Z :=
  let r := Z.land (i ≫ 5) 0x7 * 255 / 7 in
  let g := Z.land (i ≫ 2) 0x7 * 255 / 7 in
  let b := Z.land i 0x3 * 255 / 3 in
  Z.lor (Z.lor (Z.lor 0xff000000 (r ≪ 16)) (g ≪ 8)) b.

Definition init_palette : list Z := map (fun i => palette_entry (Z.of_nat i)) (seq 0 256).

Definition zero_queue : voice_end_queue_t := Queue 0 (repeat (Pending 0 0 [0; 0; 0]) 16).

Definition cart_init (rt : blyt_runtime_t) : blyt_runtime_t :=
  set_audio 0 0 0
    (set_tracked (CartState 0 32 32 0xe3 [0; 0; 0] 0 0) zero_queue (Shake 0 0x600d5eed 0 0) rt).

(** What [calloc] leaves. *)
Definition zero_runtime : blyt_runtime_t :=
  Runtime (CartState 0 0 0 0 [0; 0; 0] 0 0) zero_queue (Shake 0 0 0 0)
    (repeat 0 (Z.to_nat FB_BYTES)) (repeat 0 256) [0; 0] 0 0 0 0 false 0.

(** [mem]: whether [calloc] succeeds. *)
Definition blyt_runtime_create (mem : bool) : option blyt_runtime_t :=
  if negb mem then None
  else
    let rt := zero_runtime in
    let rt := Runtime (cart rt) (voice_q rt) (shake rt) (framebuffer rt) init_palette (button_mask rt)
                0 0 0 (rt_layout_hash rt) (slots_locked rt) (save_upper_bound rt) in
    let rt := cart_init rt in
    Some (Runtime (cart rt) (voice_q rt) (shake rt) (framebuffer rt) (palette rt) (button_mask rt)
            (audio_phase_hi rt) (audio_phase_lo rt) (audio_total_frames_emitted rt)
            compute_layout_hash true (24 + 24 + 132 + 16)).

Definition blyt_runtime_destroy (rt : option blyt_runtime_t) : option blyt_runtime_t := None.

Definition blyt_runtime_reset (rt : option blyt_runtime_t) : option blyt_runtime_t :=
  option_map cart_init rt.

(** ** A tick *)

Definition pressed (m b : Z) : bool := negb (Z.land m b =? 0).

(** A signed 32-bit sum; [None] when it overflows. *)
Definition add_i32 (x y : Z) : option Z :=
  if (- 2 ^ 31 <=? x + y) && (x + y <? 2 ^ 31) then Some (x + y) else None.

Definition clamp (hi x : Z) : Z :=
  let x := if x <? 0 then 0 else x in
  if hi <? x then hi else x.

Definition update_cart (m : Z) (c : cart_state_t) : option cart_state_t :=
  let frame := u32 (cframe c + 1) in
  let '(frame, accel) :=
    if pressed m BLYT_BUTTON_A then (u32 (frame + 1), u32 (accel_count c + 1)) else (frame, accel_count c) in
  x ← add_i32 (rect_x c) (if pressed m BLYT_BUTTON_RIGHT then 4 else 1);
  x ← add_i32 x (if pressed m BLYT_BUTTON_LEFT then -4 else 0);
  y ← add_i32 (rect_y c) (if pressed m BLYT_BUTTON_DOWN then 4 else 0);
  y ← add_i32 y (if pressed m BLYT_BUTTON_UP then -4 else 0);
  Some (CartState frame (clamp (FB_WIDTH - 64) x) (clamp (FB_HEIGHT - 32) y) (rect_color c) (cart_pad c)
          m accel).

Definition update_rt (rt : blyt_runtime_t) : option blyt_runtime_t :=
  c ← update_cart (nth 0 (button_mask rt) 0) (cart rt);
  Some (set_tracked c (mixer_report_end_of_frame (voice_q rt) (cframe c)) (shake rt) rt).

Definition blyt_runtime_update (rt : option blyt_runtime_t) : option (option blyt_runtime_t) :=
  match rt with
  | None => Some None
  | Some r => r ← update_rt r; Some (Some r)
  end.

(** ** Drawing *)

(** [memset(&fb[off], v, n)]: undefined outside of the framebuffer. *)
Definition fill (fb : list Z) (off v n : Z) : option (list Z) :=
  if (off <? 0) || (n <? 0) || (Z.of_nat (length fb) <? off + n) then None
  else Some (write_at (Z.to_nat off) (repeat (u8 v) (Z.to_nat n)) fb).

(** [for (y = y0; y < y0 + n; y++)] over an operation on the framebuffer. *)
Fixpoint for_rows (n : nat) (y : Z) (f : Z -> list Z -> option (list Z)) (fb : list Z)
  : option (list Z) :=
  match n with
  | O => Some fb
  | S n => fb ← f y fb; for_rows n (y + 1) f fb
  end.

Definition background (frame y : Z) : Z := u8 (Z.lxor (y * 256 / FB_HEIGHT) (Z.land frame 0x07)).

Definition draw_rt (rt : blyt_runtime_t) : option blyt_runtime_t :=
  let c := cart rt in
  fb ← for_rows (Z.to_nat FB_HEIGHT) 0
         (fun y fb => fill fb (y * FB_WIDTH) (background (cframe c) y) FB_WIDTH) (framebuffer rt);
  x1 ← add_i32 (rect_x c) 64;
  y1 ← add_i32 (rect_y c) 32;
  let x1 := if FB_WIDTH <? x1 then FB_WIDTH else x1 in
  let y1 := if FB_HEIGHT <? y1 then FB_HEIGHT else y1 in
  fb ← for_rows (Z.to_nat (y1 - rect_y c)) (rect_y c)
         (fun y fb => fill fb (y * FB_WIDTH + rect_x c) (rect_color c) (x1 - rect_x c)) fb;
  Some (set_framebuffer fb rt).

Definition blyt_runtime_draw (rt : option blyt_runtime_t) : option (option blyt_runtime_t) :=
  match rt with
  | None => Some None
  | Some r => r ← draw_rt r; Some (Some r)
  end.

Definition blyt_runtime_get_framebuffer (rt : option blyt_runtime_t) : option (list Z) :=
  option_map framebuffer rt.
Definition blyt_runtime_get_palette (rt : option blyt_runtime_t) : option (list Z) :=
  option_map palette rt.

(** ** Audio *)

Definition f32_div (a b : Z) : Z :=
  f32_to_bits (SFdiv f32_prec f32_emax (f32_of_bits a) (f32_of_bits b)).

(** [(int16_t)f]: truncation, undefined when the result does not fit. *)
Definition f32_to_i16 (u : Z) : option Z :=
  match f32_of_bits u with
  | S754_zero _ => Some 0
  | S754_finite s m e =>
      let n := if 0 <=? e then Zpos m * 2 ^ e else Zpos m / 2 ^ (- e) in
      let n := if s then - n else n in
      if (- 2 ^ 15 <=? n) && (n <? 2 ^ 15) then Some n else None
  | _ => None
  end.

(** [8192.0f] and [6.2831853f]. *)
Definition f32_8192 : Z := 0x46000000.
Definition f32_2pi : Z := 0x40c90fdb.

Section audio.
Context (sinf : Z -> Z).

Definition sample_rate : Z := 48000.
Definition inc_hi : Z := u32 (u64 (440 ≪ 32) / sample_rate).
Definition inc_lo : Z := u32 (u64 (660 ≪ 32) / sample_rate).

(** The value a tone adds at a phase. *)
Definition tone (phase : Z) : option Z :=
  let t := f32_div (f32_of_Z phase) (f32_of_Z (2 ^ 32)) in
  f32_to_i16 (f32_mul f32_8192 (sinf (f32_mul f32_2pi t))).

(** [n] rounds of the loop: the two phases and the samples. *)
Fixpoint audio_loop (n : nat) (play_hi play_lo : bool) (hi lo : Z)
  : option (Z * Z * list (Z * Z)) :=
  match n with
  | O => Some (hi, lo, [])
  | S n =>
      l ← (if play_hi then tone hi else Some 0);
      r ← (if play_lo then tone lo else Some 0);
      let hi := if play_hi then u32 (hi + inc_hi) else hi in
      let lo := if play_lo then u32 (lo + inc_lo) else lo in
      '(hi, lo, rest) ← audio_loop n play_hi play_lo hi lo;
      Some (hi, lo, (l, r) :: rest)
  end.

Definition pull_audio_rt (rt : blyt_runtime_t) (frames : Z)
  : option (blyt_runtime_t * list (Z * Z)) :=
  let frame := cframe (cart rt) in
  let play_hi := (30 <=? frame) && (frame <? 150) in
  let play_lo := (90 <=? frame) && (frame <? 150) in
  '(hi, lo, samples) ←
    audio_loop (Z.to_nat frames) play_hi play_lo (audio_phase_hi rt) (audio_phase_lo rt);
  Some (set_audio hi lo (u32 (audio_total_frames_emitted rt + frames)) rt, samples).

(** The runtime, the frames written to [buf], and the result; [buf] tells whether
    the pointer is not null. *)
Definition blyt_runtime_pull_audio (rt : option blyt_runtime_t) (buf : bool) (frames : Z)
  : option (option blyt_runtime_t * list (Z * Z) * Z) :=
  match rt with
  | Some r =>
      if negb buf || (frames <=? 0) then Some (rt, [], 0)
      else '(r, samples) ← pull_audio_rt r frames; Some (Some r, samples, frames)
  | None => Some (rt, [], 0)
  end.
End audio.

Definition blyt_runtime_audio_sample_rate (rt : option blyt_runtime_t) : Z := 48000.
Definition blyt_runtime_declared_fps (rt : option blyt_runtime_t) : Z := 60.

Definition blyt_runtime_set_button_state (rt : option blyt_runtime_t) (player mask : Z)
  : option blyt_runtime_t :=
  match rt with
  | Some r =>
      if (player <? 0) || (1 <? player) then rt
      else Some (set_button_mask (<[Z.to_nat player := mask]> (button_mask r)) r)
  | None => None
  end.

(** ** Save states *)

Definition blyt_runtime_save_upper_bound (rt : option blyt_runtime_t) : Z :=
  match rt with Some r => save_upper_bound r | None => 0 end.

(** The images of the three structs. *)
Definition tracked_image (c : cart_state_t) (q : voice_end_queue_t) (s : screen_shake_t) : list Z :=
  lenc cart_layout c ++ lenc queue_layout q ++ lenc shake_layout s.

(** The buffer afterwards and the result; [buf] is null or the memory there. *)
Definition blyt_runtime_save (rt : option blyt_runtime_t) (buf : option (list Z)) (cap : Z)
  : option (option (list Z) * Z) :=
  match rt, buf with
  | Some r, Some b =>
      let need := save_upper_bound r in
      if cap <? need then Some (buf, 0)
      else
        let h := {| magic := SAVE_STATE_MAGIC; version := SAVE_STATE_VERSION;
                    layout_hash := rt_layout_hash r; hframe := cframe (cart r);
                    total_size := need |} in
        let image := lenc header_layout h ++ tracked_image (cart r) (voice_q r) (shake r) in
        if (length b <? length image)%nat then None
        else Some (Some (write_at 0 image b), need)
  | _, _ => Some (buf, 0)
  end.

(** [buf] is null or at least the [size] bytes the caller vouches for. *)
Definition blyt_runtime_load (rt : option blyt_runtime_t) (buf : option (list Z)) (size : Z)
  : option (option blyt_runtime_t * bool) :=
  match rt, buf with
  | Some r, Some b =>
      if size <? 24 then Some (rt, false) else
      if Z.of_nat (length b) <? size then None else
      let h := read_header b in
      if negb (magic h =? SAVE_STATE_MAGIC) then Some (rt, false) else
      if negb (version h =? SAVE_STATE_VERSION) then Some (rt, false) else
      if negb (layout_hash h =? rt_layout_hash r) then Some (rt, false) else
      if size <? total_size h then Some (rt, false) else
      if negb (total_size h =? save_upper_bound r) then Some (rt, false) else
      if (length b <? 24 + 24 + 132 + 16)%nat then None else
      Some (Some (set_tracked (ldec cart_layout (slice 24 24 b)) (ldec queue_layout (slice 48 132 b))
                    (ldec shake_layout (slice 180 16 b)) r), true)
  | _, _ => Some (rt, false)
  end.

(** [false] is the [abort]. *)
Definition blyt_runtime_assert_slots_locked (rt : option blyt_runtime_t) : bool :=
  match rt with Some r => slots_locked r | None => true end.

(** ** Well-formed runtimes *)

(** The regions a save state carries, with the rectangle inside the picture. *)
Definition tracked_ok (c : cart_state_t) (q : voice_end_queue_t) (s : screen_shake_t) : Prop :=
  lwf cart_layout c /\ lwf queue_layout q /\ lwf shake_layout s /\
  0 <= rect_x c <= FB_WIDTH - 64 /\ 0 <= rect_y c <= FB_HEIGHT - 32.

Record rt_ok (r : blyt_runtime_t) : Prop := {
  ok_tracked : tracked_ok (cart r) (voice_q r) (shake r);
  ok_framebuffer : Z.of_nat (length (framebuffer r)) = FB_BYTES;
  ok_palette : palette r = init_palette;
  ok_buttons : length (button_mask r) = 2%nat /\ 0 <= nth 0 (button_mask r) 0 < 2 ^ 16;
  ok_hash : rt_layout_hash r = compute_layout_hash;
  ok_locked : slots_locked r = true;
  ok_bound : save_upper_bound r = 196;
  ok_phases : 0 <= audio_phase_hi r < 2 ^ 32 /\ 0 <= audio_phase_lo r < 2 ^ 32;
}.

Lemma zero_queue_wf : lwf queue_layout zero_queue.
Proof.
  split; [cbn; lia|]. split; [done|]. apply List.Forall_forall. intros p ->%repeat_spec. cbn. split; [lia|]. split; [lia|].
  split; [done|]. repeat (constructor; [unfold is_byte; lia|]). constructor.
Qed.

Lemma compute_layout_hash_range : 0 <= compute_layout_hash < 2 ^ 64.
Proof. exact (fnv1a_64_range layout_desc). Qed.

#[local] Opaque compute_layout_hash init_palette.

Lemma cart_init_tracked r : tracked_ok (cart (cart_init r)) (voice_q (cart_init r)) (shake (cart_init r)).
Proof.
  split; [|split; [exact zero_queue_wf|]].
  - cbn. repeat split; try lia; repeat (constructor; [unfold is_byte; lia|]); constructor.
  - cbn. unfold FB_WIDTH, FB_HEIGHT. repeat split; lia.
Qed.

Lemma reset_ok r : rt_ok r -> rt_ok (cart_init r).
Proof. intros [_ Hf Hp Hb Hh Hl Hs Hph]. exact (Build_rt_ok (cart_init r) (cart_init_tracked r) Hf Hp Hb Hh Hl Hs ltac:(cbn; lia)). Qed.

Lemma length_black : Z.of_nat (length (repeat 0 (Z.to_nat FB_BYTES))) = FB_BYTES.
Proof. rewrite repeat_length. apply Z2Nat.id. unfold FB_BYTES, FB_WIDTH, FB_HEIGHT. lia. Qed.

Lemma create_ok : exists r, blyt_runtime_create true = Some r /\ rt_ok r.
Proof.
  eexists. split; [reflexivity|].
  constructor; [exact (cart_init_tracked zero_runtime)|exact length_black|exact eq_refl| |exact eq_refl..|cbn; lia].
  split; [exact eq_refl|cbn; lia].
Qed.

(** ** Ticks *)

Lemma add_i32_small x y : - 2 ^ 31 <= x + y < 2 ^ 31 -> add_i32 x y = Some (x + y).
Proof. intros. unfold add_i32. zcase. Qed.

Lemma clamp_range hi x : 0 <= hi -> 0 <= clamp hi x <= hi.
Proof. intros. unfold clamp. zcase. Qed.

Lemma update_cart_ok m c :
  lwf cart_layout c -> 0 <= rect_x c <= FB_WIDTH - 64 -> 0 <= rect_y c <= FB_HEIGHT - 32 ->
  0 <= m < 2 ^ 16 ->
  exists c', update_cart m c = Some c' /\ lwf cart_layout c' /\
    0 <= rect_x c' <= FB_WIDTH - 64 /\ 0 <= rect_y c' <= FB_HEIGHT - 32.
Proof.
  intros Hc Hx Hy Hm. unfold update_cart.
  destruct (if pressed m BLYT_BUTTON_A then _ else _) as [fr acc] eqn:Ea.
  assert (0 <= fr < 2 ^ 32 /\ 0 <= acc < 2 ^ 32) as [Hfr Hacc].
  { destruct Hc as (_ & _ & _ & _ & _ & _ & Hacc).
    destruct (pressed m BLYT_BUTTON_A); injection Ea as <- <-; split;
      try apply wrap_range; try lia; exact Hacc. }
  unfold FB_WIDTH, FB_HEIGHT in *.
  assert (forall (b : bool) n d, -4 <= n <= 4 -> -4 <= d <= 4 -> -4 <= (if b then n else d) <= 4) as Hd
    by (by intros []).
  pose proof (Hd (pressed m BLYT_BUTTON_RIGHT) 4 1 ltac:(lia) ltac:(lia)) as H1.
  pose proof (Hd (pressed m BLYT_BUTTON_LEFT) (-4) 0 ltac:(lia) ltac:(lia)) as H2.
  pose proof (Hd (pressed m BLYT_BUTTON_DOWN) 4 0 ltac:(lia) ltac:(lia)) as H3.
  pose proof (Hd (pressed m BLYT_BUTTON_UP) (-4) 0 ltac:(lia) ltac:(lia)) as H4.
  set (d1 := if _ : bool then 4 else 1) in *. set (d2 := if pressed m BLYT_BUTTON_LEFT then -4 else 0) in *.
  set (d3 := if pressed m BLYT_BUTTON_DOWN then 4 else 0) in *.
  set (d4 := if pressed m BLYT_BUTTON_UP then -4 else 0) in *. clearbody d1 d2 d3 d4.
  rewrite (add_i32_small (rect_x c) d1) by lia. cbn [mbind option_bind].
  rewrite (add_i32_small (rect_x c + d1) d2) by lia. cbn [mbind option_bind].
  rewrite (add_i32_small (rect_y c) d3) by lia. cbn [mbind option_bind].
  rewrite (add_i32_small (rect_y c + d3) d4) by lia. cbn [mbind option_bind].
  eexists. split; [reflexivity|]. cbn [rect_x rect_y].
  split; [|split; apply clamp_range; lia].
  destruct Hc as (_ & _ & _ & Hcol & Hpad & _ & _). cbn in Hcol, Hpad |- *.
  pose proof (clamp_range (320 - 64)). pose proof (clamp_range (240 - 32)).
  repeat split; try apply Hcol; try apply Hpad; try lia; try apply Hfr; try apply Hacc.
  all: match goal with |- context [clamp ?h ?x] => pose proof (clamp_range h x); lia end.
Qed.

Lemma report_event_wf fr q e :
  0 <= fr < 2 ^ 32 -> 0 <= handle e < 256 -> lwf queue_layout q ->
  lwf queue_layout (report_event fr q e).
Proof.
  intros Hfr Hh Hq. unfold report_event.
  destruct (negb _); [done|]. destruct (16 <=? _) eqn:E; [done|].
  apply Z.leb_gt in E. destruct Hq as (Hn & Hl & Hp). cbn in Hn, Hl, Hp.
  split; [apply wrap_range; lia|]. split; [cbn; by rewrite length_alter|].
  cbn. apply Forall_alter; [done|]. intros p Hlp (_ & _ & Hpad). cbn. auto.
Qed.

Lemma report_wf q fr :
  0 <= fr < 2 ^ 32 -> lwf queue_layout q -> lwf queue_layout (mixer_report_end_of_frame q fr).
Proof.
  intros Hfr Hq. unfold mixer_report_end_of_frame. cbn [fold_left synthetic_schedule].
  apply report_event_wf; [done|cbn; lia|]. apply report_event_wf; [done|cbn; lia|done].
Qed.

Lemma update_ok r : rt_ok r -> exists r', update_rt r = Some r' /\ rt_ok r'.
Proof.
  intros [(Hc & Hq & Hs & Hx & Hy) Hf Hp [Hl Hb] Hh Hlk Hsz Hph]. unfold update_rt.
  destruct (update_cart_ok (nth 0 (button_mask r) 0) (cart r) Hc Hx Hy Hb) as (c' & E & Hc' & Hx' & Hy').
  rewrite E. cbn [mbind option_bind]. eexists. split; [reflexivity|].
  constructor; [|exact Hf|exact Hp|exact (conj Hl Hb)|exact Hh|exact Hlk|exact Hsz|exact Hph].
  split; [exact Hc'|]. split; [apply report_wf; [apply Hc'|exact Hq]|exact (conj Hs (conj Hx' Hy'))].
Qed.

(** ** Drawing stays inside the framebuffer and overwrites all of it *)

Lemma fill_some fb off v n :
  0 <= off -> 0 <= n -> off + n <= Z.of_nat (length fb) ->
  fill fb off v n = Some (write_at (Z.to_nat off) (repeat (u8 v) (Z.to_nat n)) fb).
Proof. intros. unfold fill. zcase. Qed.

Lemma length_fill fb off v n fb' : fill fb off v n = Some fb' -> length fb' = length fb.
Proof.
  unfold fill. destruct (_ || _) eqn:E; [done|]. intros [= <-].
  apply orb_false_iff in E as [[H1 H2]%orb_false_iff H3]. apply Z.ltb_ge in H1, H2, H3.
  apply length_write_at. rewrite repeat_length. lia.
Qed.

(** Rows inside the picture are defined and keep the size. *)
Lemma for_rows_inside n y x w v fb :
  0 <= y -> 0 <= x -> 0 <= w -> x + w <= FB_WIDTH ->
  (y + Z.of_nat n) * FB_WIDTH <= Z.of_nat (length fb) ->
  exists fb', for_rows n y (fun y fb => fill fb (y * FB_WIDTH + x) (v y) w) fb = Some fb' /\
    length fb' = length fb.
Proof.
  unfold FB_WIDTH. revert y fb; induction n as [|n IH]; intros y fb Hy Hx Hw Hxw Hl; [by exists fb|].
  cbn [for_rows]. rewrite fill_some by lia. cbn [mbind option_bind].
  set (fb1 := write_at _ _ _).
  assert (length fb1 = length fb) as H1 by (apply length_write_at; rewrite repeat_length; lia).
  destruct (IH (y + 1) fb1) as (fb' & E & H2); [lia..|]. exists fb'. split; [exact E|lia].
Qed.

(** The rows [y .. y + n), whatever they held before. *)
Definition rows (v : Z -> Z) (y : Z) (n : nat) : list Z :=
  concat (map (fun i => repeat (u8 (v (y + Z.of_nat i))) (Z.to_nat FB_WIDTH)) (seq 0 n)).

Lemma for_rows_full n y v pre old post :
  Z.of_nat (length pre) = y * FB_WIDTH -> Z.of_nat (length old) = Z.of_nat n * FB_WIDTH ->
  for_rows n y (fun y fb => fill fb (y * FB_WIDTH) (v y) FB_WIDTH) (pre ++ old ++ post) =
  Some (pre ++ rows v y n ++ post).
Proof.
  unfold FB_WIDTH. revert y pre old; induction n as [|n IH]; intros y pre old Hp Ho.
  { by assert (old = []) as -> by (apply length_zero_iff_nil; lia). }
  cbn [for_rows]. rewrite fill_some by (rewrite ?length_app; lia). cbn [mbind option_bind].
  rewrite <-(take_drop 320 old), <-app_assoc, write_at_app
    by (rewrite ?repeat_length, ?length_take; lia).
  rewrite (app_assoc pre), IH
    by (rewrite ?length_app, ?repeat_length, ?length_drop; lia).
  f_equal. unfold rows. cbn [seq map concat]. rewrite <-seq_shift, map_map, <-!app_assoc.
  f_equal. rewrite Z.add_0_r. f_equal. f_equal. f_equal. apply map_ext. intros i.
  unfold FB_WIDTH. do 3 f_equal. lia.
Qed.

(** The picture of a cart. *)
Lemma draw_spec c : 0 <= rect_x c <= FB_WIDTH - 64 -> 0 <= rect_y c <= FB_HEIGHT - 32 ->
  exists fb, Z.of_nat (length fb) = FB_BYTES /\
    forall r, cart r = c -> Z.of_nat (length (framebuffer r)) = FB_BYTES ->
      draw_rt r = Some (set_framebuffer fb r).
Proof.
  intros Hx Hy.
  assert (Z.of_nat (length (rows (background (cframe c)) 0 240)) = FB_BYTES) as Hl.
  { unfold rows, FB_BYTES, FB_WIDTH, FB_HEIGHT.
    assert (forall (f : nat -> list Z) l, (forall i, length (f i) = 320%nat) ->
      length (concat (map f l)) = (320 * length l)%nat) as H.
    { intros f l Hf. induction l as [|i l IH]; [done|]. cbn. rewrite length_app, Hf, IH. lia. }
    rewrite H by (intros; by rewrite repeat_length). rewrite length_seq. lia. }
  unfold FB_BYTES, FB_WIDTH, FB_HEIGHT in *.
  destruct (for_rows_inside 32 (rect_y c) (rect_x c) 64 (fun _ => rect_color c)
              (rows (background (cframe c)) 0 240)) as (fb & E & Hfb); unfold FB_WIDTH in *; try lia.
  exists fb. split; [lia|]. intros r <- Hr. unfold draw_rt.
  replace (Z.to_nat FB_HEIGHT) with 240%nat by reflexivity.
  pose proof (for_rows_full 240 0 (background (cframe (cart r))) [] (framebuffer r) [] eq_refl
                ltac:(unfold FB_WIDTH; lia)) as Hbg.
  rewrite !app_nil_r in Hbg. rewrite !app_nil_l in Hbg. rewrite Hbg. cbn [mbind option_bind].
  rewrite (add_i32_small (rect_x (cart r)) 64) by lia. cbn [mbind option_bind].
  rewrite (add_i32_small (rect_y (cart r)) 32) by lia. cbn [mbind option_bind].
  unfold FB_WIDTH, FB_HEIGHT.
  destruct (Z.ltb_spec 320 (rect_x (cart r) + 64)); [lia|].
  destruct (Z.ltb_spec 240 (rect_y (cart r) + 32)); [lia|].
  replace (rect_y (cart r) + 32 - rect_y (cart r)) with 32 by lia.
  replace (rect_x (cart r) + 64 - rect_x (cart r)) with 64 by lia.
  change (Z.to_nat 32) with 32%nat. by rewrite E.
Qed.

Lemma draw_ok r : rt_ok r ->
  exists fb, draw_rt r = Some (set_framebuffer fb r) /\ rt_ok (set_framebuffer fb r).
Proof.
  intros [Ht Hf Hp Hb Hh Hlk Hsz Hph]. destruct Ht as (Hc & Hq & Hs & Hx & Hy).
  destruct (draw_spec (cart r) Hx Hy) as (fb & Hl & E). exists fb.
  split; [by apply E|].
  exact (Build_rt_ok (set_framebuffer fb r) (conj Hc (conj Hq (conj Hs (conj Hx Hy)))) Hl Hp Hb Hh Hlk Hsz Hph).
Qed.

(** ** The tones *)

(** [sinf] of a finite argument stays within [-1, 1]: scaled by a power of two, within
    [-8192, 8192].  Nothing is said of infinities and NaNs, whose sine is a NaN. *)
Class SinfLaws (sinf : Z -> Z) : Prop :=
  sinf_bounded t : is_finitef t = true -> Z.land (f32_mul f32_8192 (sinf t)) 0x7fffffff <= f32_8192.

(** The angle of a phase is finite. *)
Lemma angle_finite phase : 0 <= phase < 2 ^ 32 ->
  is_finitef (f32_mul f32_2pi (f32_div (f32_of_Z phase) (f32_of_Z (2 ^ 32)))) = true.
Proof.
  intros H. apply (small_finite _ 12), (small_mul _ _ (-21) 1 11); [| |lia..].
  { replace (f32_of_bits f32_2pi) with (S754_finite false 13176795 (-21)) by reflexivity. cbn. lia. }
  unfold f32_div. replace (f32_of_bits (f32_of_Z (2 ^ 32))) with (S754_finite false 8388608 9) by reflexivity.
  apply small_bits; [|lia]. apply (small_div _ 9 9 false 8388608 0); [|lia..]. exact (small_of_Z phase 8 H ltac:(lia)).
Qed.

Lemma fits_i16 (s : bool) n : 0 <= n < 2 ^ 15 ->
  exists k, (let n := if s then - n else n in
             if (- 2 ^ 15 <=? n) && (n <? 2 ^ 15) then Some n else None) = Some k.
Proof.
  intros Hn. exists (if s then - n else n). cbv zeta.
  assert (- 2 ^ 15 <= (if s then - n else n) < 2 ^ 15) as [H1 H2] by (destruct s; lia).
  by rewrite (proj2 (Z.leb_le _ _) H1), (proj2 (Z.ltb_lt _ _) H2).
Qed.

Lemma f32_to_i16_small u : Z.land u 0x7fffffff <= f32_8192 -> exists n, f32_to_i16 u = Some n.
Proof.
  intros Hu. unfold f32_to_i16, f32_of_bits.
  assert (Z.land (u ≫ 23) 0xff <= 140) as He.
  { replace (Z.land (u ≫ 23) 0xff) with (Z.land u 0x7fffffff ≫ 23)
      by (rewrite Z.shiftr_land; done).
    transitivity (f32_8192 ≫ 23); [|done]. rewrite !Z.shiftr_div_pow2 by lia.
    by apply Z.div_le_mono. }
  assert (0 <= Z.land u 0x7fffff < 2 ^ 23) as Hm.
  { change 0x7fffff with (Z.ones 23). rewrite Z.land_ones by lia. by apply Z.mod_pos_bound. }
  destruct (Z.eqb_spec (Z.land (u ≫ 23) 255) 255) as [?|_]; [lia|].
  assert (forall p e, Zpos p < 2 ^ 24 -> e <= -10 ->
    let n := if 0 <=? e then Zpos p * 2 ^ e else Zpos p / 2 ^ (- e) in 0 <= n < 2 ^ 15) as Hn.
  { intros p e Hp Hle n. subst n. destruct (Z.leb_spec 0 e); [lia|].
    split; [apply Z.div_pos; lia|]. apply Z.div_lt_upper_bound; [lia|].
    assert (2 ^ 10 <= 2 ^ (- e)) by (apply Z.pow_le_mono_r; lia). nia. }
  set (e := Z.land (u ≫ 23) 255) in *.
  destruct (Z.eqb_spec e 0).
  - destruct (Z.land u 8388607) as [|p|p] eqn:E; [by eexists| |lia].
    exact (fits_i16 _ _ (Hn p (-149) ltac:(lia) ltac:(lia))).
  - destruct (Z.land u 8388607 + 8388608) as [|p|p] eqn:E; [lia| |lia].
    exact (fits_i16 _ _ (Hn p (e - 150) ltac:(lia) ltac:(lia))).
Qed.

Section tones.
Context (sinf : Z -> Z) {laws : SinfLaws sinf}.

Lemma tone_some p : 0 <= p < 2 ^ 32 -> exists k, tone sinf p = Some k.
Proof. intros Hp. by apply f32_to_i16_small, sinf_bounded, angle_finite. Qed.

Lemma audio_loop_some n ph pl hi lo : 0 <= hi < 2 ^ 32 -> 0 <= lo < 2 ^ 32 ->
  exists hi' lo' samples, audio_loop sinf n ph pl hi lo = Some (hi', lo', samples) /\ length samples = n /\
    0 <= hi' < 2 ^ 32 /\ 0 <= lo' < 2 ^ 32.
Proof.
  revert hi lo; induction n as [|n IH]; intros hi lo Hhi Hlo; [by eexists _, _, _|]. cbn [audio_loop].
  assert (forall (b : bool) p, 0 <= p < 2 ^ 32 -> exists k, (if b then tone sinf p else Some 0) = Some k) as Ht.
  { intros [] p Hp; [by apply tone_some|by eexists]. }
  destruct (Ht ph hi Hhi) as [l ->]. destruct (Ht pl lo Hlo) as [k ->]. cbn [mbind option_bind].
  destruct (IH (if ph then u32 (hi + inc_hi) else hi) (if pl then u32 (lo + inc_lo) else lo))
    as (hi' & lo' & rest & -> & Hl & Hr);
    [destruct ph; [apply wrap_range; lia|done]|destruct pl; [apply wrap_range; lia|done]|].
  cbn [mbind option_bind]. eexists _, _, _. split; [reflexivity|]. cbn. by rewrite Hl.
Qed.

Lemma pull_audio_ok r frames : rt_ok r -> 0 < frames ->
  exists hi lo total samples,
    blyt_runtime_pull_audio sinf (Some r) true frames =
      Some (Some (set_audio hi lo total r), samples, frames) /\
    rt_ok (set_audio hi lo total r) /\ Z.of_nat (length samples) = frames.
Proof.
  intros Hr Hf. unfold blyt_runtime_pull_audio. cbn [negb orb].
  destruct (Z.leb_spec frames 0); [lia|]. unfold pull_audio_rt.
  destruct (audio_loop_some (Z.to_nat frames) ((30 <=? cframe (cart r)) && (cframe (cart r) <? 150))
    ((90 <=? cframe (cart r)) && (cframe (cart r) <? 150)) (audio_phase_hi r) (audio_phase_lo r))
    as (hi & lo & samples & -> & Hl & Hph'); [apply Hr..|].
  cbn [mbind option_bind]. eexists _, _, _, _. split; [reflexivity|]. split; [|lia].
  destruct Hr as [Ht Hfb Hp Hb Hh Hlk Hsz Hph].
  exact (Build_rt_ok (set_audio _ _ _ r) Ht Hfb Hp Hb Hh Hlk Hsz Hph').
Qed.
End tones.

(** ** Save states *)

(** The bytes of a well-formed runtime. *)
Definition save_image (c : cart_state_t) (q : voice_end_queue_t) (s : screen_shake_t) : list Z :=
  lenc header_layout {| magic := SAVE_STATE_MAGIC; version := SAVE_STATE_VERSION;
                        layout_hash := compute_layout_hash; hframe := cframe c; total_size := 196 |} ++
  tracked_image c q s.

Definition tracked_wf (c : cart_state_t) (q : voice_end_queue_t) (s : screen_shake_t) : Prop :=
  lwf cart_layout c /\ lwf queue_layout q /\ lwf shake_layout s.

Lemma tracked_ok_wf c q s : tracked_ok c q s -> tracked_wf c q s.
Proof. intros (Hc & Hq & Hs & _). exact (conj Hc (conj Hq Hs)). Qed.

Lemma length_tracked_image c q s : tracked_wf c q s -> length (tracked_image c q s) = 172%nat.
Proof.
  intros (Hc & Hq & Hs). unfold tracked_image.
  rewrite !length_app, (length_lenc (l:=cart_layout) c Hc), (length_lenc (l:=queue_layout) q Hq),
    (length_lenc (l:=shake_layout) s Hs). reflexivity.
Qed.

Lemma save_header_wf c :
  lwf cart_layout c ->
  lwf header_layout {| magic := SAVE_STATE_MAGIC; version := SAVE_STATE_VERSION;
                       layout_hash := compute_layout_hash; hframe := cframe c; total_size := 196 |}.
Proof.
  intros (Hc & _).
  refine (conj _ (conj _ (conj compute_layout_hash_range (conj Hc _)))); cbn; done.
Qed.

Lemma length_save_image c q s rest :
  tracked_wf c q s -> length (save_image c q s ++ rest) = (196 + length rest)%nat.
Proof.
  intros Ht. unfold save_image.
  rewrite !length_app, (length_tracked_image _ _ _ Ht),
    (length_lenc (l:=header_layout) _ (save_header_wf c (proj1 Ht))). reflexivity.
Qed.

Lemma save_spec r b cap :
  rt_ok r -> 196 <= cap -> (196 <= length b)%nat ->
  blyt_runtime_save (Some r) (Some b) cap =
    Some (Some (save_image (cart r) (voice_q r) (shake r) ++ drop 196 b), 196).
Proof.
  intros [Ht _ _ _ Hh _ Hsz] Hcap Hb. unfold blyt_runtime_save. rewrite Hsz, Hh.
  destruct (Z.ltb_spec cap 196); [lia|]. fold (save_image (cart r) (voice_q r) (shake r)).
  pose proof (length_save_image _ _ _ [] (tracked_ok_wf _ _ _ Ht)) as Hl. rewrite app_nil_r in Hl. cbn [length] in Hl. rewrite Nat.add_0_r in Hl.
  rewrite Hl. destruct (Nat.ltb_spec (length b) 196); [lia|].
  unfold write_at. rewrite Hl. reflexivity.
Qed.

Lemma slice_middle (pre x post : list Z) o n :
  o = length pre -> n = length x -> slice o n (pre ++ x ++ post) = x.
Proof.
  intros -> ->. rewrite <-(Nat.add_0_r (length pre)) at 1.
  by rewrite slice_app_r, slice_app_l.
Qed.

Lemma load_spec r c q s rest size :
  rt_ok r -> tracked_wf c q s -> 196 <= size <= Z.of_nat (196 + length rest) ->
  blyt_runtime_load (Some r) (Some (save_image c q s ++ rest)) size = Some (Some (set_tracked c q s r), true).
Proof.
  intros [_ _ _ _ Hh _ Hsz _] Ht Hs. unfold blyt_runtime_load. pose proof Ht as (Hc & Hq & Hsh).
  destruct (Z.ltb_spec size 24); [lia|].
  rewrite (length_save_image _ _ _ _ Ht). destruct (Z.ltb_spec (Z.of_nat (196 + length rest)) size); [lia|].
  unfold read_header, save_image. rewrite <-app_assoc.
  pose proof (length_lenc (l:=header_layout) _ (save_header_wf c Hc)) as Hh24.
  rewrite (slice_app_l _ _ 24 (eq_sym Hh24)), (ldec_lenc (l:=header_layout) _ (save_header_wf c Hc)). cbn [magic version layout_hash total_size].
  rewrite Hh, Hsz, !Z.eqb_refl. cbn [negb]. destruct (Z.ltb_spec size 196); [lia|].
  destruct (Nat.ltb_spec (196 + length rest) (24 + 24 + 132 + 16)); [lia|].
  set (h := lenc header_layout _) in *. clearbody h. change (length h = 24%nat) in Hh24.
  unfold tracked_image. rewrite <-!app_assoc.
  pose proof (length_lenc (l:=cart_layout) c Hc : length _ = 24%nat) as L1.
  pose proof (length_lenc (l:=queue_layout) q Hq : length _ = 132%nat) as L2.
  pose proof (length_lenc (l:=shake_layout) s Hsh : length _ = 16%nat) as L3.
  set (ec := lenc cart_layout c) in *. set (eq := lenc queue_layout q) in *.
  set (es := lenc shake_layout s) in *.
  rewrite (slice_middle h ec (eq ++ es ++ rest) 24 24 ltac:(lia) ltac:(lia)).
  rewrite (app_assoc h ec), (slice_middle (h ++ ec) eq (es ++ rest) 48 132)
    by (rewrite ?length_app; lia).
  rewrite (app_assoc (h ++ ec) eq), (slice_middle ((h ++ ec) ++ eq) es rest 180 16)
    by (rewrite ?length_app; lia).
  subst ec eq es.
  rewrite (ldec_lenc (l:=cart_layout) c Hc), (ldec_lenc (l:=queue_layout) q Hq),
    (ldec_lenc (l:=shake_layout) s Hsh). reflexivity.
Qed.

Lemma set_tracked_ok c q s r : rt_ok r -> tracked_ok c q s -> rt_ok (set_tracked c q s r).
Proof.
  intros [_ Hf Hp Hb Hh Hlk Hsz Hph] Ht. exact (Build_rt_ok (set_tracked c q s r) Ht Hf Hp Hb Hh Hlk Hsz Hph).
Qed.

Lemma set_button_ok r m : rt_ok r -> 0 <= m < 2 ^ 16 ->
  exists l, blyt_runtime_set_button_state (Some r) 0 m = Some (set_button_mask l r) /\
    nth 0 l 0 = m /\ rt_ok (set_button_mask l r).
Proof.
  intros [Ht Hf Hp [Hl Hb] Hh Hlk Hsz Hph] Hm. exists (<[0%nat := m]> (button_mask r)).
  split; [exact eq_refl|].
  assert (length (<[0%nat := m]> (button_mask r)) = 2%nat /\ nth 0 (<[0%nat := m]> (button_mask r)) 0 = m)
    as [Hl' Hm'] by (destruct (button_mask r); [discriminate Hl|exact (conj Hl eq_refl)]).
  split; [exact Hm'|]. rewrite <-Hm' in Hm.
  exact (Build_rt_ok (set_button_mask _ r) Ht Hf Hp (conj Hl' Hm) Hh Hlk Hsz Hph).
Qed.
