(* ===== verification/Libretro.v ===== *)
(** * The libretro core (spikes/spike-l/host)

    The adapter between a libretro frontend and the facade: [retro_run] with its
    wall-clock accumulator, the audio batches of audio_push.c, the button map of
    input_map.c, the palette expansion of palette.c, and the save-state entry
    points.  The statics of retro_core.c form the record [core]; [exec] runs one
    entry point and says what it hands to the frontend's callbacks.  Time, input
    and allocation are arguments of the call.  [None] is what the facade leaves
    undefined, or a call through a callback that was never set. *)

From S2P Require Import Prelude Layout Float32 FloatExact Determinism SaveState Facade.
Open Scope Z_scope.

(** ** input_map.c: the RetroPad ids and the runtime's bits *)

Definition button_map : list (Z * Z) :=
  [(4, BLYT_BUTTON_UP); (5, BLYT_BUTTON_DOWN); (6, BLYT_BUTTON_LEFT); (7, BLYT_BUTTON_RIGHT);
   (0, BLYT_BUTTON_A); (8, 1 ≪ 5); (1, 1 ≪ 6); (9, 1 ≪ 7);
   (10, 1 ≪ 8); (11, 1 ≪ 9); (3, 1 ≪ 10); (2, 1 ≪ 11)].

(** [cb] answers for a button id; a null pointer is [None]. *)
Definition adapter_poll_button_mask (cb : option (Z -> Z)) : Z :=
  match cb with
  | None => 0
  | Some cb => fold_left (fun m '(id, bit) => if negb (cb id =? 0) then Z.lor m bit else m) button_map 0
  end.

(** ** palette.c and audio_push.c

    [retro_run], the one caller, has checked that there is a runtime, so the
    pointers of the palette expansion are not null. *)

Definition adapter_expand_palette (src pal : list Z) : list Z :=
  map (fun i => nth (Z.to_nat i) pal 0) src.

Definition adapter_compute_audio_frames (sample_rate declared_fps total_pushed total_run_calls : Z) : Z :=
  if declared_fps =? 0 then 0
  else
    let ideal_after := u64 (u64 (total_run_calls + 1) * sample_rate) / declared_fps in
    if ideal_after <=? total_pushed then 0 else i32 (ideal_after - total_pushed).

(** ** The state of retro_core.c *)

Definition FB_PIXELS : Z := FB_WIDTH * FB_HEIGHT.
Definition AUDIO_RATE : Z := 48000.
Definition DECLARED_FPS : Z := 60.
Definition TICK_NS : Z := 1000000000 / DECLARED_FPS.
Definition MAX_AUDIO_FRAMES_PER_RUN : Z := 4096.

(** The callbacks are kept as whether they are set; the input callback's answers
    come with the call. *)
Record core := Core {
  rt : option blyt_runtime_t;
  environ_cb : bool;
  video_refresh_cb : bool;
  audio_sample_batch_cb : bool;
  input_state_cb : bool;
  log_cb : bool;
  serialize_upper_bound : Z;
  last_run_ns : Z;
  accumulator_ns : Z;
  total_audio_pushed : Z;
  total_run_calls : Z;
  catch_ups_last_run : Z;
  trace_file : bool;
  force_tick_per_run : bool;
}.

Definition core_bss : core := Core None false false false false false 0 0 0 0 0 0 false false.

Definition set_rt (r : option blyt_runtime_t) (c : core) : core :=
  Core r (environ_cb c) (video_refresh_cb c) (audio_sample_batch_cb c) (input_state_cb c) (log_cb c)
    (serialize_upper_bound c) (last_run_ns c) (accumulator_ns c) (total_audio_pushed c)
    (total_run_calls c) (catch_ups_last_run c) (trace_file c) (force_tick_per_run c).
Definition set_callbacks (e v a i l : bool) (c : core) : core :=
  Core (rt c) e v a i l (serialize_upper_bound c) (last_run_ns c) (accumulator_ns c)
    (total_audio_pushed c) (total_run_calls c) (catch_ups_last_run c) (trace_file c)
    (force_tick_per_run c).
Definition set_clock (last acc : Z) (c : core) : core :=
  Core (rt c) (environ_cb c) (video_refresh_cb c) (audio_sample_batch_cb c) (input_state_cb c) (log_cb c)
    (serialize_upper_bound c) last acc (total_audio_pushed c) (total_run_calls c)
    (catch_ups_last_run c) (trace_file c) (force_tick_per_run c).
Definition set_totals (pushed calls : Z) (c : core) : core :=
  Core (rt c) (environ_cb c) (video_refresh_cb c) (audio_sample_batch_cb c) (input_state_cb c) (log_cb c)
    (serialize_upper_bound c) (last_run_ns c) (accumulator_ns c) pushed calls
    (catch_ups_last_run c) (trace_file c) (force_tick_per_run c).
Definition set_modes (trace force : bool) (c : core) : core :=
  Core (rt c) (environ_cb c) (video_refresh_cb c) (audio_sample_batch_cb c) (input_state_cb c) (log_cb c)
    (serialize_upper_bound c) (last_run_ns c) (accumulator_ns c) (total_audio_pushed c)
    (total_run_calls c) (catch_ups_last_run c) trace force.
Definition set_bound (b : Z) (c : core) : core :=
  Core (rt c) (environ_cb c) (video_refresh_cb c) (audio_sample_batch_cb c) (input_state_cb c) (log_cb c)
    b (last_run_ns c) (accumulator_ns c) (total_audio_pushed c)
    (total_run_calls c) (catch_ups_last_run c) (trace_file c) (force_tick_per_run c).
Definition set_catch_ups (n : Z) (c : core) : core :=
  Core (rt c) (environ_cb c) (video_refresh_cb c) (audio_sample_batch_cb c) (input_state_cb c) (log_cb c)
    (serialize_upper_bound c) (last_run_ns c) (accumulator_ns c) (total_audio_pushed c)
    (total_run_calls c) n (trace_file c) (force_tick_per_run c).

(** What the frontend sees. *)
Inductive event :=
  | EvLog (text : list Z)
  | EvVideo (pixels : list Z) (width height pitch : Z)
  | EvAudio (samples : list (Z * Z))
  | EvTrace (text : list Z).

Definition log (c : core) (text : list Z) : list event := if log_cb c then [EvLog text] else [].

(** ** Entry points *)

Section entry_points.
Context (sinf : Z -> Z).

(** Both branches of the log interface leave a callback. *)
Definition retro_set_environment (c : core) : core :=
  set_callbacks true (video_refresh_cb c) (audio_sample_batch_cb c) (input_state_cb c) true c.
Definition retro_set_video_refresh (b : bool) (c : core) : core :=
  set_callbacks (environ_cb c) b (audio_sample_batch_cb c) (input_state_cb c) (log_cb c) c.
Definition retro_set_audio_sample_batch (b : bool) (c : core) : core :=
  set_callbacks (environ_cb c) (video_refresh_cb c) b (input_state_cb c) (log_cb c) c.
Definition retro_set_input_state (b : bool) (c : core) : core :=
  set_callbacks (environ_cb c) (video_refresh_cb c) (audio_sample_batch_cb c) b (log_cb c) c.

Definition trace_header : list Z :=
  cstr "run_index,wall_ns,delta_ns,acc_ns_pre,catch_ups,acc_ns_post,audio_frames" ++ [10].

(** [force_env] is the value of BLYT_FORCE_TICK_PER_RUN, [trace] whether
    BLYT_TRACE_FRAMES names a file that opens; a name that does not open leaves
    no file, an absent name the old one. *)
Definition retro_init (now : Z) (force_env : option (list Z)) (trace : option bool) (c : core)
  : core * list event :=
  let force := match force_env with Some (ch :: _) => negb (ch =? 48) | _ => false end in
  let file := default (trace_file c) trace in
  (set_modes file force (set_totals 0 0 (set_clock now 0 c)),
   match trace with Some true => [EvTrace trace_header] | _ => [] end).

Definition retro_deinit (c : core) : core :=
  set_modes false (force_tick_per_run c) (set_rt None c).

Definition retro_api_version : Z := 1.
Definition retro_get_region : Z := 0.

Definition retro_reset (now : Z) (c : core) : core :=
  set_clock now 0 (set_rt (blyt_runtime_reset (rt c)) c).

(** [xrgb]: the answer to SET_PIXEL_FORMAT; [path]: [info->path] when there. *)
Definition retro_load_game (xrgb : bool) (path : option (list Z)) (mem : bool) (now : Z) (c : core)
  : option (core * list event * bool) :=
  if negb (environ_cb c) then None
  else if negb xrgb then Some (c, log c (cstr "blyt: XRGB8888 pixel format not supported" ++ [10]), false)
  else
    let path := default (cstr "(synthetic)") path in
    let r := blyt_runtime_create mem in
    let c := set_rt r c in
    match r with
    | None => Some (c, log c (cstr "blyt: blyt_runtime_create(" ++ path ++ cstr ") failed" ++ [10]), false)
    | Some _ =>
        let bound := blyt_runtime_save_upper_bound r in
        let c := set_bound bound c in
        if negb (blyt_runtime_assert_slots_locked r) then None
        else
          let ev := log c (cstr "blyt: loaded " ++ path ++ cstr ", save_upper_bound=" ++ dec bound ++
                             cstr " bytes" ++ [10]) in
          Some (set_clock now 0 c, ev, true)
    end.

Definition retro_unload_game (c : core) : core := set_rt None c.

Definition tick (buttons : Z) (r : option blyt_runtime_t) : option (option blyt_runtime_t) :=
  blyt_runtime_update (blyt_runtime_set_button_state r 0 buttons).

(** [while (accumulator_ns >= TICK_NS && catch_ups < 3)]: the rounds left are
    the fuel. *)
Fixpoint catch_up (rounds : nat) (buttons acc : Z) (r : option blyt_runtime_t)
  : option (option blyt_runtime_t * Z * Z) :=
  match rounds with
  | O => Some (r, acc, 0)
  | S rounds =>
      if acc <? TICK_NS then Some (r, acc, 0)
      else
        r ← tick buttons r;
        '(r, acc, n) ← catch_up rounds buttons (u64 (acc - TICK_NS)) r;
        Some (r, acc, n + 1)
  end.

(** The runtime, the accumulator and the number of updates of this run. *)
Definition advance (force : bool) (buttons acc : Z) (r : option blyt_runtime_t)
  : option (option blyt_runtime_t * Z * Z) :=
  if force then r ← tick buttons r; Some (r, 0, 1)
  else
    '(r, acc, n) ← catch_up 3 buttons acc r;
    Some (r, if TICK_NS <=? acc then TICK_NS - 1 else acc, n).

(** [poll] answers for the buttons once [input_poll_cb] has run. *)
Definition retro_run (poll : Z -> Z) (now : Z) (c : core) : option (core * list event) :=
  match rt c with
  | None => Some (c, [])
  | Some _ =>
      let buttons := adapter_poll_button_mask (if input_state_cb c then Some poll else None) in
      let delta := u64 (now - last_run_ns c) in
      let acc_pre := u64 (accumulator_ns c + delta) in
      '(r, acc, catch_ups) ← advance (force_tick_per_run c) buttons acc_pre (rt c);
      r ← blyt_runtime_draw r;
      let fb := default [] (blyt_runtime_get_framebuffer r) in
      let pal := default [] (blyt_runtime_get_palette r) in
      let video :=
        if video_refresh_cb c then
          [EvVideo (adapter_expand_palette (take (Z.to_nat FB_PIXELS) fb) pal) FB_WIDTH FB_HEIGHT
             (FB_WIDTH * 4)]
        else [] in
      let target :=
        adapter_compute_audio_frames AUDIO_RATE DECLARED_FPS (total_audio_pushed c) (total_run_calls c) in
      let target := if MAX_AUDIO_FRAMES_PER_RUN <? target then MAX_AUDIO_FRAMES_PER_RUN else target in
      '(r, samples, n) ← blyt_runtime_pull_audio sinf r true target;
      let audio := if audio_sample_batch_cb c && (0 <? n) then [EvAudio samples] else [] in
      let calls := u64 (total_run_calls c + 1) in
      let trace :=
        if trace_file c then
          [EvTrace (dec calls ++ cstr "," ++ dec now ++ cstr "," ++ dec delta ++ cstr "," ++ dec acc_pre ++
             cstr "," ++ dec catch_ups ++ cstr "," ++ dec acc ++ cstr "," ++ dec n ++ [10])]
        else [] in
      Some (set_totals (u64 (total_audio_pushed c + n)) calls
              (set_catch_ups catch_ups (set_clock now acc (set_rt r c))),
            video ++ audio ++ trace)
  end.

Definition retro_serialize_size (c : core) : Z := serialize_upper_bound c.

(** [data] is null or the memory behind the pointer. *)
Definition retro_serialize (data : option (list Z)) (size : Z) (c : core)
  : option (option (list Z) * list event * bool) :=
  match rt c, data with
  | Some _, Some _ =>
      if size <? serialize_upper_bound c then Some (data, [], false)
      else
        '(data, n) ← blyt_runtime_save (rt c) data (u32 size);
        if n =? 0 then Some (data, [], false)
        else if size <? n then
          Some (data, log c (cstr "blyt: save_state wrote " ++ dec n ++ cstr " > upper_bound " ++
                  dec size ++ cstr " " ++ [0xe2; 0x80; 0x94] ++ cstr " facade miscomputed the bound" ++ [10]),
                false)
        else Some (data, [], true)
  | _, _ => Some (data, [], false)
  end.

Definition retro_unserialize (data : option (list Z)) (size : Z) (c : core) : option (core * bool) :=
  match rt c, data with
  | Some _, Some _ =>
      '(r, ok) ← blyt_runtime_load (blyt_runtime_reset (rt c)) data (u32 size);
      Some (set_rt r c, ok)
  | _, _ => Some (c, false)
  end.

(** ** Calls and what they answer *)

Inductive call :=
  | SetEnvironment
  | SetVideoRefresh (b : bool)
  | SetAudioSampleBatch (b : bool)
  | SetInputState (b : bool)
  | Init (now : Z) (force_env : option (list Z)) (trace : option bool)
  | Deinit
  | Reset (now : Z)
  | LoadGame (xrgb : bool) (path : option (list Z)) (mem : bool) (now : Z)
  | UnloadGame
  | Run (poll : Z -> Z) (now : Z)
  | Serialize (data : option (list Z)) (size : Z)
  | Unserialize (data : option (list Z)) (size : Z).

Inductive result := RVoid | RBool (b : bool) | RData (data : option (list Z)) (b : bool).

Definition exec (k : call) (c : core) : option (core * list event * result) :=
  match k with
  | SetEnvironment => Some (retro_set_environment c, [], RVoid)
  | SetVideoRefresh b => Some (retro_set_video_refresh b c, [], RVoid)
  | SetAudioSampleBatch b => Some (retro_set_audio_sample_batch b c, [], RVoid)
  | SetInputState b => Some (retro_set_input_state b c, [], RVoid)
  | Init now force trace => let '(c, ev) := retro_init now force trace c in Some (c, ev, RVoid)
  | Deinit => Some (retro_deinit c, [], RVoid)
  | Reset now => Some (retro_reset now c, [], RVoid)
  | LoadGame xrgb path mem now =>
      '(c, ev, b) ← retro_load_game xrgb path mem now c; Some (c, ev, RBool b)
  | UnloadGame => Some (retro_unload_game c, [], RVoid)
  | Run poll now => '(c, ev) ← retro_run poll now c; Some (c, ev, RVoid)
  | Serialize data size => '(data, ev, b) ← retro_serialize data size c; Some (c, ev, RData data b)
  | Unserialize data size => '(c, b) ← retro_unserialize data size c; Some (c, [], RBool b)
  end.

(** ** What a frontend may do

    Clocks are 64-bit, buffers have the size they are passed with, the
    environment callback is set before a game is loaded, and only buffers an
    earlier [retro_serialize] filled ([saved]) are unserialized. *)
Definition allowed (c : core) (saved : list (list Z)) (k : call) : Prop :=
  match k with
  | Init now _ _ | Reset now | Run _ now => 0 <= now < 2 ^ 64
  | LoadGame _ _ _ now => environ_cb c = true /\ 0 <= now < 2 ^ 64
  | Serialize (Some b) size => size = Z.of_nat (length b) /\ size < 2 ^ 32
  | Unserialize (Some b) size => b ∈ saved /\ size = Z.of_nat (length b)
  | _ => True
  end.

Definition collect (res : result) (saved : list (list Z)) : list (list Z) :=
  match res with RData (Some b) true => b :: saved | _ => saved end.

(** States after [n] calls, with the buffers saved on the way. *)
Inductive reachable : nat -> core -> list (list Z) -> Prop :=
  | reach_start : reachable 0 core_bss []
  | reach_call n c saved k c' ev res :
      reachable n c saved -> allowed c saved k -> exec k c = Some (c', ev, res) ->
      reachable (S n) c' (collect res saved).

(** ** The invariant *)

Record core_ok (n : nat) (c : core) : Prop := {
  ok_rt : forall r, rt c = Some r -> rt_ok r;
  ok_upper : rt c <> None -> serialize_upper_bound c = 196;
  ok_clock : 0 <= last_run_ns c < 2 ^ 64;
  ok_acc : 0 <= accumulator_ns c < TICK_NS;
  ok_audio : Z.of_nat n < 2 ^ 48 ->
    0 <= total_run_calls c <= Z.of_nat n /\ total_audio_pushed c = 800 * total_run_calls c;
}.

Definition image_ok (b : list Z) : Prop :=
  exists c q s rest, tracked_ok c q s /\ b = save_image c q s ++ rest /\ Z.of_nat (length b) < 2 ^ 32.

Definition buttons_ok (m : Z) : Prop := 0 <= m < 2 ^ 16.

Lemma poll_ok cb : buttons_ok (adapter_poll_button_mask cb).
Proof.
  unfold buttons_ok. destruct cb as [cb|]; [|cbn; lia]. cbn [adapter_poll_button_mask].
  assert (Forall (fun p => 0 <= p.2 < 2 ^ 16) button_map) as H 
    by (unfold button_map; repeat (apply List.Forall_cons; [split; [discriminate|reflexivity]|]); apply List.Forall_nil).
  assert (forall l m, Forall (fun p => 0 <= p.2 < 2 ^ 16) l -> 0 <= m < 2 ^ 16 ->
    0 <= fold_left (fun m '(id, bit) => if negb (cb id =? 0) then Z.lor m bit else m) l m < 2 ^ 16) as Hf.
  { clear H. intros l. induction l as [|[id bit] l IH]; intros m Hl Hm; [done|].
    inversion_clear Hl. cbn [fold_left]. apply IH; [done|].
    destruct (negb _); [by apply (lor_range 16)|done]. }
  apply Hf; [done|lia].
Qed.

Lemma tick_ok m r : rt_ok r -> buttons_ok m ->
  exists r', tick m (Some r) = Some (Some r') /\ rt_ok r'.
Proof.
  intros Hr Hm. unfold tick. destruct (set_button_ok r m Hr Hm) as (l & E & _ & Hl). rewrite E.
  destruct (update_ok _ Hl) as (r' & E' & Hr'). exists r'. cbn [blyt_runtime_update].
  by rewrite E'.
Qed.

Lemma TICK_NS_val : TICK_NS = 16666666.
Proof. reflexivity. Qed.

(** The number of rounds and what is left of the accumulator. *)
Lemma catch_up_ok rounds m acc r :
  rt_ok r -> buttons_ok m -> 0 <= acc < 2 ^ 64 ->
  let n := Z.min (Z.of_nat rounds) (acc / TICK_NS) in
  exists r', catch_up rounds m acc (Some r) = Some (Some r', acc - n * TICK_NS, n) /\ rt_ok r'.
Proof.
  rewrite TICK_NS_val. revert acc r; induction rounds as [|rounds IH]; intros acc r Hr Hm Ha n.
  { exists r. assert (n = 0) as -> by (subst n; pose proof (Z.div_pos acc 16666666); lia).
    split; [|exact Hr]. cbn [catch_up]. by rewrite Z.sub_0_r. }
  cbn [catch_up]. rewrite TICK_NS_val. destruct (Z.ltb_spec acc 16666666).
  { exists r. assert (n = 0) as -> by (subst n; rewrite Z.div_small by lia; lia).
    split; [|exact Hr]. by rewrite Z.sub_0_r. }
  destruct (tick_ok m r Hr Hm) as (r1 & E & Hr1). rewrite E. cbn [mbind option_bind].
  rewrite (wrap_small 64) by lia.
  destruct (IH (acc - 16666666) r1 Hr1 Hm ltac:(lia)) as (r2 & E2 & Hr2). rewrite E2.
  cbn [mbind option_bind]. exists r2. split; [|exact Hr2].
  assert ((acc - 16666666) / 16666666 = acc / 16666666 - 1) as Hd.
  { replace (acc - 16666666) with (acc + (-1) * 16666666) by lia. rewrite Z.div_add by lia. lia. }
  assert (n = Z.min (Z.of_nat rounds) ((acc - 16666666) / 16666666) + 1) as -> by (subst n; lia).
  set (k := Z.min _ _). by replace (acc - (k + 1) * 16666666) with (acc - 16666666 - k * 16666666) by lia.
Qed.

Lemma advance_ok force m acc r :
  rt_ok r -> buttons_ok m -> 0 <= acc < 2 ^ 64 ->
  exists r' acc' n, advance force m acc (Some r) = Some (Some r', acc', n) /\ rt_ok r' /\
    0 <= acc' < TICK_NS /\ 0 <= n <= 3 /\
    if force then n = 1 /\ acc' = 0
    else n = Z.min 3 (acc / TICK_NS) /\
         acc' = if acc <? 4 * TICK_NS then acc mod TICK_NS else TICK_NS - 1.
Proof.
  intros Hr Hm Ha. unfold advance. destruct force.
  { destruct (tick_ok m r Hr Hm) as (r' & E & Hr'). rewrite E.
    exists r', 0, 1. rewrite TICK_NS_val. split; [reflexivity|]. split; [exact Hr'|]. lia. }
  destruct (catch_up_ok 3 m acc r Hr Hm Ha) as (r' & E & Hr'). rewrite E. cbn [mbind option_bind].
  change (Z.of_nat 3) with 3. rewrite TICK_NS_val in *.
  pose proof (Z.div_mod acc 16666666 ltac:(lia)). pose proof (Z.mod_pos_bound acc 16666666 ltac:(lia)).
  pose proof (Z.div_pos acc 16666666 ltac:(lia) ltac:(lia)).
  set (q := acc / 16666666) in *. set (m' := acc mod 16666666) in *. clearbody q m'.
  eexists r', _, (Z.min 3 q). split; [reflexivity|]. split; [exact Hr'|].
  destruct (Z.leb_spec 16666666 (acc - Z.min 3 q * 16666666));
    destruct (Z.ltb_spec acc (4 * 16666666)); lia.
Qed.

(** While the totals are small, every batch has 800 frames. *)
Lemma audio_target pushed calls :
  0 <= calls < 2 ^ 48 -> pushed = 800 * calls ->
  adapter_compute_audio_frames AUDIO_RATE DECLARED_FPS pushed calls = 800.
Proof.
  intros Hc ->. unfold adapter_compute_audio_frames, AUDIO_RATE, DECLARED_FPS.
  cbn [Z.eqb]. rewrite (wrap_small 64 (calls + 1)) by lia.
  rewrite (wrap_small 64) by lia.
  replace ((calls + 1) * 48000) with ((calls + 1) * 800 * 60) by lia.
  rewrite Z.div_mul by lia. destruct (Z.leb_spec ((calls + 1) * 800) (800 * calls)); [lia|].
  rewrite (signed_small 32) by lia. lia.
Qed.

Context {laws : SinfLaws sinf}.

Lemma pull_ok r target : rt_ok r ->
  exists r' samples n, blyt_runtime_pull_audio sinf (Some r) true target = Some (Some r', samples, n) /\
    rt_ok r' /\ tracked_ok (cart r') (voice_q r') (shake r') /\
    (cart r', voice_q r', shake r') = (cart r, voice_q r, shake r) /\
    (0 < target -> n = target /\ Z.of_nat (length samples) = target).
Proof.
  intros Hr. destruct (Z.leb_spec target 0).
  - exists r, [], 0. unfold blyt_runtime_pull_audio. cbn [negb orb].
    destruct (Z.leb_spec target 0); [|lia]. split; [reflexivity|]. split; [exact Hr|].
    split; [apply Hr|]. split; [reflexivity|lia].
  - destruct (pull_audio_ok sinf r target Hr H) as (hi & lo & total & samples & E & Hr' & Hl).
    exists (set_audio hi lo total r), samples, target. split; [exact E|]. split; [exact Hr'|].
    split; [apply Hr'|]. split; [reflexivity|]. intros _. by split.
Qed.

(** What one [retro_run] does to the clock, the counters and the runtime. *)
Lemma run_ok n poll now c r :
  core_ok n c -> rt c = Some r -> 0 <= now < 2 ^ 64 ->
  exists c' ev, retro_run poll now c = Some (c', ev) /\ core_ok (S n) c' /\ rt c' <> None /\
    force_tick_per_run c' = force_tick_per_run c /\ last_run_ns c' = now /\
    0 <= catch_ups_last_run c' <= 3 /\
    (Z.of_nat (S n) < 2 ^ 48 ->
     forall samples, EvAudio samples ∈ ev -> Z.of_nat (length samples) = 800) /\
    let acc := u64 (accumulator_ns c + u64 (now - last_run_ns c)) in
    if force_tick_per_run c then catch_ups_last_run c' = 1 /\ accumulator_ns c' = 0
    else catch_ups_last_run c' = Z.min 3 (acc / TICK_NS) /\
         accumulator_ns c' = if acc <? 4 * TICK_NS then acc mod TICK_NS else TICK_NS - 1.
Proof.
  intros [Hrt Hup Hcl Hacc Haud] E Hnow. unfold retro_run. rewrite E.
  set (m := adapter_poll_button_mask _). set (acc := u64 (accumulator_ns c + _)).
  destruct (advance_ok (force_tick_per_run c) m acc r (Hrt r E) (poll_ok _) (wrap_range 64 _ ltac:(lia)))
    as (r1 & acc' & k & -> & Hr1 & Ha' & Hk & Hpace).
  cbn [mbind option_bind]. destruct (draw_ok r1 Hr1) as (fb & Ed & Hr2).
  cbn [blyt_runtime_draw]. rewrite Ed. cbn [mbind option_bind].
  set (target := if _ <? _ then _ else _).
  destruct (pull_ok (set_framebuffer fb r1) target Hr2) as (r3 & samples & pn & Ep & Hr3 & _ & _ & Hlen).
  rewrite Ep. cbn [mbind option_bind]. eexists _, _. split; [reflexivity|].
  assert (Z.of_nat (S n) < 2 ^ 48 -> 0 <= total_run_calls c <= Z.of_nat n /\
    total_audio_pushed c = 800 * total_run_calls c /\ target = 800) as Ht.
  { intros Hn. destruct (Haud ltac:(lia)) as [Hc Hp]. split; [exact Hc|]. split; [exact Hp|].
    subst target. rewrite (audio_target (total_audio_pushed c) (total_run_calls c) ltac:(lia) Hp). reflexivity. }
  split; [|split; [discriminate|split; [reflexivity|split; [reflexivity|split; [exact Hk|split]]]]].
  - constructor; [intros r' [= <-]; exact Hr3|intros _; apply Hup; congruence|exact Hnow|exact Ha'|].
    intros Hn. destruct (Ht Hn) as (Hc & Hp & Htg). destruct (Hlen ltac:(lia)) as [-> _].
    cbn [total_run_calls total_audio_pushed set_totals]. rewrite !(wrap_small 64) by lia. lia.
  - intros Hn samples' Hin. destruct (Ht Hn) as (_ & _ & Htg). destruct (Hlen ltac:(lia)) as [_ Hl].
    assert (samples' = samples) as ->; [|lia].
    apply elem_of_app in Hin as [Hin|[Hin|Hin]%elem_of_app].
    + destruct (video_refresh_cb c); [|by apply elem_of_nil in Hin].
      by apply list_elem_of_singleton in Hin.
    + destruct (_ && _); [|by apply elem_of_nil in Hin].
      apply list_elem_of_singleton in Hin. by injection Hin.
    + destruct (trace_file c); [|by apply elem_of_nil in Hin].
      by apply list_elem_of_singleton in Hin.
  - exact Hpace.
Qed.

(** ** Every allowed call is defined and keeps the invariant *)

Lemma core_ok_S n c : core_ok n c -> core_ok (S n) c.
Proof.
  intros [Hrt Hup Hcl Hacc Haud]. constructor; [done|done|done|done|].
  intros Hn. destruct (Haud ltac:(lia)) as [? ?]. lia.
Qed.

(** A call that changes neither totals nor, but for a fresh clock, the clock. *)
Lemma core_ok_with n c c' :
  core_ok n c -> (forall r, rt c' = Some r -> rt_ok r) -> (rt c' <> None -> serialize_upper_bound c' = 196) ->
  0 <= last_run_ns c' < 2 ^ 64 -> 0 <= accumulator_ns c' < TICK_NS ->
  total_run_calls c' = total_run_calls c -> total_audio_pushed c' = total_audio_pushed c ->
  core_ok (S n) c'.
Proof.
  intros Hc Hr Hu Hl Ha H1 H2. constructor; [done|done|done|done|]. rewrite H1, H2.
  apply core_ok_S in Hc. apply Hc.
Qed.

Lemma serialize_ok n c r b :
  core_ok n c -> rt c = Some r -> Z.of_nat (length b) < 2 ^ 32 -> 196 <= Z.of_nat (length b) ->
  retro_serialize (Some b) (Z.of_nat (length b)) c =
    Some (Some (save_image (cart r) (voice_q r) (shake r) ++ drop 196 b), [], true).
Proof.
  intros Hc E Hlt Hge. unfold retro_serialize. rewrite E, (ok_upper _ _ Hc ltac:(congruence)).
  destruct (Z.ltb_spec (Z.of_nat (length b)) 196); [lia|].
  rewrite (wrap_small 32) by lia.
  rewrite (save_spec r b _ (ok_rt _ _ Hc r E)) by lia. cbn [mbind option_bind].
  change (196 =? 0) with false. destruct (Z.ltb_spec (Z.of_nat (length b)) 196); [lia|reflexivity].
Qed.

Lemma saved_image_ok r b :
  rt_ok r -> Z.of_nat (length b) < 2 ^ 32 -> 196 <= Z.of_nat (length b) ->
  image_ok (save_image (cart r) (voice_q r) (shake r) ++ drop 196 b).
Proof.
  intros Hr Hlt Hge. exists (cart r), (voice_q r), (shake r), (drop 196 b).
  split; [apply Hr|]. split; [reflexivity|].
  rewrite (length_save_image _ _ _ _ (tracked_ok_wf _ _ _ (ok_tracked _ Hr))), length_drop. lia.
Qed.

Lemma unserialize_ok n c r b :
  core_ok n c -> rt c = Some r -> image_ok b ->
  exists cs q s rest, b = save_image cs q s ++ rest /\ tracked_ok cs q s /\
    retro_unserialize (Some b) (Z.of_nat (length b)) c =
      Some (set_rt (Some (set_tracked cs q s (cart_init r))) c, true).
Proof.
  intros Hc E (cs & q & s & rest & Ht & -> & Hl). exists cs, q, s, rest. split; [reflexivity|].
  split; [exact Ht|]. unfold retro_unserialize. rewrite E. cbn [blyt_runtime_reset option_map].
  pose proof (length_save_image cs q s rest (tracked_ok_wf _ _ _ Ht)) as Hlen.
  rewrite (wrap_small 32) by lia.
  rewrite (load_spec (cart_init r) cs q s rest _ (reset_ok r (ok_rt _ _ Hc r E))
    (tracked_ok_wf _ _ _ Ht)) by lia.
  reflexivity.
Qed.

(** What the frontend is promised of a call. *)
Definition promise (n : nat) (k : call) (c c' : core) (ev : list event) (res : result) : Prop :=
  match k with
  | Run _ _ =>
      rt c <> None ->
      0 <= catch_ups_last_run c' <= 3 /\ accumulator_ns c' < TICK_NS /\
      forall samples, EvAudio samples ∈ ev -> Z.of_nat (length samples) = 800
  | Serialize (Some b) size => rt c <> None -> retro_serialize_size c <= size -> exists b', res = RData (Some b') true
  | Unserialize (Some _) _ => rt c <> None -> res = RBool true
  | _ => True
  end.

Definition fine (n : nat) (saved : list (list Z)) (k : call) (c : core) : Prop :=
  exists c' ev res, exec k c = Some (c', ev, res) /\ core_ok (S n) c' /\
    Forall image_ok (collect res saved) /\ promise n k c c' ev res.

Section calls.
Context (n : nat) (c : core) (saved : list (list Z)).
Hypothesis Hc : core_ok n c.
Hypothesis Hs : Forall image_ok saved.

(** A call that leaves the state alone. *)
Lemma fine_same k ev res :
  exec k c = Some (c, ev, res) -> collect res saved = saved -> promise n k c c ev res -> fine n saved k c.
Proof.
  intros E Er Hp. exists c, ev, res. rewrite Er.
  exact (conj E (conj (core_ok_S n c Hc) (conj Hs Hp))).
Qed.

Lemma fine_load_game xrgb path mem now :
  environ_cb c = true -> 0 <= now < 2 ^ 64 -> fine n saved (LoadGame xrgb path mem now) c.
Proof.
  intros He Hnow. destruct xrgb.
  2: { apply (fine_same _ (log c (cstr "blyt: XRGB8888 pixel format not supported" ++ [10])) (RBool false));
         [|exact eq_refl|exact I].
       cbn [exec]. unfold retro_load_game. rewrite He. exact eq_refl. }
  unfold fine. cbn [exec]. unfold retro_load_game. rewrite He. cbn [negb]. destruct mem.
  - destruct create_ok as (r & -> & Hr). cbn [blyt_runtime_assert_slots_locked].
    rewrite (ok_locked _ Hr). cbn [negb mbind option_bind].
    eexists _, _, _. split; [exact eq_refl|]. split; [|exact (conj Hs I)].
    apply (core_ok_with n c _ Hc); [intros r' [= <-]; exact Hr|intros _; apply (ok_bound _ Hr)
      |exact Hnow|rewrite TICK_NS_val; cbn; lia|exact eq_refl..].
  - change (blyt_runtime_create false) with (@None blyt_runtime_t). cbn [mbind option_bind].
    eexists _, _, _. split; [exact eq_refl|]. split; [|exact (conj Hs I)].
    apply (core_ok_with n c _ Hc); [discriminate|by intros []|apply Hc|apply Hc|exact eq_refl..].
Qed.

Lemma fine_run poll now :
  0 <= now < 2 ^ 64 -> Z.of_nat (S n) < 2 ^ 48 -> fine n saved (Run poll now) c.
Proof.
  intros Hnow Hn. destruct (rt c) as [r|] eqn:E.
  - destruct (run_ok n poll now c r Hc E Hnow) as (c' & ev & Er & Hc' & _ & _ & _ & Hcu & Hau & _).
    unfold fine. cbn [exec]. rewrite Er. cbn [mbind option_bind].
    eexists _, _, _. split; [exact eq_refl|]. split; [exact Hc'|]. split; [exact Hs|].
    intros _. split; [exact Hcu|]. split; [apply Hc'|exact (Hau Hn)].
  - apply (fine_same _ [] RVoid); [|exact eq_refl|intros []; exact E].
    cbn [exec]. unfold retro_run. rewrite E. exact eq_refl.
Qed.

Lemma fine_serialize data size : allowed c saved (Serialize data size) -> fine n saved (Serialize data size) c.
Proof.
  intros Hk. destruct data as [b|], (rt c) as [r|] eqn:E.
  - destruct Hk as [-> Hlt]. pose proof (ok_upper _ _ Hc ltac:(congruence)) as Hup.
    destruct (Z.leb_spec 196 (Z.of_nat (length b))) as [Hge|Hlt'].
    + unfold fine. cbn [exec]. rewrite (serialize_ok n c r b Hc E Hlt Hge). cbn [mbind option_bind].
      eexists _, _, _. split; [exact eq_refl|]. split; [exact (core_ok_S n c Hc)|].
      split; [|intros _ _; eexists; exact eq_refl].
      constructor; [|exact Hs]. exact (saved_image_ok r b (ok_rt _ _ Hc r E) Hlt Hge).
    + apply (fine_same _ [] (RData (Some b) false)); [|exact eq_refl|].
      * cbn [exec]. unfold retro_serialize. rewrite E, Hup, (proj2 (Z.ltb_lt _ _) Hlt'). exact eq_refl.
      * intros _. unfold retro_serialize_size. lia.
  - apply (fine_same _ [] (RData (Some b) false)); [|exact eq_refl|intros []; exact E].
    cbn [exec]. unfold retro_serialize. rewrite E. exact eq_refl.
  - apply (fine_same _ [] (RData None false)); [|exact eq_refl|exact I].
    cbn [exec]. unfold retro_serialize. rewrite E. exact eq_refl.
  - apply (fine_same _ [] (RData None false)); [|exact eq_refl|exact I].
    cbn [exec]. unfold retro_serialize. rewrite E. exact eq_refl.
Qed.

Lemma fine_unserialize data size :
  allowed c saved (Unserialize data size) -> fine n saved (Unserialize data size) c.
Proof.
  intros Hk. destruct data as [b|], (rt c) as [r|] eqn:E.
  - destruct Hk as [Hin ->].
    destruct (unserialize_ok n c r b Hc E (proj1 (Forall_forall _ _) Hs b Hin))
      as (cs & q & s & rest & _ & Ht & Eu).
    unfold fine. cbn [exec]. rewrite Eu. cbn [mbind option_bind].
    eexists _, _, _. split; [exact eq_refl|]. split; [|split; [exact Hs|intros _; exact eq_refl]].
    apply (core_ok_with n c _ Hc); [|intros _; apply (ok_upper _ _ Hc); congruence|apply Hc|apply Hc|exact eq_refl..].
    intros r' [= <-]. exact (set_tracked_ok _ _ _ _ (reset_ok r (ok_rt _ _ Hc r E)) Ht).
  - apply (fine_same _ [] (RBool false)); [|exact eq_refl|intros []; exact E].
    cbn [exec]. unfold retro_unserialize. rewrite E. exact eq_refl.
  - apply (fine_same _ [] (RBool false)); [|exact eq_refl|exact I].
    cbn [exec]. unfold retro_unserialize. rewrite E. exact eq_refl.
  - apply (fine_same _ [] (RBool false)); [|exact eq_refl|exact I].
    cbn [exec]. unfold retro_unserialize. rewrite E. exact eq_refl.
Qed.

(** A setter or a lifecycle call. *)
Lemma fine_void k c' ev :
  exec k c = Some (c', ev, RVoid) -> core_ok (S n) c' -> promise n k c c' ev RVoid -> fine n saved k c.
Proof. intros E Hc' Hp. exists c', ev, RVoid. exact (conj E (conj Hc' (conj Hs Hp))). Qed.

Lemma exec_ok k : allowed c saved k -> Z.of_nat (S n) < 2 ^ 48 -> fine n saved k c.
Proof.
  intros Hk Hn. pose proof Hc as [Hrt Hup Hcl Hacc Haud].
  assert (forall c', rt c' = None -> last_run_ns c' = last_run_ns c -> accumulator_ns c' = accumulator_ns c ->
    total_run_calls c' = total_run_calls c -> total_audio_pushed c' = total_audio_pushed c ->
    core_ok (S n) c') as Hnone.
  { intros c' H0 H1 H2 H3 H4.
    apply (core_ok_with n c _ Hc); [congruence|congruence|congruence|congruence|exact H3|exact H4]. }
  destruct k as [| | | |now force trace| |now|xrgb path mem now| |poll now|data size|data size].
  1-4: eapply fine_void; [exact eq_refl| |exact I];
       refine (core_ok_with n c _ Hc _ _ _ _ _ _); [exact Hrt|exact Hup|exact Hcl|exact Hacc|exact eq_refl..].
  - eapply fine_void; [exact eq_refl| |exact I].
    constructor; [exact Hrt|exact Hup|exact Hk|rewrite TICK_NS_val; cbn; lia|cbn; lia].
  - eapply fine_void; [exact eq_refl| |exact I]. apply Hnone; exact eq_refl.
  - eapply fine_void; [exact eq_refl| |exact I].
    apply (core_ok_with n c _ Hc); [| |exact Hk|rewrite TICK_NS_val; cbn; lia|exact eq_refl..].
    + intros r. cbn [retro_reset rt set_clock set_rt]. destruct (rt c) as [r0|]; [|discriminate].
      intros [= <-]. exact (reset_ok r0 (Hrt r0 eq_refl)).
    + intros H. apply Hup. cbn [retro_reset rt set_clock set_rt] in H. by destruct (rt c).
  - apply fine_load_game; apply Hk.
  - eapply fine_void; [exact eq_refl| |exact I]. apply Hnone; exact eq_refl.
  - exact (fine_run poll now Hk Hn).
  - exact (fine_serialize data size Hk).
  - exact (fine_unserialize data size Hk).
Qed.
End calls.

Lemma core_bss_ok : core_ok 0 core_bss.
Proof. constructor; [discriminate|by intros []|cbn; lia|rewrite TICK_NS_val; cbn; lia|cbn; lia]. Qed.

Lemma reachable_ok n c saved :
  reachable n c saved -> Z.of_nat n < 2 ^ 48 -> core_ok n c /\ Forall image_ok saved.
Proof.
  induction 1 as [|n c saved k c' ev res Hr IH Hk E]; intros Hn.
  { split; [exact core_bss_ok|constructor]. }
  destruct (IH ltac:(lia)) as [Hc Hs].
  destruct (exec_ok n c saved Hc Hs k Hk Hn) as (c2 & ev2 & res2 & E2 & Hc2 & Hs2 & _).
  rewrite E in E2. injection E2 as <- <- <-. exact (conj Hc2 Hs2).
Qed.

(** ** A run of frames *)

(** The calls of [retro_run] one after the other: the state, the events, and the
    number of updates. *)
Fixpoint run_all (inputs : list ((Z -> Z) * Z)) (c : core) : option (core * list event * Z) :=
  match inputs with
  | [] => Some (c, [], 0)
  | (poll, now) :: inputs =>
      '(c, ev) ← retro_run poll now c;
      '(d, ev', k) ← run_all inputs c;
      Some (d, ev ++ ev', catch_ups_last_run c + k)
  end.

(** The pictures among the events. *)
Definition videos (evs : list event) : list (list Z) :=
  omap (fun e => match e with EvVideo p _ _ _ => Some p | _ => None end) evs.

Definition tracked_of (r : blyt_runtime_t) : cart_state_t * voice_end_queue_t * screen_shake_t :=
  (cart r, voice_q r, shake r).

Lemma tick_tracked m r s : rt_ok r -> rt_ok s -> buttons_ok m -> tracked_of r = tracked_of s ->
  exists r' s', tick m (Some r) = Some (Some r') /\ tick m (Some s) = Some (Some s') /\
    rt_ok r' /\ rt_ok s' /\ tracked_of r' = tracked_of s'.
Proof.
  intros Hr Hs Hm [= Ec Eq Es]. unfold tick.
  destruct (set_button_ok r m Hr Hm) as (l & -> & Hl & Hr1).
  destruct (set_button_ok s m Hs Hm) as (l' & -> & Hl' & Hs1).
  destruct (update_ok _ Hr1) as (r' & Er & Hr'). destruct (update_ok _ Hs1) as (s' & E2 & Hs').
  exists r', s'. cbn [blyt_runtime_update]. rewrite Er, E2.
  refine (conj eq_refl (conj eq_refl (conj Hr' (conj Hs' _)))).
  unfold update_rt in Er, E2. cbn [button_mask cart voice_q shake set_button_mask] in Er, E2.
  rewrite Hl in Er. rewrite Hl', <-Ec, <-Eq, <-Es in E2.
  destruct (update_cart m (cart r)) as [c'|]; [|discriminate].
  injection Er as <-. injection E2 as <-. reflexivity.
Qed.

(** Two cores in the deterministic mode whose runtimes agree on what a save state
    carries. *)
Record twins (c d : core) : Prop := {
  tw_rt : exists r s, rt c = Some r /\ rt d = Some s /\ tracked_of r = tracked_of s;
  tw_force : force_tick_per_run c = true /\ force_tick_per_run d = true;
  tw_video : video_refresh_cb c = video_refresh_cb d;
  tw_input : input_state_cb c = input_state_cb d;
}.

(** The picture event and the runtime a [retro_run] leaves. *)
Lemma run_force n poll now c r r1 fb :
  core_ok n c -> rt c = Some r -> force_tick_per_run c = true ->
  let m := adapter_poll_button_mask (if input_state_cb c then Some poll else None) in
  tick m (Some r) = Some (Some r1) -> rt_ok r1 -> draw_rt r1 = Some (set_framebuffer fb r1) ->
  rt_ok (set_framebuffer fb r1) ->
  exists c' ev r', retro_run poll now c = Some (c', ev) /\ rt c' = Some r' /\
    tracked_of r' = tracked_of r1 /\ force_tick_per_run c' = true /\
    video_refresh_cb c' = video_refresh_cb c /\ input_state_cb c' = input_state_cb c /\
    videos ev =
      if video_refresh_cb c then [adapter_expand_palette (take (Z.to_nat FB_PIXELS) fb) init_palette] else [].
Proof.
  intros Hc E Hf m Et Hr1 Ed Hfb. unfold retro_run. rewrite E, Hf. unfold advance. fold m. rewrite Et.
  cbn [mbind option_bind blyt_runtime_draw]. rewrite Ed. cbn [mbind option_bind].
  set (target := if _ <? _ then _ else _).
  destruct (pull_ok (set_framebuffer fb r1) target Hfb) as (r3 & samples & pn & Ep & Hr3 & _ & Htr & _).
  rewrite Ep. cbn [mbind option_bind]. eexists _, _, r3. split; [exact eq_refl|].
  split; [exact eq_refl|]. split; [exact Htr|]. split; [exact Hf|]. split; [exact eq_refl|].
  split; [exact eq_refl|].
  cbn [blyt_runtime_get_framebuffer blyt_runtime_get_palette option_map default framebuffer palette
       set_framebuffer]. rewrite (ok_palette _ Hr1). unfold videos.
  destruct (video_refresh_cb c), (audio_sample_batch_cb c && (0 <? pn)), (trace_file c); reflexivity.
Qed.

Lemma run_twins n m poll now now' c d :
  core_ok n c -> core_ok m d -> twins c d -> 0 <= now < 2 ^ 64 -> 0 <= now' < 2 ^ 64 ->
  exists c' ev d' ev', retro_run poll now c = Some (c', ev) /\ retro_run poll now' d = Some (d', ev') /\
    core_ok (S n) c' /\ core_ok (S m) d' /\ twins c' d' /\ videos ev = videos ev'.
Proof.
  intros Hc Hd [(r & s & Er & Es & Et) [Hfc Hfd] Hv Hi] Hn Hn'.
  set (mask := adapter_poll_button_mask (if input_state_cb c then Some poll else None)).
  destruct (tick_tracked mask r s (ok_rt _ _ Hc r Er) (ok_rt _ _ Hd s Es) (poll_ok _) Et)
    as (r1 & s1 & Tr & Ts & Hr1 & Hs1 & Et1).
  pose proof Et1 as [= Ecart _ _].
  destruct (ok_tracked _ Hr1) as (_ & _ & _ & Hx & Hy).
  destruct (draw_spec (cart r1) Hx Hy) as (fb & Hl & Hdraw).
  pose proof (Hdraw r1 eq_refl (ok_framebuffer _ Hr1)) as Dr.
  pose proof (Hdraw s1 (eq_sym Ecart) (ok_framebuffer _ Hs1)) as Ds.
  assert (forall r, rt_ok r -> rt_ok (set_framebuffer fb r)) as Hok.
  { intros q [Ht _ Hp Hb Hh Hlk Hsz Hph]. exact (Build_rt_ok (set_framebuffer fb q) Ht Hl Hp Hb Hh Hlk Hsz Hph). }
  destruct (run_force n poll now c r r1 fb Hc Er Hfc Tr Hr1 Dr (Hok _ Hr1))
    as (c' & ev & r' & R1 & Er' & Etr & Hf1 & Hv1 & Hi1 & V1).
  unfold mask in Ts. rewrite Hi in Ts.
  destruct (run_force m poll now' d s s1 fb Hd Es Hfd Ts Hs1 Ds (Hok _ Hs1))
    as (d' & ev' & s' & R2 & Es' & Ets & Hf2 & Hv2 & Hi2 & V2).
  exists c', ev, d', ev'. split; [exact R1|]. split; [exact R2|].
  destruct (run_ok n poll now c r Hc Er Hn) as (? & ? & R1' & Hc' & _).
  rewrite R1 in R1'. injection R1' as <- <-.
  destruct (run_ok m poll now' d s Hd Es Hn') as (? & ? & R2' & Hd' & _).
  rewrite R2 in R2'. injection R2' as <- <-.
  split; [exact Hc'|]. split; [exact Hd'|]. split; [|by rewrite V1, V2, Hv].
  constructor; [|exact (conj Hf1 Hf2)|congruence|congruence].
  exists r', s'. split; [exact Er'|]. split; [exact Es'|]. congruence.
Qed.

Lemma run_all_twins polls : forall n m c d,
  core_ok n c -> core_ok m d -> twins c d ->
  Forall (fun p => 0 <= p.1.2 < 2 ^ 64 /\ 0 <= p.2 < 2 ^ 64) polls ->
  exists c' ev d' ev' k k' i j,
    run_all (map fst polls) c = Some (c', ev, k) /\
    run_all (map (fun p => (p.1.1, p.2)) polls) d = Some (d', ev', k') /\
    core_ok i c' /\ core_ok j d' /\ twins c' d' /\ videos ev = videos ev'.
Proof.
  induction polls as [|[[poll now] now'] polls IH]; intros n m c d Hc Hd Ht Hp.
  { exists c, [], d, [], 0, 0, n, m. by repeat (split; [done|]). }
  inversion Hp as [|? ? [H1 H2] Hp']; subst.
  destruct (run_twins n m poll now now' c d Hc Hd Ht H1 H2)
    as (c1 & ev1 & d1 & ev1' & R1 & R2 & Hc1 & Hd1 & Ht1 & V1).
  destruct (IH _ _ _ _ Hc1 Hd1 Ht1 Hp') as (c' & ev & d' & ev' & k & k' & i & j & A1 & A2 & Hc' & Hd' & Ht' & V).
  cbn [map run_all fst snd]. rewrite R1, R2. cbn [mbind option_bind]. rewrite A1, A2. cbn [mbind option_bind].
  eexists c', _, d', _, _, _, i, j. split; [exact eq_refl|]. split; [exact eq_refl|].
  split; [exact Hc'|]. split; [exact Hd'|]. split; [exact Ht'|].
  unfold videos in *. by rewrite !omap_app, V1, V.
Qed.

(** ** Properties *)

(** C5: The core never leaves defined behaviour.  After any sequence of entry
    points a frontend may call (in any order, with any clock readings and any
    input, restoring only buffers the core filled before) every further call is
    defined: the rectangle stays inside the framebuffer and no sum overflows.  A
    [retro_run] makes at most three updates and leaves less than a tick in the
    accumulator, every audio batch has 800 frames, saving into a large enough
    buffer succeeds, and so does restoring. *)
Theorem retro_safe n c saved k :
  reachable n c saved -> allowed c saved k -> Z.of_nat (S n) < 2 ^ 48 ->
  exists c' ev res,
    exec k c = Some (c', ev, res) /\ reachable (S n) c' (collect res saved) /\
    promise n k c c' ev res /\
    forall r, rt c' = Some r ->
      0 <= rect_x (cart r) <= FB_WIDTH - 64 /\ 0 <= rect_y (cart r) <= FB_HEIGHT - 32.
Proof.
  intros Hr Hk Hn. destruct (reachable_ok n c saved Hr ltac:(lia)) as [Hc Hs].
  destruct (exec_ok n c saved Hc Hs k Hk Hn) as (c' & ev & res & E & Hc' & Hs' & Hp).
  exists c', ev, res. split; [exact E|]. split; [exact (reach_call _ _ _ _ _ _ _ Hr Hk E)|].
  split; [exact Hp|]. intros r Er. apply (ok_tracked _ (ok_rt _ _ Hc' r Er)).
Qed.

(** C6: A restored buffer replays.  Let a frontend in the one-update-per-run mode
    save, and let a core in any other reachable state, with the same callbacks,
    restore the buffer.  From there on, both show the same pictures for the same
    input, whatever their clocks say and however long they run, and a buffer saved
    afterwards is the same byte for byte. *)
Theorem retro_rewind n c saved m d saved' r b polls :
  reachable n c saved -> reachable m d saved' -> Z.of_nat n < 2 ^ 47 -> Z.of_nat m < 2 ^ 47 ->
  rt c = Some r -> rt d <> None ->
  force_tick_per_run c = true -> force_tick_per_run d = true ->
  video_refresh_cb c = video_refresh_cb d -> input_state_cb c = input_state_cb d ->
  196 <= Z.of_nat (length b) < 2 ^ 32 ->
  Forall (fun p => 0 <= p.1.2 < 2 ^ 64 /\ 0 <= p.2 < 2 ^ 64) polls ->
  exists data d0 c' ev d' ev' k k',
    retro_serialize (Some b) (Z.of_nat (length b)) c = Some (Some data, [], true) /\
    retro_unserialize (Some data) (Z.of_nat (length data)) d = Some (d0, true) /\
    run_all (map fst polls) c = Some (c', ev, k) /\
    run_all (map (fun p => (p.1.1, p.2)) polls) d0 = Some (d', ev', k') /\
    videos ev = videos ev' /\
    forall b', 196 <= Z.of_nat (length b') < 2 ^ 32 ->
      exists data', retro_serialize (Some b') (Z.of_nat (length b')) c' = Some (Some data', [], true) /\
        retro_serialize (Some b') (Z.of_nat (length b')) d' = Some (Some data', [], true).
Proof.
  intros Hr Hd Hn Hm Er Ed Hf Hf' Hv Hi Hb Hp.
  destruct (reachable_ok n c saved Hr ltac:(lia)) as [Hc _].
  destruct (reachable_ok m d saved' Hd ltac:(lia)) as [Hdok _].
  destruct (rt d) as [s|] eqn:Es; [|done]. pose proof (ok_rt _ _ Hc r Er) as Hrok.
  pose proof (serialize_ok n c r b Hc Er ltac:(lia) ltac:(lia)) as Hser.
  set (data := save_image _ _ _ ++ drop 196 b) in *.
  assert (retro_unserialize (Some data) (Z.of_nat (length data)) d =
    Some (set_rt (Some (set_tracked (cart r) (voice_q r) (shake r) (cart_init s))) d, true)) as Hun.
  { unfold retro_unserialize. rewrite Es. cbn [blyt_runtime_reset option_map].
    assert (length data = (196 + length (drop 196 b))%nat) as Hl
      by exact (length_save_image _ _ _ _ (tracked_ok_wf _ _ _ (ok_tracked _ Hrok))).
    rewrite length_drop in Hl. rewrite (wrap_small 32) by lia.
    unfold data. rewrite (load_spec (cart_init s)); [exact eq_refl|
      exact (reset_ok s (ok_rt _ _ Hdok s Es))|exact (tracked_ok_wf _ _ _ (ok_tracked _ Hrok))|].
    fold data. rewrite length_drop. lia. }
  set (d0 := set_rt _ d) in Hun.
  assert (core_ok (S m) d0) as Hd0.
  { apply (core_ok_with m d _ Hdok); [|intros _; apply (ok_upper _ _ Hdok); congruence|apply Hdok|
      apply Hdok|exact eq_refl..].
    intros q [= <-].
    exact (set_tracked_ok _ _ _ _ (reset_ok s (ok_rt _ _ Hdok s Es)) (ok_tracked _ Hrok)). }
  assert (twins c d0) as Ht.
  { constructor; [|exact (conj Hf Hf')|exact Hv|exact Hi]. eexists r, _. split; [exact Er|].
    split; exact eq_refl. }
  destruct (run_all_twins polls n (S m) c d0 Hc Hd0 Ht Hp)
    as (c' & ev & d' & ev' & k & k' & i & j & A1 & A2 & Hc' & Hd' & [(r' & s' & E1 & E2 & E3) _ _ _] & V).
  exists data, d0, c', ev, d', ev', k, k'.
  refine (conj Hser (conj Hun (conj A1 (conj A2 (conj V _))))).
  intros b' Hb'. injection E3 as T1 T2 T3. eexists.
  split; [exact (serialize_ok i c' r' b' Hc' E1 ltac:(lia) ltac:(lia))|].
  rewrite (serialize_ok j d' s' b' Hd' E2) by lia. by rewrite T1, T2, T3.
Qed.

(** The readings never go back and never skip more than three ticks. *)
Fixpoint steady (last : Z) (inputs : list ((Z -> Z) * Z)) : Prop :=
  match inputs with
  | [] => True
  | (_, now) :: inputs => last <= now <= last + 3 * TICK_NS /\ now < 2 ^ 64 /\ steady now inputs
  end.

Fixpoint last_reading (last : Z) (inputs : list ((Z -> Z) * Z)) : Z :=
  match inputs with [] => last | (_, now) :: inputs => last_reading now inputs end.

Lemma run_all_pace inputs : forall n c,
  core_ok n c -> rt c <> None -> force_tick_per_run c = false -> steady (last_run_ns c) inputs ->
  exists d ev k, run_all inputs c = Some (d, ev, k) /\ 0 <= accumulator_ns d < TICK_NS /\
    k * TICK_NS + accumulator_ns d =
      accumulator_ns c + (last_reading (last_run_ns c) inputs - last_run_ns c).
Proof.
  induction inputs as [|[poll now] inputs IH]; intros n c Hc Hrt Hf Hst.
  { exists c, [], 0. split; [exact eq_refl|]. split; [apply Hc|]. cbn [last_reading]. lia. }
  destruct Hst as ([Hlo Hhi] & Hmax & Hst). destruct (rt c) as [r|] eqn:E; [|done].
  pose proof (ok_clock _ _ Hc). pose proof (ok_acc _ _ Hc).
  destruct (run_ok n poll now c r Hc E ltac:(lia)) as (c1 & ev & R & Hc1 & Hrt1 & Hf1 & Hl1 & _ & _ & Hp).
  rewrite Hf in Hp, Hf1. rewrite TICK_NS_val in *.
  rewrite (wrap_small 64 (now - last_run_ns c)), wrap_small in Hp by lia.
  destruct Hp as [Hk Ha]. set (acc := accumulator_ns c + (now - last_run_ns c)) in *.
  destruct (Z.ltb_spec acc (4 * 16666666)); [|lia].
  pose proof (Z.div_mod acc 16666666 ltac:(lia)).
  assert (acc / 16666666 < 4) by (apply Z.div_lt_upper_bound; lia).
  rewrite Z.min_r in Hk by lia.
  destruct (IH (S n) c1 Hc1 Hrt1 Hf1 ltac:(by rewrite Hl1)) as (d & ev' & k & A & Hd & Hsum).
  cbn [run_all last_reading]. rewrite R. cbn [mbind option_bind]. rewrite A. cbn [mbind option_bind].
  eexists d, _, _. split; [exact eq_refl|]. split; [exact Hd|]. rewrite Hk. rewrite Hl1 in Hsum.
  subst acc. lia.
Qed.

(** C15: The game keeps the pace of the clock.  As long as no two readings are more
    than three ticks apart, the updates made over a run of frames are exactly the
    ticks that fit the elapsed time and the time carried over, so the runtime
    neither drifts nor falls behind.  A single run after a gap of any length makes the
    ticks that are due, three at most; the time beyond the last whole tick is carried
    over when fewer than four ticks were due, and otherwise cut to one nanosecond
    short of a tick. *)
Theorem retro_pacing n c saved inputs :
  reachable n c saved -> Z.of_nat n < 2 ^ 47 -> rt c <> None -> force_tick_per_run c = false ->
  (steady (last_run_ns c) inputs ->
   exists d ev k, run_all inputs c = Some (d, ev, k) /\ 0 <= accumulator_ns d < TICK_NS /\
     k = (accumulator_ns c + (last_reading (last_run_ns c) inputs - last_run_ns c)) / TICK_NS) /\
  (forall poll now, last_run_ns c <= now < 2 ^ 63 ->
   let due := accumulator_ns c + (now - last_run_ns c) in
   exists d ev, retro_run poll now c = Some (d, ev) /\
     catch_ups_last_run d = Z.min 3 (due / TICK_NS) /\
     accumulator_ns d = if due <? 4 * TICK_NS then due mod TICK_NS else TICK_NS - 1).
Proof.
  intros Hr Hn Hrt Hf. destruct (reachable_ok n c saved Hr ltac:(lia)) as [Hc _]. split.
  - intros Hst. destruct (run_all_pace inputs n c Hc Hrt Hf Hst) as (d & ev & k & A & Hd & Hsum).
    exists d, ev, k. split; [exact A|]. split; [exact Hd|]. rewrite <-Hsum.
    rewrite TICK_NS_val in *. rewrite Z.div_add_l, Z.div_small by lia. lia.
  - intros poll now Hnow due. destruct (rt c) as [r|] eqn:E; [|done].
    pose proof (ok_clock _ _ Hc). pose proof (ok_acc _ _ Hc). rewrite TICK_NS_val in *.
    destruct (run_ok n poll now c r Hc E ltac:(lia)) as (d & ev & R & _ & _ & _ & _ & _ & _ & Hp).
    rewrite Hf, TICK_NS_val in Hp. rewrite (wrap_small 64 (now - last_run_ns c)), wrap_small in Hp by lia.
    exists d, ev. split; [exact R|exact Hp].
Qed.
End entry_points.

(** ** A buffer the core did not write

    The gates of [blyt_runtime_load] compare the header only: a buffer whose
    rectangle lies outside of the picture is accepted, and a [retro_run] in which
    no tick is due draws it before any update has clamped it. *)

Definition stray_cart : cart_state_t := CartState 0 1000 32 0 [0; 0; 0] 0 0.
Definition stray_buffer : list Z := save_image stray_cart zero_queue (Shake 0 0 0 0).

Lemma stray_wf : tracked_wf stray_cart zero_queue (Shake 0 0 0 0).
Proof.
  refine (conj _ (conj zero_queue_wf _)); cbn; repeat split; try lia.
  repeat (constructor; [unfold is_byte; lia|]). constructor.
Qed.

Lemma stray_restore_overruns sinf n c r poll :
  core_ok n c -> rt c = Some r -> force_tick_per_run c = false ->
  exists d, retro_unserialize (Some stray_buffer) 196 c = Some (d, true) /\
    (accumulator_ns c = 0 -> retro_run sinf poll (last_run_ns c) d = None).
Proof.
  intros Hc E Hf. pose proof (reset_ok r (ok_rt _ _ Hc r E)) as Hr0.
  pose proof (load_spec (cart_init r) _ _ _ [] 196 Hr0 stray_wf ltac:(cbn; lia)) as Hl.
  rewrite app_nil_r in Hl. unfold retro_unserialize. rewrite E. cbn [blyt_runtime_reset option_map].
  rewrite (wrap_small 32) by lia. unfold stray_buffer. rewrite Hl. cbn [mbind option_bind].
  set (r' := set_tracked stray_cart _ _ _). eexists. split; [exact eq_refl|].
  intros Ha. unfold retro_run. cbn [rt set_rt force_tick_per_run last_run_ns accumulator_ns].
  rewrite Hf, Ha, Z.sub_diag.
  unfold advance. cbn [catch_up]. rewrite TICK_NS_val.
  change (u64 (0 + u64 0)) with 0. change (0 <? 16666666) with true. cbn [mbind option_bind].
  change (16666666 <=? 0) with false. unfold blyt_runtime_draw.
  assert (draw_rt r' = None) as ->; [|reflexivity].
  unfold draw_rt. cbn [cart r' set_tracked framebuffer].
  replace (Z.to_nat FB_HEIGHT) with 240%nat by reflexivity.
  pose proof (ok_framebuffer _ Hr0) as Hlen. unfold FB_BYTES, FB_WIDTH, FB_HEIGHT in Hlen.
  pose proof (for_rows_full 240 0 (background (cframe stray_cart)) [] (framebuffer (cart_init r)) [] eq_refl
                ltac:(unfold FB_WIDTH; lia)) as Hbg.
  rewrite !app_nil_r in Hbg. rewrite !app_nil_l in Hbg.
  change (framebuffer r') with (framebuffer (cart_init r)). change (cart r') with stray_cart.
  rewrite Hbg. reflexivity.
Qed.

(** With the A button held the frame number steps over the scheduled one, and no
    end event is queued. *)
Example held_button_misses_end :
  exists c, update_cart BLYT_BUTTON_A (CartState 149 32 32 0 [0; 0; 0] 0 0) = Some c /\
    mixer_report_end_of_frame zero_queue (cframe c) = zero_queue.
Proof. eexists. split; reflexivity. Qed.

(** ** Witnesses *)

(** A sine that is always zero, and a NaN where there is none. *)
Definition silence (t : Z) : Z := if is_finitef t then 0 else CANONICAL_QNAN_BITS.

#[export] Instance silence_laws : SinfLaws silence.
Proof. intros t Ht. unfold silence. rewrite Ht. vm_compute. discriminate. Qed.

(** A core that has loaded a game at time zero. *)
Lemma loaded (force : bool) :
  exists r c, reachable silence 4 c [] /\ rt c = Some r /\ force_tick_per_run c = force /\
    last_run_ns c = 0 /\ accumulator_ns c = 0.
Proof.
  destruct create_ok as (r & E & Hr).
  set (c0 := retro_set_video_refresh true (retro_set_environment core_bss)).
  set (env := if force then Some [49] else None).
  set (c1 := (retro_init 0 env None c0).1).
  assert (reachable silence 3 c1 []) as H1.
  { apply (reach_call silence 2 c0 [] (Init 0 env None) c1 [] RVoid); [|cbn; lia|exact eq_refl].
    apply (reach_call silence 1 (retro_set_environment core_bss) [] (SetVideoRefresh true) c0 [] RVoid);
      [|exact I|exact eq_refl].
    apply (reach_call silence 0 core_bss [] SetEnvironment _ [] RVoid);
      [constructor|exact I|exact eq_refl]. }
  exists r, (set_clock 0 0 (set_bound (blyt_runtime_save_upper_bound (Some r)) (set_rt (Some r) c1))).
  refine (conj _ (conj eq_refl (conj _ (conj eq_refl eq_refl)))); [|by destruct force].
  eapply (reach_call silence 3 c1 [] (LoadGame true None true 0) _ _ (RBool true));
    [exact H1|split; [exact eq_refl|lia]|].
  cbn [exec]. unfold retro_load_game. change (environ_cb c1) with true. cbn [negb].
  rewrite E. cbn [blyt_runtime_assert_slots_locked]. rewrite (ok_locked _ Hr).
  cbn [negb mbind option_bind]. exact eq_refl.
Qed.

Lemma retro_safe_witness :
  exists c c' ev, reachable silence 4 c [] /\ rt c <> None /\
    exec silence (Run (fun _ => 1) 20000000) c = Some (c', ev, RVoid) /\
    0 <= catch_ups_last_run c' <= 3.
Proof.
  destruct (loaded false) as (r & c & Hr & E & _).
  destruct (retro_safe silence 4 c [] (Run (fun _ => 1) 20000000) Hr) as (c' & ev & res & Ex & _ & Hp & _);
    [cbn; lia|lia|].
  exists c, c', ev. assert (rt c <> None) as Hne by congruence.
  split; [exact Hr|]. split; [exact Hne|]. destruct (Hp Hne) as [Hcu _].
  split; [|exact Hcu]. cbn [exec] in Ex |- *. destruct (retro_run silence _ _ c) as [[c2 ev2]|]; [|discriminate].
  cbn [mbind option_bind] in Ex |- *. by injection Ex as <- <- _.
Defined.

Lemma retro_rewind_witness :
  exists c data d0 c' ev d' ev' k k',
    retro_serialize (Some (repeat 0 196)) 196 c = Some (Some data, [], true) /\
    retro_unserialize (Some data) (Z.of_nat (length data)) c = Some (d0, true) /\
    run_all silence [(fun _ => 1, 5)] c = Some (c', ev, k) /\
    run_all silence [(fun _ => 1, 9)] d0 = Some (d', ev', k') /\ videos ev = videos ev'.
Proof.
  destruct (loaded true) as (r & c & Hr & E & Hf & _).
  destruct (retro_rewind silence 4 c [] 4 c [] r (repeat 0 196) [(fun _ => 1, 5, 9)] Hr Hr)
    as (data & d0 & c' & ev & d' & ev' & k & k' & H1 & H2 & H3 & H4 & H5 & _);
    [lia|lia|exact E|congruence|exact Hf|exact Hf|exact eq_refl|exact eq_refl|rewrite repeat_length; lia|
     constructor; [cbn; lia|constructor]|].
  exists c, data, d0, c', ev, d', ev', k, k'.
  exact (conj H1 (conj H2 (conj H3 (conj H4 H5)))).
Defined.

Lemma retro_pacing_witness :
  exists c d ev, reachable silence 4 c [] /\
    run_all silence [(fun _ => 0, 20000000); (fun _ => 0, 40000000)] c = Some (d, ev, 2).
Proof.
  destruct (loaded false) as (r & c & Hr & E & Hf & Hl & Ha).
  destruct (retro_pacing silence 4 c [] [(fun _ => 0, 20000000); (fun _ => 0, 40000000)] Hr)
    as [Hp _]; [lia|congruence|exact Hf|].
  destruct Hp as (d & ev & k & A & _ & Hk).
  { rewrite Hl. cbn [steady]. rewrite TICK_NS_val. lia. }
  exists c, d, ev. split; [exact Hr|]. rewrite A, Hk, Hl, Ha. exact eq_refl.
Defined.
