(* ===== verification/Replay.v ===== *)
(** * Saving in one process, continuing in another
    (spikes/spike-k/ports/rv32emu, the shared shape of the drivers)

    Every demo cart comes as three programs: [full] runs all frames and prints a
    digest line per frame, [save] runs to the save frame and prints the buffer,
    [load] reads the buffer back and prints the digests of the remaining frames.
    This file holds the loops and the save and load steps the drivers share, the
    interface a cart has to meet ([Cart]), and the proof, against that interface
    only, that a continuation prints exactly the missing digest lines. *)

From S2P Require Import Prelude Layout Float32 Determinism CString Tracked SaveState SaveIo Regions.

(** ** Program runs *)

(** What a [main] that returns leaves behind: its output, its exit code and the
    globals. *)
Record exit_state (S : Type) := Exit { out : list Z; code : Z; globals : runtime S }.
Arguments Exit {S}.
Arguments out {S}.
Arguments code {S}.
Arguments globals {S}.

(** The cache [save_state.c] starts with. *)
Definition ctx_bss : save_ctx := {| g_layout_hash := 0; g_initialized := false |}.

Definition NFRAMES : Z := 30.

Section loops.
Context {S : Type}.

(** [n] rounds of a [uint32_t] frame loop from [f]. *)
Fixpoint frames (n : nat) (f : Z) (body : Z -> S -> S) (s : S) : S :=
  match n with
  | O => s
  | Datatypes.S n => frames n (u32 (f + 1)) body (body f s)
  end.

(** The same with a line printed per round. *)
Fixpoint frames_out (n : nat) (f : Z) (body : Z -> S -> S * list Z) (s : S)
  : S * list (list Z) :=
  match n with
  | O => (s, [])
  | Datatypes.S n =>
      let '(s, line) := body f s in
      let '(s, lines) := frames_out n (u32 (f + 1)) body s in
      (s, line :: lines)
  end.

(** [for (f = start; f < bound; f++)]. *)
Definition loop_below (start bound : Z) (body : Z -> S -> S * list Z) (s : S)
  : S * list (list Z) := frames_out (Z.to_nat (bound - start)) start body s.

(** [for (f = 0; f <= last; f++)]: never ends when [last] is [UINT32_MAX]. *)
Definition loop_upto (last : Z) (body : Z -> S -> S) (s : S) : option S :=
  if last =? 0xffffffff then None else Some (frames (Z.to_nat (last + 1)) 0 body s).

(** A frame followed by [frame_state_emit_digest(fs)]. *)
Definition with_digest (get_fs : S -> frame_state_t) (set_fs : frame_state_t -> S -> S)
    (body : Z -> S -> S) (f : Z) (s : S) : S * list Z :=
  let s := body f s in
  let '(fs, line) := frame_state_emit_digest (get_fs s) in
  (set_fs fs s, line).
End loops.

(** ** Digest lines *)

(** A straight-through run prints one line per frame. *)
Definition output (lines : list (list Z)) : list Z := concat lines.

(** ** Writing the buffer out and reading it back *)

Section save_load.
Context {S : Type} (rs : list (region S)).

(** [save_frame] of the save drivers. *)
Definition save_frame_arg (argv : list (list Z)) (default : Z) : Z :=
  match argv with
  | _ :: a :: _ => u32 (atoi a)
  | _ => default
  end.

(** The end of every save driver, with a buffer of [cap] bytes. *)
Definition save_and_emit_cap (cap : Z) (panic : list Z) (rt : runtime S) (save_frame : Z)
  : option (exit_state S) :=
  match save_state_save rs rt (repeat 0 (Z.to_nat cap)) cap save_frame with
  | None => None
  | Some (rt, buf, n) =>
      if n =? 0 then Some (Exit (printf_s panic) 1 rt)
      else Some (Exit (save_state_emit_hex buf n) 0 rt)
  end.

(** The spike-k drivers use 8 KiB. *)
Definition save_and_emit : list Z -> runtime S -> Z -> option (exit_state S) :=
  save_and_emit_cap 8192.

(** [save_state_layout_hash]. *)
Definition save_state_layout_hash (ctx : save_ctx) : Z :=
  g_layout_hash ctx.

(** The PANIC lines of a load driver: unreadable file, hex error (with the
    length read), refused buffer (with its size and the layout hash). *)
Record load_panics := Panics {
  p_read : list Z;
  p_hex : Z -> list Z;
  p_rejected : Z -> Z -> list Z;
}.

Context {W : Type} (sys_open : list Z -> W -> W * Z)
  (sys_read : Z -> Z -> W -> W * Z * list Z) (sys_close : Z -> W -> W * Z).

(** The middle of every load driver, with a text buffer of [textcap] + 1 and a
    binary buffer of [cap] bytes: the restored program, or the PANIC exit. *)
Definition load_buffer_cap (textcap cap : Z) (p : load_panics) (rt : runtime S) (path : list Z) (w : W)
  : option (W * (runtime S + exit_state S)) :=
  match save_io_read_file sys_open sys_read sys_close w path textcap with
  | None => None
  | Some (w, hexbuf, n) =>
      if n <? 0 then Some (w, inr (Exit (printf_s (p_read p)) 1 rt))
      else
        let '(bin, m) := save_io_parse_hex hexbuf cap in
        if m <? 0 then Some (w, inr (Exit (printf_s (p_hex p n)) 1 rt))
        else
          match save_state_load rs rt (bin ++ repeat 0 (Z.to_nat cap - length bin)) m with
          | None => None
          | Some (rt, false) =>
              Some (w, inr (Exit (printf_s (p_rejected p m (save_state_layout_hash rt.1))) 1 rt))
          | Some (rt, true) => Some (w, inl rt)
          end
  end.

(** The spike-k drivers use 16 KiB and 8 KiB. *)
Definition load_buffer : load_panics -> runtime S -> list Z -> W ->
    option (W * (runtime S + exit_state S)) := load_buffer_cap 16383 8192.
End save_load.

(** ** The round trip through a file *)

Section transport.
Context {S : Type} (rs : list (region S)) (tracked_wf : S -> Prop).
Context {W : Type} (sys_open : list Z -> W -> W * Z)
  (sys_read : Z -> Z -> W -> W * Z * list Z) (sys_close : Z -> W -> W * Z)
  (remaining : W -> list Z).

(** The header of a buffer the registry's program saves. *)
Definition saved_header (ctx : save_ctx) (fr : Z) : save_state_header_t :=
  Header SAVE_STATE_MAGIC SAVE_STATE_VERSION (g_layout_hash ctx) fr (save_state_buffer_capacity rs).

(** What one program emits, another one reads back and decodes to the header
    and the images. *)
Lemma emit_parse_cap cap textcap panic ctx s fr :
  Registry rs tracked_wf -> total_fits rs -> save_state_buffer_capacity rs <= cap ->
  cap < 2 ^ 30 -> 2 * save_state_buffer_capacity rs + 64 <= textcap ->
  tracked_wf s -> g_initialized ctx = true -> 0 <= g_layout_hash ctx < 2 ^ 64 -> 0 <= fr < 2 ^ 32 ->
  exists text,
    save_and_emit_cap rs cap panic (ctx, s) fr = Some (Exit text 0 (ctx, copy_tracked rs s s)) /\
    lwf header_layout (saved_header ctx fr) /\
    save_io_parse_hex text cap =
      (lenc header_layout (saved_header ctx fr) ++ images rs s, save_state_buffer_capacity rs) /\
    (forall path w w0 fd,
     sys_open path w = (w0, fd) -> 0 <= fd -> read_posix sys_read remaining fd ->
     remaining w0 = text ->
     exists w', save_io_read_file sys_open sys_read sys_close w path textcap =
       Some (w', text, Z.of_nat (length text))).
Proof.
  intros HR Hfit Hsize Hcap Htextcap Ht Hinit Hhash Hfr.
  pose proof (capacity_images rs tracked_wf s HR Ht Hfit) as Hneed. unfold header_size in Hneed.
  assert (0 <= save_state_buffer_capacity rs < 2 ^ 32) as Hcr by by apply wrap_range.
  unfold save_and_emit_cap, saved_header.
  set (need := save_state_buffer_capacity rs) in *.
  rewrite (save_state_save_layout rs tracked_wf) by (done || rewrite ?repeat_length; lia).
  fold need. destruct (Z.eqb_spec need 0); [lia|].
  set (h := Header _ _ _ _ _). set (buf := lenc header_layout h ++ _).
  assert (lwf header_layout h) as Hh by (repeat split; simpl; try done; lia).
  assert (bytes buf) as Hb.
  { unfold buf. apply Forall_app_2; [by apply bytes_lenc|].
    apply Forall_app_2; [by eapply images_bytes|].
    apply Forall_drop. apply Forall_forall. intros x Hx.
    apply list_elem_of_In in Hx. apply repeat_spec in Hx as ->. done. }
  assert (length buf = Z.to_nat cap) as Hlen.
  { unfold buf. rewrite !length_app, length_lenc, length_drop, repeat_length by done.
    simpl lsize. lia. }
  eexists. split; [reflexivity|]. split; [done|]. split.
  { rewrite hex_transport by (done || unfold header_size; lia). f_equal.
    unfold buf. rewrite app_assoc. apply take_app_length'.
    rewrite length_app, length_lenc by done. simpl lsize. lia. }
  intros path w w0 fd Ho Hfd Hread Hrem.
  destruct (read_file_works sys_open sys_read sys_close remaining path textcap w w0 fd)
    as [w' Hr]; [lia|done..|].
  assert (length (save_state_emit_hex buf need) <= Z.to_nat textcap)%nat as Htext.
  { rewrite emit_hex_text by (done || unfold header_size; lia).
    assert (hframe (read_header buf) = fr) as ->.
    { unfold buf. by rewrite read_header_app. }
    pose proof (dec_length fr Hfr).
    rewrite !length_app, length_hex_bytes, length_take. cbn [length cstr]. lia. }
  rewrite Hrem, take_ge in Hr by lia. by exists w'.
Qed.

(** What one program emits, another one loads, when its buffers are large
    enough for the registry. *)
Lemma emit_load_cap cap textcap panic ctx s fr :
  Registry rs tracked_wf -> total_fits rs -> save_state_buffer_capacity rs <= cap ->
  cap < 2 ^ 30 -> 2 * save_state_buffer_capacity rs + 64 <= textcap ->
  tracked_wf s -> g_initialized ctx = true -> 0 <= g_layout_hash ctx < 2 ^ 64 -> 0 <= fr < 2 ^ 32 ->
  exists text,
    save_and_emit_cap rs cap panic (ctx, s) fr = Some (Exit text 0 (ctx, copy_tracked rs s s)) /\
    (forall p t path w w0 fd,
     sys_open path w = (w0, fd) -> 0 <= fd -> read_posix sys_read remaining fd ->
     remaining w0 = text ->
     exists w', load_buffer_cap rs sys_open sys_read sys_close textcap cap p (ctx, t) path w =
       Some (w', inl (ctx, copy_tracked rs s t))).
Proof.
  intros HR Hfit Hsize Hcap Htextcap Ht Hinit Hhash Hfr.
  destruct (emit_parse_cap cap textcap panic ctx s fr) as (text & Hsave & Hh & Hparse & Hread);
    [done..|].
  exists text. split; [done|]. intros p t path w w0 fd Ho Hfd Hpx Hrem.
  destruct (Hread path w w0 fd) as [w' Hr]; [done..|].
  exists w'. unfold load_buffer_cap. rewrite Hr.
  destruct (Z.ltb_spec (Z.of_nat (length text)) 0); [lia|].
  rewrite Hparse. assert (0 <= save_state_buffer_capacity rs < 2 ^ 32) by by apply wrap_range.
  destruct (Z.ltb_spec (save_state_buffer_capacity rs) 0); [lia|].
  rewrite <-!app_assoc. unfold saved_header.
  rewrite (load_image rs tracked_wf) by (done || lia). done.
Qed.

(** The spike-k sizes do for a registry of at most 8000 bytes. *)
Lemma emit_load panic ctx s fr :
  Registry rs tracked_wf -> total_fits rs -> save_state_buffer_capacity rs <= 8000 ->
  tracked_wf s -> g_initialized ctx = true -> 0 <= g_layout_hash ctx < 2 ^ 64 -> 0 <= fr < 2 ^ 32 ->
  exists text,
    save_and_emit rs panic (ctx, s) fr = Some (Exit text 0 (ctx, copy_tracked rs s s)) /\
    (forall p t path w w0 fd,
     sys_open path w = (w0, fd) -> 0 <= fd -> read_posix sys_read remaining fd ->
     remaining w0 = text ->
     exists w', load_buffer rs sys_open sys_read sys_close p (ctx, t) path w =
       Some (w', inl (ctx, copy_tracked rs s t))).
Proof. intros. apply emit_load_cap; done || lia. Qed.
End transport.

(** ** States with the same canonical form *)

(** Two states a save cannot tell apart. *)
Definition canon_eq {S} (rs : list (region S)) (s t : S) : Prop :=
  Forall (fun r => save (r_ops r) (r_get r s) = save (r_ops r) (r_get r t)) rs.

#[export] Instance canon_eq_equiv {S} (rs : list (region S)) : Equivalence (canon_eq rs).
Proof.
  split.
  - intros s. by apply Forall_true.
  - intros s t H. eapply Forall_impl; [exact H|]. done.
  - intros s t u H1 H2. unfold canon_eq in *. rewrite Forall_forall in *.
    intros r Hr. by rewrite H1, H2.
Qed.

Lemma copy_tracked_canon {S} (rs : list (region S)) P s t :
  Registry rs P -> P s -> canon_eq rs (copy_tracked rs s t) s.
Proof.
  intros HR; revert t.
  induction HR as [|r rs wf P Hr Hlens Hind HR IH]; intros t HP; [constructor|].
  destruct HP as [Hwf HP]. rewrite copy_tracked_cons. constructor; [|by apply IH].
  rewrite copy_tracked_get, get_set by done. by apply lr_resave.
Qed.

(** ** The interface of a cart *)

(** What the replay theorem needs from a cart: a lawful registry that fits the
    drivers' buffers, an equivalence [same] that the digest and the frame body
    respect, a frame body that keeps the globals well-formed and records the
    frame number, and a [resync] after which a loaded state is the saved one. *)
Class Cart {S} (rs : list (region S)) (tracked_wf wf : S -> Prop) (get_fs : S -> frame_state_t)
    (set_fs : frame_state_t -> S -> S) (body : Z -> S -> S) (resync : S -> S)
    (settled : S -> Prop) (same : S -> S -> Prop) : Prop := {
  cart_registry : Registry rs tracked_wf;
  cart_tracked_wf s : wf s -> tracked_wf s;
  cart_fits : total_fits rs;
  cart_size : save_state_buffer_capacity rs <= 8000;
  cart_same : Equivalence same;
  cart_body_same f s t : same s t -> same (body f s) (body f t);
  cart_body_wf f s : 0 <= f < 2 ^ 32 -> wf s -> wf (body f s);
  cart_body_settled f s : settled (body f s);
  cart_body_frame f s : frame (get_fs (body f s)) = f;
  cart_digest_same s t : same s t ->
    same (set_fs (frame_state_canonicalize (get_fs s)) s) t /\
    frame_state_canonicalize (get_fs s) = frame_state_canonicalize (get_fs t);
  cart_restored s t : wf s -> settled s -> same (resync (copy_tracked rs s t)) s;
  cart_resync_frame s t : wf s -> frame (get_fs (resync (copy_tracked rs s t))) = frame (get_fs s);
}.

Section replay.
Context {S : Type} (rs : list (region S)) (tracked_wf wf : S -> Prop) (get_fs : S -> frame_state_t)
  (set_fs : frame_state_t -> S -> S) (body : Z -> S -> S) (resync : S -> S)
  (settled : S -> Prop) (same : S -> S -> Prop)
  {C : Cart rs tracked_wf wf get_fs set_fs body resync settled same}.

#[local] Instance same_equiv : Equivalence same := cart_same.

Abbreviation digest_body := (with_digest get_fs set_fs body).

Lemma frames_wf n f s :
  0 <= f -> f + Z.of_nat n < 2 ^ 32 -> wf s -> wf (frames n f body s).
Proof.
  revert f s; induction n as [|n IH]; intros f s Hf Hn Hs; simpl; [done|].
  rewrite wrap_small by lia. apply IH; [lia..|]. apply cart_body_wf; [lia|done].
Qed.

Lemma frames_settled n f s : settled (frames (Datatypes.S n) f body s).
Proof.
  revert f s; induction n as [|n IH]; intros f s; [exact (cart_body_settled f s)|].
  change (settled (frames (Datatypes.S n) (u32 (f + 1)) body (body f s))). apply IH.
Qed.

Lemma frames_last n f s :
  0 <= f -> f + Z.of_nat n < 2 ^ 32 ->
  frame (get_fs (frames (Datatypes.S n) f body s)) = f + Z.of_nat n.
Proof.
  revert f s; induction n as [|n IH]; intros f s Hf Hn.
  - simpl. rewrite cart_body_frame. lia.
  - change (frame (get_fs (frames (Datatypes.S n) (u32 (f + 1)) body (body f s)))
            = f + Z.of_nat (Datatypes.S n)).
    rewrite wrap_small, IH by lia. lia.
Qed.

(** Printing the digest changes neither the later digests nor the state a
    save would see. *)
Lemma frames_out_same n f s t :
  same s t ->
  same (frames_out n f digest_body s).1 (frames n f body t) /\
  (frames_out n f digest_body s).2 = (frames_out n f digest_body t).2.
Proof.
  assert (forall g u, digest_body g u =
    (set_fs (frame_state_canonicalize (get_fs (body g u))) (body g u),
     (frame_state_emit_digest (get_fs (body g u))).2)) as Hd by done.
  assert (forall a b, frame_state_canonicalize a = frame_state_canonicalize b ->
    (frame_state_emit_digest a).2 = (frame_state_emit_digest b).2) as Hline.
  { intros a b E. unfold frame_state_emit_digest. by rewrite E. }
  revert f s t; induction n as [|n IH]; intros f s t Hst; cbn [frames frames_out]; [done|].
  rewrite !Hd.
  destruct (cart_digest_same (body f s) (body f t)) as [H1 H2]; [by apply cart_body_same|].
  destruct (cart_digest_same (body f t) (body f t)) as [H3 _]; [done|].
  rewrite (Hline _ _ H2).
  pose proof (IH (u32 (f + 1)) _ _ H1) as [IH1 IH2].
  pose proof (IH (u32 (f + 1)) _ _ H3) as [_ IH4].
  destruct (frames_out n _ _ (set_fs _ (body f s))) as [s' ls].
  destruct (frames_out n _ _ (set_fs _ (body f t))) as [t' lt]. cbn [fst snd] in *.
  split; [done|]. by rewrite IH2, <-IH4.
Qed.

Lemma length_frames_out n f b s : length (@frames_out S n f b s).2 = n.
Proof.
  revert f s; induction n as [|n IH]; intros f s; simpl; [done|].
  destruct (b f s) as [s' l]. specialize (IH (u32 (f + 1)) s').
  destruct (frames_out n _ b s'). simpl in *. by rewrite IH.
Qed.

Lemma frames_out_app a b f s :
  0 <= f -> f + Z.of_nat (a + b) < 2 ^ 32 ->
  let '(s1, l1) := frames_out a f digest_body s in
  frames_out (a + b) f digest_body s =
  (fun '(s2, l2) => (s2, l1 ++ l2)) (frames_out b (f + Z.of_nat a) digest_body s1).
Proof.
  revert f s; induction a as [|a IH]; intros f s Hf Hn.
  { simpl. rewrite Z.add_0_r. by destruct (frames_out b f digest_body s). }
  cbn [frames_out Nat.add]. destruct (with_digest _ _ _ f s) as [s1 l].
  rewrite wrap_small by lia. specialize (IH (f + 1) s1 ltac:(lia) ltac:(lia)).
  destruct (frames_out a (f + 1) digest_body s1) as [s2 ls]. rewrite IH.
  replace (f + 1 + Z.of_nat a) with (f + Z.of_nat (Datatypes.S a)) by lia.
  by destruct (frames_out b (f + Z.of_nat (Datatypes.S a)) digest_body s2).
Qed.

(** The loop of the load driver only sees frames behind the save frame. *)
Lemma frames_out_ext (b1 b2 : Z -> S -> S * list Z) n f s :
  0 <= f -> f + Z.of_nat n < 2 ^ 32 -> (forall g s, f <= g -> b1 g s = b2 g s) ->
  frames_out n f b1 s = frames_out n f b2 s.
Proof.
  revert f s; induction n as [|n IH]; intros f s Hf Hn Hb; simpl; [done|].
  rewrite Hb by lia. destruct (b2 f s) as [s1 l]. rewrite wrap_small by lia.
  rewrite IH; [done|lia..|]. intros g s' Hg. apply Hb. lia.
Qed.

(** The digests a restored program prints are the ones the straight-through
    run prints behind the save frame. *)
Lemma continuation_lines k n s0 t :
  wf s0 -> 0 <= k -> k < Z.of_nat n -> Z.of_nat n < 2 ^ 32 ->
  let sk := frames (Z.to_nat (k + 1)) 0 body s0 in
  wf sk /\ frame (get_fs sk) = k /\
  (frames_out (Z.to_nat (Z.of_nat n - (k + 1))) (k + 1) digest_body
     (resync (copy_tracked rs sk t))).2 =
  drop (Z.to_nat (k + 1)) (frames_out n 0 digest_body s0).2.
Proof.
  intros Hs0 Hk Hkn Hn sk.
  assert (Z.to_nat (k + 1) = Datatypes.S (Z.to_nat k)) as Ek by lia.
  assert (wf sk) as Hwf by (apply frames_wf; [lia..|done]).
  assert (settled sk) as Hset by (unfold sk; rewrite Ek; apply frames_settled).
  split; [done|]. split.
  { unfold sk. rewrite Ek. rewrite frames_last by lia. lia. }
  pose proof (frames_out_app (Z.to_nat (k + 1)) (Z.to_nat (Z.of_nat n - (k + 1))) 0 s0
                ltac:(lia) ltac:(lia)) as Happ.
  replace (Z.to_nat (k + 1) + Z.to_nat (Z.of_nat n - (k + 1)))%nat with n in Happ by lia.
  pose proof (frames_out_same (Z.to_nat (k + 1)) 0 s0 s0 ltac:(reflexivity)) as [Hsame _].
  pose proof (length_frames_out (Z.to_nat (k + 1)) 0 digest_body s0) as Hlen.
  destruct (frames_out (Z.to_nat (k + 1)) 0 digest_body s0) as [s1 l1].
  cbn [fst snd] in *. rewrite Happ.
  replace (0 + Z.of_nat (Z.to_nat (k + 1))) with (k + 1) by lia.
  pose proof (frames_out_same (Z.to_nat (Z.of_nat n - (k + 1))) (k + 1)
    (resync (copy_tracked rs sk t)) s1) as [_ ->].
  { rewrite Hsame. by apply cart_restored. }
  destruct (frames_out _ (k + 1) digest_body s1) as [s2 l2]. cbn [snd].
  by rewrite drop_app_length' by done.
Qed.

Context {W : Type} (sys_open : list Z -> W -> W * Z)
  (sys_read : Z -> Z -> W -> W * Z * list Z) (sys_close : Z -> W -> W * Z)
  (remaining : W -> list Z).

Lemma save_and_emit_load panic ctx s fr :
  wf s -> g_initialized ctx = true -> 0 <= g_layout_hash ctx < 2 ^ 64 -> 0 <= fr < 2 ^ 32 ->
  exists text,
    save_and_emit rs panic (ctx, s) fr = Some (Exit text 0 (ctx, copy_tracked rs s s)) /\
    (forall p t path w w0 fd,
     sys_open path w = (w0, fd) -> 0 <= fd -> read_posix sys_read remaining fd ->
     remaining w0 = text ->
     exists w', load_buffer rs sys_open sys_read sys_close p (ctx, t) path w =
       Some (w', inl (ctx, copy_tracked rs s t))).
Proof.
  intros Hs. apply (emit_load rs tracked_wf);
    [apply cart_registry|apply cart_fits|apply cart_size|by apply cart_tracked_wf].
Qed.

(** What the programs of a cart do for one save frame, loop by loop. *)
Lemma replay_programs panic k s0 :
  wf s0 -> 0 <= k < NFRAMES ->
  overflowed (runtime_tracked_describe rs (Sink [] 4096 false)) = false ->
  exists ctx sk text,
    save_state_init rs = Some ctx /\
    loop_upto k body s0 = Some sk /\
    save_and_emit rs panic (ctx, sk) k = Some (Exit text 0 (ctx, copy_tracked rs sk sk)) /\
    (forall p t path w w0 fd,
     sys_open path w = (w0, fd) -> 0 <= fd -> read_posix sys_read remaining fd ->
     remaining w0 = text ->
     exists w', load_buffer rs sys_open sys_read sys_close p (ctx, t) path w =
       Some (w', inl (ctx, copy_tracked rs sk t)) /\
       frame (get_fs (resync (copy_tracked rs sk t))) = k /\
       (loop_below (u32 (k + 1)) NFRAMES digest_body (resync (copy_tracked rs sk t))).2 =
       drop (Z.to_nat (k + 1)) (loop_below 0 NFRAMES digest_body s0).2).
Proof.
  unfold NFRAMES. intros Hs0 Hk Hov.
  destruct (save_state_init_works rs Hov) as (ctx & Hi & Hinit & Hhash).
  pose proof (continuation_lines k 30 s0) as Hc.
  set (sk := frames (Z.to_nat (k + 1)) 0 body s0) in *.
  assert (wf sk /\ frame (get_fs sk) = k) as [Hwf Hframe].
  { destruct (Hc s0 Hs0) as (H1 & H2 & _); [lia..|]. by split. }
  destruct (save_and_emit_load panic ctx sk k) as (text & Hsave & Hload); [done..|lia|].
  exists ctx, sk, text. split; [done|]. split.
  { unfold loop_upto. destruct (Z.eqb_spec k 0xffffffff); [lia|done]. }
  split; [done|]. intros p t path w w0 fd Ho Hfd Hread Hrem.
  destruct (Hload p t path w w0 fd Ho Hfd Hread Hrem) as [w' Hl].
  exists w'. split; [done|]. split; [by rewrite cart_resync_frame|].
  destruct (Hc t Hs0) as (_ & _ & E); [lia..|]. rewrite wrap_small by lia. exact E.
Qed.
End replay.

Lemma save_frame_dec prog k default : 0 <= k < NFRAMES -> save_frame_arg [prog; dec k] default = k.
Proof.
  unfold NFRAMES, save_frame_arg. intros Hk.
  pose proof (proj2 (atoi_of_dec k [] ltac:(lia) ltac:(done))) as Ha.
  rewrite app_nil_r in Ha. rewrite Ha. apply wrap_small. lia.
Qed.

(** ** Frame states up to NaN encodings *)

Lemma canon_add a b x :
  canonicalize_nanf a = canonicalize_nanf b -> f32_add a x = f32_add b x.
Proof. intros E. by rewrite <-(f32_add_canon a), E, f32_add_canon. Qed.

Section frame_state_canon.
Context (s t : frame_state_t)
  (E : frame_state_canonicalize s = frame_state_canonicalize t).

Lemma canon_accums :
  canonicalize_nanf (accum_misc s) = canonicalize_nanf (accum_misc t) /\
  canonicalize_nanf (accum_sin s) = canonicalize_nanf (accum_sin t) /\
  canonicalize_nanf (accum_cos s) = canonicalize_nanf (accum_cos t) /\
  frame s = frame t.
Proof. by injection E. Qed.

Lemma canon_set_accum_misc v :
  frame_state_canonicalize (set_accum_misc v s) = frame_state_canonicalize (set_accum_misc v t).
Proof. unfold frame_state_canonicalize in *; simpl. injection E. congruence. Qed.

Lemma canon_set_accum_misc_eq v w :
  v = w -> frame_state_canonicalize (set_accum_misc v s) = frame_state_canonicalize (set_accum_misc w t).
Proof. intros ->. apply canon_set_accum_misc. Qed.

Lemma canon_set_frame f :
  frame_state_canonicalize (set_frame f s) = frame_state_canonicalize (set_frame f t).
Proof. unfold frame_state_canonicalize in *; simpl. injection E. congruence. Qed.
End frame_state_canon.

Lemma set_accum_misc_wf v s :
  0 <= v < 2 ^ 32 -> lwf frame_state_layout s -> lwf frame_state_layout (set_accum_misc v s).
Proof.
  cbn -[mob_layout Z.pow array]. intros ? (?&?&?&?&?&?&?&?). canon_fields.
Qed.

Lemma set_frame_wf v s :
  0 <= v < 2 ^ 32 -> lwf frame_state_layout s -> lwf frame_state_layout (set_frame v s).
Proof.
  cbn -[mob_layout Z.pow array]. intros ? (?&?&?&?&?&?&?&?). canon_fields.
Qed.
