(* ===== verification/Carts.v ===== *)
(** * The demo carts (spikes/spike-k/ports/rv32emu/det_*.c, whetstone_*.c)

    One Module per cart: its globals, its registry, the work of a frame and the
    three [main] functions.  Every cart meets the [Cart] interface of [Replay],
    which gives the replay guarantee: for any save frame before the last one,
    the digests the load program prints are exactly the ones the straight-through
    program prints behind that frame. *)

From S2P Require Import Prelude Layout Float32 Determinism CString Tracked SaveState SaveIo.
From S2P Require Import Regions Replay.
Import FrameStateRegion.

(** ** The synthetic mixer (spikes/spike-k/lib/synthetic_mixer.c) *)
Module SyntheticMixer.
Import VoiceEndQueue.

Record synthetic_mixer_event_t := MixerEvent { mhandle : Z; ends_at_frame : Z }.

(** [g_mixer_frame] afterwards. *)
Definition synthetic_mixer_init : Z := 0.
Definition synthetic_mixer_resync (f : Z) : Z := f.

(** The queue and [g_mixer_frame] afterwards. *)
Definition synthetic_mixer_report_end_of_frame (schedule : list synthetic_mixer_event_t)
    (frame : Z) (g_q : runtime_voice_end_queue_t) : runtime_voice_end_queue_t * Z :=
  (fold_left (fun q e =>
     if ends_at_frame e =? frame then voice_end_record q frame (mhandle e) 0 else q)
     schedule g_q,
   frame).

Lemma report_inv schedule f q :
  Forall (fun e => 0 <= mhandle e < 64) schedule -> 0 <= f < 2 ^ 32 -> queue_inv q ->
  queue_inv (synthetic_mixer_report_end_of_frame schedule f q).1.
Proof.
  intros Hs Hf; revert q; induction Hs as [|e schedule He Hs IH]; intros q Hq; [done|].
  simpl. apply IH. destruct (_ =? _); [|done].
  apply (record_refines q f (mhandle e) 0); [done|]. simpl. lia.
Qed.
End SyntheticMixer.

(** ** det_audio_branch (det_audio_branch_{full,save,load}.c) *)
Module AudioBranch.
Import VoiceEndQueue SyntheticMixer.

Record globals := Globals {
  fs : frame_state_t;
  g_q : runtime_voice_end_queue_t;
  g_mixer_frame : Z;
}.

Definition set_fs (v : frame_state_t) (s : globals) : globals :=
  Globals v (g_q s) (g_mixer_frame s).
Definition set_q (v : runtime_voice_end_queue_t) (s : globals) : globals :=
  Globals (fs s) v (g_mixer_frame s).
Definition set_mixer (v : Z) (s : globals) : globals := Globals (fs s) (g_q s) v.

Definition globals_bss : globals := Globals frame_state_zero queue_zero 0.

(** regions_det_audio_branch.c. *)
Definition runtime_tracked_regions : list (region globals) :=
  [Region region_frame_state fs set_fs; Region region_voice_end_queue g_q set_q].

Definition synthetic_mixer_schedule : list synthetic_mixer_event_t :=
  [{| mhandle := 1; ends_at_frame := 5 |}; {| mhandle := 2; ends_at_frame := 12 |}].

Definition f32_10 : Z := 0x41200000.
Definition f32_100 : Z := 0x42c80000.
Definition f32_1000 : Z := 0x447a0000.

Definition accumulate (s : globals) : globals :=
  let m := accum_misc (fs s) in
  let m := f32_add m (if voice_is_playing (g_q s) 1 then f32_one else f32_10) in
  let m := f32_add m (if voice_is_playing (g_q s) 2 then f32_100 else f32_1000) in
  set_fs (set_accum_misc m (fs s)) s.

(** The loop body the three programs share, up to [fs->frame = f]. *)
Definition frame_body (f : Z) (s : globals) : globals :=
  let s := set_q (voice_end_apply_pending (g_q s)) s in
  let s := accumulate s in
  let '(q, m) := synthetic_mixer_report_end_of_frame synthetic_mixer_schedule f (g_q s) in
  let s := set_mixer m (set_q q s) in
  set_fs (set_frame f (fs s)) s.

(** Zeroed frame state, reset mixer, two voices. *)
Definition start (s : globals) : globals :=
  let s := set_fs frame_state_zero s in
  let s := set_mixer synthetic_mixer_init s in
  let s := set_q (voice_start (g_q s) 1) s in
  set_q (voice_start (g_q s) 2) s.

Definition main_full : option (exit_state globals) :=
  match save_state_init runtime_tracked_regions with
  | None => None
  | Some ctx =>
      let '(s, lines) :=
        loop_below 0 NFRAMES (with_digest fs set_fs frame_body) (start globals_bss) in
      Some (Exit (output lines) 0 (ctx, s))
  end.

Definition main_save (argv : list (list Z)) : option (exit_state globals) :=
  let save_frame := save_frame_arg argv 11 in
  match save_state_init runtime_tracked_regions with
  | None => None
  | Some ctx =>
      match loop_upto save_frame frame_body (start globals_bss) with
      | None => None
      | Some s =>
          save_and_emit runtime_tracked_regions
            (cstr "PANIC det_audio_branch_save: save_state_save returned 0" ++ [10])
            (ctx, s) save_frame
      end
  end.

Definition panics : load_panics := {|
  p_read := cstr "PANIC det_audio_branch_load: cannot read buffer" ++ [10];
  p_hex _ := cstr "PANIC det_audio_branch_load: hex parse failed" ++ [10];
  p_rejected _ _ := cstr "PANIC det_audio_branch_load: save_state_load rejected buffer" ++ [10];
|}.

(** The VOICEQ line. *)
Definition voiceq_line (q : runtime_voice_end_queue_t) : list Z :=
  cstr "VOICEQ logical=" ++ hex8 (u32 (logical_view_bits q ≫ 32)) ++
  hex8 (u32 (Z.land (logical_view_bits q) 0xffffffff)) ++
  cstr " pending_count=" ++ dec (pending_count q) ++ [10].

Definition resync (s : globals) : globals :=
  set_mixer (synthetic_mixer_resync (frame (fs s))) s.

Section load.
Context {W : Type} (sys_open : list Z -> W -> W * Z)
  (sys_read : Z -> Z -> W -> W * Z * list Z) (sys_close : Z -> W -> W * Z).

Definition main_load (argv : list (list Z)) (w : W) : option (W * exit_state globals) :=
  match argv with
  | _ :: path :: _ =>
      match save_state_init runtime_tracked_regions with
      | None => None
      | Some ctx =>
          let s := set_mixer synthetic_mixer_init (set_fs frame_state_zero globals_bss) in
          match load_buffer runtime_tracked_regions sys_open sys_read sys_close
                  panics (ctx, s) path w with
          | None => None
          | Some (w, inr e) => Some (w, e)
          | Some (w, inl (ctx, s)) =>
              let s := resync s in
              let info := voiceq_line (g_q s) in
              let resume_frame := u32 (frame (fs s) + 1) in
              let '(s, lines) :=
                loop_below resume_frame NFRAMES (with_digest fs set_fs frame_body) s in
              Some (w, Exit (info ++ output lines) 0 (ctx, s))
          end
      end
  | _ =>
      Some (w, Exit (cstr "PANIC det_audio_branch_load: usage: <buffer-hex-file>" ++ [10]) 1
                 (ctx_bss, globals_bss))
  end.
End load.

(** The lines of the straight-through run. *)
Definition full_lines : list (list Z) :=
  (loop_below 0 NFRAMES (with_digest fs set_fs frame_body) (start globals_bss)).2.

(** *** The cart meets the interface *)

Definition wf (s : globals) : Prop := lwf frame_state_layout (fs s) /\ queue_inv (g_q s).

(** Equal up to NaN encodings and the mixer's counter, which nothing reads. *)
Definition same (s t : globals) : Prop :=
  frame_state_canonicalize (fs s) = frame_state_canonicalize (fs t) /\ g_q s = g_q t.

Definition tracked_wf (s : globals) : Prop :=
  (lwf frame_state_layout (fs s) /\ true = true) /\ (queue_wf (g_q s) /\ True).

Lemma audio_registry : Registry runtime_tracked_regions tracked_wf.
Proof.
  apply (Registry_cons (Region region_frame_state fs set_fs) _
           (fun v => lwf frame_state_layout v /\ true = true)); [apply _|by split; try intros []|..].
  { repeat constructor. }
  apply (Registry_cons (Region region_voice_end_queue g_q set_q) _ queue_wf);
    [apply _|by split; try intros []|constructor|constructor].
Qed.

#[export] Instance same_equiv : Equivalence same.
Proof.
  split; unfold same.
  - done.
  - intros s t [-> ->]. done.
  - intros s t u [-> ->] [-> ->]. done.
Qed.

Lemma audio_body_same f s t : same s t -> same (frame_body f s) (frame_body f t).
Proof.
  intros [E Eq]. unfold same, frame_body, accumulate. cbn [fs g_q set_q set_fs set_mixer].
  rewrite Eq. split; [|done]. apply canon_set_frame, canon_set_accum_misc_eq; [done|].
  pose proof (canon_accums _ _ E) as [Hm _]. rewrite (canon_add _ _ _ Hm). reflexivity.
Qed.

Lemma audio_body_wf f s : 0 <= f < 2 ^ 32 -> wf s -> wf (frame_body f s).
Proof.
  intros Hf [Hfs Hq]. unfold frame_body, accumulate.
  split; cbn [fs g_q set_q set_fs set_mixer synthetic_mixer_report_end_of_frame].
  - apply set_frame_wf; [done|]. apply set_accum_misc_wf; [|done]. apply f32_to_bits_range.
  - apply (report_inv synthetic_mixer_schedule f); [|done|by apply apply_refines].
    repeat (constructor; [simpl; lia|]). constructor.
Qed.

#[export] Instance cart :
  Cart runtime_tracked_regions tracked_wf wf fs set_fs frame_body resync (fun _ => True) same.
Proof.
  split.
  - apply audio_registry.
  - intros s [H1 [H2 _]]. done.
  - split; [repeat constructor; by compute|by compute].
  - by compute.
  - apply _.
  - apply audio_body_same.
  - apply audio_body_wf.
  - done.
  - done.
  - intros s t [E Eq]. split; [|exact E]. split; [|exact Eq].
    rewrite <-E. exact (frame_state_canonicalize_idem (fs s)).
  - intros s t _ _. split; [exact (frame_state_canonicalize_idem (fs s))|done].
  - done.
Qed.

Lemma audio_start_wf : wf (start globals_bss).
Proof.
  split; [apply frame_state_zero_wf|].
  apply (start_refines _ 2); [|done]. apply (start_refines _ 1); [|done]. apply queue_zero_inv.
Qed.

Lemma length_full_lines : length full_lines = 30%nat.
Proof. apply length_frames_out. Qed.

Section replay.
Context {W : Type} (sys_open : list Z -> W -> W * Z)
  (sys_read : Z -> Z -> W -> W * Z * list Z) (sys_close : Z -> W -> W * Z)
  (remaining : W -> list Z).

(** C2: replay of det_audio_branch.  For every save frame before the last,
    with voices ending while saved, pending or long gone: [save] succeeds,
    and on a host that hands the saved text back through [read] (in pieces
    of any size), [load] prints, behind its VOICEQ line, exactly the digest
    lines [full] prints for the remaining frames. *)
Theorem audio_branch_replay k prog :
  0 <= k < NFRAMES ->
  exists text rt,
    main_save [prog; dec k] = Some (Exit text 0 rt) /\
    (exists rt', main_full = Some (Exit (output full_lines) 0 rt')) /\
    (forall path w w0 fd,
     sys_open path w = (w0, fd) -> 0 <= fd -> read_posix sys_read remaining fd ->
     remaining w0 = text ->
     exists w' rt', main_load sys_open sys_read sys_close [prog; path] w =
       Some (w', Exit (voiceq_line (g_q rt.2) ++
                       output (drop (Z.to_nat (k + 1)) full_lines)) 0 rt')).
Proof.
  intros Hk.
  destruct (replay_programs runtime_tracked_regions tracked_wf wf fs set_fs frame_body
    resync (fun _ => True) same sys_open sys_read sys_close remaining
    (cstr "PANIC det_audio_branch_save: save_state_save returned 0" ++ [10])
    k (start globals_bss)) as (ctx & sk & text & Hi & Hloop & Hsave & Hload);
    [apply audio_start_wf|done|by compute|].
  unfold main_save, main_full, main_load. rewrite Hi, save_frame_dec, Hloop, Hsave by done.
  eexists text, _. split; [done|]. split.
  { unfold full_lines. destruct (loop_below _ _ _ _). by eexists. }
  intros path w w0 fd Ho Hfd Hread Hrem.
  destruct (Hload panics (set_mixer synthetic_mixer_init (set_fs frame_state_zero globals_bss))
              path w w0 fd Ho Hfd Hread Hrem) as (w' & -> & Hf & Hl).
  exists w'. rewrite Hf. unfold full_lines. rewrite <-Hl.
  destruct (loop_below (u32 (k + 1)) _ _ _) as [s' lines]. by eexists.
Qed.
End replay.

Lemma audio_branch_replay_witness :
  exists text rt w' rt',
    main_save [cstr "save"; dec 5] = Some (Exit text 0 rt) /\
    main_load (fun _ w => (w, 4)) toy_read (fun _ w => (w, 0)) [cstr "save"; cstr "f"] text =
      Some (w', Exit (voiceq_line (g_q rt.2) ++ output (drop (Z.to_nat (5 + 1)) full_lines)) 0 rt').
Proof.
  destruct (audio_branch_replay (fun _ w => (w, 4)) toy_read (fun _ w => (w, 0)) id 5
    (cstr "save")) as (text & rt & Hs & _ & Hl); [by split|].
  destruct (Hl (cstr "f") text text 4 eq_refl ltac:(lia) (toy_read_posix 4) eq_refl)
    as (w' & rt' & H).
  exists text, rt, w', rt'. exact (conj Hs H).
Defined.
End AudioBranch.

(** ** det_cutscene (det_cutscene_{full,save,load}.c) *)
Module Cutscene.
Import CoroutineSaveBlob.

Record globals := Globals { fs : frame_state_t; g_blob : runtime_coroutine_save_blob_t }.

Definition set_fs (v : frame_state_t) (s : globals) : globals := Globals v (g_blob s).
Definition set_blob (v : runtime_coroutine_save_blob_t) (s : globals) : globals :=
  Globals (fs s) v.

Definition globals_bss : globals := Globals frame_state_zero blob_zero.

(** regions_det_cutscene.c. *)
Definition runtime_tracked_regions : list (region globals) :=
  [Region region_frame_state fs set_fs; Region region_coroutine_save_blob g_blob set_blob].

Record cutscene_state_t := CutsceneState { step : Z; angle : Z }.

Definition cutscene_layout : Layout.layout cutscene_state_t :=
  struct (uint 4 ⨾ uint 4)%layout (fun s => (step s, angle s)) (fun '(a, b) => CutsceneState a b).

Definition f32_0_001 : Z := 0x3a83126f.

Definition cutscene_init (s : globals) : globals :=
  let s := set_blob (coroutine_blob_activate (g_blob s) 0) s in
  let st := {| step := 0; angle := f32_zero |} in
  set_blob (coroutine_blob_write (g_blob s) 0 (lenc cutscene_layout st) 8) s.

Section indeterminate.
(** What the uninitialized local [s] holds when the slot cannot be read. *)
Context (stack : cutscene_state_t).

Definition read_state (s : globals) : cutscene_state_t :=
  match coroutine_blob_read (g_blob s) 0 8 with
  | Some bs => ldec cutscene_layout bs
  | None => stack
  end.

Definition cutscene_step (s : globals) : globals :=
  let st := read_state s in
  let n := u32 (step st + 1) in
  let st := {| step := n; angle := f32_of_Z (u32 (n * 17) mod 360) |} in
  let s := set_blob (coroutine_blob_write (g_blob s) 0 (lenc cutscene_layout st) 8) s in
  set_fs (set_accum_misc
            (f32_add (accum_misc (fs s))
               (f32_add (f32_of_Z (step st)) (f32_mul (angle st) f32_0_001))) (fs s)) s.

Definition frame_body (f : Z) (s : globals) : globals :=
  let s := cutscene_step s in
  set_fs (set_frame f (fs s)) s.

Definition start (s : globals) : globals := cutscene_init (set_fs frame_state_zero s).

Definition main_full : option (exit_state globals) :=
  match save_state_init runtime_tracked_regions with
  | None => None
  | Some ctx =>
      let '(s, lines) :=
        loop_below 0 NFRAMES (with_digest fs set_fs frame_body) (start globals_bss) in
      Some (Exit (output lines) 0 (ctx, s))
  end.

Definition main_save (argv : list (list Z)) : option (exit_state globals) :=
  let save_frame := save_frame_arg argv 7 in
  match save_state_init runtime_tracked_regions with
  | None => None
  | Some ctx =>
      match loop_upto save_frame frame_body (start globals_bss) with
      | None => None
      | Some s =>
          save_and_emit runtime_tracked_regions
            (cstr "PANIC det_cutscene_save: save_state_save returned 0" ++ [10])
            (ctx, s) save_frame
      end
  end.

Definition panics : load_panics := {|
  p_read := cstr "PANIC det_cutscene_load: cannot read buffer" ++ [10];
  p_hex _ := cstr "PANIC det_cutscene_load: hex parse failed" ++ [10];
  p_rejected _ _ := cstr "PANIC det_cutscene_load: save_state_load rejected buffer" ++ [10];
|}.

Definition cutscene_line (s : globals) : list Z :=
  let st := read_state s in
  cstr "CUTSCENE step=" ++ dec (step st) ++ cstr " angle=" ++ hex8 (angle st) ++ [10].

Section load.
Context {W : Type} (sys_open : list Z -> W -> W * Z)
  (sys_read : Z -> Z -> W -> W * Z * list Z) (sys_close : Z -> W -> W * Z).

Definition main_load (argv : list (list Z)) (w : W) : option (W * exit_state globals) :=
  match argv with
  | _ :: path :: _ =>
      match save_state_init runtime_tracked_regions with
      | None => None
      | Some ctx =>
          let s := set_fs frame_state_zero globals_bss in
          match load_buffer runtime_tracked_regions sys_open sys_read sys_close
                  panics (ctx, s) path w with
          | None => None
          | Some (w, inr e) => Some (w, e)
          | Some (w, inl (ctx, s)) =>
              let info := cutscene_line s in
              let resume_frame := u32 (frame (fs s) + 1) in
              let '(s, lines) :=
                loop_below resume_frame NFRAMES (with_digest fs set_fs frame_body) s in
              Some (w, Exit (info ++ output lines) 0 (ctx, s))
          end
      end
  | _ =>
      Some (w, Exit (cstr "PANIC det_cutscene_load: usage: <buffer-hex-file>" ++ [10]) 1
                 (ctx_bss, globals_bss))
  end.
End load.

Definition full_lines : list (list Z) :=
  (loop_below 0 NFRAMES (with_digest fs set_fs frame_body) (start globals_bss)).2.

(** *** The cart meets the interface *)

Definition wf (s : globals) : Prop :=
  lwf frame_state_layout (fs s) /\ lwf layout (g_blob s).

Definition tracked_wf (s : globals) : Prop :=
  (lwf frame_state_layout (fs s) /\ true = true) /\
  ((lwf layout (g_blob s) /\ true = true) /\ True).

Definition same (s t : globals) : Prop :=
  frame_state_canonicalize (fs s) = frame_state_canonicalize (fs t) /\ g_blob s = g_blob t.

Lemma cutscene_registry : Registry runtime_tracked_regions tracked_wf.
Proof.
  apply (Registry_cons (Region region_frame_state fs set_fs) _
           (fun v => lwf frame_state_layout v /\ true = true)); [apply _|by split; try intros []|..].
  { repeat constructor. }
  apply (Registry_cons (Region region_coroutine_save_blob g_blob set_blob) _
           (fun b => lwf layout b /\ true = true));
    [apply _|by split; try intros []|constructor|constructor].
Qed.

#[export] Instance same_equiv : Equivalence same.
Proof.
  split; unfold same; [done|by intros s t [-> ->]|by intros s t u [-> ->] [-> ->]].
Qed.

Lemma cutscene_body_same f s t : same s t -> same (frame_body f s) (frame_body f t).
Proof.
  intros [E Eq]. unfold same, frame_body, cutscene_step, read_state.
  cbn [fs g_blob set_blob set_fs]. rewrite Eq. split; [|done].
  apply canon_set_frame, canon_set_accum_misc_eq; [done|].
  pose proof (canon_accums _ _ E) as [Hm _]. rewrite (canon_add _ _ _ Hm). reflexivity.
Qed.

Lemma cutscene_state_bytes st : bytes (lenc cutscene_layout st).
Proof. apply Forall_app_2; apply le_bytes_bytes. Qed.

Lemma cutscene_body_wf f s : 0 <= f < 2 ^ 32 -> wf s -> wf (frame_body f s).
Proof.
  intros Hf [Hfs Hb]. unfold frame_body, cutscene_step.
  split; cbn [fs g_blob set_blob set_fs].
  - apply set_frame_wf; [done|]. apply set_accum_misc_wf; [|done]. apply f32_to_bits_range.
  - apply write_wf; [apply cutscene_state_bytes|done].
Qed.

#[export] Instance cart :
  Cart runtime_tracked_regions tracked_wf wf fs set_fs frame_body id (fun _ => True) same.
Proof.
  split.
  - apply cutscene_registry.
  - intros s [H1 H2]. done.
  - split; [repeat constructor; by compute|by compute].
  - by compute.
  - apply _.
  - apply cutscene_body_same.
  - apply cutscene_body_wf.
  - done.
  - done.
  - intros s t [E Eq]. split; [|exact E]. split; [|exact Eq].
    rewrite <-E. exact (frame_state_canonicalize_idem (fs s)).
  - intros s t _ _. split; [exact (frame_state_canonicalize_idem (fs s))|done].
  - done.
Qed.

Lemma cutscene_start_wf : wf (start globals_bss).
Proof.
  split; [apply frame_state_zero_wf|].
  apply write_wf; [apply cutscene_state_bytes|]. apply activate_wf; [done|apply blob_zero_wf].
Qed.

Section replay.
Context {W : Type} (sys_open : list Z -> W -> W * Z)
  (sys_read : Z -> Z -> W -> W * Z * list Z) (sys_close : Z -> W -> W * Z)
  (remaining : W -> list Z).

(** replay of det_cutscene: the coroutine's state (step and angle in
    blob slot 0) crosses the save as bytes, and for every save frame the
    load program prints exactly the missing digest lines. *)
Theorem cutscene_replay k prog :
  0 <= k < NFRAMES ->
  exists text rt,
    main_save [prog; dec k] = Some (Exit text 0 rt) /\
    (exists rt', main_full = Some (Exit (output full_lines) 0 rt')) /\
    (forall path w w0 fd,
     sys_open path w = (w0, fd) -> 0 <= fd -> read_posix sys_read remaining fd ->
     remaining w0 = text ->
     exists w' rt', main_load sys_open sys_read sys_close [prog; path] w =
       Some (w', Exit (cutscene_line rt.2 ++
                       output (drop (Z.to_nat (k + 1)) full_lines)) 0 rt')).
Proof.
  intros Hk.
  destruct (replay_programs runtime_tracked_regions tracked_wf wf fs set_fs frame_body
    id (fun _ => True) same sys_open sys_read sys_close remaining
    (cstr "PANIC det_cutscene_save: save_state_save returned 0" ++ [10])
    k (start globals_bss)) as (ctx & sk & text & Hi & Hloop & Hsave & Hload);
    [apply cutscene_start_wf|done|by compute|].
  unfold main_save, main_full, main_load. rewrite Hi, save_frame_dec, Hloop, Hsave by done.
  eexists text, _. split; [done|]. split.
  { unfold full_lines. destruct (loop_below _ _ _ _). by eexists. }
  intros path w w0 fd Ho Hfd Hread Hrem.
  destruct (Hload panics (set_fs frame_state_zero globals_bss) path w w0 fd Ho Hfd Hread Hrem)
    as (w' & -> & Hf & Hl).
  exists w'. unfold id in Hf, Hl. rewrite Hf. unfold full_lines. rewrite <-Hl.
  destruct (loop_below (u32 (k + 1)) _ _ _) as [s' lines]. by eexists.
Qed.
End replay.
End indeterminate.

Lemma cutscene_replay_witness :
  let stack := CutsceneState 99 99 in
  exists text rt w' rt',
    main_save stack [cstr "save"; dec 7] = Some (Exit text 0 rt) /\
    main_load stack (fun _ w => (w, 4)) toy_read (fun _ w => (w, 0))
      [cstr "save"; cstr "f"] text =
      Some (w', Exit (cutscene_line stack rt.2 ++ output (drop (Z.to_nat (7 + 1)) (full_lines stack))) 0 rt').
Proof.
  intros stack.
  destruct (cutscene_replay stack (fun _ w => (w, 4)) toy_read (fun _ w => (w, 0)) id
    7 (cstr "save")) as (text & rt & Hs & _ & Hl); [by split|].
  destruct (Hl (cstr "f") text text 4 eq_refl ltac:(lia) (toy_read_posix 4) eq_refl)
    as (w' & rt' & H).
  exists text, rt, w', rt'. exact (conj Hs H).
Defined.
End Cutscene.

(** ** det_shake (det_shake_{full,save,load}.c) *)
Module Shake.
Import ScreenShake.

Record globals := Globals { fs : frame_state_t; g_shake : runtime_screen_shake_t }.

Definition set_fs (v : frame_state_t) (s : globals) : globals := Globals v (g_shake s).
Definition set_shake (v : runtime_screen_shake_t) (s : globals) : globals := Globals (fs s) v.

Definition globals_bss : globals := Globals frame_state_zero (ScreenShake.Shake 0 0 0 0).

(** regions_det_shake.c. *)
Definition runtime_tracked_regions : list (region globals) :=
  [Region region_frame_state fs set_fs; Region region_screen_shake g_shake set_shake].

Definition SHAKE_TRIGGER_FRAME : Z := 3.
Definition SHAKE_FRAMES : Z := 20.
Definition SHAKE_INTENSITY : Z := 0x40800000.   (* 4.0f *)
Definition f32_1_5 : Z := 0x3fc00000.
Definition f32_2_5 : Z := 0x40200000.
Definition f32_2pow_m9 : Z := 0x3b000000.       (* 0.001953125f *)

Definition set_accums (m sn cs : Z) (s : frame_state_t) : frame_state_t :=
  FrameState (frame s) (rng_state s) (rng_inc s) sn cs (accum_sqrt s) m (mobs s).

Definition fold_offset_into_digest (dx dy : Z) (fs : frame_state_t) : frame_state_t :=
  set_accums
    (f32_add (accum_misc fs) (f32_add (f32_mul dx f32_1_5) (f32_mul dy f32_2_5)))
    (f32_add (accum_sin fs) (f32_mul (f32_of_Z (Z.land (dx ≫ 8) 0xff)) f32_2pow_m9))
    (f32_add (accum_cos fs) (f32_mul (f32_of_Z (Z.land (dy ≫ 8) 0xff)) f32_2pow_m9))
    fs.

(** The loop body of the load program. *)
Definition frame_body_load (f : Z) (s : globals) : globals :=
  let '(sh, dx, dy) := screen_shake_tick (g_shake s) f in
  let s := set_shake sh s in
  let s := set_fs (fold_offset_into_digest dx dy (fs s)) s in
  set_fs (set_frame f (fs s)) s.

(** The loop body of the full and the save program. *)
Definition frame_body (f : Z) (s : globals) : globals :=
  let s := if f =? SHAKE_TRIGGER_FRAME
           then set_shake (blyt_screen_shake SHAKE_FRAMES SHAKE_INTENSITY) s else s in
  frame_body_load f s.

Definition start (s : globals) : globals := set_fs frame_state_zero s.

Definition main_full : option (exit_state globals) :=
  match save_state_init runtime_tracked_regions with
  | None => None
  | Some ctx =>
      let '(s, lines) :=
        loop_below 0 NFRAMES (with_digest fs set_fs frame_body) (start globals_bss) in
      Some (Exit (output lines) 0 (ctx, s))
  end.

Definition main_save (argv : list (list Z)) : option (exit_state globals) :=
  let save_frame := save_frame_arg argv 10 in
  match save_state_init runtime_tracked_regions with
  | None => None
  | Some ctx =>
      match loop_upto save_frame frame_body (start globals_bss) with
      | None => None
      | Some s =>
          save_and_emit runtime_tracked_regions
            (cstr "PANIC det_shake_save: save_state_save returned 0" ++ [10])
            (ctx, s) save_frame
      end
  end.

Definition panics (path : list Z) : load_panics := {|
  p_read := cstr "PANIC det_shake_load: cannot read buffer file: " ++ path ++ [10];
  p_hex n := cstr "PANIC det_shake_load: hex parse failed (n=" ++ dec n ++ cstr ")" ++ [10];
  p_rejected _ _ := cstr "PANIC det_shake_load: save_state_load rejected buffer" ++ [10];
|}.

(** [%d]. *)
Definition dec_int (v : Z) : list Z := if v <? 0 then 45 :: dec (- v) else dec v.

Definition shake_line (s : runtime_screen_shake_t) : list Z :=
  cstr "SHAKE remaining=" ++ dec_int (remaining_frames s) ++
  cstr " intensity=" ++ hex8 (intensity s) ++
  cstr " decay=" ++ hex8 (decay s) ++ cstr " seed=" ++ dec_int (seed s) ++ [10].

Section load.
Context {W : Type} (sys_open : list Z -> W -> W * Z)
  (sys_read : Z -> Z -> W -> W * Z * list Z) (sys_close : Z -> W -> W * Z).

Definition main_load (argv : list (list Z)) (w : W) : option (W * exit_state globals) :=
  match argv with
  | _ :: path :: _ =>
      match save_state_init runtime_tracked_regions with
      | None => None
      | Some ctx =>
          let s := set_fs frame_state_zero globals_bss in
          match load_buffer runtime_tracked_regions sys_open sys_read sys_close
                  (panics path) (ctx, s) path w with
          | None => None
          | Some (w, inr e) => Some (w, e)
          | Some (w, inl (ctx, s)) =>
              let info := shake_line (g_shake s) in
              let resume_frame := u32 (frame (fs s) + 1) in
              let '(s, lines) :=
                loop_below resume_frame NFRAMES (with_digest fs set_fs frame_body_load) s in
              Some (w, Exit (info ++ output lines) 0 (ctx, s))
          end
      end
  | _ =>
      Some (w, Exit (cstr "PANIC det_shake_load: usage: det_shake_load.elf <buffer-hex-file>"
                     ++ [10]) 1 (ctx_bss, globals_bss))
  end.
End load.

Definition full_lines : list (list Z) :=
  (loop_below 0 NFRAMES (with_digest fs set_fs frame_body) (start globals_bss)).2.

(** *** The cart meets the interface *)

Definition wf (s : globals) : Prop := lwf frame_state_layout (fs s) /\ lwf layout (g_shake s).

Definition tracked_wf (s : globals) : Prop :=
  (lwf frame_state_layout (fs s) /\ true = true) /\
  ((lwf layout (g_shake s) /\ true = true) /\ True).

Definition same (s t : globals) : Prop :=
  frame_state_canonicalize (fs s) = frame_state_canonicalize (fs t) /\
  canonicalize (g_shake s) = canonicalize (g_shake t).

Lemma shake_registry : Registry runtime_tracked_regions tracked_wf.
Proof.
  apply (Registry_cons (Region region_frame_state fs set_fs) _
           (fun v => lwf frame_state_layout v /\ true = true)); [apply _|by split; try intros []|..].
  { repeat constructor. }
  apply (Registry_cons (Region region_screen_shake g_shake set_shake) _
           (fun b => lwf layout b /\ true = true));
    [apply _|by split; try intros []|constructor|constructor].
Qed.

#[export] Instance same_equiv : Equivalence same.
Proof.
  split; unfold same; [done|by intros s t [-> ->]|by intros s t u [-> ->] [-> ->]].
Qed.

Lemma canon_fold dx dy a b :
  frame_state_canonicalize a = frame_state_canonicalize b ->
  frame_state_canonicalize (fold_offset_into_digest dx dy a) =
  frame_state_canonicalize (fold_offset_into_digest dx dy b).
Proof.
  intros E. pose proof (canon_accums _ _ E) as (Hm & Hs & Hc & _).
  unfold fold_offset_into_digest.
  rewrite (canon_add _ _ _ Hm), (canon_add _ _ _ Hs), (canon_add _ _ _ Hc).
  generalize (f32_add (accum_misc b) (f32_add (f32_mul dx f32_1_5) (f32_mul dy f32_2_5))).
  generalize (f32_add (accum_sin b) (f32_mul (f32_of_Z (Z.land (dx ≫ 8) 0xff)) f32_2pow_m9)).
  generalize (f32_add (accum_cos b) (f32_mul (f32_of_Z (Z.land (dy ≫ 8) 0xff)) f32_2pow_m9)).
  intros u v w. unfold frame_state_canonicalize in *; simpl. injection E. congruence.
Qed.

Lemma tick_same s t f :
  canonicalize s = canonicalize t ->
  let '(s', dx, dy) := screen_shake_tick s f in
  let '(t', dx', dy') := screen_shake_tick t f in
  canonicalize s' = canonicalize t' /\ dx = dx' /\ dy = dy'.
Proof.
  intros E. assert (remaining_frames s = remaining_frames t) as Hr by by injection E.
  pose proof (tick_canon s f) as Hs. pose proof (tick_canon t f) as Ht.
  rewrite E, Ht in Hs.
  destruct (screen_shake_tick s f) as [[s' dx] dy], (screen_shake_tick t f) as [[t' dx'] dy'].
  rewrite Hr in Hs. injection Hs as Hc -> ->. split; [|done].
  destruct (_ <=? _); [by rewrite Hc|]. unfold canonicalize. injection Hc. congruence.
Qed.

Lemma load_body_same f s t : same s t -> same (frame_body_load f s) (frame_body_load f t).
Proof.
  intros [E Eq]. unfold same, frame_body_load.
  pose proof (tick_same (g_shake s) (g_shake t) f Eq) as Htick.
  destruct (screen_shake_tick (g_shake s) f) as [[s' dx] dy],
    (screen_shake_tick (g_shake t) f) as [[t' dx'] dy'].
  destruct Htick as (Hst & -> & ->). cbn [fs g_shake set_shake set_fs].
  split; [|done]. by apply canon_set_frame, canon_fold.
Qed.

Lemma shake_body_same f s t : same s t -> same (frame_body f s) (frame_body f t).
Proof.
  intros [E Eq]. unfold frame_body. destruct (_ =? _); [|by apply load_body_same].
  apply load_body_same. by split.
Qed.

Lemma tick_wf s f : lwf layout s -> lwf layout (screen_shake_tick s f).1.1.
Proof.
  intros Hs. unfold screen_shake_tick. destruct (Z.leb_spec (remaining_frames s) 0); [done|].
  destruct Hs as (Hr & Hi & Hd & Hseed). cbn -[Z.pow] in *.
  split; [lia|]. split; [apply f32_to_bits_range|]. by split.
Qed.

Lemma shake_body_wf f s : 0 <= f < 2 ^ 32 -> wf s -> wf (frame_body f s).
Proof.
  intros Hf [Hfs Hs]. unfold frame_body.
  set (s1 := if f =? SHAKE_TRIGGER_FRAME then _ else s).
  assert (fs s1 = fs s /\ lwf layout (g_shake s1)) as [Hfs1 Hs1].
  { unfold s1. destruct (_ =? _); [|done]. split; [done|].
    split; [by vm_compute|]. split; [by vm_compute|]. split; [by vm_compute|].
    by apply signed_range. }
  unfold frame_body_load. pose proof (tick_wf (g_shake s1) f Hs1) as Ht.
  destruct (screen_shake_tick (g_shake s1) f) as [[sh dx] dy].
  split; cbn [fs g_shake set_shake set_fs]; [|exact Ht]. rewrite Hfs1.
  apply set_frame_wf; [done|]. destruct Hfs as (H1&H2&H3&H4&H5&H6&H7&H8).
  pose proof f32_to_bits_range as Hr. repeat split; try apply Hr; try apply H1; try apply H2;
    try apply H3; try apply H6; apply H8.
Qed.

#[export] Instance cart :
  Cart runtime_tracked_regions tracked_wf wf fs set_fs frame_body id (fun _ => True) same.
Proof.
  split.
  - apply shake_registry.
  - intros s [H1 H2]. done.
  - split; [repeat constructor; by compute|by compute].
  - by compute.
  - apply _.
  - apply shake_body_same.
  - apply shake_body_wf.
  - done.
  - intros f s. unfold frame_body, frame_body_load.
    by destruct (screen_shake_tick _ f) as [[sh dx] dy].
  - intros s t [E Eq]. split; [|exact E]. split; [|exact Eq].
    rewrite <-E. exact (frame_state_canonicalize_idem (fs s)).
  - intros s t _ _. split; [exact (frame_state_canonicalize_idem (fs s))|].
    unfold canonicalize; simpl. by autorewrite with blytrw.
  - done.
Qed.

Lemma shake_start_wf : wf (start globals_bss).
Proof.
  split; [apply frame_state_zero_wf|]. by vm_compute.
Qed.

Section replay.
Context {W : Type} (sys_open : list Z -> W -> W * Z)
  (sys_read : Z -> Z -> W -> W * Z * list Z) (sys_close : Z -> W -> W * Z)
  (remaining : W -> list Z).

(** replay of det_shake: for every save frame from the frame that
    triggers the shake on (the load program has no trigger of its own), the
    saved countdown, intensity and seed make the load program print exactly
    the missing digest lines, in mid-shake as after it. *)
Theorem shake_replay k prog :
  SHAKE_TRIGGER_FRAME <= k < NFRAMES ->
  exists text rt,
    main_save [prog; dec k] = Some (Exit text 0 rt) /\
    (exists rt', main_full = Some (Exit (output full_lines) 0 rt')) /\
    (forall path w w0 fd,
     sys_open path w = (w0, fd) -> 0 <= fd -> read_posix sys_read remaining fd ->
     remaining w0 = text ->
     exists w' rt', main_load sys_open sys_read sys_close [prog; path] w =
       Some (w', Exit (shake_line (g_shake rt.2) ++
                       output (drop (Z.to_nat (k + 1)) full_lines)) 0 rt')).
Proof.
  unfold SHAKE_TRIGGER_FRAME. intros Hk.
  assert (0 <= k < NFRAMES) as Hk0 by lia.
  destruct (replay_programs runtime_tracked_regions tracked_wf wf fs set_fs frame_body
    id (fun _ => True) same sys_open sys_read sys_close remaining
    (cstr "PANIC det_shake_save: save_state_save returned 0" ++ [10])
    k (start globals_bss)) as (ctx & sk & text & Hi & Hloop & Hsave & Hload);
    [apply shake_start_wf|done|by compute|].
  unfold main_save, main_full, main_load.
  rewrite Hi, save_frame_dec, Hloop, Hsave by done.
  eexists text, _. split; [done|]. split.
  { unfold full_lines. destruct (loop_below _ _ _ _). by eexists. }
  intros path w w0 fd Ho Hfd Hread Hrem.
  destruct (Hload (panics path) (set_fs frame_state_zero globals_bss) path w w0 fd Ho Hfd Hread Hrem)
    as (w' & -> & Hf & Hl).
  exists w'. unfold id in Hf, Hl. rewrite Hf. unfold full_lines. rewrite <-Hl.
  unfold loop_below. unfold NFRAMES in Hk0. rewrite wrap_small by lia.
  rewrite (frames_out_ext (with_digest fs set_fs frame_body_load)
             (with_digest fs set_fs frame_body)); [|lia|unfold NFRAMES; lia|].
  2:{ intros g s Hg. unfold with_digest, frame_body.
      destruct (Z.eqb_spec g SHAKE_TRIGGER_FRAME); [|done].
      unfold SHAKE_TRIGGER_FRAME in *. lia. }
  destruct (frames_out _ (k + 1) _ _) as [s' lines]. by eexists.
Qed.
End replay.

Lemma shake_replay_witness :
  exists text rt w' rt',
    main_save [cstr "save"; dec 10] = Some (Exit text 0 rt) /\
    main_load (fun _ w => (w, 4)) toy_read (fun _ w => (w, 0)) [cstr "save"; cstr "f"] text =
      Some (w', Exit (shake_line (g_shake rt.2) ++
                      output (drop (Z.to_nat (10 + 1)) full_lines)) 0 rt').
Proof.
  destruct (shake_replay (fun _ w => (w, 4)) toy_read (fun _ w => (w, 0)) id 10
    (cstr "save")) as (text & rt & Hs & _ & Hl); [by split|].
  destruct (Hl (cstr "f") text text 4 eq_refl ltac:(lia) (toy_read_posix 4) eq_refl)
    as (w' & rt' & H).
  exists text, rt, w', rt'. exact (conj Hs H).
Defined.
End Shake.

(** ** The save-state theorems at work on a cart *)

Definition demo_ctx : save_ctx := {| g_layout_hash := 77; g_initialized := true |}.

Lemma save_load_roundtrip_witness :
  let rs := AudioBranch.runtime_tracked_regions in
  let s := AudioBranch.start AudioBranch.globals_bss in
  let t := AudioBranch.globals_bss in
  exists buf',
    save_state_save rs (demo_ctx, s) (repeat 0 2000) 2000 9 =
      Some ((demo_ctx, copy_tracked rs s s), buf', save_state_buffer_capacity rs) /\
    hframe (read_header buf') = 9 /\
    save_state_load rs (demo_ctx, t) buf' 1500 = Some ((demo_ctx, copy_tracked rs s t), true).
Proof.
  intros rs s t.
  destruct (save_load_roundtrip rs AudioBranch.tracked_wf demo_ctx s t (repeat 0 2000) 2000 9 1500)
    as (buf' & H1 & _ & H2 & H3 & _).
  - apply AudioBranch.audio_registry.
  - apply AudioBranch.cart.
  - apply AudioBranch.cart, AudioBranch.audio_start_wf.
  - reflexivity.
  - split; [discriminate|reflexivity].
  - split; [discriminate|reflexivity].
  - by compute.
  - rewrite repeat_length. by compute.
  - by compute.
  - exists buf'. exact (conj H1 (conj H2 H3)).
Defined.

Lemma save_state_load_gates_witness :
  let rs := AudioBranch.runtime_tracked_regions in
  let s := AudioBranch.globals_bss in
  save_state_load rs (demo_ctx, s) (repeat 7 64) 64 = Some ((demo_ctx, s), false).
Proof.
  intros rs s. apply (save_state_load_gates rs demo_ctx s (repeat 7 64) 64 eq_refl).
  intros (_ & H & _). vm_compute in H. discriminate.
Defined.

(** Two registries that differ in one letter of a region's name. *)
Definition named_region (c : string) : region (list Z) :=
  Region (TrackedRegion (cstr c) 4 None (fun a => (a, a)) (fun a src n => (a, true)))
    id (fun a _ => a).

Lemma layout_drift_rejected_witness :
  let ctx1 := {| g_layout_hash :=
      fnv1a_64 (sbuf (runtime_tracked_describe [named_region "pos_x"] (Sink [] 4096 false)));
      g_initialized := true |} in
  let ctx2 := {| g_layout_hash :=
      fnv1a_64 (sbuf (runtime_tracked_describe [named_region "pos_y"] (Sink [] 4096 false)));
      g_initialized := true |} in
  let buf := lenc header_layout
    (Header SAVE_STATE_MAGIC SAVE_STATE_VERSION (g_layout_hash ctx1) 0 28) ++ [1; 2; 3; 4] in
  save_state_load [named_region "pos_y"] (ctx2, []) buf 28 = Some ((ctx2, []), false).
Proof.
  intros ctx1 ctx2 buf.
  apply (layout_drift_rejected [named_region "pos_x"] [named_region "pos_y"]
    (cstr "REGION:pos_") 120 121 (cstr ":size=4:" ++ [0]) ctx1 ctx2); try reflexivity.
  - by apply bytes_bool.
  - split; [discriminate|reflexivity].
  - discriminate.
Defined.
