(* ===== verification/Whetstone.v ===== *)
(** * The whetstone cart
    (spikes/spike-d/ports/rv32emu/whetstone.c, spikes/spike-k/ports/rv32emu/whetstone_*.c)

    The transcendental-heavy workload, whose accumulators are locals of [main]
    in the straight-through program and the tracked [cart_state_whetstone] in
    the save and load programs.  The math library is a parameter.  The replay
    theorem shows that the move of the locals into the tracked region, the NaN
    canonicalization of a save and the restoring of the generator from the frame
    state leave the digest stream untouched. *)

From Stdlib Require Import SpecFloat.
From S2P Require Import Prelude Layout Float32 Determinism CString Tracked SaveState SaveIo.
From S2P Require Import Regions Replay.
Import FrameStateRegion CartStateWhetstone.

(** ** Arithmetic up to NaN encodings *)

(** [-x], [fabsf] and [sqrtf] (the fsqrt.s instruction). *)
Definition f32_neg (u : Z) : Z := Z.lxor u 0x80000000.
Definition fabsf (u : Z) : Z := Z.land u 0x7fffffff.
Definition sqrtf (u : Z) : Z := f32_to_bits (SFsqrt f32_prec f32_emax (f32_of_bits u)).

(** The libm the cart links. *)
Record libm := Libm {
  sinf : Z -> Z; cosf : Z -> Z; atan2f : Z -> Z -> Z;
  expf : Z -> Z; logf : Z -> Z; powf : Z -> Z -> Z;
}.

(** Two words that denote the same value. *)
Record feq (a b : Z) : Prop := Feq { feq_canon : canonicalize_nanf a = canonicalize_nanf b }.

(** What the replay relies on: a libm function returns a 32-bit word and treats
    all NaNs alike. *)
Class LibmLaws (m : libm) : Prop := {
  sinf_feq :: Proper (feq ==> eq) (sinf m);
  cosf_feq :: Proper (feq ==> eq) (cosf m);
  atan2f_feq :: Proper (feq ==> feq ==> eq) (atan2f m);
  expf_feq :: Proper (feq ==> eq) (expf m);
  logf_feq :: Proper (feq ==> eq) (logf m);
  powf_feq :: Proper (feq ==> feq ==> eq) (powf m);
  libm_range x y :
    0 <= sinf m x < 2 ^ 32 /\ 0 <= cosf m x < 2 ^ 32 /\ 0 <= atan2f m x y < 2 ^ 32 /\
    0 <= expf m x < 2 ^ 32 /\ 0 <= logf m x < 2 ^ 32 /\ 0 <= powf m x y < 2 ^ 32;
}.

#[export] Instance feq_equiv : Equivalence feq.
Proof.
  split; [done|intros a b [E]; by constructor|].
  intros a b c [H1] [H2]. constructor. by rewrite H1.
Qed.

Lemma f32_of_bits_feq a b : feq a b -> f32_of_bits a = f32_of_bits b.
Proof. intros [E]. by rewrite <-(f32_of_bits_canon a), E, f32_of_bits_canon. Qed.

#[export] Instance f32_add_feq : Proper (feq ==> feq ==> eq) f32_add.
Proof.
  intros a a' Ha b b' Hb. unfold f32_add.
  by rewrite (f32_of_bits_feq _ _ Ha), (f32_of_bits_feq _ _ Hb).
Qed.
#[export] Instance f32_sub_feq : Proper (feq ==> feq ==> eq) f32_sub.
Proof.
  intros a a' Ha b b' Hb. unfold f32_sub.
  by rewrite (f32_of_bits_feq _ _ Ha), (f32_of_bits_feq _ _ Hb).
Qed.
#[export] Instance f32_mul_feq : Proper (feq ==> feq ==> eq) f32_mul.
Proof.
  intros a a' Ha b b' Hb. unfold f32_mul.
  by rewrite (f32_of_bits_feq _ _ Ha), (f32_of_bits_feq _ _ Hb).
Qed.
#[export] Instance sqrtf_feq : Proper (feq ==> eq) sqrtf.
Proof. intros a a' Ha. unfold sqrtf. by rewrite (f32_of_bits_feq _ _ Ha). Qed.

(** Words that canonicalize alike are equal or both NaNs. *)
Lemma feq_cases a b : feq a b -> a = b \/ (is_nanf a = true /\ is_nanf b = true).
Proof.
  intros [E]. revert E.
  destruct (canonicalize_nanf_cases a) as [[Ha ->]|[Ha ->]],
    (canonicalize_nanf_cases b) as [[Hb ->]|[Hb ->]]; [by right| | |by left].
  - intros <-. by right.
  - intros ->. by right.
Qed.

Lemma feq_nan a b : is_nanf a = true -> is_nanf b = true -> feq a b.
Proof.
  intros Ha Hb. constructor.
  destruct (canonicalize_nanf_cases a) as [[_ ->]|[? _]]; [|congruence].
  destruct (canonicalize_nanf_cases b) as [[_ ->]|[? _]]; [done|congruence].
Qed.

(** Exponent and fraction, which decide what is a NaN. *)
Lemma fields_bits u :
  Z.land (u ≫ 23) 0xff = Z.land (Z.land u 0x7fffffff ≫ 23) 0xff /\
  Z.land u 0x7fffff = Z.land (Z.land u 0x7fffffff) 0x7fffff.
Proof.
  split.
  - rewrite Z.shiftr_land, <-Z.land_assoc. reflexivity.
  - by rewrite <-Z.land_assoc.
Qed.

Lemma is_nanf_fabsf u : is_nanf (fabsf u) = is_nanf u.
Proof. unfold is_nanf, fabsf. by destruct (fields_bits u) as [<- <-]. Qed.

Lemma is_nanf_neg u : is_nanf (f32_neg u) = is_nanf u.
Proof.
  rewrite <-(is_nanf_fabsf (f32_neg u)), <-(is_nanf_fabsf u). f_equal.
  unfold fabsf, f32_neg. apply Z.bits_inj'. intros i Hi.
  rewrite !Z.land_spec, Z.lxor_spec. destruct (decide (i = 31)) as [->|].
  - by rewrite !andb_false_r.
  - change 0x80000000 with (2 ^ 31). rewrite (Z.pow2_bits_false 31 i) by lia.
    by rewrite xorb_false_r.
Qed.

#[export] Instance f32_neg_feq : Proper (feq ==> feq) f32_neg.
Proof.
  intros a b [->|[Ha Hb]]%feq_cases; [done|]. apply feq_nan; by rewrite is_nanf_neg.
Qed.
#[export] Instance fabsf_feq : Proper (feq ==> feq) fabsf.
Proof.
  intros a b [->|[Ha Hb]]%feq_cases; [done|]. apply feq_nan; by rewrite is_nanf_fabsf.
Qed.

(** ** The program *)

Record globals := Globals {
  fs : frame_state_t;
  cs : cart_state_whetstone_t;     (* the locals of [main] in spike-d *)
  rng : pcg32_t;
}.

Definition set_fs (v : frame_state_t) (s : globals) : globals := Globals v (cs s) (rng s).
Definition set_cs (v : cart_state_whetstone_t) (s : globals) : globals := Globals (fs s) v (rng s).
Definition set_rng_state (v : pcg32_t) (s : globals) : globals := Globals (fs s) (cs s) v.

(** regions_whetstone.c. *)
Definition runtime_tracked_regions : list (region globals) :=
  [Region region_frame_state fs set_fs; Region region_cart_state_whetstone cs set_cs].

Definition INNER : nat := 200.
Definition f32_0_499975 : Z := 0x3efffcb9.
Definition f32_0_1 : Z := 0x3dcccccd.
Definition f32_0_05 : Z := 0x3d4ccccd.
Definition f32_64 : Z := 0x42800000.
Definition f32_2 : Z := 0x40000000.

Local Infix "+f" := f32_add (at level 50, left associativity).
Local Infix "-f" := f32_sub (at level 50, left associativity).
Local Infix "*f" := f32_mul (at level 40, left associativity).

Definition set_accum_sqrt (v : Z) (s : frame_state_t) : frame_state_t :=
  FrameState (frame s) (rng_state s) (rng_inc s) (accum_sin s) (accum_cos s) v (accum_misc s) (mobs s).
Definition set_accum_sin_cos (sn c : Z) (s : frame_state_t) : frame_state_t :=
  FrameState (frame s) (rng_state s) (rng_inc s) sn c (accum_sqrt s) (accum_misc s) (mobs s).
Definition set_mobs (v : list frame_state_mob) (s : frame_state_t) : frame_state_t :=
  FrameState (frame s) (rng_state s) (rng_inc s) (accum_sin s) (accum_cos s) (accum_sqrt s)
    (accum_misc s) v.

(** The four-vector updates of modules 1 and 2. *)
Definition quad : Type := Z * Z * Z * Z.

Definition quad_step (k : Z) (q : quad) : quad :=
  let '(a, b, c, d) := q in
  let a := (a +f b +f c -f d) *f k in
  let b := (a +f b -f c +f d) *f k in
  let c := (a -f b +f c +f d) *f k in
  let d := (f32_neg a +f b +f c +f d) *f k in
  (a, b, c, d).

Definition quad_sum (q : quad) : Z := let '(a, b, c, d) := q in a +f b +f c +f d.

Definition root1 (x : Z) : Z := sqrtf (fabsf x +f f32_one).

Definition quad_root (q : quad) : quad :=
  let '(a, b, c, d) := q in (root1 a, root1 b, root1 c, root1 d).

Definition module_1 (s : globals) : globals :=
  let '(a', b', c', d') :=
    Nat.iter INNER (quad_step f32_0_499975) (a (cs s), b (cs s), c (cs s), d (cs s)) in
  let s := set_cs (CartState a' b' c' d' (e1 (cs s)) (t (cs s)) (u (cs s))) s in
  set_fs (set_accum_misc (accum_misc (fs s) +f quad_sum (a', b', c', d')) (fs s)) s.

Definition e1_quad (l : list Z) : quad :=
  (nth 0 l 0, nth 1 l 0, nth 2 l 0, nth 3 l 0).

Definition module_2 (s : globals) : globals :=
  let '(a', b', c', d') :=
    Nat.iter INNER (fun q => quad_root (quad_step f32_half q)) (e1_quad (e1 (cs s))) in
  let s := set_cs (CartState (a (cs s)) (b (cs s)) (c (cs s)) (d (cs s)) [a'; b'; c'; d']
                     (t (cs s)) (u (cs s))) s in
  set_fs (set_accum_sqrt (accum_sqrt (fs s) +f quad_sum (a', b', c', d')) (fs s)) s.

Section programs.
Context (m : libm).

(** [t], [accum_sin] and [accum_cos] through the loop of module 3. *)
Definition module_3_step (q : Z * Z * Z) : Z * Z * Z :=
  let '(t, sn, cn) := q in
  let t := atan2f m (sqrtf (t *f t +f f32_one)) t in
  (t, sn +f sinf m t, cn +f cosf m t).

Definition module_3 (s : globals) : globals :=
  let '(t', sn, cn) :=
    Nat.iter INNER module_3_step (t (cs s), accum_sin (fs s), accum_cos (fs s)) in
  let s := set_cs (CartState (a (cs s)) (b (cs s)) (c (cs s)) (d (cs s)) (e1 (cs s)) t' (u (cs s))) s in
  set_fs (set_accum_sin_cos sn cn (fs s)) s.

Definition module_4_step (q : Z * Z) : Z * Z :=
  let '(u, mi) := q in
  let u := expf m (logf m (fabsf u +f f32_one)) in
  let u := powf m u f32_half in
  (u, mi +f u).

Definition module_4 (s : globals) : globals :=
  let '(u', mi) := Nat.iter INNER module_4_step (u (cs s), accum_misc (fs s)) in
  let s := set_cs (CartState (a (cs s)) (b (cs s)) (c (cs s)) (d (cs s)) (e1 (cs s)) (t (cs s)) u') s in
  set_fs (set_accum_misc mi (fs s)) s.

(** The mobs from index [i] on, and the generator. *)
Fixpoint module_5_loop (n : nat) (i frame : Z) (r : pcg32_t) : list frame_state_mob * pcg32_t :=
  match n with
  | O => ([], r)
  | S n =>
      let fi := f32_of_Z (i + 1) in
      let ff := f32_of_Z frame in
      let a := (fi *f f32_0_1) +f (ff *f f32_0_05) in
      let '(r, v) := pcg32_next r in
      let mob := Mob (sinf m a *f f32_64 +f f32_64) (cosf m a *f f32_64 +f f32_64)
                   (sinf m (a *f f32_2)) (cosf m (a *f f32_2)) (Z.land v 0xff) in
      let '(mobs, r) := module_5_loop n (i + 1) frame r in
      (mob :: mobs, r)
  end.

Definition module_5 (frame : Z) (s : globals) : globals :=
  let '(mobs, r) := module_5_loop FRAME_STATE_MAX_MOBS 0 frame (rng s) in
  set_rng_state r (set_fs (set_mobs mobs (fs s)) s).

(** The loop body the three programs share. *)
Definition frame_body (f : Z) (s : globals) : globals :=
  let s := module_5 f (module_4 (module_3 (module_2 (module_1 s)))) in
  set_fs (set_rng (state (rng s)) (inc (rng s)) (set_frame f (fs s))) s.

Definition seeded : pcg32_t := pcg32_seed PCG_DEFAULT_STATE PCG_DEFAULT_INC.

Definition globals_bss : globals := Globals frame_state_zero g_state_init (Pcg32 0 0).

Definition start (s : globals) : globals :=
  set_fs frame_state_zero (set_rng_state seeded s).

(** spike-d's whetstone.c: output only, it has no save state. *)
Definition main_full : list Z :=
  output (loop_below 0 NFRAMES (with_digest fs set_fs frame_body) (start globals_bss)).2.

Definition main_save (argv : list (list Z)) : option (exit_state globals) :=
  let save_frame := save_frame_arg argv 15 in
  match save_state_init runtime_tracked_regions with
  | None => None
  | Some ctx =>
      match loop_upto save_frame frame_body (start globals_bss) with
      | None => None
      | Some s =>
          save_and_emit runtime_tracked_regions
            (cstr "PANIC whetstone_save: save_state_save returned 0" ++ [10])
            (ctx, s) save_frame
      end
  end.

Definition panics (path : list Z) : load_panics := {|
  p_read := cstr "PANIC whetstone_load: cannot read buffer file: " ++ path ++ [10];
  p_hex n := cstr "PANIC whetstone_load: hex parse failed (n=" ++ dec n ++ cstr ")" ++ [10];
  p_rejected m h :=
    cstr "PANIC whetstone_load: save_state_load rejected buffer (size=" ++ dec m ++
    cstr ", layout_hash=" ++ hex8 (u32 (h ≫ 32)) ++ hex8 (u32 (Z.land h 0xffffffff)) ++
    cstr ")" ++ [10];
|}.

(** [rng.state = fs->rng_state; rng.inc = fs->rng_inc]. *)
Definition resync (s : globals) : globals :=
  set_rng_state (Pcg32 (rng_state (fs s)) (rng_inc (fs s))) s.

Section load.
Context {W : Type} (sys_open : list Z -> W -> W * Z)
  (sys_read : Z -> Z -> W -> W * Z * list Z) (sys_close : Z -> W -> W * Z).

Definition main_load (argv : list (list Z)) (w : W) : option (W * exit_state globals) :=
  match argv with
  | _ :: path :: _ =>
      match save_state_init runtime_tracked_regions with
      | None => None
      | Some ctx =>
          let s := set_rng_state seeded (set_fs frame_state_zero globals_bss) in
          match load_buffer runtime_tracked_regions sys_open sys_read sys_close
                  (panics path) (ctx, s) path w with
          | None => None
          | Some (w, inr e) => Some (w, e)
          | Some (w, inl (ctx, s)) =>
              let s := resync s in
              let resume_frame := u32 (frame (fs s) + 1) in
              let '(s, lines) :=
                loop_below resume_frame NFRAMES (with_digest fs set_fs frame_body) s in
              Some (w, Exit (output lines) 0 (ctx, s))
          end
      end
  | _ =>
      Some (w, Exit (cstr "PANIC whetstone_load: usage: whetstone_load.elf <buffer-hex-file>"
                     ++ [10]) 1 (ctx_bss, globals_bss))
  end.
End load.

Definition full_lines : list (list Z) :=
  (loop_below 0 NFRAMES (with_digest fs set_fs frame_body) (start globals_bss)).2.
End programs.

(** ** The modules up to NaN encodings *)

Definition quad_feq (p q : quad) : Prop :=
  let '(a, b, c, d) := p in let '(a', b', c', d') := q in
  feq a a' /\ feq b b' /\ feq c c' /\ feq d d'.

Lemma iter_rel {A} (R : A -> A -> Prop) (f : A -> A) n x y :
  (forall x y, R x y -> R (f x) (f y)) -> R x y -> R (Nat.iter n f x) (Nat.iter n f y).
Proof. intros Hf Hxy. induction n as [|n IH]; simpl; [done|]. by apply Hf. Qed.

Lemma quad_step_feq k p q : quad_feq p q -> quad_feq (quad_step k p) (quad_step k q).
Proof.
  destruct p as [[[a b] c] d], q as [[[a' b'] c'] d']. intros (Ha & Hb & Hc & Hd).
  unfold quad_step, quad_feq.
  assert ((a +f b +f c -f d) *f k = (a' +f b' +f c' -f d') *f k) as E
    by by rewrite Ha, Hb, Hc, Hd.
  rewrite E. generalize ((a' +f b' +f c' -f d') *f k). clear a a' Ha E. intros a.
  assert ((a +f b -f c +f d) *f k = (a +f b' -f c' +f d') *f k) as E by by rewrite Hb, Hc, Hd.
  rewrite E. generalize ((a +f b' -f c' +f d') *f k). clear b b' Hb E. intros b.
  assert ((a -f b +f c +f d) *f k = (a -f b +f c' +f d') *f k) as E by by rewrite Hc, Hd.
  rewrite E. generalize ((a -f b +f c' +f d') *f k). clear c c' Hc E. intros c.
  by rewrite Hd.
Qed.

Lemma quad_root_feq p q : quad_feq p q -> quad_feq (quad_root p) (quad_root q).
Proof.
  destruct p as [[[a b] c] d], q as [[[a' b'] c'] d']. intros (Ha & Hb & Hc & Hd).
  unfold quad_root, root1, quad_feq. rewrite Ha, Hb, Hc, Hd. done.
Qed.

Lemma quad_sum_feq p q : quad_feq p q -> quad_sum p = quad_sum q.
Proof.
  destruct p as [[[a b] c] d], q as [[[a' b'] c'] d']. intros (Ha & Hb & Hc & Hd).
  unfold quad_sum. by rewrite Ha, Hb, Hc, Hd.
Qed.

(** Cart states that canonicalize alike, field by field. *)
Definition cs_feq (p q : cart_state_whetstone_t) : Prop :=
  quad_feq (a p, b p, c p, d p) (a q, b q, c q, d q) /\
  map canonicalize_nanf (e1 p) = map canonicalize_nanf (e1 q) /\
  feq (t p) (t q) /\ feq (u p) (u q).

Lemma cs_feq_canon p q : cs_feq p q <-> canonicalize p = canonicalize q.
Proof.
  unfold cs_feq, quad_feq, canonicalize. split.
  - intros (([-> ] & [->] & [->] & [->]) & -> & [->] & [->]). done.
  - intros [= H1 H2 H3 H4 H5 H6 H7]. by repeat split.
Qed.

Lemma e1_quad_feq l l' :
  map canonicalize_nanf l = map canonicalize_nanf l' -> quad_feq (e1_quad l) (e1_quad l').
Proof.
  intros E. assert (forall i, feq (nth i l 0) (nth i l' 0)) as H.
  { intros i. constructor. rewrite <-!(map_nth canonicalize_nanf). by rewrite E. }
  unfold e1_quad, quad_feq. split_and!; apply H.
Qed.

(** Frame states that canonicalize alike, field by field. *)
Definition fs_feq (p q : frame_state_t) : Prop :=
  frame p = frame q /\ rng_state p = rng_state q /\ rng_inc p = rng_inc q /\
  feq (accum_sin p) (accum_sin q) /\ feq (accum_cos p) (accum_cos q) /\
  feq (accum_sqrt p) (accum_sqrt q) /\ feq (accum_misc p) (accum_misc q) /\
  map canonicalize_mob (mobs p) = map canonicalize_mob (mobs q).

Lemma fs_feq_canon p q :
  fs_feq p q <-> frame_state_canonicalize p = frame_state_canonicalize q.
Proof.
  unfold fs_feq, frame_state_canonicalize. split.
  - by intros (-> & -> & -> & [->] & [->] & [->] & [->] & ->).
  - intros [= H1 H2 H3 H4 H5 H6 H7 H8]. by repeat split.
Qed.

(** Equal up to NaN encodings. *)
Definition same (s t : globals) : Prop :=
  fs_feq (fs s) (fs t) /\ cs_feq (cs s) (cs t) /\ rng s = rng t.

Lemma same_canon s t :
  same s t <-> frame_state_canonicalize (fs s) = frame_state_canonicalize (fs t) /\
    canonicalize (cs s) = canonicalize (cs t) /\ rng s = rng t.
Proof. unfold same. by rewrite fs_feq_canon, cs_feq_canon. Qed.

#[export] Instance same_equiv : Equivalence same.
Proof.
  split.
  - intros s. by apply same_canon.
  - intros s t (E1 & E2 & E3)%same_canon. by apply same_canon.
  - intros s t v (E1 & E2 & E3)%same_canon (F1 & F2 & F3)%same_canon. apply same_canon.
    by rewrite E1, E2, E3.
Qed.

Lemma module_1_same s t : same s t -> same (module_1 s) (module_1 t).
Proof.
  intros ((H1&H2&H3&H4&H5&H6&H7&H8) & (Hq & He & Ht & Hu) & Hr). unfold module_1.
  pose proof (iter_rel quad_feq _ INNER _ _ (quad_step_feq f32_0_499975) Hq) as Hi.
  destruct (Nat.iter INNER (quad_step f32_0_499975) (a (cs s), b (cs s), c (cs s), d (cs s))) as [[[a1 b1] c1] d1].
  destruct (Nat.iter INNER (quad_step f32_0_499975) (a (cs t), b (cs t), c (cs t), d (cs t))) as [[[a2 b2] c2] d2].
  split; [|exact (conj (conj Hi (conj He (conj Ht Hu))) Hr)].
  unfold fs_feq. cbn [fs set_fs set_cs set_accum_misc frame rng_state rng_inc accum_sin
    accum_cos accum_sqrt accum_misc mobs].
  rewrite (quad_sum_feq _ _ Hi), H7. by split_and!.
Qed.

Lemma module_2_same s t : same s t -> same (module_2 s) (module_2 t).
Proof.
  intros ((H1&H2&H3&H4&H5&H6&H7&H8) & (Hq & He & Ht & Hu) & Hr). unfold module_2.
  pose proof (iter_rel quad_feq (fun q => quad_root (quad_step f32_half q)) INNER _ _
    ltac:(intros p q Hpq; by apply quad_root_feq, quad_step_feq) (e1_quad_feq _ _ He)) as Hi.
  destruct (Nat.iter INNER (fun q => quad_root (quad_step f32_half q)) (e1_quad (e1 (cs s)))) as [[[a1 b1] c1] d1].
  destruct (Nat.iter INNER (fun q => quad_root (quad_step f32_half q)) (e1_quad (e1 (cs t)))) as [[[a2 b2] c2] d2].
  split; [|split; [|exact Hr]].
  - unfold fs_feq. cbn [fs set_fs set_cs set_accum_sqrt frame rng_state rng_inc accum_sin
      accum_cos accum_sqrt accum_misc mobs].
    rewrite (quad_sum_feq _ _ Hi), H6. by split_and!.
  - split; [exact Hq|]. split; [|exact (conj Ht Hu)].
    destruct Hi as ([Ha] & [Hb] & [Hc] & [Hd]). simpl. congruence.
Qed.

Section laws.
Context (m : libm) {L : LibmLaws m}.

Lemma module_3_same s t : same s t -> same (module_3 m s) (module_3 m t).
Proof.
  intros ((H1&H2&H3&H4&H5&H6&H7&H8) & (Hq & He & Ht & Hu) & Hr). unfold module_3.
  pose proof (iter_rel (fun '(x, y, z) '(x', y', z') => feq x x' /\ feq y y' /\ feq z z')
    (module_3_step m) INNER (CartStateWhetstone.t (cs s), accum_sin (fs s), accum_cos (fs s))
    (CartStateWhetstone.t (cs t), accum_sin (fs t), accum_cos (fs t))) as Hi.
  destruct (Nat.iter INNER (module_3_step m)
    (CartStateWhetstone.t (cs s), accum_sin (fs s), accum_cos (fs s))) as [[t1 sn1] cn1].
  destruct (Nat.iter INNER (module_3_step m)
    (CartStateWhetstone.t (cs t), accum_sin (fs t), accum_cos (fs t))) as [[t2 sn2] cn2].
  destruct Hi as (Ht' & Hsn & Hcn); [|by split_and!|].
  { intros [[x y] z] [[x' y'] z'] (Hx & Hy & Hz). unfold module_3_step.
    assert (atan2f m (sqrtf (x *f x +f f32_one)) x = atan2f m (sqrtf (x' *f x' +f f32_one)) x')
      as -> by (apply atan2f_feq; [by rewrite Hx|exact Hx]).
    split_and!; [done|by rewrite Hy|by rewrite Hz]. }
  split; [|split; [|exact Hr]]; [by split_and!|].
  exact (conj Hq (conj He (conj Ht' Hu))).
Qed.

Lemma module_4_same s t : same s t -> same (module_4 m s) (module_4 m t).
Proof.
  intros ((H1&H2&H3&H4&H5&H6&H7&H8) & (Hq & He & Ht & Hu) & Hr). unfold module_4.
  pose proof (iter_rel (fun '(x, y) '(x', y') => feq x x' /\ feq y y')
    (module_4_step m) INNER (u (cs s), accum_misc (fs s)) (u (cs t), accum_misc (fs t))) as Hi.
  destruct (Nat.iter INNER (module_4_step m) (u (cs s), accum_misc (fs s))) as [u1 m1].
  destruct (Nat.iter INNER (module_4_step m) (u (cs t), accum_misc (fs t))) as [u2 m2].
  destruct Hi as (Hu' & Hm); [|done|].
  { intros [x y] [x' y'] (Hx & Hy). unfold module_4_step.
    assert (logf m (fabsf x +f f32_one) = logf m (fabsf x' +f f32_one)) as ->
      by (apply logf_feq; by rewrite Hx).
    split; [done|by rewrite Hy]. }
  split; [|split; [|exact Hr]]; [by split_and!|].
  exact (conj Hq (conj He (conj Ht Hu'))).
Qed.

Lemma module_5_same f s t : same s t -> same (module_5 m f s) (module_5 m f t).
Proof.
  intros ((H1&H2&H3&H4&H5&H6&H7&H8) & Hc & Hr). unfold module_5. rewrite Hr.
  destruct (module_5_loop m _ _ _ _) as [ms r].
  split; [by split_and!|]. by split.
Qed.

Lemma whetstone_body_same f s t : same s t -> same (frame_body m f s) (frame_body m f t).
Proof.
  intros H. unfold frame_body.
  pose proof (module_5_same f _ _ (module_4_same _ _ (module_3_same _ _ (module_2_same _ _
    (module_1_same _ _ H))))) as Hm. revert Hm.
  generalize (module_5 m f (module_4 m (module_3 m (module_2 (module_1 s))))).
  generalize (module_5 m f (module_4 m (module_3 m (module_2 (module_1 t))))).
  intros t1 s1 ((H1&H2&H3&H4&H5&H6&H7&H8) & Hc & Hr).
  split; [|by split]. cbn [fs set_fs cs rng]. rewrite Hr. by split_and!.
Qed.

(** *** Well-formedness *)

Definition wf (s : globals) : Prop :=
  lwf frame_state_layout (fs s) /\ lwf layout (cs s) /\
  0 <= state (rng s) < 2 ^ 64 /\ 0 <= inc (rng s) < 2 ^ 64.

Definition f32_ok (x : Z) : Prop := 0 <= x < 2 ^ 32.

Lemma arith_ok x y : f32_ok (f32_add x y) /\ f32_ok (f32_mul x y) /\ f32_ok (sqrtf x).
Proof. split_and!; apply f32_to_bits_range. Qed.

Definition quad_ok (q : quad) : Prop :=
  let '(a, b, c, d) := q in f32_ok a /\ f32_ok b /\ f32_ok c /\ f32_ok d.

Lemma quad_step_ok k q : quad_ok (quad_step k q).
Proof. destruct q as [[[a b] c] d]. unfold quad_step, quad_ok. split_and!; apply f32_to_bits_range. Qed.

Lemma quad_root_ok q : quad_ok (quad_root q).
Proof. destruct q as [[[a b] c] d]. unfold quad_root, root1, quad_ok. split_and!; apply f32_to_bits_range. Qed.

Lemma iter_ok {A} (P : A -> Prop) (f : A -> A) n x :
  (forall y, P (f y)) -> P (Nat.iter (S n) f x).
Proof. intros Hf. simpl. apply Hf. Qed.

Lemma quad_sum_ok q : f32_ok (quad_sum q).
Proof. destruct q as [[[a b] c] d]. apply f32_to_bits_range. Qed.

Lemma set_accum_sqrt_wf v s :
  f32_ok v -> lwf frame_state_layout s -> lwf frame_state_layout (set_accum_sqrt v s).
Proof. unfold f32_ok. cbn -[mob_layout Z.pow array]. intros ? (?&?&?&?&?&?&?&?). canon_fields. Qed.

Lemma set_accum_sin_cos_wf v w s :
  f32_ok v -> f32_ok w -> lwf frame_state_layout s ->
  lwf frame_state_layout (set_accum_sin_cos v w s).
Proof. unfold f32_ok. cbn -[mob_layout Z.pow array]. intros ?? (?&?&?&?&?&?&?&?). canon_fields. Qed.

Lemma set_mobs_wf v s :
  length v = 64%nat -> Forall (lwf mob_layout) v -> lwf frame_state_layout s ->
  lwf frame_state_layout (set_mobs v s).
Proof. cbn -[mob_layout Z.pow array]. intros ?? (?&?&?&?&?&?&?&?). canon_fields. Qed.

Lemma set_rng_wf x y s :
  0 <= x < 2 ^ 64 -> 0 <= y < 2 ^ 64 -> lwf frame_state_layout s ->
  lwf frame_state_layout (set_rng x y s).
Proof. cbn -[mob_layout Z.pow array]. intros ?? (?&?&?&?&?&?&?&?). canon_fields. Qed.

Lemma cs_wf a b c d e t u :
  quad_ok (a, b, c, d) -> length e = 4%nat -> Forall f32_ok e -> f32_ok t -> f32_ok u ->
  lwf layout (CartState a b c d e t u).
Proof.
  intros (?&?&?&?) ????. unfold f32_ok in *. cbn -[Z.pow array]. canon_fields.
Qed.

Lemma module_1_wf s : wf s -> wf (module_1 s).
Proof.
  intros (Hfs & (Ha & Hb & Hc & Hd & [Hl He] & Ht & Hu) & Hr). unfold module_1.
  pose proof (iter_ok quad_ok _ 199 (a (cs s), b (cs s), c (cs s), d (cs s))
    (quad_step_ok f32_0_499975)) as Hq. change (S 199) with INNER in Hq.
  destruct (Nat.iter INNER (quad_step f32_0_499975) _) as [[[a1 b1] c1] d1].
  split; [|split; [|exact Hr]].
  - apply set_accum_misc_wf; [apply f32_to_bits_range|exact Hfs].
  - by apply cs_wf.
Qed.

Lemma module_2_wf s : wf s -> wf (module_2 s).
Proof.
  intros (Hfs & (Ha & Hb & Hc & Hd & [Hl He] & Ht & Hu) & Hr). unfold module_2.
  pose proof (iter_ok quad_ok (fun q => quad_root (quad_step f32_half q)) 199 (e1_quad (e1 (cs s)))
    ltac:(intros y; apply quad_root_ok)) as Hq. change (S 199) with INNER in Hq.
  destruct (Nat.iter INNER (fun q => quad_root (quad_step f32_half q)) _) as [[[a1 b1] c1] d1].
  split; [|split; [|exact Hr]].
  - apply set_accum_sqrt_wf; [apply f32_to_bits_range|exact Hfs].
  - destruct Hq as (?&?&?&?). apply cs_wf; [exact (conj Ha (conj Hb (conj Hc Hd)))|done| |done|done].
    by repeat (constructor; [assumption|]).
Qed.

Lemma module_3_wf s : wf s -> wf (module_3 m s).
Proof.
  intros (Hfs & (Ha & Hb & Hc & Hd & [Hl He] & Ht & Hu) & Hr). unfold module_3.
  pose proof (iter_ok (fun '(x, y, z) => f32_ok x /\ f32_ok y /\ f32_ok z) (module_3_step m) 199
    (t (cs s), accum_sin (fs s), accum_cos (fs s))) as Hq. change (S 199) with INNER in Hq.
  destruct (Nat.iter INNER (module_3_step m) _) as [[t1 sn] cn].
  destruct Hq as (H1 & H2 & H3).
  { intros [[x y] z]. unfold module_3_step. split; [apply libm_range; exact 0|].
    split; apply f32_to_bits_range. }
  split; [|split; [|exact Hr]].
  - by apply set_accum_sin_cos_wf.
  - apply cs_wf; [exact (conj Ha (conj Hb (conj Hc Hd)))|exact Hl|exact He|exact H1|exact Hu].
Qed.

Lemma module_4_wf s : wf s -> wf (module_4 m s).
Proof.
  intros (Hfs & (Ha & Hb & Hc & Hd & [Hl He] & Ht & Hu) & Hr). unfold module_4.
  pose proof (iter_ok (fun '(x, y) => f32_ok x /\ f32_ok y) (module_4_step m) 199
    (u (cs s), accum_misc (fs s))) as Hq. change (S 199) with INNER in Hq.
  destruct (Nat.iter INNER (module_4_step m) _) as [u1 m1].
  destruct Hq as (H1 & H2).
  { intros [x y]. unfold module_4_step. split; [|apply f32_to_bits_range].
    by apply libm_range. }
  split; [|split; [|exact Hr]].
  - by apply set_accum_misc_wf.
  - apply cs_wf; [exact (conj Ha (conj Hb (conj Hc Hd)))|exact Hl|exact He|exact Ht|exact H1].
Qed.

Lemma module_5_loop_ok n i f r :
  0 <= state r < 2 ^ 64 -> 0 <= inc r < 2 ^ 64 ->
  let '(ms, r') := module_5_loop m n i f r in
  length ms = n /\ Forall (lwf mob_layout) ms /\
  0 <= state r' < 2 ^ 64 /\ 0 <= inc r' < 2 ^ 64.
Proof.
  revert i r; induction n as [|n IH]; intros i r Hs Hi; [exact (conj eq_refl (conj (Forall_nil_2 _) (conj Hs Hi)))|].
  cbn [module_5_loop]. destruct (pcg32_next r) as [r1 v] eqn:En.
  assert (0 <= state r1 < 2 ^ 64 /\ inc r1 = inc r) as [Hs1 Hi1].
  { injection En as <- _. split; [by apply wrap_range|done]. }
  assert (0 <= v) as Hv.
  { injection En as _ <-. apply Z.lor_nonneg. split; [|by apply wrap_range].
    apply Z.shiftr_nonneg. by apply wrap_range. }
  specialize (IH (i + 1) r1 Hs1 ltac:(by rewrite Hi1)).
  destruct (module_5_loop m n (i + 1) f r1) as [ms r'].
  destruct IH as (Hl & Hm & Hr). split; [by simpl; rewrite Hl|]. split; [|exact Hr].
  constructor; [|exact Hm].
  split; [apply f32_to_bits_range|]. split; [apply f32_to_bits_range|].
  split; [apply libm_range; exact 0|]. split; [apply libm_range; exact 0|].
  change (0 <= Z.land v 255 < 2 ^ 32). change 255 with (Z.ones 8).
  rewrite Z.land_ones by lia. pose proof (Z.mod_pos_bound v (2 ^ 8)). lia.
Qed.

Lemma module_5_wf f s : wf s -> wf (module_5 m f s).
Proof.
  intros (Hfs & Hcs & Hs & Hi). unfold module_5.
  pose proof (module_5_loop_ok FRAME_STATE_MAX_MOBS 0 f (rng s) Hs Hi) as Hm.
  destruct (module_5_loop m _ 0 f (rng s)) as [ms r]. destruct Hm as (Hl & Hm & Hr).
  split; [by apply set_mobs_wf|]. exact (conj Hcs Hr).
Qed.

Lemma whetstone_body_wf f s : 0 <= f < 2 ^ 32 -> wf s -> wf (frame_body m f s).
Proof.
  intros Hf Hs. unfold frame_body.
  pose proof (module_5_wf f _ (module_4_wf _ (module_3_wf _ (module_2_wf _ (module_1_wf _ Hs))))) as H.
  revert H. generalize (module_5 m f (module_4 m (module_3 m (module_2 (module_1 s))))).
  intros s1 (Hfs & Hcs & Hr1 & Hr2). split; [|exact (conj Hcs (conj Hr1 Hr2))].
  apply set_rng_wf; [exact Hr1|exact Hr2|]. by apply set_frame_wf.
Qed.

(** *** The cart meets the interface *)

Definition tracked_wf (s : globals) : Prop :=
  (lwf frame_state_layout (fs s) /\ true = true) /\
  ((lwf layout (cs s) /\ true = true) /\ True).

(** Between frames the frame state mirrors the generator. *)
Definition settled (s : globals) : Prop := rng s = Pcg32 (rng_state (fs s)) (rng_inc (fs s)).

Lemma whetstone_registry : Registry runtime_tracked_regions tracked_wf.
Proof.
  apply (Registry_cons (Region region_frame_state fs set_fs) _
           (fun v => lwf frame_state_layout v /\ true = true)); [apply _|by split; try intros []|..].
  { repeat constructor. }
  apply (Registry_cons (Region region_cart_state_whetstone cs set_cs) _
           (fun b => lwf layout b /\ true = true));
    [apply _|by split; try intros []|constructor|constructor].
Qed.

Lemma body_settled f s : settled (frame_body m f s).
Proof.
  unfold frame_body. generalize (module_5 m f (module_4 m (module_3 m (module_2 (module_1 s))))).
  intros s1. unfold settled. simpl. by destruct (rng s1).
Qed.

#[export] Instance cart :
  Cart runtime_tracked_regions tracked_wf wf fs set_fs (frame_body m) resync settled same.
Proof.
  split.
  - apply whetstone_registry.
  - intros s (H1 & H2 & _). exact (conj (conj H1 eq_refl) (conj (conj H2 eq_refl) I)).
  - split; [repeat constructor; by compute|by compute].
  - by compute.
  - apply _.
  - apply whetstone_body_same.
  - apply whetstone_body_wf.
  - apply body_settled.
  - intros f s. unfold frame_body.
    by generalize (module_5 m f (module_4 m (module_3 m (module_2 (module_1 s))))).
  - intros s t (E1 & E2 & E3)%same_canon. split; [|exact E1]. apply same_canon.
    split; [|by split]. rewrite <-E1. exact (frame_state_canonicalize_idem (fs s)).
  - intros s t _ Hset. apply same_canon.
    split; [exact (frame_state_canonicalize_idem (fs s))|]. split; [|by rewrite Hset].
    change (canonicalize (canonicalize (cs s)) = canonicalize (cs s)).
    unfold canonicalize; simpl. autorewrite with blytrw. f_equal.
    rewrite map_map. apply map_ext, canonicalize_nanf_idem.
  - done.
Qed.

Lemma whetstone_start_wf : wf (start globals_bss).
Proof.
  split; [apply frame_state_zero_wf|]. split; [|by vm_compute].
  apply (cs_wf f32_one f32_minus_one f32_minus_one f32_minus_one
           [f32_one; f32_minus_one; f32_minus_one; f32_minus_one] f32_half f32_three_quarters);
    [by vm_compute|done| |by vm_compute|by vm_compute].
  repeat (constructor; [by vm_compute|]). constructor.
Qed.

Section replay.
Context {W : Type} (sys_open : list Z -> W -> W * Z)
  (sys_read : Z -> Z -> W -> W * Z * list Z) (sys_close : Z -> W -> W * Z)
  (remaining : W -> list Z).

(** C13: replay of whetstone.  With any libm whose results do not depend on
    how a NaN is encoded, and for every save frame before the last, the
    load program, with the accumulators in a tracked region and the
    generator restored from the frame state, prints exactly the digest
    lines spike-d's straight-through program prints for the remaining
    frames. *)
Theorem whetstone_replay k prog :
  0 <= k < NFRAMES ->
  main_full m = output (full_lines m) /\
  exists text rt,
    main_save m [prog; dec k] = Some (Exit text 0 rt) /\
    (forall path w w0 fd,
     sys_open path w = (w0, fd) -> 0 <= fd -> read_posix sys_read remaining fd ->
     remaining w0 = text ->
     exists w' rt', main_load m sys_open sys_read sys_close [prog; path] w =
       Some (w', Exit (output (drop (Z.to_nat (k + 1)) (full_lines m))) 0 rt')).
Proof.
  intros Hk. split; [unfold main_full, full_lines; reflexivity|].
  destruct (replay_programs runtime_tracked_regions tracked_wf wf fs set_fs (frame_body m)
    resync settled same sys_open sys_read sys_close remaining
    (cstr "PANIC whetstone_save: save_state_save returned 0" ++ [10])
    k (start globals_bss)) as (ctx & sk & text & Hi & Hloop & Hsave & Hload);
    [apply whetstone_start_wf|done|by compute|].
  unfold main_save, main_load. rewrite Hi, save_frame_dec, Hloop, Hsave by done.
  eexists text, _. split; [done|].
  intros path w w0 fd Ho Hfd Hread Hrem.
  destruct (Hload (panics path) (set_rng_state seeded (set_fs frame_state_zero globals_bss))
              path w w0 fd Ho Hfd Hread Hrem) as (w' & -> & Hf & Hl).
  exists w'. rewrite Hf. unfold full_lines. rewrite <-Hl.
  destruct (loop_below (u32 (k + 1)) _ _ _) as [s' lines]. by eexists.
Qed.
End replay.
End laws.

(** A libm that satisfies the laws. *)
Definition toy_libm : libm := {|
  sinf x := f32_mul x x; cosf x := f32_add x f32_one; atan2f := f32_sub;
  expf x := f32_add x f32_one; logf x := f32_sub x f32_one; powf := f32_mul;
|}.

#[export] Instance toy_libm_laws : LibmLaws toy_libm.
Proof.
  split; cbn [sinf cosf atan2f expf logf powf toy_libm].
  - intros x y E. by rewrite E.
  - intros x y E. by rewrite E.
  - apply _.
  - intros x y E. by rewrite E.
  - intros x y E. by rewrite E.
  - apply _.
  - intros x y. split_and!; apply f32_to_bits_range.
Qed.

Lemma whetstone_replay_witness :
  exists text rt w' rt',
    main_save toy_libm [cstr "save"; dec 15] = Some (Exit text 0 rt) /\
    main_load toy_libm (fun _ w => (w, 4)) toy_read (fun _ w => (w, 0))
      [cstr "save"; cstr "f"] text =
      Some (w', Exit (output (drop (Z.to_nat (15 + 1)) (full_lines toy_libm))) 0 rt').
Proof.
  destruct (whetstone_replay toy_libm (fun _ w => (w, 4)) toy_read (fun _ w => (w, 0)) id 15
    (cstr "save")) as (_ & text & rt & Hs & Hl); [by split|].
  destruct (Hl (cstr "f") text text 4 eq_refl ltac:(lia) (toy_read_posix 4) eq_refl)
    as (w' & rt' & H).
  exists text, rt, w', rt'. exact (conj Hs H).
Defined.
