(* ===== verification/Float64.v ===== *)
(** * Double precision as bits, and the conversions to and from [float]

    The table flattener writes every Lua number (a [float] under LUA_32BITS)
    as the 64 bits of a [double] and reads it back.  The conversions are the
    IEEE 754 ones (widening is exact, narrowing rounds to nearest, ties to
    even); a NaN operand gives the canonical NaN of the target format, as the
    RISC-V conversions do.  [canonicalize_nan64] is the NaN policy of
    spikes/spike-m/lib/lua_table_flatten.c. *)

From S2P Require Import Prelude Float32.

Definition CANONICAL_QNAN64_BITS : Z := 0x7ff8000000000000.

Definition canonicalize_nan64 (u : Z) : Z :=
  let exp_bits := Z.land (u ≫ 52) 0x7ff in
  let frac := Z.land u 0xfffffffffffff in
  if (exp_bits =? 0x7ff) && negb (frac =? 0) then CANONICAL_QNAN64_BITS else u.

(** ** Conversions *)

(** [x / 2 ^ k] rounded to nearest, ties to even. *)
Definition rne (x k : Z) : Z :=
  let q := x / 2 ^ k in
  let r := x mod 2 ^ k in
  if (2 ^ (k - 1) <? r) || ((r =? 2 ^ (k - 1)) && Z.odd q) then q + 1 else q.

(** [(double)x]. *)
Definition f64_of_f32 (u : Z) : Z :=
  let s := u / 2 ^ 31 in
  let e := (u / 2 ^ 23) mod 2 ^ 8 in
  let m := u mod 2 ^ 23 in
  if e =? 0xff then
    if m =? 0 then s * 2 ^ 63 + 0x7ff * 2 ^ 52 else CANONICAL_QNAN64_BITS
  else if e =? 0 then
    if m =? 0 then s * 2 ^ 63
    else let k := Z.log2 m in
         s * 2 ^ 63 + (k + 874) * 2 ^ 52 + (m - 2 ^ k) * 2 ^ (52 - k)
  else s * 2 ^ 63 + (e + 896) * 2 ^ 52 + m * 2 ^ 29.

(** [(float)x]. *)
Definition f32_of_f64 (v : Z) : Z :=
  let s := v / 2 ^ 63 in
  let e := (v / 2 ^ 52) mod 2 ^ 11 in
  let m := v mod 2 ^ 52 in
  if e =? 0x7ff then
    if m =? 0 then s * 2 ^ 31 + 0x7f800000 else CANONICAL_QNAN_BITS
  else
    let sig := if e =? 0 then m else m + 2 ^ 52 in
    let ex := Z.max e 1 - 896 in
    let et := Z.max ex 1 in
    let mag := (et - 1) * 2 ^ 23 + rne sig (29 + (et - ex)) in
    if 0x7f800000 <=? mag then s * 2 ^ 31 + 0x7f800000 else s * 2 ^ 31 + mag.

Example f64_of_f32_ex :
  map f64_of_f32 [0x3f800000; 0xbf800000; 0x00000001; 0x007fffff; 0x80000000; 0x7f800000;
                  0x3dcccccd; 0x7f7fffff] =
  [0x3ff0000000000000; 0xbff0000000000000; 0x36a0000000000000; 0x380fffffc0000000;
   0x8000000000000000; 0x7ff0000000000000; 0x3fb99999a0000000; 0x47efffffe0000000].
Proof. reflexivity. Qed.

Example f32_of_f64_ex :
  map f32_of_f64 [0x3fb999999999999a; 0x400921fb54442d18; 0x7fefffffffffffff; 0x0000000000000001;
                  0x36a0000000000000; 0x3690000000000000; 0x3690000000000001; 0x47effffff0000000;
                  0xc7efffffe0000000; 0x3ff0000010000000; 0x3ff0000030000000] =
  [0x3dcccccd; 0x40490fdb; 0x7f800000; 0; 1; 0; 1; 0x7f800000; 0xff7fffff; 0x3f800000; 0x3f800002].
Proof. reflexivity. Qed.

(** ** Widening loses nothing *)

Lemma rne_exact q k : 0 < k -> rne (q * 2 ^ k) k = q.
Proof.
  intros Hk. unfold rne. assert (0 < 2 ^ k) by (apply Z.pow_pos_nonneg; lia).
  assert (0 < 2 ^ (k - 1)) by (apply Z.pow_pos_nonneg; lia).
  rewrite Z.div_mul, Z.mod_mul by lia.
  destruct (Z.ltb_spec (2 ^ (k - 1)) 0); [lia|].
  destruct (Z.eqb_spec 0 (2 ^ (k - 1))); [lia|done].
Qed.

(** The fields of a word assembled from them. *)
Lemma f64_fields s e m :
  0 <= e < 2 ^ 11 -> 0 <= m < 2 ^ 52 ->
  (s * 2 ^ 63 + e * 2 ^ 52 + m) / 2 ^ 63 = s /\
  ((s * 2 ^ 63 + e * 2 ^ 52 + m) / 2 ^ 52) mod 2 ^ 11 = e /\
  (s * 2 ^ 63 + e * 2 ^ 52 + m) mod 2 ^ 52 = m.
Proof.
  intros He Hm. split; [|split].
  - symmetry. apply (Z.div_unique_pos _ _ _ (e * 2 ^ 52 + m)); lia.
  - replace (s * 2 ^ 63 + e * 2 ^ 52 + m) with (m + (s * 2 ^ 11 + e) * 2 ^ 52) by lia.
    rewrite Z.div_add, (Z.div_small m) by lia.
    replace (0 + (s * 2 ^ 11 + e)) with (e + s * 2 ^ 11) by lia.
    rewrite Z.mod_add by lia. by apply Z.mod_small.
  - replace (s * 2 ^ 63 + e * 2 ^ 52 + m) with (m + (s * 2 ^ 11 + e) * 2 ^ 52) by lia.
    rewrite Z.mod_add by lia. by apply Z.mod_small.
Qed.

Lemma f32_split u : u = u / 2 ^ 31 * 2 ^ 31 + (u / 2 ^ 23) mod 2 ^ 8 * 2 ^ 23 + u mod 2 ^ 23.
Proof.
  pose proof (Z.div_mod u (2 ^ 23)). pose proof (Z.div_mod (u / 2 ^ 23) (2 ^ 8)).
  assert (u / 2 ^ 23 / 2 ^ 8 = u / 2 ^ 31) as E by by rewrite Z.div_div. lia.
Qed.

Lemma is_nanf_fields u :
  is_nanf u = ((u / 2 ^ 23) mod 2 ^ 8 =? 0xff) && negb (u mod 2 ^ 23 =? 0).
Proof.
  unfold is_nanf. rewrite Z.shiftr_div_pow2 by done.
  change 0xff with (Z.ones 8) at 1. change 0x7fffff with (Z.ones 23).
  by rewrite !Z.land_ones.
Qed.

(** The pieces of [f64_of_f32]: sign, exponent and fraction fields. *)
Lemma f64_of_f32_parts u :
  0 <= u < 2 ^ 32 -> is_nanf u = false ->
  exists e m, 0 <= e < 2 ^ 11 /\ 0 <= m < 2 ^ 52 /\
    f64_of_f32 u = u / 2 ^ 31 * 2 ^ 63 + e * 2 ^ 52 + m /\
    (e = 0x7ff -> m = 0) /\
    f32_of_f64 (u / 2 ^ 31 * 2 ^ 63 + e * 2 ^ 52 + m) = u.
Proof.
  intros Hu Hn. rewrite is_nanf_fields in Hn. pose proof (f32_split u) as Eu.
  set (s := u / 2 ^ 31) in *. set (eb := (u / 2 ^ 23) mod 2 ^ 8) in *.
  set (mb := u mod 2 ^ 23) in *.
  assert (0 <= eb < 2 ^ 8) as He by by apply Z.mod_pos_bound.
  assert (0 <= mb < 2 ^ 23) as Hm by by apply Z.mod_pos_bound.
  unfold f64_of_f32. fold s eb mb. destruct (Z.eqb_spec eb 0xff) as [E1|E1].
  { destruct (Z.eqb_spec mb 0) as [E2|]; [|done]. exists 0x7ff, 0.
    split; [lia|]. split; [lia|]. split; [lia|]. split; [done|].
    unfold f32_of_f64. destruct (f64_fields s 0x7ff 0) as (-> & -> & ->); [lia..|].
    rewrite !Z.eqb_refl. lia. }
  destruct (Z.eqb_spec eb 0) as [E0|E0].
  - destruct (Z.eqb_spec mb 0) as [E2|E2].
    + exists 0, 0. split; [lia|]. split; [lia|]. split; [lia|]. split; [done|].
      unfold f32_of_f64. destruct (f64_fields s 0 0) as (-> & -> & ->); [lia..|].
      change (29 + _) with 925. change (rne _ _) with 0.
      change (_ <=? _) with false. change (0 =? 2047) with false. cbv iota. lia.
    + set (k := Z.log2 mb).
      assert (0 <= k < 23) as Hk.
      { split; [apply Z.log2_nonneg|]. apply Z.log2_lt_pow2; lia. }
      assert (2 ^ k <= mb < 2 ^ (k + 1)) as Hkm.
      { pose proof (Z.log2_spec mb ltac:(lia)) as H. by rewrite <-Z.add_1_r in H. }
      assert (2 ^ (k + 1) = 2 * 2 ^ k) as E3 by (rewrite Z.pow_add_r by lia; lia).
      assert (2 ^ k * 2 ^ (52 - k) = 2 ^ 52) as E4.
      { rewrite <-Z.pow_add_r by lia. f_equal. lia. }
      assert (0 < 2 ^ (52 - k)) by (apply Z.pow_pos_nonneg; lia).
      exists (k + 874), ((mb - 2 ^ k) * 2 ^ (52 - k)).
      assert (0 <= (mb - 2 ^ k) * 2 ^ (52 - k) < 2 ^ 52) as Hfrac by (split; nia).
      split; [lia|]. split; [done|]. split; [lia|]. split; [lia|].
      unfold f32_of_f64. destruct (f64_fields s (k + 874) _ ltac:(lia) Hfrac) as (-> & -> & ->).
      destruct (Z.eqb_spec (k + 874) 0x7ff); [lia|]. destruct (Z.eqb_spec (k + 874) 0); [lia|].
      replace (Z.max (Z.max (k + 874) 1 - 896) 1) with 1 by lia.
      replace (29 + (1 - (Z.max (k + 874) 1 - 896))) with (52 - k) by lia.
      replace ((mb - 2 ^ k) * 2 ^ (52 - k) + 2 ^ 52) with (mb * 2 ^ (52 - k)) by lia.
      rewrite rne_exact by lia. destruct (Z.leb_spec 0x7f800000 ((1 - 1) * 2 ^ 23 + mb)); lia.
  - exists (eb + 896), (mb * 2 ^ 29).
    split; [lia|]. split; [lia|]. split; [lia|]. split; [lia|].
    unfold f32_of_f64.
    destruct (f64_fields s (eb + 896) (mb * 2 ^ 29)) as (-> & -> & ->); [lia..|].
    destruct (Z.eqb_spec (eb + 896) 0x7ff); [lia|]. destruct (Z.eqb_spec (eb + 896) 0); [lia|].
    replace (Z.max (eb + 896) 1 - 896) with eb by lia. replace (Z.max eb 1) with eb by lia.
    replace (29 + (eb - eb)) with 29 by lia.
    replace (mb * 2 ^ 29 + 2 ^ 52) with ((mb + 2 ^ 23) * 2 ^ 29) by lia.
    rewrite rne_exact by lia.
    destruct (Z.leb_spec 0x7f800000 ((eb - 1) * 2 ^ 23 + (mb + 2 ^ 23))); lia.
Qed.

Lemma canonicalize_nan64_fields v :
  canonicalize_nan64 v =
  if ((v / 2 ^ 52) mod 2 ^ 11 =? 0x7ff) && negb (v mod 2 ^ 52 =? 0)
  then CANONICAL_QNAN64_BITS else v.
Proof.
  unfold canonicalize_nan64. rewrite Z.shiftr_div_pow2 by done.
  change 0x7ff with (Z.ones 11) at 1. change 0xfffffffffffff with (Z.ones 52).
  by rewrite !Z.land_ones.
Qed.

Lemma f64_of_f32_nan u : is_nanf u = true -> f64_of_f32 u = CANONICAL_QNAN64_BITS.
Proof.
  rewrite is_nanf_fields. intros [He Hm]%andb_prop. unfold f64_of_f32. rewrite He.
  by destruct (u mod 2 ^ 23 =? 0).
Qed.

Lemma f64_of_f32_range u : 0 <= u < 2 ^ 32 -> 0 <= f64_of_f32 u < 2 ^ 64.
Proof.
  intros Hu. destruct (is_nanf u) eqn:E.
  - rewrite f64_of_f32_nan by done. unfold CANONICAL_QNAN64_BITS. lia.
  - destruct (f64_of_f32_parts u Hu E) as (e & m & He & Hm & -> & _).
    pose proof (Z.div_pos u (2 ^ 31)). pose proof (Z.div_lt_upper_bound u (2 ^ 31) 2). lia.
Qed.

(** The bits written for a [float] never encode a NaN other than the canonical one. *)
Lemma canonicalize_f64_of_f32 u :
  0 <= u < 2 ^ 32 -> canonicalize_nan64 (f64_of_f32 u) = f64_of_f32 u.
Proof.
  intros Hu. destruct (is_nanf u) eqn:E.
  - by rewrite f64_of_f32_nan.
  - destruct (f64_of_f32_parts u Hu E) as (e & m & He & Hm & -> & Hnan & _).
    rewrite canonicalize_nan64_fields.
    destruct (f64_fields (u / 2 ^ 31) e m He Hm) as (_ & -> & ->).
    destruct (Z.eqb_spec e 0x7ff); [|done]. by rewrite Hnan.
Qed.

(** Writing a [float] as a double and reading it back keeps every value and
    maps every NaN to the canonical one. *)
Lemma f32_through_f64 u :
  0 <= u < 2 ^ 32 -> f32_of_f64 (canonicalize_nan64 (f64_of_f32 u)) = canonicalize_nanf u.
Proof.
  intros Hu. rewrite canonicalize_f64_of_f32 by done.
  destruct (canonicalize_nanf_cases u) as [[E ->]|[E ->]].
  - by rewrite f64_of_f32_nan.
  - destruct (f64_of_f32_parts u Hu E) as (e & m & _ & _ & -> & _ & H). done.
Qed.
