(* ===== verification/PersistentScripts.v ===== *)
(** * Persistent-script slots (spikes/spike-m/cart_runtime/region_persistent_scripts.c)

    The tracked region behind [blyt32.coroutine]: 64 slots, a bitmap of the
    slots in use, and per slot the flattened [ctx] of one script.  The abstract
    machine below ([spec_exec]) keeps, per slot, whether it is in use and which
    blob it retains; the region is proved to refine it. *)

From S2P Require Import Prelude Layout Tracked Regions.

Definition MAX_PERSISTENT_SCRIPTS : Z := 64.
Definition PERSISTENT_SCRIPT_SLOT_BYTES : Z := 256.

Record runtime_persistent_scripts_t := Scripts {
  active_bits : list Z;
  slot_lens : list Z;
  slots : list (list Z);
}.

Definition layout : layout runtime_persistent_scripts_t :=
  struct (array 2 (uint 4) ⨾ array 64 (uint 2) ⨾ array 64 (raw 256))%layout
    (fun g => (active_bits g, (slot_lens g, slots g)))
    (fun '(a, (b, c)) => Scripts a b c).

#[export] Instance layout_lawful : Lawful layout.
Proof. apply struct_lawful; [apply _|by intros []|by intros (?&?&?)]. Qed.

(** ** Operations *)

Definition persistent_scripts_reset : runtime_persistent_scripts_t :=
  Scripts (replicate 2 0) (replicate 64 0) (replicate 64 (replicate 256 0)).

Definition persistent_scripts_unmark_all (g : runtime_persistent_scripts_t)
  : runtime_persistent_scripts_t :=
  Scripts (<[1%nat := 0]> (<[0%nat := 0]> (active_bits g))) (slot_lens g) (slots g).

Definition slot_in_range (slot : Z) : bool :=
  (0 <=? slot) && (slot <? MAX_PERSISTENT_SCRIPTS).

(** [g_region.active_bits[slot >> 5]]. *)
Definition bits_word (g : runtime_persistent_scripts_t) (slot : Z) : Z :=
  nth (Z.to_nat (slot ≫ 5)) (active_bits g) 0.

Definition set_bits_word (g : runtime_persistent_scripts_t) (slot w : Z)
  : runtime_persistent_scripts_t :=
  Scripts (<[Z.to_nat (slot ≫ 5) := w]> (active_bits g)) (slot_lens g) (slots g).

Definition bit_get (g : runtime_persistent_scripts_t) (slot : Z) : Z :=
  Z.land (bits_word g slot ≫ Z.land slot 31) 1.

Definition bit_set (g : runtime_persistent_scripts_t) (slot : Z)
  : runtime_persistent_scripts_t :=
  set_bits_word g slot (Prelude.bit_set 32 (bits_word g slot) (Z.land slot 31)).

Definition bit_clear (g : runtime_persistent_scripts_t) (slot : Z)
  : runtime_persistent_scripts_t :=
  set_bits_word g slot (Prelude.bit_clear 32 (bits_word g slot) (Z.land slot 31)).

(** The allocation loop from slot [s], [fuel] slots to go. *)
Fixpoint alloc_loop (fuel : nat) (g : runtime_persistent_scripts_t) (s : Z)
  : runtime_persistent_scripts_t * Z :=
  match fuel with
  | O => (g, -1)
  | S fuel => if bit_get g s =? 0 then (bit_set g s, s) else alloc_loop fuel g (s + 1)
  end.

Definition persistent_scripts_alloc (g : runtime_persistent_scripts_t)
  : runtime_persistent_scripts_t * Z :=
  alloc_loop (Z.to_nat MAX_PERSISTENT_SCRIPTS) g 0.

Definition set_slot (g : runtime_persistent_scripts_t) (slot len : Z) (blob : list Z)
  : runtime_persistent_scripts_t :=
  Scripts (active_bits g) (<[Z.to_nat slot := len]> (slot_lens g))
    (<[Z.to_nat slot := blob]> (slots g)).

Definition persistent_scripts_free (g : runtime_persistent_scripts_t) (slot : Z)
  : runtime_persistent_scripts_t :=
  if negb (slot_in_range slot) then g else
  if bit_get g slot =? 0 then g else
  set_slot (bit_clear g slot) slot 0 (replicate 256 0).

(** [src] is the memory the source pointer names, at least [n] bytes of it
    (the two loops write [n] bytes and zero the tail). *)
Definition persistent_scripts_write (g : runtime_persistent_scripts_t) (slot : Z)
    (src : list Z) (n : Z) : runtime_persistent_scripts_t * bool :=
  if negb (slot_in_range slot) then (g, false) else
  if bit_get g slot =? 0 then (g, false) else
  if PERSISTENT_SCRIPT_SLOT_BYTES <? n then (g, false) else
  (set_slot g slot (u16 n)
     (take (Z.to_nat n) src ++ replicate (256 - Z.to_nat n) 0), true).

Definition blob_len_at (g : runtime_persistent_scripts_t) (slot : Z) : Z :=
  nth (Z.to_nat slot) (slot_lens g) 0.

(** The return value and the bytes stored at [dst].  The copy loop indexes
    the packed array [slots], row after row. *)
Definition persistent_scripts_read (g : runtime_persistent_scripts_t) (slot cap : Z)
  : Z * list Z :=
  if negb (slot_in_range slot) then (-1, []) else
  if bit_get g slot =? 0 then (-1, []) else
  let n := blob_len_at g slot in
  if cap <? n then (-1, []) else
  (n, slice (256 * Z.to_nat slot) (Z.to_nat n) (concat (slots g))).

Definition persistent_scripts_is_active (g : runtime_persistent_scripts_t) (slot : Z) : Z :=
  if negb (slot_in_range slot) then 0 else bit_get g slot.

Definition persistent_scripts_active_count (g : runtime_persistent_scripts_t) : Z :=
  fold_left (fun c s => u32 (c + bit_get g (Z.of_nat s)))
    (seq 0 (Z.to_nat MAX_PERSISTENT_SCRIPTS)) 0.

Definition persistent_scripts_blob_len (g : runtime_persistent_scripts_t) (slot : Z) : Z :=
  if negb (slot_in_range slot) then 0 else
  if bit_get g slot =? 0 then 0 else blob_len_at g slot.

Definition persistent_scripts_raw_blob_len (g : runtime_persistent_scripts_t) (slot : Z) : Z :=
  if negb (slot_in_range slot) then 0 else blob_len_at g slot.

(** ** Tracked region callbacks *)

Definition describe : string_sink_t -> string_sink_t := emit
  [Puts "active_bits[2]:u32@"; Putu 0; Putc comma;
   Puts "slot_lens["; Putu MAX_PERSISTENT_SCRIPTS; Puts "]:u16@"; Putu 8; Putc comma;
   Puts "slots["; Putu MAX_PERSISTENT_SCRIPTS; Puts "]["; Putu PERSISTENT_SCRIPT_SLOT_BYTES;
   Puts "]:u8@"; Putu 136].

Definition save (g : runtime_persistent_scripts_t) : runtime_persistent_scripts_t * list Z :=
  (g, lenc layout g).

Definition load (g : runtime_persistent_scripts_t) (src : list Z) (n : Z)
  : runtime_persistent_scripts_t * bool :=
  if negb (n =? 16520) then (g, false)
  else (ldec layout (take (Z.to_nat n) src), true).

Definition region_persistent_scripts : runtime_tracked_region_t runtime_persistent_scripts_t :=
  {| Tracked.name := cstr "persistent_scripts"; Tracked.size := 16520;
     Tracked.describe := Some describe; Tracked.save := save; Tracked.load := load |}.

#[export] Instance persistent_scripts_lawful :
  LawfulRegion region_persistent_scripts (fun g => lwf layout g /\ true = true).
Proof. apply (memcpy_region_lawful _ layout id (fun _ => true)); try done; apply _. Qed.

(** ** The abstract machine *)

(** A slot: is it in use, and the blob it retains. *)
Definition slot_state : Type := bool * list Z.

Inductive script_op :=
  | Alloc
  | Free (slot : Z)
  | Write (slot : Z) (src : list Z) (n : Z)
  | Read (slot cap : Z)
  | IsActive (slot : Z)
  | ActiveCount
  | BlobLen (slot : Z)
  | RawBlobLen (slot : Z)
  | Reset
  | UnmarkAll.

Inductive script_result :=
  | RUnit
  | RInt (v : Z)
  | RBool (b : bool)
  | RBlob (v : Z) (dst : list Z).

Definition exec (g : runtime_persistent_scripts_t) (o : script_op)
  : runtime_persistent_scripts_t * script_result :=
  match o with
  | Alloc => let '(g, s) := persistent_scripts_alloc g in (g, RInt s)
  | Free s => (persistent_scripts_free g s, RUnit)
  | Write s src n => let '(g, b) := persistent_scripts_write g s src n in (g, RBool b)
  | Read s cap => let '(v, dst) := persistent_scripts_read g s cap in (g, RBlob v dst)
  | IsActive s => (g, RInt (persistent_scripts_is_active g s))
  | ActiveCount => (g, RInt (persistent_scripts_active_count g))
  | BlobLen s => (g, RInt (persistent_scripts_blob_len g s))
  | RawBlobLen s => (g, RInt (persistent_scripts_raw_blob_len g s))
  | Reset => (persistent_scripts_reset, RUnit)
  | UnmarkAll => (persistent_scripts_unmark_all g, RUnit)
  end.

Definition spec_lookup (st : list slot_state) (slot : Z) : option slot_state :=
  if 0 <=? slot then st !! Z.to_nat slot else None.

(** The blob of a slot in use. *)
Definition spec_live (st : list slot_state) (slot : Z) : option (list Z) :=
  match spec_lookup st slot with Some (true, b) => Some b | _ => None end.

Definition zlen {A} (l : list A) : Z := Z.of_nat (length l).

Definition spec_exec (st : list slot_state) (o : script_op)
  : list slot_state * script_result :=
  match o with
  | Alloc =>
      match list_find (fun e : slot_state => e.1 = false) st with
      | Some (i, e) => (<[i := (true, e.2)]> st, RInt (Z.of_nat i))
      | None => (st, RInt (-1))
      end
  | Free s =>
      (match spec_live st s with Some _ => <[Z.to_nat s := (false, [])]> st | None => st end,
       RUnit)
  | Write s src n =>
      match spec_live st s with
      | Some _ =>
          if n <=? 256 then (<[Z.to_nat s := (true, take (Z.to_nat n) src)]> st, RBool true)
          else (st, RBool false)
      | None => (st, RBool false)
      end
  | Read s cap =>
      (st, match spec_live st s with
           | Some b => if zlen b <=? cap then RBlob (zlen b) b else RBlob (-1) []
           | None => RBlob (-1) []
           end)
  | IsActive s => (st, RInt (match spec_live st s with Some _ => 1 | None => 0 end))
  | ActiveCount => (st, RInt (zlen (filter (fun e : slot_state => e.1 = true) st)))
  | BlobLen s => (st, RInt (match spec_live st s with Some b => zlen b | None => 0 end))
  | RawBlobLen s => (st, RInt (match spec_lookup st s with Some e => zlen e.2 | None => 0 end))
  | Reset => (replicate 64 (false, []), RUnit)
  | UnmarkAll => (map (fun e => (false, e.2)) st, RUnit)
  end.

Fixpoint run {St} (step : St -> script_op -> St * script_result) (ops : list script_op) (s : St)
  : St * list script_result :=
  match ops with
  | [] => (s, [])
  | o :: ops =>
      let '(s, r) := step s o in
      let '(s, rs) := run step ops s in (s, r :: rs)
  end.

(** An operation whose source buffer is as long as it says. *)
Definition valid_op (o : script_op) : Prop :=
  match o with
  | Write _ src n => bytes src /\ 0 <= n <= zlen src
  | _ => True
  end.

(** ** The region as an abstract machine *)

(** The bitmap as a predicate on slots. *)
Definition active (g : runtime_persistent_scripts_t) (s : Z) : bool :=
  Z.testbit (bits_word g s) (Z.land s 31).

Definition entry (g : runtime_persistent_scripts_t) (i : nat) : slot_state :=
  (active g (Z.of_nat i), take (Z.to_nat (blob_len_at g (Z.of_nat i))) (nth i (slots g) [])).

Definition abs (g : runtime_persistent_scripts_t) : list slot_state := map (entry g) (seq 0 64).

(** The struct is well-formed, and every row is its blob followed by zeros. *)
Definition good_row (len : Z) (row : list Z) : Prop :=
  len <= 256 /\ drop (Z.to_nat len) row = replicate (256 - Z.to_nat len) 0.

Definition good (g : runtime_persistent_scripts_t) : Prop :=
  lwf layout g /\ Forall2 good_row (slot_lens g) (slots g).

Lemma land_31 s : Z.land s 31 = s mod 32.
Proof. exact (Z.land_ones s 5 ltac:(done)). Qed.

Lemma shiftr_5 s : s ≫ 5 = s / 32.
Proof. by rewrite Z.shiftr_div_pow2. Qed.

Lemma slot_in_range_spec s : slot_in_range s = true <-> 0 <= s < 64.
Proof. unfold slot_in_range, MAX_PERSISTENT_SCRIPTS. rewrite andb_true_iff. lia. Qed.

Lemma bit_get_active g s : bit_get g s = Z.b2z (active g s).
Proof.
  unfold bit_get, active. rewrite (Z.land_ones _ 1) by done.
  change (2 ^ 1) with 2. rewrite <-Z.bit0_mod, Z.shiftr_spec by done. done.
Qed.

Lemma bit_get_zero g s : (bit_get g s =? 0) = negb (active g s).
Proof. rewrite bit_get_active. by destruct (active g s). Qed.

Lemma bits_word_set g s s' w :
  length (active_bits g) = 2%nat -> 0 <= s < 64 -> 0 <= s' < 64 ->
  bits_word (set_bits_word g s w) s' = if s' / 32 =? s / 32 then w else bits_word g s'.
Proof.
  intros Hl Hs Hs'. unfold bits_word, set_bits_word. cbn [active_bits]. rewrite !shiftr_5.
  rewrite !nth_lookup. destruct (Z.eqb_spec (s' / 32) (s / 32)) as [->|Hne].
  - rewrite list_lookup_insert_eq; [done|]. rewrite Hl.
    pose proof (Z.div_lt_upper_bound s 32 2). lia.
  - rewrite list_lookup_insert_ne; [done|]. pose proof (Z.div_pos s 32).
    pose proof (Z.div_pos s' 32). lia.
Qed.

Lemma active_update g s s' f :
  length (active_bits g) = 2%nat -> 0 <= s < 64 -> 0 <= s' < 64 ->
  active (set_bits_word g s (f (bits_word g s))) s' =
  if s' / 32 =? s / 32 then Z.testbit (f (bits_word g s)) (s' mod 32) else active g s'.
Proof.
  intros. unfold active. rewrite bits_word_set, land_31 by done. by destruct (_ =? _).
Qed.

Lemma slot_split s s' : s' / 32 = s / 32 -> (s' mod 32 =? s mod 32) = (s' =? s).
Proof.
  intros. pose proof (Z.div_mod s 32). pose proof (Z.div_mod s' 32).
  destruct (Z.eqb_spec (s' mod 32) (s mod 32)), (Z.eqb_spec s' s); lia || done || congruence.
Qed.

Lemma active_bit_set g s s' :
  length (active_bits g) = 2%nat -> 0 <= s < 64 -> 0 <= s' < 64 ->
  active (bit_set g s) s' = (s' =? s) || active g s'.
Proof.
  intros Hl Hs Hs'. unfold bit_set.
  rewrite (active_update g s s' (fun w => Prelude.bit_set 32 w (Z.land s 31))) by done.
  pose proof (Z.mod_pos_bound s 32 eq_refl). pose proof (Z.mod_pos_bound s' 32 eq_refl).
  destruct (Z.eqb_spec (s' / 32) (s / 32)) as [E|Hne].
  - rewrite testbit_bit_set by (rewrite ?land_31; lia). rewrite land_31, slot_split by done.
    unfold active, bits_word. by rewrite !shiftr_5, land_31, E.
  - destruct (Z.eqb_spec s' s) as [->|]; done.
Qed.

Lemma active_bit_clear g s s' :
  length (active_bits g) = 2%nat -> 0 <= s < 64 -> 0 <= s' < 64 ->
  active (bit_clear g s) s' = negb (s' =? s) && active g s'.
Proof.
  intros Hl Hs Hs'. unfold bit_clear.
  rewrite (active_update g s s' (fun w => Prelude.bit_clear 32 w (Z.land s 31))) by done.
  pose proof (Z.mod_pos_bound s 32 eq_refl). pose proof (Z.mod_pos_bound s' 32 eq_refl).
  destruct (Z.eqb_spec (s' / 32) (s / 32)) as [E|Hne].
  - rewrite testbit_bit_clear by (rewrite ?land_31; lia). rewrite land_31, slot_split by done.
    unfold active, bits_word. by rewrite !shiftr_5, land_31, E.
  - destruct (Z.eqb_spec s' s) as [->|]; done.
Qed.

(** *** Well-formedness *)

Lemma good_lengths g :
  good g -> length (active_bits g) = 2%nat /\ length (slot_lens g) = 64%nat /\
            length (slots g) = 64%nat.
Proof. intros [([? _] & [? _] & [? _]) _]. done. Qed.

Lemma good_set_bits g s w : 0 <= w < 2 ^ 32 -> good g -> good (set_bits_word g s w).
Proof.
  intros Hw [((H1 & H2) & H3 & H4) Hrows]. split; [|done].
  split; [|done]. split; cbn [fst struct lwf set_bits_word active_bits] in *.
  - by rewrite length_insert.
  - by apply Forall_insert.
Qed.

Lemma good_bits_word g s : good g -> 0 <= bits_word g s < 2 ^ 32.
Proof.
  intros [((_ & H) & _) _]. unfold bits_word. cbn [fst struct] in H.
  destruct (nth_in_or_default (Z.to_nat (s ≫ 5)) (active_bits g) 0) as [Hin| ->]; [|lia].
  rewrite Forall_forall in H. apply H. by apply list_elem_of_In.
Qed.

Lemma good_bit_set g s : good g -> good (bit_set g s).
Proof. intros. apply good_set_bits; [|done]. apply bit_set_range; auto using good_bits_word. lia. Qed.

Lemma good_bit_clear g s : good g -> good (bit_clear g s).
Proof. intros. apply good_set_bits; [|done]. apply bit_clear_range; auto using good_bits_word. lia. Qed.

Lemma good_set_slot g s len blob :
  0 <= s < 64 -> 0 <= len <= 256 -> length blob = 256%nat -> bytes blob ->
  drop (Z.to_nat len) blob = replicate (256 - Z.to_nat len) 0 ->
  good g -> good (set_slot g s len blob).
Proof.
  intros Hs Hlen Hb Hbytes Hz [((H1 & H2) & (H3 & H4) & H5 & H6) Hrows].
  split; cbn [set_slot slot_lens slots].
  - split; [done|]. split; split; cbn [fst snd struct lwf set_slot active_bits slot_lens slots] in *.
    + by rewrite length_insert.
    + apply Forall_insert; [done|simpl; lia].
    + by rewrite length_insert.
    + by apply Forall_insert.
  - apply Forall2_insert; [done|]. split; [lia|done].
Qed.

Lemma good_reset : good persistent_scripts_reset.
Proof.
  split; cbn [slot_lens slots persistent_scripts_reset].
  - split; [|split].
    + split; [done|]. apply Forall_replicate. simpl; lia.
    + split; [done|]. apply Forall_replicate. simpl; lia.
    + split; [done|]. apply Forall_replicate. split; [done|]. by apply Forall_replicate.
  - apply Forall2_replicate. split; [lia|done].
Qed.

Lemma good_unmark g : good g -> good (persistent_scripts_unmark_all g).
Proof.
  intros H. change (persistent_scripts_unmark_all g) with
    (set_bits_word (set_bits_word g 0 0) 32 0).
  by repeat apply good_set_bits.
Qed.

(** *** Slots of the abstraction *)

Lemma abs_lookup g i : (i < 64)%nat -> abs g !! i = Some (entry g i).
Proof.
  intros. unfold abs. rewrite list_lookup_fmap, lookup_seq_lt by done. done.
Qed.

Lemma abs_length g : length (abs g) = 64%nat.
Proof. unfold abs. by rewrite length_map, length_seq. Qed.

Lemma abs_ext g st :
  length st = 64%nat -> (forall i, (i < 64)%nat -> st !! i = Some (entry g i)) -> abs g = st.
Proof.
  intros Hl H. apply list_eq. intros i. destruct (decide (i < 64)%nat).
  - by rewrite abs_lookup, H.
  - rewrite !lookup_ge_None_2; [done|lia|rewrite abs_length; lia].
Qed.

(** An operation that changes one slot changes one entry. *)
Lemma abs_insert g g' s e :
  0 <= s < 64 -> entry g' (Z.to_nat s) = e ->
  (forall i, (i < 64)%nat -> i <> Z.to_nat s -> entry g' i = entry g i) ->
  abs g' = <[Z.to_nat s := e]> (abs g).
Proof.
  intros Hs He Hne. apply abs_ext; [by rewrite length_insert, abs_length|].
  intros i Hi. destruct (decide (i = Z.to_nat s)) as [->|Hd].
  - rewrite list_lookup_insert_eq; [by rewrite He|rewrite abs_length; lia].
  - rewrite list_lookup_insert_ne by congruence. by rewrite abs_lookup, Hne.
Qed.

Lemma spec_lookup_abs g s :
  spec_lookup (abs g) s = if slot_in_range s then Some (entry g (Z.to_nat s)) else None.
Proof.
  unfold spec_lookup, slot_in_range, MAX_PERSISTENT_SCRIPTS.
  destruct (Z.leb_spec 0 s); [|done]. destruct (Z.ltb_spec s 64); cbn [andb].
  - apply abs_lookup. lia.
  - apply lookup_ge_None_2. rewrite abs_length. lia.
Qed.

Lemma spec_live_abs g s :
  spec_live (abs g) s =
  if slot_in_range s && active g s then Some (entry g (Z.to_nat s)).2 else None.
Proof.
  unfold spec_live. rewrite spec_lookup_abs. destruct (slot_in_range s) eqn:E; [|done].
  apply slot_in_range_spec in E. unfold entry. rewrite Z2Nat.id by lia. cbn [andb snd].
  by destruct (active g s).
Qed.

(** The row of a slot, as memory and as a list of rows. *)
Lemma slice_concat {A} (k n i : nat) (rows : list (list A)) :
  Forall (fun r => length r = k) rows -> (i < length rows)%nat -> (n <= k)%nat ->
  slice (k * i) n (concat rows) = take n (nth i rows []).
Proof.
  intros Hrows; revert i; induction Hrows as [|r rows Hr Hrows IH]; intros i Hi Hn;
    simpl in Hi; [lia|].
  destruct i as [|i]; cbn [nth concat].
  - rewrite Nat.mul_0_r. unfold slice. rewrite drop_0. apply take_app_le. lia.
  - rewrite <-IH by lia. replace (k * S i)%nat with (length r + k * i)%nat by lia.
    apply slice_app_r.
Qed.

Lemma good_slot g s :
  good g -> 0 <= s < 64 ->
  0 <= blob_len_at g s <= 256 /\ length (nth (Z.to_nat s) (slots g) []) = 256%nat /\
  bytes (nth (Z.to_nat s) (slots g) []) /\
  slice (256 * Z.to_nat s) (Z.to_nat (blob_len_at g s)) (concat (slots g)) =
    (entry g (Z.to_nat s)).2.
Proof.
  intros Hg Hs. pose proof (good_lengths g Hg) as (_ & Hl1 & Hl2).
  destruct Hg as [((_ & _) & (_ & Hlens) & _ & Hrows) Hgood]. cbn [fst snd struct] in *.
  assert (blob_len_at g s <= 256) as Hle.
  { unfold blob_len_at. rewrite Forall2_lookup in Hgood. specialize (Hgood (Z.to_nat s)).
    rewrite nth_lookup. destruct (slot_lens g !! Z.to_nat s); simpl; [|lia].
    inversion Hgood as [? ? [H _]|]; subst. exact H. }
  assert (0 <= blob_len_at g s) as Hge.
  { unfold blob_len_at. destruct (nth_in_or_default (Z.to_nat s) (slot_lens g) 0) as [Hin| ->];
      [|lia]. rewrite Forall_forall in Hlens. apply list_elem_of_In in Hin.
    specialize (Hlens _ Hin). simpl in Hlens. lia. }
  rewrite Forall_forall in Hrows.
  assert (nth (Z.to_nat s) (slots g) [] ∈ slots g) as Hin.
  { apply list_elem_of_In, nth_In. lia. }
  destruct (Hrows _ Hin) as [Hr Hb]. split; [lia|]. split; [exact Hr|]. split; [exact Hb|].
  unfold entry. cbn [snd]. rewrite Z2Nat.id by lia. apply slice_concat; [|lia..].
  apply Forall_forall. intros r Hr'. by destruct (Hrows _ Hr').
Qed.

Lemma zlen_entry g s :
  good g -> 0 <= s < 64 -> zlen (entry g (Z.to_nat s)).2 = blob_len_at g s.
Proof.
  intros Hg Hs. destruct (good_slot g s Hg Hs) as (H1 & H2 & _ & _). unfold zlen, entry.
  cbn [snd]. rewrite Z2Nat.id, length_take by lia. lia.
Qed.

Lemma entry_set_slot g s len blob i :
  good g -> 0 <= s < 64 -> (i < 64)%nat ->
  entry (set_slot g s len blob) i =
  (active g (Z.of_nat i), if decide (i = Z.to_nat s) then take (Z.to_nat len) blob
                          else (entry g i).2).
Proof.
  intros Hg Hs Hi. pose proof (good_lengths g Hg) as (_ & Hl1 & Hl2).
  unfold entry, set_slot, blob_len_at. cbn [slot_lens slots snd].
  change (active (Scripts _ _ _) (Z.of_nat i)) with (active g (Z.of_nat i)). f_equal.
  rewrite !nth_lookup, !Nat2Z.id. destruct (decide (i = Z.to_nat s)) as [->|].
  - by rewrite !list_lookup_insert_eq by lia.
  - by rewrite !list_lookup_insert_ne by congruence.
Qed.

(** *** Allocation *)

Lemma alloc_loop_spec fuel g s :
  good g -> Z.of_nat s + Z.of_nat fuel = 64 ->
  alloc_loop fuel g (Z.of_nat s) =
  match list_find (fun e : slot_state => e.1 = false) (map (entry g) (seq s fuel)) with
  | Some (i, _) => (bit_set g (Z.of_nat (s + i)), Z.of_nat (s + i))
  | None => (g, -1)
  end.
Proof.
  intros Hg; revert s; induction fuel as [|fuel IH]; intros s Hs; [done|].
  cbn [alloc_loop seq map list_find]. rewrite bit_get_zero.
  change (entry g s).1 with (active g (Z.of_nat s)).
  destruct (active g (Z.of_nat s)) eqn:E; cbn [negb].
  - rewrite decide_False by (cbn; congruence).
    replace (Z.of_nat s + 1) with (Z.of_nat (S s)) by lia. rewrite IH by lia.
    destruct (list_find _ _) as [[i e]|]; cbn; [|done].
    by replace (s + S i)%nat with (S (s + i))%nat by lia.
  - rewrite decide_True by (cbn; congruence). by rewrite Nat.add_0_r.
Qed.

Lemma entry_set_bits g s w i : (entry (set_bits_word g s w) i).2 = (entry g i).2.
Proof. done. Qed.

Lemma abs_bit_set g s :
  good g -> 0 <= s < 64 ->
  abs (bit_set g s) = <[Z.to_nat s := (true, (entry g (Z.to_nat s)).2)]> (abs g).
Proof.
  intros Hg Hs. destruct (good_lengths g Hg) as (Hl & _ & _). apply abs_insert; [done| |].
  - unfold entry. rewrite active_bit_set by lia. cbn [snd].
    by rewrite Z2Nat.id, Z.eqb_refl by lia.
  - intros i Hi Hne. unfold entry at 1. rewrite active_bit_set by lia.
    destruct (Z.eqb_spec (Z.of_nat i) s); [lia|done].
Qed.

(** Rewriting one row, with the bit of its slot set to [b]. *)
Lemma abs_set_slot g g' s len blob b :
  good g' -> 0 <= s < 64 -> active g' s = b ->
  (forall i, (i < 64)%nat -> i <> Z.to_nat s -> entry g' i = entry g i) ->
  abs (set_slot g' s len blob) = <[Z.to_nat s := (b, take (Z.to_nat len) blob)]> (abs g).
Proof.
  intros Hg Hs Hb Hne. apply abs_insert; [done| |].
  - rewrite entry_set_slot by (done || lia). rewrite decide_True, Z2Nat.id by (done || lia).
    by rewrite Hb.
  - intros i Hi Hd. rewrite entry_set_slot by (done || lia). rewrite decide_False by done.
    rewrite <-Hne by done. done.
Qed.

Lemma entry_bit_clear_ne g s i :
  good g -> 0 <= s < 64 -> (i < 64)%nat -> i <> Z.to_nat s ->
  entry (bit_clear g s) i = entry g i.
Proof.
  intros Hg Hs Hi Hne. destruct (good_lengths g Hg) as (Hl & _ & _). unfold entry at 1.
  rewrite active_bit_clear by lia. destruct (Z.eqb_spec (Z.of_nat i) s); [lia|done].
Qed.

Lemma refine_alloc g :
  good g ->
  let '(g', s) := persistent_scripts_alloc g in
  good g' /\ spec_exec (abs g) Alloc = (abs g', RInt s).
Proof.
  intros Hg. unfold persistent_scripts_alloc, spec_exec.
  pose proof (alloc_loop_spec 64 g 0 Hg eq_refl) as Hspec.
  change (Z.of_nat 0) with 0 in Hspec. change (Z.to_nat MAX_PERSISTENT_SCRIPTS) with 64%nat.
  rewrite Hspec. clear Hspec. fold (abs g).
  destruct (list_find _ _) as [[i e]|] eqn:E; [|done].
  apply list_find_Some in E as (Hi & _ & _). cbn [Nat.add].
  assert (i < 64)%nat by (rewrite <-(abs_length g); by eapply lookup_lt_Some).
  rewrite abs_lookup in Hi by done. injection Hi as <-.
  split; [by apply good_bit_set|]. rewrite abs_bit_set by (done || lia). by rewrite Nat2Z.id.
Qed.

Lemma refine_free g s :
  good g ->
  good (persistent_scripts_free g s) /\
  spec_exec (abs g) (Free s) = (abs (persistent_scripts_free g s), RUnit).
Proof.
  intros Hg. unfold spec_exec, persistent_scripts_free. rewrite spec_live_abs, bit_get_zero.
  destruct (slot_in_range s) eqn:E; [|done]. apply slot_in_range_spec in E. cbn [negb andb].
  destruct (active g s); [|done]. cbn [negb].
  split; [apply good_set_slot; auto using good_bit_clear; [lia|by apply Forall_replicate]|].
  rewrite (abs_set_slot g (bit_clear g s) s 0 _ false); auto using good_bit_clear.
  - destruct (good_lengths g Hg) as (Hl & _ & _).
    rewrite active_bit_clear by lia. by rewrite Z.eqb_refl.
  - intros. by apply entry_bit_clear_ne.
Qed.

Lemma refine_write g s src n :
  good g -> bytes src -> 0 <= n <= zlen src ->
  let '(g', b) := persistent_scripts_write g s src n in
  good g' /\ spec_exec (abs g) (Write s src n) = (abs g', RBool b).
Proof.
  intros Hg Hsrc Hn. unfold spec_exec, persistent_scripts_write, PERSISTENT_SCRIPT_SLOT_BYTES.
  rewrite spec_live_abs, bit_get_zero.
  destruct (slot_in_range s) eqn:E; [|done]. apply slot_in_range_spec in E. cbn [negb andb].
  destruct (active g s) eqn:Ea; [|done]. cbn [negb]. rewrite Z.leb_antisym.
  destruct (Z.ltb_spec 256 n); [done|]. cbn [negb]. rewrite wrap_small by lia.
  assert (length (take (Z.to_nat n) src) = Z.to_nat n) as Ht.
  { rewrite length_take. unfold zlen in Hn. lia. }
  split.
  - apply good_set_slot; [done|lia| | | |done].
    + rewrite length_app, length_replicate, Ht. lia.
    + apply Forall_app_2; [by apply Forall_take|by apply Forall_replicate].
    + by rewrite drop_app_length' by done.
  - rewrite (abs_set_slot g g s n _ true) by done. by rewrite take_app_length' by done.
Qed.

Lemma refine_read g s cap :
  good g ->
  spec_exec (abs g) (Read s cap) =
  (abs g, let '(v, dst) := persistent_scripts_read g s cap in RBlob v dst).
Proof.
  intros Hg. unfold spec_exec, persistent_scripts_read. rewrite spec_live_abs, bit_get_zero.
  destruct (slot_in_range s) eqn:E; [|done]. apply slot_in_range_spec in E. cbn [negb andb].
  destruct (active g s) eqn:Ea; [|done]. cbn [negb]. rewrite zlen_entry by done.
  rewrite Z.leb_antisym. destruct (cap <? blob_len_at g s); [done|]. cbn [negb].
  destruct (good_slot g s Hg E) as (_ & _ & _ & ->). done.
Qed.

Lemma count_filter g l c :
  0 <= c -> c + zlen l < 2 ^ 32 ->
  fold_left (fun c s => u32 (c + bit_get g (Z.of_nat s))) l c =
  c + zlen (filter (fun e : slot_state => e.1 = true) (map (entry g) l)).
Proof.
  revert c; induction l as [|s l IH]; intros c Hc Hl; [symmetry; apply Z.add_0_r|].
  cbn [fold_left map]. unfold zlen in *. cbn [length] in Hl. rewrite bit_get_active.
  assert (0 <= Z.b2z (active g (Z.of_nat s)) <= 1) by (destruct (active g (Z.of_nat s)); simpl; lia).
  rewrite wrap_small by lia. rewrite IH by (unfold zlen; lia). rewrite filter_cons. cbn [entry fst].
  destruct (active g (Z.of_nat s)); [rewrite decide_True by done|rewrite decide_False by done];
    cbn [Z.b2z length]; unfold zlen; lia.
Qed.

Lemma active_unmark g s :
  good g -> 0 <= s < 64 -> active (persistent_scripts_unmark_all g) s = false.
Proof.
  intros Hg Hs. destruct (good_lengths g Hg) as (Hl & _ & _). unfold active.
  change (persistent_scripts_unmark_all g) with (set_bits_word (set_bits_word g 0 0) 32 0).
  rewrite !bits_word_set by (done || lia || by simpl; rewrite length_insert).
  change (32 / 32) with 1. change (0 / 32) with 0.
  destruct (Z.eqb_spec (s / 32) 1); [apply Z.bits_0|].
  destruct (Z.eqb_spec (s / 32) 0); [apply Z.bits_0|].
  pose proof (Z.div_pos s 32). pose proof (Z.div_lt_upper_bound s 32 2). lia.
Qed.

Lemma abs_unmark g :
  good g -> abs (persistent_scripts_unmark_all g) = map (fun e => (false, e.2)) (abs g).
Proof.
  intros Hg. unfold abs. rewrite map_map. apply map_ext_in. intros i Hi%in_seq.
  unfold entry at 1. by rewrite active_unmark by (done || lia).
Qed.

Lemma abs_reset : abs persistent_scripts_reset = replicate 64 (false, []).
Proof. vm_compute. reflexivity. Qed.

(** One operation of the region is one operation of the abstract machine. *)
Lemma exec_refine g o :
  good g -> valid_op o ->
  good (exec g o).1 /\ spec_exec (abs g) o = (abs (exec g o).1, (exec g o).2).
Proof.
  intros Hg Hv. destruct o as [|s|s src n|s cap|s| |s|s| |]; cbn [exec fst snd].
  - pose proof (refine_alloc g Hg) as H. by destruct (persistent_scripts_alloc g).
  - by apply refine_free.
  - destruct Hv as [Hb Hn]. pose proof (refine_write g s src n Hg Hb Hn) as H.
    by destruct (persistent_scripts_write g s src n).
  - pose proof (refine_read g s cap Hg) as H.
    by destruct (persistent_scripts_read g s cap).
  - split; [done|]. unfold spec_exec, persistent_scripts_is_active.
    rewrite spec_live_abs, bit_get_active. destruct (slot_in_range s); [|done].
    by destruct (active g s).
  - split; [done|]. unfold spec_exec, persistent_scripts_active_count.
    by rewrite (count_filter g _ 0) by done.
  - split; [done|]. unfold spec_exec, persistent_scripts_blob_len.
    rewrite spec_live_abs, bit_get_zero. destruct (slot_in_range s) eqn:E; [|done].
    apply slot_in_range_spec in E. cbn [negb andb].
    destruct (active g s); [|done]. cbn [negb]. by rewrite zlen_entry.
  - split; [done|]. unfold spec_exec, persistent_scripts_raw_blob_len.
    rewrite spec_lookup_abs. destruct (slot_in_range s) eqn:E; [|done].
    apply slot_in_range_spec in E. cbn [negb]. by rewrite zlen_entry.
  - split; [exact good_reset|]. unfold spec_exec. by rewrite abs_reset.
  - split; [by apply good_unmark|]. unfold spec_exec. by rewrite abs_unmark.
Qed.

(** Every sequence of calls with sources as long as they say, the contract of the header
    or not. *)
Lemma run_refine ops g :
  good g -> Forall valid_op ops ->
  good (run exec ops g).1 /\
  run spec_exec ops (abs g) = (abs (run exec ops g).1, (run exec ops g).2).
Proof.
  intros Hg Hops; revert g Hg; induction Hops as [|o ops Ho Hops IH]; intros g Hg; [done|].
  destruct (exec_refine g o Hg Ho) as [Hg' E]. cbn [run].
  destruct (exec g o) as [g' r]. cbn [fst snd] in *. rewrite E.
  destruct (IH g' Hg') as [Hgood E']. rewrite E'. by destruct (run exec ops g').
Qed.

(** The calls the header describes as the code answers them: blobs of at most 256 bytes,
    read into a buffer that holds any blob. *)
Definition documented_op (o : script_op) : Prop :=
  match o with
  | Write _ src n => bytes src /\ 0 <= n <= zlen src /\ n <= 256
  | Read _ cap => 256 <= cap
  | _ => True
  end.

(** The header says that a longer write truncates; the code refuses it. *)
Lemma long_write_refused g s src n :
  256 < n -> exec g (Write s src n) = (g, RBool false).
Proof.
  intros Hn. cbn [exec]. unfold persistent_scripts_write.
  destruct (negb _); [done|]. destruct (bit_get g s =? 0); [done|].
  destruct (Z.ltb_spec PERSISTENT_SCRIPT_SLOT_BYTES n) as [_|Hle]; [done|].
  unfold PERSISTENT_SCRIPT_SLOT_BYTES in Hle. lia.
Qed.

(** C9: The slot table refines the abstract machine: from any good region, every
    sequence of calls (slot numbers of any value, writes of at most 256 bytes, reads
    into buffers of at least 256) returns exactly what the abstract slots return,
    keeps the representation invariant and ends in a region whose abstraction is the
    machine's final state.  So an allocation hands out the lowest free slot or -1, a
    read returns the bytes last written to that slot and nothing of an older or
    longer blob, a write to a free slot changes nothing, and no operation touches
    another slot. *)
Theorem persistent_scripts_refine ops g :
  good g -> Forall documented_op ops ->
  good (run exec ops g).1 /\
  run spec_exec ops (abs g) = (abs (run exec ops g).1, (run exec ops g).2).
Proof.
  intros Hg Hops. apply run_refine; [done|]. eapply Forall_impl; [exact Hops|].
  intros []; cbn; tauto.
Qed.

Definition example_ops : list script_op :=
  [Alloc; Alloc; Write 1 [7; 8; 9] 3; Read 1 256; Write 1 [5] 1; Read 1 256; Free 0; Alloc;
   Write 64 [1] 1; Read (-1) 256; ActiveCount; UnmarkAll; RawBlobLen 1; Alloc].

Lemma example_ops_documented : Forall documented_op example_ops.
Proof.
  unfold example_ops.
  repeat (constructor; [first [exact I | split; [by apply bytes_bool|done] | cbn; lia]|]). constructor.
Qed.

Lemma persistent_scripts_refine_witness :
  good persistent_scripts_reset /\
  (good (run exec example_ops persistent_scripts_reset).1 /\
   run spec_exec example_ops (abs persistent_scripts_reset) =
   (abs (run exec example_ops persistent_scripts_reset).1,
    (run exec example_ops persistent_scripts_reset).2)) /\
  (run exec example_ops persistent_scripts_reset).2 =
    [RInt 0; RInt 1; RBool true; RBlob 3 [7; 8; 9]; RBool true; RBlob 1 [5]; RUnit; RInt 0;
     RBool false; RBlob (-1) []; RInt 2; RUnit; RInt 1; RInt 0].
Proof.
  split; [exact good_reset|]. split.
  - exact (persistent_scripts_refine example_ops persistent_scripts_reset good_reset
             example_ops_documented).
  - vm_compute. reflexivity.
Defined.

(** ** Canonical images *)

Lemma good_row_ext len row row' :
  good_row len row -> good_row len row' ->
  take (Z.to_nat len) row = take (Z.to_nat len) row' -> row = row'.
Proof.
  intros [_ H] [_ H'] E. rewrite <-(take_drop (Z.to_nat len) row), E, H, <-H'. apply take_drop.
Qed.

Lemma good_words g : good g -> exists a b, active_bits g = [a; b] /\
  0 <= a < 2 ^ 32 /\ 0 <= b < 2 ^ 32.
Proof.
  intros [((Hl & Hr) & _) _]. cbn [fst struct] in *.
  destruct (active_bits g) as [|a [|b [|]]]; try done. exists a, b.
  inversion Hr as [|? ? Ha Hr']; subst. inversion Hr' as [|? ? Hb _]; subst. done.
Qed.

Lemma word_ext a b : 0 <= a < 2 ^ 32 -> 0 <= b < 2 ^ 32 ->
  (forall i, 0 <= i < 32 -> Z.testbit a i = Z.testbit b i) -> a = b.
Proof.
  intros Ha Hb H. apply Z.bits_inj'. intros i Hi. destruct (Z.ltb_spec i 32); [auto|].
  by rewrite !(testbit_high _ 32).
Qed.

Lemma entries_eq g g' : abs g = abs g' -> forall i, (i < 64)%nat -> entry g i = entry g' i.
Proof.
  intros E i Hi. pose proof (abs_lookup g i Hi) as H. rewrite E, abs_lookup in H by done.
  congruence.
Qed.

Lemma active_bits_determined g g' :
  good g -> good g' -> abs g = abs g' -> active_bits g = active_bits g'.
Proof.
  intros Hg Hg' E. pose proof (entries_eq g g' E) as He.
  destruct (good_words g Hg) as (a & b & Ew & Ha & Hb).
  destruct (good_words g' Hg') as (a' & b' & Ew' & Ha' & Hb').
  assert (forall s, 0 <= s < 64 -> active g s = active g' s) as Hact.
  { intros s Hs. pose proof (f_equal fst (He (Z.to_nat s) ltac:(lia))) as H.
    cbn [entry fst] in H. by rewrite Z2Nat.id in H by lia. }
  unfold active, bits_word in Hact. rewrite Ew, Ew' in Hact |- *. f_equal; [|f_equal].
  - apply word_ext; [done..|]. intros i Hi. specialize (Hact i ltac:(lia)).
    rewrite shiftr_5, land_31, Z.div_small, Z.mod_small in Hact by lia. exact Hact.
  - apply word_ext; [done..|]. intros i Hi. specialize (Hact (i + 1 * 32) ltac:(lia)).
    rewrite shiftr_5, land_31, Z.div_add, Z.mod_add, Z.div_small, Z.mod_small in Hact by lia.
    exact Hact.
Qed.

Lemma slot_lens_determined g g' :
  good g -> good g' -> abs g = abs g' -> slot_lens g = slot_lens g'.
Proof.
  intros Hg Hg' E. pose proof (entries_eq g g' E) as He.
  destruct (good_lengths g Hg) as (_ & Hl & _). destruct (good_lengths g' Hg') as (_ & Hl' & _).
  apply (nth_ext _ _ 0 0); [congruence|]. intros i Hi. rewrite Hl in Hi.
  pose proof (zlen_entry g (Z.of_nat i) Hg ltac:(lia)) as H.
  pose proof (zlen_entry g' (Z.of_nat i) Hg' ltac:(lia)) as H'.
  rewrite Nat2Z.id in *. rewrite He in H by done. unfold blob_len_at in *.
  rewrite Nat2Z.id in *. congruence.
Qed.

Lemma slots_determined g g' :
  good g -> good g' -> abs g = abs g' -> slots g = slots g'.
Proof.
  intros Hg Hg' E. pose proof (slot_lens_determined g g' Hg Hg' E) as Elens.
  pose proof (entries_eq g g' E) as He.
  destruct (good_lengths g Hg) as (_ & Hl & Hs). destruct (good_lengths g' Hg') as (_ & Hl' & Hs').
  destruct Hg as [_ Hrows], Hg' as [_ Hrows'].
  apply (nth_ext _ _ [] []); [congruence|]. intros i Hi. rewrite Hs in Hi.
  pose proof (f_equal snd (He i Hi)) as Htake. cbn [entry snd] in Htake.
  unfold blob_len_at in Htake. rewrite <-Elens, Nat2Z.id in Htake. rewrite <-Elens in Hrows'.
  assert (forall g, length (slots g) = 64%nat -> Forall2 good_row (slot_lens g') (slots g) ->
    good_row (nth i (slot_lens g') 0) (nth i (slots g) [])) as Hrow.
  { intros h Hlen HF. rewrite Forall2_lookup in HF. specialize (HF i).
    rewrite !nth_lookup. destruct (lookup_lt_is_Some_2 (slots h) i) as [r Hr]; [lia|].
    rewrite Hr in *. inversion HF; subst. done. }
  rewrite Elens in *. by eapply good_row_ext; [apply Hrow..|].
Qed.

(** The saved bytes are a function of what the scripts can observe: two regions
    that agree on every slot's activity and blob save the same 16520 bytes,
    whatever longer or older blobs the slots held before. *)
Theorem scripts_image_canonical g g' :
  good g -> good g' -> abs g = abs g' -> (save g).2 = (save g').2.
Proof.
  intros Hg Hg' E. unfold save. cbn [snd]. destruct g as [a l r], g' as [a' l' r'].
  pose proof (active_bits_determined _ _ Hg Hg' E).
  pose proof (slot_lens_determined _ _ Hg Hg' E). pose proof (slots_determined _ _ Hg Hg' E).
  cbn [active_bits slot_lens slots] in *. by subst.
Qed.

Lemma run_good ops g : good g -> Forall valid_op ops -> good (run exec ops g).1.
Proof.
  intros Hg Hops; revert g Hg; induction Hops as [|o ops Ho Hops IH]; intros g Hg; [done|].
  destruct (exec_refine g o Hg Ho) as [Hg' _]. cbn [run].
  destruct (exec g o) as [g' r]. cbn [fst] in *. specialize (IH g' Hg').
  by destruct (run exec ops g').
Qed.

Definition long_then_short : list script_op := [Alloc; Write 0 [1; 2; 3; 4] 4; Write 0 [9] 1].
Definition only_short : list script_op := [Alloc; Write 0 [9] 1].

Lemma scripts_image_canonical_witness :
  let g := (run exec long_then_short persistent_scripts_reset).1 in
  let g' := (run exec only_short persistent_scripts_reset).1 in
  abs g = abs g' /\ (save g).2 = (save g').2.
Proof.
  assert (abs (run exec long_then_short persistent_scripts_reset).1 =
          abs (run exec only_short persistent_scripts_reset).1) as E by by vm_compute.
  split; [exact E|]. apply scripts_image_canonical; [| |exact E].
  - apply run_good; [exact good_reset|].
    repeat (constructor; [first [exact I | split; [by apply bytes_bool|done]]|]). constructor.
  - apply run_good; [exact good_reset|].
    repeat (constructor; [first [exact I | split; [by apply bytes_bool|done]]|]). constructor.
Defined.

(** ** Resuming a saved session *)

Definition alloc_step (g : runtime_persistent_scripts_t) : runtime_persistent_scripts_t :=
  (persistent_scripts_alloc g).1.

(** The slots after [k] allocations from an unmarked table. *)
Definition first_live (g : runtime_persistent_scripts_t) (k : nat) : list slot_state :=
  map (fun i => (bool_decide (i < k)%nat, (entry g i).2)) (seq 0 64).

Lemma first_live_lookup g k i :
  (i < 64)%nat -> first_live g k !! i = Some (bool_decide (i < k)%nat, (entry g i).2).
Proof. intros. unfold first_live. rewrite list_lookup_fmap, lookup_seq_lt by done. done. Qed.

Lemma first_live_alloc g k :
  (k < 64)%nat ->
  spec_exec (first_live g k) Alloc = (first_live g (S k), RInt (Z.of_nat k)).
Proof.
  intros Hk. unfold spec_exec.
  assert (list_find (fun e : slot_state => e.1 = false) (first_live g k) =
          Some (k, (false, (entry g k).2))) as ->.
  { apply list_find_Some. split; [|split; [done|]].
    - rewrite first_live_lookup by done. by rewrite bool_decide_false by lia.
    - intros j e Hj Hlt. rewrite first_live_lookup in Hj by lia. injection Hj as <-.
      cbn [fst]. by rewrite bool_decide_true by lia. }
  f_equal. cbn [snd]. apply list_eq. intros i. destruct (decide (i < 64)%nat) as [Hi|Hi].
  - rewrite (first_live_lookup g (S k)) by done. destruct (decide (i = k)) as [->|Hne].
    + rewrite list_lookup_insert_eq; [by rewrite bool_decide_true by lia|].
      unfold first_live. by rewrite length_map, length_seq.
    + rewrite list_lookup_insert_ne by congruence. rewrite first_live_lookup by done.
      do 2 f_equal. apply bool_decide_ext. lia.
  - rewrite !lookup_ge_None_2; [done|unfold first_live; rewrite length_map, length_seq; lia|].
    rewrite length_insert. unfold first_live. rewrite length_map, length_seq. lia.
Qed.

Lemma alloc_step_live g h k :
  good h -> (k < 64)%nat -> abs h = first_live g k ->
  good (alloc_step h) /\ abs (alloc_step h) = first_live g (S k) /\
  (persistent_scripts_alloc h).2 = Z.of_nat k.
Proof.
  intros Hh Hk E. destruct (exec_refine h Alloc Hh I) as [Hg' E'].
  rewrite E, first_live_alloc in E' by done. cbn [exec] in *. unfold alloc_step.
  destruct (persistent_scripts_alloc h) as [h' s]. cbn [fst snd] in *.
  pose proof (f_equal fst E') as E1. pose proof (f_equal snd E') as E2. cbn [fst snd] in *.
  split; [exact Hg'|]. split; [by symmetry|congruence].
Qed.

Lemma allocs_live g k :
  good g -> (k <= 64)%nat ->
  let g' := Nat.iter k alloc_step (persistent_scripts_unmark_all g) in
  good g' /\ abs g' = first_live g k.
Proof.
  intros Hg. induction k as [|k IH]; intros Hk.
  - split; [by apply good_unmark|]. cbn [Nat.iter nat_rect]. rewrite abs_unmark by done.
    unfold abs, first_live. rewrite map_map. done.
  - destruct IH as [H1 H2]; [lia|]. cbn [Nat.iter nat_rect].
    destruct (alloc_step_live g _ k H1 ltac:(lia) H2) as (? & ? & _). done.
Qed.

(** A saved session resumes slot by slot.  The buffer of a good region loads
    into any region; after [unmark_all] the cart's [k]-th [create] (counting
    from 0) is handed slot [k], whose length was readable before the call, and
    a read of that slot returns the blob slot [k] held at save time, whether it
    was in use then or not. *)
Theorem resume_rebinds g t k :
  good g -> (k < 64)%nat ->
  load t (save g).2 16520 = (g, true) /\
  let g' := Nat.iter k alloc_step (persistent_scripts_unmark_all g) in
  persistent_scripts_raw_blob_len g' (Z.of_nat k) = blob_len_at g (Z.of_nat k) /\
  (persistent_scripts_alloc g').2 = Z.of_nat k /\
  persistent_scripts_read (persistent_scripts_alloc g').1 (Z.of_nat k) 256 =
    (blob_len_at g (Z.of_nat k), (entry g k).2).
Proof.
  intros Hg Hk. split.
  { pose proof (lr_load g t [] (conj (proj1 Hg) eq_refl)) as H. rewrite app_nil_r in H. exact H. }
  destruct (allocs_live g k Hg ltac:(lia)) as [Hgood Habs].
  set (g' := Nat.iter k _ _) in *. cbn zeta.
  destruct (alloc_step_live g g' k Hgood Hk Habs) as (Hgood' & Habs' & Hslot).
  assert (zlen (entry g k).2 = blob_len_at g (Z.of_nat k)) as Hlen.
  { rewrite <-(zlen_entry g (Z.of_nat k)) by (done || lia). by rewrite Nat2Z.id. }
  destruct (good_slot g (Z.of_nat k) Hg ltac:(lia)) as ([_ Hle] & _).
  assert (forall j, spec_lookup (first_live g j) (Z.of_nat k) =
            Some (bool_decide (k < j)%nat, (entry g k).2)) as Hlook.
  { intros j. unfold spec_lookup. destruct (Z.leb_spec 0 (Z.of_nat k)); [|lia].
    by rewrite Nat2Z.id, first_live_lookup. }
  split; [|split; [exact Hslot|]].
  - destruct (exec_refine g' (RawBlobLen (Z.of_nat k)) Hgood I) as [_ E].
    unfold spec_exec in E. rewrite Habs, Hlook in E. cbn [exec fst snd] in E. congruence.
  - destruct (exec_refine _ (Read (Z.of_nat k) 256) Hgood' I) as [_ E].
    unfold spec_exec, spec_live in E. rewrite Habs', Hlook, bool_decide_true in E by lia.
    rewrite Hlen in E. destruct (Z.leb_spec (blob_len_at g (Z.of_nat k)) 256); [|lia].
    cbn [exec] in E. fold (alloc_step g').
    destruct (persistent_scripts_read (alloc_step g') (Z.of_nat k) 256) as [v dst].
    cbn [fst snd] in E. congruence.
Qed.

Lemma resume_rebinds_witness :
  let g := (run exec [Alloc; Alloc; Write 1 [7; 8] 2] persistent_scripts_reset).1 in
  (load persistent_scripts_reset (save g).2 16520 = (g, true) /\
   let g' := Nat.iter 1 alloc_step (persistent_scripts_unmark_all g) in
   persistent_scripts_raw_blob_len g' (Z.of_nat 1) = blob_len_at g (Z.of_nat 1) /\
   (persistent_scripts_alloc g').2 = Z.of_nat 1 /\
   persistent_scripts_read (persistent_scripts_alloc g').1 (Z.of_nat 1) 256 =
     (blob_len_at g (Z.of_nat 1), (entry g 1).2)) /\
  (blob_len_at g (Z.of_nat 1), (entry g 1).2) = (2, [7; 8]).
Proof.
  assert (Forall valid_op [Alloc; Alloc; Write 1 [7; 8] 2]) as Hv.
  { repeat (constructor; [first [exact I | split; [by apply bytes_bool|done]]|]). constructor. }
  split; [|by vm_compute].
  apply (resume_rebinds _ persistent_scripts_reset 1);
    [exact (run_good _ _ good_reset Hv)|lia].
Defined.
