(* ===== verification/TableFlatten.v ===== *)
(** * The Lua-table flattener (spikes/spike-m/lib/lua_table_flatten.c)

    Turns the [ctx] table of a persistent script into bytes and back.  Lua
    itself is not part of the repository; the flattener sees a table only
    through [lua_next], [lua_rawget] and [lua_rawgeti], so a table is the list
    of its entries in [lua_next] order, and nothing is assumed about that order.
    Under LUA_32BITS a Lua integer has 32 bits and a Lua number is a [float]
    (kept as its bits).  Reading past the end of the source buffer, which C
    leaves undefined, is the outcome [OutOfBounds]. *)

From stdpp Require Import sorting.
From S2P Require Import Prelude Float32 Float64.

(** ** Lua values *)

#[warnings="-register-all"]
Inductive lua_value :=
  | LNil
  | LBool (b : bool)
  | LInt (z : Z)
  | LFloat (u : Z)
  | LStr (s : list Z)
  | LTable (entries : list (lua_value * lua_value))
  | LOther (type : Z).               (* function, userdata, thread *)

Definition lua_table : Type := list (lua_value * lua_value).

(** [lua_rawget] with a string key and [lua_rawgeti]. *)
Fixpoint rawget (t : lua_table) (k : list Z) : lua_value :=
  match t with
  | [] => LNil
  | (LStr k', v) :: t => if decide (k' = k) then v else rawget t k
  | _ :: t => rawget t k
  end.

Fixpoint rawgeti (t : lua_table) (i : Z) : lua_value :=
  match t with
  | [] => LNil
  | (LInt i', v) :: t => if i' =? i then v else rawgeti t i
  | _ :: t => rawgeti t i
  end.

(** [lua_rawset] with a string key and a non-nil value. *)
Fixpoint rawset (t : lua_table) (k : list Z) (v : lua_value) : lua_table :=
  match t with
  | [] => [(LStr k, v)]
  | (LStr k', v') :: t => if decide (k' = k) then (LStr k, v) :: t else (LStr k', v') :: rawset t k v
  | e :: t => e :: rawset t k v
  end.

(** ** Constants *)

Definition LTF_TAG_BOOLEAN : Z := 1.
Definition LTF_TAG_INTEGER : Z := 2.
Definition LTF_TAG_FLOAT : Z := 3.
Definition LTF_TAG_STRING : Z := 4.
Definition LTF_TAG_ARRAY : Z := 5.

Definition LTF_OK : Z := 0.
Definition LTF_ERR_OVERFLOW : Z := -1.
Definition LTF_ERR_UNSUPPORTED_TYPE : Z := -2.
Definition LTF_ERR_NON_STRING_KEY : Z := -3.
Definition LTF_ERR_KEY_TOO_LONG : Z := -4.
Definition LTF_ERR_ARRAY_MIXED_TYPES : Z := -5.
Definition LTF_ERR_ARRAY_NON_SEQUENCE : Z := -6.

Definition LTF_MAX_KEY_LEN : Z := 64.
Definition LTF_MAX_FIELDS : Z := 32.

Definition zlen {A} (l : list A) : Z := Z.of_nat (length l).

(** ** Byte sink *)

(** [dst] holds the [pos] bytes written so far. *)
Record sink_t := Sink { dst : list Z; cap : Z; overflowed : bool }.

Definition sink_pos (s : sink_t) : Z := zlen (dst s).

Definition overflow (s : sink_t) : sink_t := Sink (dst s) (cap s) true.

Definition put_u8 (s : sink_t) (v : Z) : sink_t :=
  if cap s <? u32 (sink_pos s + 1) then overflow s
  else Sink (dst s ++ [u8 v]) (cap s) (overflowed s).

Definition put_u16 (s : sink_t) (v : Z) : sink_t :=
  let s := put_u8 s (Z.land v 0xff) in
  put_u8 s (Z.land (v ≫ 8) 0xff).

Definition put_u32 (s : sink_t) (v : Z) : sink_t :=
  let s := put_u8 s (Z.land v 0xff) in
  let s := put_u8 s (Z.land (v ≫ 8) 0xff) in
  let s := put_u8 s (Z.land (v ≫ 16) 0xff) in
  put_u8 s (Z.land (v ≫ 24) 0xff).

Definition put_u64 (s : sink_t) (v : Z) : sink_t :=
  let s := put_u32 s (u32 (Z.land v 0xffffffff)) in
  put_u32 s (u32 (Z.land (v ≫ 32) 0xffffffff)).

(** [src] holds the [n] bytes the pointer names. *)
Definition put_bytes (s : sink_t) (src : list Z) (n : Z) : sink_t :=
  if cap s <? u32 (sink_pos s + n) then overflow s
  else Sink (dst s ++ take (Z.to_nat n) src) (cap s) (overflowed s).

(** ** Byte source *)

Record source_t := Source { src : list Z; len : Z; pos : Z; underflowed : bool }.

Definition take_u8 (s : source_t) : source_t * Z :=
  if len s <? u32 (pos s + 1) then (Source (src s) (len s) (pos s) true, 0)
  else (Source (src s) (len s) (u32 (pos s + 1)) (underflowed s), nth (Z.to_nat (pos s)) (src s) 0).

Definition take_u16 (s : source_t) : source_t * Z :=
  let '(s, a) := take_u8 s in
  let '(s, b) := take_u8 s in
  (s, Z.lor a (b ≪ 8)).

Definition take_u32 (s : source_t) : source_t * Z :=
  let '(s, a) := take_u8 s in
  let '(s, b) := take_u8 s in
  let '(s, c) := take_u8 s in
  let '(s, d) := take_u8 s in
  (s, Z.lor (Z.lor (Z.lor a (b ≪ 8)) (c ≪ 16)) (d ≪ 24)).

Definition take_u64 (s : source_t) : source_t * Z :=
  let '(s, lo) := take_u32 s in
  let '(s, hi) := take_u32 s in
  (s, Z.lor lo (hi ≪ 32)).

(** ** Keys *)

Fixpoint key_cmp (a b : list Z) : Z :=
  match a, b with
  | x :: a, y :: b => if negb (x =? y) then x - y else key_cmp a b
  | _, _ => zlen a - zlen b
  end.

(** The shifting loop of the insertion sort; [j] counts [j + 1] of the source. *)
Fixpoint shift_up (arr : list (list Z)) (cur : list Z) (j : nat) : list (list Z) :=
  match j with
  | O => <[O := cur]> arr
  | S i =>
      if 0 <? key_cmp (nth i arr []) cur
      then shift_up (<[S i := nth i arr []]> arr) cur i
      else <[S i := cur]> arr
  end.

(** [k] rounds of the sort, from index [i]. *)
Fixpoint sort_rounds (k i : nat) (arr : list (list Z)) : list (list Z) :=
  match k with
  | O => arr
  | S k => sort_rounds k (S i) (shift_up arr (nth i arr []) i)
  end.

Definition key_sort (arr : list (list Z)) : list (list Z) :=
  sort_rounds (length arr - 1) 1 arr.

(** ** Emission *)

(** The tag of a value that may be an array element. *)
Definition prim_tag (v : lua_value) : option Z :=
  match v with
  | LBool _ => Some LTF_TAG_BOOLEAN
  | LInt _ => Some LTF_TAG_INTEGER
  | LFloat _ => Some LTF_TAG_FLOAT
  | LStr _ => Some LTF_TAG_STRING
  | _ => None
  end.

(** The walk over [lua_rawgeti(i)]; an error code or the tag and the count. *)
Fixpoint detect_loop (fuel : nat) (t : lua_table) (n tag i : Z) : Z + Z * Z :=
  match fuel with
  | O => inl LTF_ERR_OVERFLOW
  | S fuel =>
      match rawgeti t i with
      | LNil => inr (tag, n)
      | v =>
          match prim_tag v with
          | None => inl LTF_ERR_UNSUPPORTED_TYPE
          | Some this_tag =>
              let tag' := if n =? 0 then this_tag else tag in
              if negb (n =? 0) && negb (this_tag =? tag) then inl LTF_ERR_ARRAY_MIXED_TYPES
              else
                let n := u32 (n + 1) in
                if 0xfffffffe <? n then inl LTF_ERR_OVERFLOW
                else detect_loop fuel t n tag' (i32 (i + 1))
          end
      end
  end.

(** A table has at most one entry per index, so one round more than it has
    entries reaches a nil. *)
Definition detect_array (t : lua_table) : Z + Z * Z :=
  match detect_loop (S (length t)) t 0 0 1 with
  | inl rc => inl rc
  | inr (tag, n) =>
      if negb (u32 (zlen t) =? n) then inl LTF_ERR_ARRAY_NON_SEQUENCE else inr (tag, n)
  end.

(** The payload of a boolean, integer, float or string: what [emit_value] puts
    after the tag, and what the switch of [emit_array] puts for an element
    (every element has the element tag there). *)
Definition emit_payload (v : lua_value) (out : sink_t) : sink_t :=
  match v with
  | LBool b => put_u8 out (if b then 1 else 0)
  | LInt z => put_u64 out (u64 z)
  | LFloat u => put_u64 out (canonicalize_nan64 (f64_of_f32 u))
  | LStr s => put_bytes (put_u32 out (u32 (zlen s))) s (u32 (zlen s))
  | _ => out
  end.

Fixpoint emit_elems (k : nat) (t : lua_table) (i : Z) (out : sink_t) : sink_t :=
  match k with
  | O => out
  | S k => emit_elems k t (i + 1) (emit_payload (rawgeti t (i32 (i + 1))) out)
  end.

Definition emit_array (t : lua_table) (out : sink_t) : Z * sink_t :=
  match detect_array t with
  | inl rc => (rc, out)
  | inr (elem_tag, elem_n) =>
      let out := put_u8 out LTF_TAG_ARRAY in
      let out := put_u8 out elem_tag in
      let out := put_u32 out elem_n in
      (0, emit_elems (Z.to_nat elem_n) t 0 out)
  end.

Definition emit_value (v : lua_value) (out : sink_t) : Z * sink_t :=
  match v with
  | LTable t => emit_array t out
  | _ =>
      match prim_tag v with
      | Some tag => (0, emit_payload v (put_u8 out tag))
      | None => (LTF_ERR_UNSUPPORTED_TYPE, out)
      end
  end.

(** ** Flatten *)

(** Phase 1: the string keys, in [lua_next] order. *)
Fixpoint collect_keys (t : lua_table) (keys : list (list Z)) : Z + list (list Z) :=
  match t with
  | [] => inr keys
  | (LStr k, _) :: t =>
      if LTF_MAX_FIELDS <=? zlen keys then inl LTF_ERR_OVERFLOW
      else if LTF_MAX_KEY_LEN <? zlen k then inl LTF_ERR_KEY_TOO_LONG
      else collect_keys t (keys ++ [k])
  | _ => inl LTF_ERR_NON_STRING_KEY
  end.

(** Phase 3: one field after the other, in key order. *)
Fixpoint emit_fields (t : lua_table) (keys : list (list Z)) (out : sink_t) : Z * sink_t :=
  match keys with
  | [] => if overflowed out then (LTF_ERR_OVERFLOW, out) else (LTF_OK, out)
  | k :: keys =>
      let out := put_u16 out (u16 (zlen k)) in
      let out := put_bytes out k (u16 (zlen k)) in
      let '(rc, out) := emit_value (rawget t k) out in
      if rc <? 0 then (rc, out)
      else if overflowed out then (LTF_ERR_OVERFLOW, out)
      else emit_fields t keys out
  end.

(** The return code and the [*out_len] bytes of the destination buffer. *)
Definition lua_table_flatten (v : lua_value) (cap : Z) : Z * list Z :=
  match v with
  | LTable t =>
      match collect_keys t [] with
      | inl rc => (rc, [])
      | inr keys =>
          let keys := key_sort keys in
          let out := put_u32 (Sink [] cap false) (u32 (zlen keys)) in
          let '(rc, out) := emit_fields t keys out in
          if rc <? 0 then (rc, []) else (LTF_OK, dst out)
      end
  | _ => (LTF_ERR_UNSUPPORTED_TYPE, [])
  end.

(** ** Unflatten *)

Inductive outcome (A : Type) :=
  | Ret (a : A)
  | Err (rc : Z)
  | OutOfBounds
  | OutOfFuel.
Arguments Ret {A}.
Arguments Err {A}.
Arguments OutOfBounds {A}.
Arguments OutOfFuel {A}.

Definition obind {A B} (m : outcome A) (f : A -> outcome B) : outcome B :=
  match m with
  | Ret a => f a
  | Err rc => Err rc
  | OutOfBounds => OutOfBounds
  | OutOfFuel => OutOfFuel
  end.

Notation "'let*' p ':=' m 'in' f" := (obind m (fun p => f))
  (at level 10, p pattern, m at level 200, f at level 200).

(** [lua_pushlstring(L, src + pos, n)] and [pos += n], after the bounds check
    [src->pos + n > src->len]. *)
Definition take_string (s : source_t) (n : Z) : outcome (list Z * source_t) :=
  if len s <? u32 (pos s + n) then Err LTF_ERR_OVERFLOW
  else if zlen (src s) <? pos s + n then OutOfBounds
  else Ret (slice (Z.to_nat (pos s)) (Z.to_nat n) (src s),
            Source (src s) (len s) (u32 (pos s + n)) (underflowed s)).

(** A value of the given tag, without its tag. *)
Definition take_payload (tag : Z) (s : source_t) : outcome (lua_value * source_t) :=
  if tag =? LTF_TAG_BOOLEAN then
    let '(s, v) := take_u8 s in Ret (LBool (negb (v =? 0)), s)
  else if tag =? LTF_TAG_INTEGER then
    let '(s, v) := take_u64 s in Ret (LInt (i32 (i64 v)), s)
  else if tag =? LTF_TAG_FLOAT then
    let '(s, v) := take_u64 s in Ret (LFloat (f32_of_f64 v), s)
  else if tag =? LTF_TAG_STRING then
    let '(s, sl) := take_u32 s in
    let* (str, s) := take_string s sl in Ret (LStr str, s)
  else Err LTF_ERR_UNSUPPORTED_TYPE.

(** [for (i = 0; i < n; i++)] of [unflatten_array]. *)
Fixpoint unflatten_elems (fuel : nat) (tag n i : Z) (t : lua_table) (s : source_t)
  : outcome (lua_value * source_t) :=
  match fuel with
  | O => OutOfFuel
  | S fuel =>
      if negb (i <? n) then Ret (LTable t, s)
      else
        let* (v, s) := take_payload tag s in
        if underflowed s then Err LTF_ERR_OVERFLOW
        else unflatten_elems fuel tag n (i + 1) (t ++ [(LInt (i32 (i + 1)), v)]) s
  end.

(** Every round reads at least one byte or fails. *)
Definition unflatten_array (s : source_t) : outcome (lua_value * source_t) :=
  let '(s, elem_tag) := take_u8 s in
  let '(s, n) := take_u32 s in
  if underflowed s then Err LTF_ERR_OVERFLOW
  else unflatten_elems (length (src s) + 2) elem_tag n 0 [] s.

Definition unflatten_value (s : source_t) : outcome (lua_value * source_t) :=
  let '(s, tag) := take_u8 s in
  if underflowed s then Err LTF_ERR_OVERFLOW
  else if tag =? LTF_TAG_ARRAY then unflatten_array s
  else take_payload tag s.

(** [k] rounds of the field loop. *)
Fixpoint unflatten_fields (k : nat) (t : lua_table) (s : source_t) : outcome lua_value :=
  match k with
  | O => if underflowed s then Err LTF_ERR_OVERFLOW else Ret (LTable t)
  | S k =>
      let '(s, kl) := take_u16 s in
      if underflowed s || (LTF_MAX_KEY_LEN <? kl) then Err LTF_ERR_OVERFLOW else
      let* (key, s) := take_string s kl in
      let* (v, s) := unflatten_value s in
      unflatten_fields k (rawset t key v) s
  end.

(** The pushed value, or the error code returned with a pushed nil. *)
Definition lua_table_unflatten (bs : list Z) (n : Z) : outcome lua_value :=
  let s := Source bs n 0 false in
  let '(s, nkeys) := take_u32 s in
  if underflowed s then Err LTF_ERR_OVERFLOW
  else if LTF_MAX_FIELDS <? nkeys then Err LTF_ERR_OVERFLOW
  else unflatten_fields (Z.to_nat nkeys) [] s.

Definition lua_table_flatten_strerror (err : Z) : string :=
  if err =? LTF_OK then "ok"
  else if err =? LTF_ERR_OVERFLOW then "BLYT_ERR_FLATTEN_OVERFLOW"
  else if err =? LTF_ERR_UNSUPPORTED_TYPE then "BLYT_ERR_FLATTEN_UNSUPPORTED_TYPE"
  else if err =? LTF_ERR_NON_STRING_KEY then "BLYT_ERR_FLATTEN_NON_STRING_KEY"
  else if err =? LTF_ERR_KEY_TOO_LONG then "BLYT_ERR_FLATTEN_KEY_TOO_LONG"
  else if err =? LTF_ERR_ARRAY_MIXED_TYPES then "BLYT_ERR_FLATTEN_ARRAY_MIXED_TYPES"
  else if err =? LTF_ERR_ARRAY_NON_SEQUENCE then "BLYT_ERR_FLATTEN_ARRAY_NON_SEQUENCE"
  else "BLYT_ERR_FLATTEN_UNKNOWN".

Example flatten_ex :
  lua_table_flatten (LTable [(LStr (cstr "hp"), LInt (-2)); (LStr (cstr "a"), LBool true);
    (LStr (cstr "xs"), LTable [(LInt 2, LStr [66]); (LInt 1, LStr [65])])]) 256 =
  (LTF_OK, [3; 0; 0; 0;
    1; 0; 97; 1; 1;
    2; 0; 104; 112; 2; 254; 255; 255; 255; 255; 255; 255; 255;
    2; 0; 120; 115; 5; 4; 2; 0; 0; 0; 1; 0; 0; 0; 65; 1; 0; 0; 0; 66]).
Proof. vm_compute. reflexivity. Qed.

Example unflatten_ex :
  lua_table_unflatten [2; 0; 0; 0; 1; 0; 97; 1; 1; 2; 0; 120; 115; 5; 4; 2; 0; 0; 0;
                       1; 0; 0; 0; 65; 1; 0; 0; 0; 66] 29 =
  Ret (LTable [(LStr (cstr "a"), LBool true);
    (LStr (cstr "xs"), LTable [(LInt 1, LStr [65]); (LInt 2, LStr [66])])]).
Proof. vm_compute. reflexivity. Qed.

(** ** Writing *)

(** Capacities of guest buffers, and the invariant of a sink. *)
Definition sink_ok (s : sink_t) : Prop := zlen (dst s) <= cap s < 2 ^ 31.

(** [s'] is [s] after putting [bs]: a sink overflows exactly when the bytes do
    not fit, stays overflowed, and never holds more than its capacity. *)
Record puts (s s' : sink_t) (bs : list Z) : Prop := {
  puts_cap : cap s' = cap s;
  puts_ok : sink_ok s';
  puts_overflowed : overflowed s' = overflowed s || (cap s <? zlen (dst s) + zlen bs);
  puts_dst : overflowed s' = false -> dst s' = dst s ++ bs;
}.

Lemma zlen_app {A} (l1 l2 : list A) : zlen (l1 ++ l2) = zlen l1 + zlen l2.
Proof. unfold zlen. rewrite length_app. lia. Qed.

Lemma zlen_nonneg {A} (l : list A) : 0 <= zlen l.
Proof. unfold zlen. lia. Qed.

Lemma puts_nil s : sink_ok s -> puts s s [].
Proof.
  intros Hs. split; [done|done| |by rewrite app_nil_r].
  change (zlen (@nil Z)) with 0. unfold sink_ok in Hs.
  destruct (Z.ltb_spec (cap s) (zlen (dst s) + 0)); [lia|by rewrite orb_false_r].
Qed.

Lemma puts_trans s s1 s2 bs1 bs2 : puts s s1 bs1 -> puts s1 s2 bs2 -> puts s s2 (bs1 ++ bs2).
Proof.
  intros [Hc1 Hk1 Ho1 Hd1] [Hc2 Hk2 Ho2 Hd2]. split; [congruence|done|..].
  - rewrite Ho2, zlen_app. pose proof (zlen_nonneg bs2). destruct (overflowed s1) eqn:E1.
    + symmetry in Ho1. apply orb_true_iff in Ho1 as [->|Hlt%Z.ltb_lt]; [done|].
      destruct (Z.ltb_spec (cap s) (zlen (dst s) + (zlen bs1 + zlen bs2))); [|lia].
      by rewrite orb_true_r.
    + rewrite Hd1, zlen_app, Hc1, Z.add_assoc by done.
      symmetry in Ho1. apply orb_false_iff in Ho1 as [-> _]. done.
  - intros E. rewrite E in Ho2. symmetry in Ho2. apply orb_false_iff in Ho2 as [E1 _].
    rewrite Hd2, Hd1 by done. by rewrite <-app_assoc.
Qed.

Lemma puts_u8 s v : sink_ok s -> puts s (put_u8 s v) [u8 v].
Proof.
  intros Hs. unfold put_u8, sink_ok, sink_pos in *. pose proof (zlen_nonneg (dst s)).
  rewrite wrap_small by lia. change (zlen [u8 v]) with 1.
  destruct (cap s <? zlen (dst s) + 1) eqn:E; split; unfold sink_ok;
    cbn [dst cap overflowed overflow].
  - done.
  - lia.
  - change (zlen [u8 v]) with 1. by rewrite E, orb_true_r.
  - done.
  - done.
  - apply Z.ltb_ge in E. rewrite zlen_app. change (zlen [u8 v]) with 1. lia.
  - change (zlen [u8 v]) with 1. by rewrite E, orb_false_r.
  - done.
Qed.

Lemma puts_bytes s bs n :
  sink_ok s -> n = zlen bs -> n < 2 ^ 31 -> puts s (put_bytes s bs n) bs.
Proof.
  intros Hs -> Hn. unfold put_bytes, sink_ok, sink_pos in *. pose proof (zlen_nonneg (dst s)).
  pose proof (zlen_nonneg bs). rewrite wrap_small by lia.
  assert (take (Z.to_nat (zlen bs)) bs = bs) as ->.
  { unfold zlen. by rewrite Nat2Z.id, firstn_all. }
  destruct (cap s <? zlen (dst s) + zlen bs) eqn:E; split; unfold sink_ok;
    cbn [dst cap overflowed overflow].
  - done.
  - lia.
  - by rewrite E, orb_true_r.
  - done.
  - done.
  - apply Z.ltb_ge in E. rewrite zlen_app. lia.
  - by rewrite E, orb_false_r.
  - done.
Qed.

(** The bytes of a word, low first, as the [put_u*] functions cut it. *)
Lemma byte_of v i : 0 <= i -> u8 (Z.land (v ≫ i) 0xff) = (v / 2 ^ i) mod 256.
Proof.
  intros. rewrite (Z.land_ones _ 8), Z.shiftr_div_pow2 by done. unfold wrap.
  apply Z.mod_mod. done.
Qed.

Lemma byte_of_0 v : u8 (Z.land v 0xff) = v mod 256.
Proof. pose proof (byte_of v 0 ltac:(done)) as H. by rewrite Z.shiftr_0_r, Z.div_1_r in H. Qed.

Lemma le_bytes_4 v :
  le_bytes 4 v = [u8 (Z.land v 0xff); u8 (Z.land (v ≫ 8) 0xff); u8 (Z.land (v ≫ 16) 0xff);
                  u8 (Z.land (v ≫ 24) 0xff)].
Proof.
  rewrite byte_of_0, !byte_of by done. cbn [le_bytes]. rewrite !Z.div_div by done. done.
Qed.

Lemma le_bytes_2 v : le_bytes 2 v = [u8 (Z.land v 0xff); u8 (Z.land (v ≫ 8) 0xff)].
Proof. rewrite byte_of_0, !byte_of by done. done. Qed.

Lemma le_bytes_mod n v : le_bytes n (v mod 2 ^ (8 * Z.of_nat n)) = le_bytes n v.
Proof.
  revert v; induction n as [|n IH]; intros v; [done|]. cbn [le_bytes]. rewrite pow256_S.
  assert (0 < 2 ^ (8 * Z.of_nat n)) by (apply Z.pow_pos_nonneg; lia).
  rewrite Z.rem_mul_r by lia. rewrite (Z.mul_comm 256 (_ mod _)), Z.mod_add, Z.div_add by lia.
  rewrite Z.mod_mod, (Z.div_small (v mod 256)) by (done || by apply Z.mod_pos_bound).
  by rewrite Z.add_0_l, IH.
Qed.

Lemma le_bytes_8 v :
  le_bytes 8 v = le_bytes 4 (u32 (Z.land v 0xffffffff)) ++ le_bytes 4 (u32 (Z.land (v ≫ 32) 0xffffffff)).
Proof.
  rewrite !(Z.land_ones _ 32), Z.shiftr_div_pow2 by done. unfold wrap.
  rewrite !Z.mod_mod, !(le_bytes_mod 4) by done. cbn [le_bytes app].
  by rewrite !Z.div_div.
Qed.

Lemma puts_u16 s v : sink_ok s -> puts s (put_u16 s v) (le_bytes 2 v).
Proof.
  intros Hs. rewrite le_bytes_2. unfold put_u16.
  pose proof (puts_u8 s (Z.land v 0xff) Hs) as H1.
  exact (puts_trans _ _ _ _ _ H1 (puts_u8 _ _ (puts_ok _ _ _ H1))).
Qed.

Lemma puts_u32 s v : sink_ok s -> puts s (put_u32 s v) (le_bytes 4 v).
Proof.
  intros Hs. rewrite le_bytes_4. unfold put_u32.
  pose proof (puts_u8 s (Z.land v 0xff) Hs) as H1.
  pose proof (puts_u8 _ (Z.land (v ≫ 8) 0xff) (puts_ok _ _ _ H1)) as H2.
  pose proof (puts_u8 _ (Z.land (v ≫ 16) 0xff) (puts_ok _ _ _ H2)) as H3.
  pose proof (puts_u8 _ (Z.land (v ≫ 24) 0xff) (puts_ok _ _ _ H3)) as H4.
  exact (puts_trans _ _ _ _ _ H1 (puts_trans _ _ _ _ _ H2 (puts_trans _ _ _ _ _ H3 H4))).
Qed.

Lemma puts_u64 s v : sink_ok s -> puts s (put_u64 s v) (le_bytes 8 v).
Proof.
  intros Hs. rewrite le_bytes_8. unfold put_u64.
  pose proof (puts_u32 s (u32 (Z.land v 0xffffffff)) Hs) as H1.
  eapply puts_trans; [exact H1|]. apply puts_u32. by eapply puts_ok.
Qed.

(** ** What is written *)

(** The table entries the flattener accepts as values, at Lua's widths. *)
Definition wf_prim (v : lua_value) : Prop :=
  match v with
  | LBool _ => True
  | LInt z => - 2 ^ 31 <= z < 2 ^ 31
  | LFloat u => 0 <= u < 2 ^ 32
  | LStr s => bytes s /\ zlen s < 2 ^ 31
  | LNil | LTable _ | LOther _ => True
  end.

(** A Lua table: no key twice, no nil values, fewer than [2 ^ 30] entries. *)
Record wf_table (t : lua_table) : Prop := {
  wf_nodup : NoDup (map fst t);
  wf_no_nil : Forall (fun e => e.2 <> LNil) t;
  wf_prims : Forall (fun e => wf_prim e.1 /\ wf_prim e.2) t;
  wf_small : zlen t < 2 ^ 30;
}.

Definition wf_value (v : lua_value) : Prop :=
  wf_prim v /\ match v with LTable t => wf_table t | _ => True end.

Definition enc_payload (v : lua_value) : list Z :=
  match v with
  | LBool b => [Z.b2z b]
  | LInt z => le_bytes 8 (u64 z)
  | LFloat u => le_bytes 8 (canonicalize_nan64 (f64_of_f32 u))
  | LStr s => le_bytes 4 (zlen s) ++ s
  | _ => []
  end.

(** The elements of a sequence of [n] entries. *)
Definition elems (t : lua_table) (n : nat) : list lua_value :=
  map (fun i => rawgeti t (Z.of_nat i + 1)) (seq 0 n).

(** The bytes of a value, [None] when it is not of the constrained shape. *)
Definition enc_value (v : lua_value) : option (list Z) :=
  match v with
  | LTable t =>
      match detect_array t with
      | inl _ => None
      | inr (tag, n) =>
          Some (LTF_TAG_ARRAY :: tag :: le_bytes 4 n ++
                concat (map enc_payload (elems t (Z.to_nat n))))
      end
  | _ => tag ← prim_tag v; Some (tag :: enc_payload v)
  end.

Lemma puts_payload s v : sink_ok s -> wf_prim v -> puts s (emit_payload v s) (enc_payload v).
Proof.
  intros Hs Hv. destruct v as [|b|z|u|str|t|ty]; cbn [emit_payload enc_payload];
    try by apply puts_nil.
  - pose proof (puts_u8 s (if b then 1 else 0) Hs). by destruct b.
  - by apply puts_u64.
  - by apply puts_u64.
  - destruct Hv as [_ Hl]. pose proof (zlen_nonneg str).
    rewrite (wrap_small 32 (zlen str)) by lia.
    pose proof (puts_u32 s (zlen str) Hs) as H1. eapply puts_trans; [exact H1|].
    apply puts_bytes; [by eapply puts_ok|done|lia].
Qed.

Lemma rawgeti_in t i : rawgeti t i = LNil \/ (LInt i, rawgeti t i) ∈ t.
Proof.
  induction t as [|[k v] t IH]; [by left|].
  assert (forall i, rawgeti t i = LNil \/ (LInt i, rawgeti t i) ∈ t ->
    rawgeti t i = LNil \/ (LInt i, rawgeti t i) ∈ (k, v) :: t) as Hw.
  { intros j [?|?]; [by left|right]. by right. }
  destruct k; cbn [rawgeti]; auto. destruct (Z.eqb_spec z i) as [->|]; [|auto].
  right. left.
Qed.

Lemma rawget_in t k : rawget t k = LNil \/ (LStr k, rawget t k) ∈ t.
Proof.
  induction t as [|[k' v] t IH]; [by left|].
  assert (rawget t k = LNil \/ (LStr k, rawget t k) ∈ (k', v) :: t) as Hw.
  { destruct IH as [?|?]; [by left|right]. by right. }
  destruct k'; cbn [rawget]; auto. destruct (decide (s = k)) as [->|]; [|auto].
  right. left.
Qed.

Lemma rawgeti_wf t i : wf_table t -> wf_prim (rawgeti t i).
Proof.
  intros Ht. destruct (rawgeti_in t i) as [->|Hin]; [done|].
  pose proof (wf_prims t Ht) as H. rewrite Forall_forall in H. by destruct (H _ Hin).
Qed.

Lemma puts_elems t k i s :
  wf_table t -> Z.of_nat (i + k) < 2 ^ 31 -> sink_ok s ->
  puts s (emit_elems k t (Z.of_nat i) s)
    (concat (map enc_payload (map (fun i => rawgeti t (Z.of_nat i + 1)) (seq i k)))).
Proof.
  intros Ht; revert i s; induction k as [|k IH]; intros i s Hi Hs; [by apply puts_nil|].
  cbn [emit_elems seq map concat]. rewrite signed_small by lia.
  pose proof (puts_payload s _ Hs (rawgeti_wf t (Z.of_nat i + 1) Ht)) as H1.
  eapply puts_trans; [exact H1|].
  pose proof (IH (S i) _ ltac:(lia) (puts_ok _ _ _ H1)) as H2.
  rewrite Nat2Z.inj_succ, <-Z.add_1_r in H2. exact H2.
Qed.

Lemma prim_tag_range v tag : prim_tag v = Some tag -> 1 <= tag <= 4.
Proof.
  destruct v; cbn [prim_tag]; intros [= <-];
    unfold LTF_TAG_BOOLEAN, LTF_TAG_INTEGER, LTF_TAG_FLOAT, LTF_TAG_STRING; lia.
Qed.

(** What the array walk found when it succeeds. *)
Lemma detect_loop_spec fuel t n tag tag' n' :
  0 <= n -> n + Z.of_nat fuel < 2 ^ 31 - 1 ->
  detect_loop fuel t n tag (n + 1) = inr (tag', n') ->
  n <= n' /\ (n = n' -> tag' = tag) /\ (0 < n -> tag' = tag) /\
  (forall j, n < j <= n' -> prim_tag (rawgeti t j) = Some tag') /\
  rawgeti t (n' + 1) = LNil.
Proof.
  revert n tag; induction fuel as [|fuel IH]; intros n tag Hn Hf; [done|].
  cbn [detect_loop]. destruct (rawgeti t (n + 1)) as [|b|z|u|s|es|ty] eqn:E; try done.
  { intros [= <- <-]. split; [lia|]. split; [done|]. split; [done|]. split; [lia|done]. }
  all: cbn [prim_tag]; destruct (negb (n =? 0) && _) eqn:Eg; [done|];
    rewrite wrap_small, signed_small by lia; destruct (Z.ltb_spec 0xfffffffe (n + 1)); [lia|];
    intros H'; destruct (IH (n + 1) _ ltac:(lia) ltac:(lia) H') as (H1 & _ & H3 & H4 & H5);
    specialize (H3 ltac:(lia));
    (split; [lia|]; split; [lia|]; split; [|split; [|exact H5]]);
    [ intros Hp; rewrite H3; by destruct (Z.eqb_spec n 0); [lia|]
    | intros j Hj; destruct (decide (j = n + 1)) as [->|]; [|apply H4; lia];
      rewrite E, H3; cbn [prim_tag]; f_equal; destruct (Z.eqb_spec n 0); [done|];
      cbn [negb andb] in Eg; apply negb_false_iff, Z.eqb_eq in Eg; exact Eg ].
Qed.

Lemma detect_array_spec t tag n :
  wf_table t -> detect_array t = inr (tag, n) ->
  n = zlen t /\ (n = 0 -> tag = 0) /\
  (forall j, 1 <= j <= n -> prim_tag (rawgeti t j) = Some tag) /\ rawgeti t (n + 1) = LNil.
Proof.
  intros Ht. pose proof (wf_small t Ht) as Hsm. pose proof (zlen_nonneg t).
  unfold detect_array. destruct (detect_loop _ _ _ _ _) as [rc|[tag' n']] eqn:E; [done|].
  rewrite wrap_small by lia. destruct (Z.eqb_spec (zlen t) n') as [<-|]; [|done].
  intros [= <- <-]. apply (detect_loop_spec _ t 0 0) in E; [|lia|unfold zlen in *; lia].
  destruct E as (H1 & H2 & _ & H4 & H5). split; [done|]. split; [auto|].
  split; [|done]. intros j Hj. apply H4. lia.
Qed.

Lemma puts_prim s v tag :
  sink_ok s -> wf_prim v -> puts s (emit_payload v (put_u8 s tag)) (u8 tag :: enc_payload v).
Proof.
  intros Hs Hv. pose proof (puts_u8 s tag Hs) as H1.
  exact (puts_trans _ _ _ _ _ H1 (puts_payload _ v (puts_ok _ _ _ H1) Hv)).
Qed.

Lemma detect_loop_err fuel t n tag i rc : detect_loop fuel t n tag i = inl rc -> rc < 0.
Proof.
  revert n tag i; induction fuel as [|fuel IH]; intros n tag i; cbn [detect_loop].
  { by intros [= <-]. }
  destruct (rawgeti t i); cbn [prim_tag]; try done; try (by intros [= <-]).
  all: destruct (_ && _); [by intros [= <-]|]; destruct (_ <? _); [by intros [= <-]|apply IH].
Qed.

Lemma detect_array_err t rc : detect_array t = inl rc -> rc < 0.
Proof.
  unfold detect_array. destruct (detect_loop _ _ _ _ _) as [rc'|[tag n]] eqn:E.
  - intros [= <-]. by eapply detect_loop_err.
  - destruct (negb _); [|done]. by intros [= <-].
Qed.

(** Emitting a value is writing its encoding, or its error code. *)
Lemma puts_value s v :
  sink_ok s -> wf_value v ->
  match enc_value v with
  | Some bs => (emit_value v s).1 = 0 /\ puts s (emit_value v s).2 bs
  | None => (emit_value v s).1 < 0
  end.
Proof.
  intros Hs [Hp Ht]. destruct v as [|b|z|u|str|t|ty]; cbn [emit_value enc_value].
  - done.
  - split; [done|]. exact (puts_prim s (LBool b) LTF_TAG_BOOLEAN Hs Hp).
  - split; [done|]. exact (puts_prim s (LInt z) LTF_TAG_INTEGER Hs Hp).
  - split; [done|]. exact (puts_prim s (LFloat u) LTF_TAG_FLOAT Hs Hp).
  - split; [done|]. exact (puts_prim s (LStr str) LTF_TAG_STRING Hs Hp).
  - unfold emit_array. destruct (detect_array t) as [rc|[tag n]] eqn:E.
    { by eapply detect_array_err. }
    split; [done|]. cbn [snd].
    destruct (detect_array_spec t tag n Ht E) as (En & Htag0 & Htag & _).
    pose proof (wf_small t Ht). pose proof (zlen_nonneg t).
    assert (0 <= tag <= 4) as Hr.
    { destruct (decide (n = 0)) as [->|]; [rewrite Htag0 by done; lia|].
      pose proof (prim_tag_range _ _ (Htag 1 ltac:(lia))). lia. }
    pose proof (puts_u8 s LTF_TAG_ARRAY Hs) as H1.
    pose proof (puts_u8 _ tag (puts_ok _ _ _ H1)) as H2.
    rewrite (wrap_small 8 tag) in H2 by lia.
    pose proof (puts_u32 _ n (puts_ok _ _ _ H2)) as H3.
    assert (Z.of_nat (0 + Z.to_nat n) < 2 ^ 31) as Hlt by lia.
    pose proof (puts_elems t (Z.to_nat n) 0 _ Ht Hlt (puts_ok _ _ _ H3)) as H4.
    exact (puts_trans _ _ _ _ _ H1 (puts_trans _ _ _ _ _ H2 (puts_trans _ _ _ _ _ H3 H4))).
  - done.
Qed.

(** ** Fields *)

Definition enc_field (t : lua_table) (k : list Z) : option (list Z) :=
  bs ← enc_value (rawget t k); Some (le_bytes 2 (zlen k) ++ k ++ bs).

Fixpoint enc_fields (t : lua_table) (keys : list (list Z)) : option (list Z) :=
  match keys with
  | [] => Some []
  | k :: keys => a ← enc_field t k; b ← enc_fields t keys; Some (a ++ b)
  end.

(** A table whose values are of the flattener's widths. *)
Definition wf_record (t : lua_table) : Prop :=
  wf_table t /\ Forall (fun e => wf_value e.2) t.

Lemma rawget_wf t k : wf_record t -> wf_value (rawget t k).
Proof.
  intros [_ Ht]. destruct (rawget_in t k) as [->|Hin]; [done|].
  rewrite Forall_forall in Ht. apply (Ht _ Hin).
Qed.

Lemma puts_field s k :
  sink_ok s -> zlen k <= 64 ->
  puts s (put_bytes (put_u16 s (u16 (zlen k))) k (u16 (zlen k))) (le_bytes 2 (zlen k) ++ k).
Proof.
  intros Hs Hk. pose proof (zlen_nonneg k). rewrite wrap_small by lia.
  pose proof (puts_u16 s (zlen k) Hs) as H1. eapply puts_trans; [exact H1|].
  apply puts_bytes; [by eapply puts_ok|done|lia].
Qed.

(** The field loop succeeds exactly when every value is of the constrained
    shape and all the bytes fit, and then those bytes are what it wrote. *)
Lemma emit_fields_spec t keys s :
  wf_record t -> Forall (fun k => zlen k <= 64) keys -> sink_ok s ->
  match enc_fields t keys with
  | Some bs =>
      if overflowed s || (cap s <? zlen (dst s) + zlen bs)
      then (emit_fields t keys s).1 = LTF_ERR_OVERFLOW
      else (emit_fields t keys s).1 = LTF_OK /\ dst (emit_fields t keys s).2 = dst s ++ bs
  | None => (emit_fields t keys s).1 < 0
  end.
Proof.
  intros Ht Hk; revert s; induction Hk as [|k keys Hk Hkeys IH]; intros s Hs.
  - cbn [enc_fields emit_fields]. destruct (puts_nil s Hs) as [_ _ <- Hd].
    destruct (overflowed s); [done|]. split; [done|]. by apply Hd.
  - cbn [enc_fields emit_fields]. unfold enc_field.
    set (s1 := put_bytes _ _ _). pose proof (puts_field s k Hs Hk : puts s s1 _) as H1.
    pose proof (puts_value s1 (rawget t k) (puts_ok _ _ _ H1) (rawget_wf t k Ht)) as Hv.
    destruct (emit_value (rawget t k) s1) as [rc s2]. cbn [fst snd] in Hv.
    destruct (enc_value (rawget t k)) as [bs|]; cbn [option_bind mbind].
    2: { destruct (Z.ltb_spec rc 0); [|lia]. by destruct (enc_fields t keys). }
    destruct Hv as [-> H2]. cbn [Z.ltb Z.compare].
    pose proof (puts_trans _ _ _ _ _ H1 H2) as H. destruct H as [Hc Hok Ho Hd].
    rewrite <-app_assoc in Ho, Hd. specialize (IH s2 Hok).
    set (field := le_bytes 2 (zlen k) ++ k ++ bs) in *.
    destruct (overflowed s2) eqn:E2.
    + destruct (enc_fields t keys) as [rest|]; cbn [option_bind mbind]; [|done]. rewrite zlen_app.
      pose proof (zlen_nonneg rest). symmetry in Ho.
      assert (overflowed s || (cap s <? zlen (dst s) + (zlen field + zlen rest)) = true) as ->; [|done].
      apply orb_true_iff in Ho as [->|Hlt%Z.ltb_lt]; [done|].
      apply orb_true_iff. right. apply Z.ltb_lt. lia.
    + destruct (enc_fields t keys) as [rest|]; cbn [option_bind mbind]; [|done].
      symmetry in Ho. apply orb_false_iff in Ho as [Ho _].
      rewrite Ho. rewrite Hd, Hc, !zlen_app, <-Z.add_assoc, <-app_assoc in IH by done.
      rewrite zlen_app. exact IH.
Qed.

(** ** Keys *)

(** The order of the keys in the buffer. *)
Definition key_le (a b : list Z) : Prop := key_cmp a b <= 0.

Lemma key_cmp_antisym a b : key_cmp b a = - key_cmp a b.
Proof.
  revert b; induction a as [|x a IH]; intros [|y b]; cbn [key_cmp]; try lia.
  rewrite (Z.eqb_sym y x). destruct (x =? y); cbn [negb]; [apply IH|lia].
Qed.

Lemma key_cmp_nil_r a : 0 <= key_cmp a [].
Proof. destruct a; cbn [key_cmp]; unfold zlen; simpl; lia. Qed.

#[export] Instance key_le_antisymm : AntiSymm (=) key_le.
Proof.
  unfold key_le. intros a b H1 H2. rewrite key_cmp_antisym in H2.
  assert (key_cmp a b = 0) as H by lia. clear H1 H2. revert b H.
  induction a as [|x a IH]; intros [|y b]; cbn [key_cmp]; unfold zlen; cbn [length]; try lia; [done|].
  destruct (Z.eqb_spec x y) as [->|]; cbn [negb]; [|lia]. intros. f_equal. auto.
Qed.

#[export] Instance key_le_trans : Transitive key_le.
Proof.
  unfold key_le. intros a. induction a as [|x a IH]; intros [|y b] [|z c]; cbn [key_cmp];
    unfold zlen; cbn [length]; try lia.
  destruct (Z.eqb_spec x y) as [->|], (Z.eqb_spec y z) as [->|]; cbn [negb];
    rewrite ?Z.eqb_refl; cbn [negb]; [apply IH|lia|..]; destruct (Z.eqb_spec x z); cbn [negb]; lia.
Qed.

Lemma key_le_total a b : key_le a b \/ key_le b a.
Proof. unfold key_le. rewrite (key_cmp_antisym a b). lia. Qed.

(** The shifting loop inserts [cur] after the elements that are not above it. *)
Lemma shift_up_spec l y post cur :
  StronglySorted key_le l ->
  exists l1 l2, l = l1 ++ l2 /\
    shift_up (l ++ y :: post) cur (length l) = (l1 ++ cur :: l2) ++ post /\
    StronglySorted key_le (l1 ++ cur :: l2).
Proof.
  revert y post. induction l as [|x l IH] using rev_ind; intros y post Hs.
  { exists [], []. split; [done|]. split; [done|]. by repeat constructor. }
  rewrite length_app, Nat.add_1_r. cbn [shift_up].
  rewrite <-app_assoc. cbn [app].
  assert (nth (length l) (l ++ x :: y :: post) [] = x) as -> by by rewrite nth_middle.
  assert (StronglySorted key_le l /\ Forall (fun a => key_le a x) l) as [Hl Hx].
  { apply StronglySorted_app in Hs as (H & Hl & _). split; [done|]. apply Forall_forall.
    intros a Ha. apply H; [done|]. by left. }
  destruct (Z.ltb_spec 0 (key_cmp x cur)) as [Hgt|Hle].
  - assert (<[S (length l) := x]> (l ++ x :: y :: post) = l ++ x :: x :: post) as ->.
    { rewrite insert_app_r_alt by lia. by replace (S (length l) - length l)%nat with 1%nat by lia. }
    destruct (IH x (x :: post) Hl) as (l1 & l2 & -> & -> & Hs').
    exists l1, (l2 ++ [x]). split; [by rewrite app_assoc|]. split.
    { rewrite <-!app_assoc. cbn [app]. by rewrite <-!app_assoc. }
    replace (l1 ++ cur :: l2 ++ [x]) with ((l1 ++ cur :: l2) ++ [x]) by by rewrite <-app_assoc.
    apply StronglySorted_app. split; [|split; [exact Hs'|by repeat constructor]].
    intros a b Ha ->%list_elem_of_singleton. rewrite Forall_forall in Hx.
    apply elem_of_app in Ha as [Ha|Ha]; [apply Hx, elem_of_app; by left|].
    apply elem_of_cons in Ha as [->|Ha].
    + unfold key_le. rewrite key_cmp_antisym. lia.
    + apply Hx, elem_of_app. by right.
  - exists (l ++ [x]), []. split; [by rewrite app_nil_r|]. split.
    { rewrite insert_app_r_alt by lia. replace (S (length l) - length l)%nat with 1%nat by lia.
      by rewrite <-!app_assoc. }
    apply StronglySorted_app. split; [|split; [exact Hs|by repeat constructor]].
    intros a b Ha ->%list_elem_of_singleton. rewrite Forall_forall in Hx.
    apply elem_of_app in Ha as [Ha| ->%list_elem_of_singleton]; [|exact Hle].
    transitivity x; [by apply Hx|exact Hle].
Qed.

Lemma sort_rounds_spec pre rest :
  StronglySorted key_le pre ->
  StronglySorted key_le (sort_rounds (length rest) (length pre) (pre ++ rest)) /\
  sort_rounds (length rest) (length pre) (pre ++ rest) ≡ₚ pre ++ rest.
Proof.
  revert pre; induction rest as [|x rest IH]; intros pre Hs.
  { cbn [length sort_rounds]. by rewrite app_nil_r. }
  cbn [length sort_rounds]. rewrite nth_middle.
  destruct (shift_up_spec pre x rest x Hs) as (l1 & l2 & -> & -> & Hs').
  destruct (IH _ Hs') as [H1 H2].
  assert (length (l1 ++ x :: l2) = S (length (l1 ++ l2))) as Hl.
  { rewrite !length_app. cbn [length]. lia. }
  rewrite Hl in H1, H2. split; [done|]. rewrite H2.
  rewrite <-Permutation_middle. cbn [app]. by rewrite <-Permutation_middle.
Qed.

Lemma key_sort_spec keys : StronglySorted key_le (key_sort keys) /\ key_sort keys ≡ₚ keys.
Proof.
  unfold key_sort. destruct keys as [|k keys]; [split; [constructor|done]|].
  replace (length (k :: keys) - 1)%nat with (length keys) by (cbn [length]; lia).
  apply (sort_rounds_spec [k] keys). by repeat constructor.
Qed.

Lemma key_sort_perm keys keys' : keys ≡ₚ keys' -> key_sort keys = key_sort keys'.
Proof.
  intros E. destruct (key_sort_spec keys) as [H1 H2], (key_sort_spec keys') as [H3 H4].
  apply (StronglySorted_unique key_le); [done..|]. by rewrite H2, H4.
Qed.

(** ** Collecting the keys *)

Lemma collect_keys_inr t acc keys :
  collect_keys t acc = inr keys -> zlen acc <= 32 ->
  exists ks, map fst t = map LStr ks /\ keys = acc ++ ks /\ zlen keys <= 32 /\
    Forall (fun k => zlen k <= 64) ks.
Proof.
  revert acc; induction t as [|[k v] t IH]; intros acc; cbn [collect_keys].
  { intros [= <-] Hacc. exists []. by rewrite app_nil_r. }
  destruct k; try done. unfold LTF_MAX_FIELDS, LTF_MAX_KEY_LEN.
  destruct (Z.leb_spec 32 (zlen acc)); [done|]. destruct (Z.ltb_spec 64 (zlen s)); [done|].
  intros Hc _. destruct (IH _ Hc) as (ks & E & -> & Hl & HF).
  { rewrite zlen_app. unfold zlen in *. cbn [length]. lia. }
  exists (s :: ks). rewrite <-app_assoc in *. cbn [map fst app]. rewrite E. auto.
Qed.

Lemma collect_keys_ok t acc ks :
  map fst t = map LStr ks -> zlen acc + zlen ks <= 32 -> Forall (fun k => zlen k <= 64) ks ->
  collect_keys t acc = inr (acc ++ ks).
Proof.
  intros E Hl HF; revert acc t E Hl; induction HF as [|k ks Hk HF IH]; intros acc [|[k' v] t]; try done.
  { by rewrite app_nil_r. }
  cbn [map fst collect_keys]. intros [= -> E] Hl. unfold LTF_MAX_FIELDS, LTF_MAX_KEY_LEN.
  unfold zlen in Hl, Hk |- *. cbn [length] in Hl.
  destruct (Z.leb_spec 32 (Z.of_nat (length acc))); [lia|].
  destruct (Z.ltb_spec 64 (Z.of_nat (length k))); [lia|].
  rewrite IH; [by rewrite <-app_assoc|done|]. unfold zlen. rewrite length_app. cbn [length]. lia.
Qed.

Lemma collect_keys_inl t acc rc : collect_keys t acc = inl rc -> rc < 0.
Proof.
  revert acc; induction t as [|[k v] t IH]; intros acc; cbn [collect_keys]; [done|].
  destruct k; try (by intros [= <-]).
  destruct (_ <=? _); [by intros [= <-]|]. destruct (_ <? _); [by intros [= <-]|apply IH].
Qed.

(** The keys of a table the flattener accepts, in [lua_next] order. *)
Definition record_keys (t : lua_table) (keys : list (list Z)) : Prop :=
  map fst t = map LStr keys /\ zlen keys <= 32 /\ Forall (fun k => zlen k <= 64) keys.

(** The wire format of a table. *)
Definition wire (t : lua_table) (keys : list (list Z)) : option (list Z) :=
  body ← enc_fields t (key_sort keys); Some (le_bytes 4 (zlen keys) ++ body).

(** The field count and the fields, after the keys have been collected. *)
Lemma emit_table_spec t keys lim :
  wf_record t -> 0 <= lim < 2 ^ 31 -> record_keys t keys ->
  let r := emit_fields t (key_sort keys) (put_u32 (Sink [] lim false) (zlen keys)) in
  match wire t keys with
  | Some bs =>
      if lim <? zlen bs then r.1 = LTF_ERR_OVERFLOW else r.1 = LTF_OK /\ dst r.2 = bs
  | None => r.1 < 0
  end.
Proof.
  intros Ht Hcap (_ & _ & HF). destruct (key_sort_spec keys) as [_ Hperm].
  assert (sink_ok (Sink [] lim false)) as Hs0 by (unfold sink_ok, zlen; cbn; lia).
  pose proof (puts_u32 _ (zlen keys) Hs0) as H1. set (s1 := put_u32 _ _) in *. cbn zeta.
  assert (Forall (fun k => zlen k <= 64) (key_sort keys)) as HF' by by rewrite Hperm.
  pose proof (emit_fields_spec t (key_sort keys) s1 Ht HF' (puts_ok _ _ _ H1)) as Hspec.
  destruct H1 as [Hc1 _ Ho1 Hd1]. cbn [overflowed cap dst orb app] in *.
  unfold wire. destruct (enc_fields t (key_sort keys)) as [body|]; cbn [option_bind mbind]; [|done].
  rewrite Hc1 in Hspec. rewrite zlen_app. change (zlen (@nil Z)) with 0 in Ho1.
  pose proof (zlen_nonneg body). destruct (overflowed s1) eqn:E1; cbn [orb] in Hspec.
  - symmetry in Ho1. apply Z.ltb_lt in Ho1.
    destruct (Z.ltb_spec lim (zlen (le_bytes 4 (zlen keys)) + zlen body)); [done|lia].
  - rewrite (Hd1 eq_refl) in Hspec. exact Hspec.
Qed.

(** [lua_table_flatten] as a function of the wire format. *)
Lemma flatten_wire t keys lim :
  wf_record t -> 0 <= lim < 2 ^ 31 -> record_keys t keys ->
  match wire t keys with
  | Some bs =>
      lua_table_flatten (LTable t) lim =
      if lim <? zlen bs then (LTF_ERR_OVERFLOW, []) else (LTF_OK, bs)
  | None => exists rc, rc < 0 /\ lua_table_flatten (LTable t) lim = (rc, [])
  end.
Proof.
  intros Ht Hcap Hk. pose proof (emit_table_spec t keys lim Ht Hcap Hk) as H. cbn zeta in H.
  destruct Hk as (E & Hl & HF). cbn [lua_table_flatten].
  assert (collect_keys t [] = inr keys) as -> by by apply (collect_keys_ok t [] keys).
  destruct (key_sort_spec keys) as [_ Hperm].
  assert (zlen (key_sort keys) = zlen keys) as ->.
  { unfold zlen. by rewrite (Permutation_length Hperm). }
  pose proof (zlen_nonneg keys). rewrite wrap_small by lia.
  destruct (emit_fields _ _ _) as [rc out]. cbn [fst snd] in H.
  destruct (wire t keys) as [bs|].
  - destruct (lim <? zlen bs); [by subst rc|]. by destruct H as [-> ->].
  - exists rc. split; [done|]. by destruct (Z.ltb_spec rc 0); [|lia].
Qed.

(** A result is a success exactly for a table of the constrained shape whose
    wire bytes fit. *)
Lemma flatten_ok_iff t lim bs :
  wf_record t -> 0 <= lim < 2 ^ 31 ->
  lua_table_flatten (LTable t) lim = (LTF_OK, bs) <->
  exists keys, record_keys t keys /\ wire t keys = Some bs /\ zlen bs <= lim.
Proof.
  intros Ht Hcap. split.
  - intros H. destruct (collect_keys t []) as [rc|keys] eqn:Ec.
    { cbn [lua_table_flatten] in H. rewrite Ec in H. apply collect_keys_inl in Ec.
      injection H as ->. done. }
    destruct (collect_keys_inr _ _ _ Ec) as (ks & Efst & Eks & Hl & HF); [done|].
    cbn [app] in Eks. subst ks. exists keys. split; [done|].
    assert (record_keys t keys) as Hk by done.
    pose proof (flatten_wire t keys lim Ht Hcap Hk) as Hw. destruct (wire t keys) as [bs'|].
    + rewrite H in Hw. destruct (Z.ltb_spec lim (zlen bs')); [done|].
      injection Hw as <-. done.
    + destruct Hw as (rc & Hrc & E). rewrite H in E. injection E as <-. done.
  - intros (keys & Hk & Hw & Hfit). pose proof (flatten_wire t keys lim Ht Hcap Hk) as H.
    rewrite Hw in H. rewrite H. by destruct (Z.ltb_spec lim (zlen bs)); [lia|].
Qed.

(** *** The wire bytes are bytes *)

Lemma payload_bytes v : wf_prim v -> bytes (enc_payload v).
Proof.
  destruct v as [|b|z|u|str|t|ty]; cbn [enc_payload wf_prim]; try done; intros Hv;
    try apply le_bytes_bytes.
  - by destruct b; repeat constructor.
  - apply Forall_app_2; [apply le_bytes_bytes|apply Hv].
Qed.

Lemma value_bytes v bs : wf_value v -> enc_value v = Some bs -> bytes bs.
Proof.
  assert (forall v tag, wf_prim v -> prim_tag v = Some tag -> bytes (tag :: enc_payload v)) as Hprim.
  { intros w tag Hw Htag. constructor; [|by apply payload_bytes].
    apply prim_tag_range in Htag. unfold is_byte. lia. }
  intros [Hp Ht]. destruct v as [|b|z|u|str|t|ty]; try done;
    try (cbn [enc_value prim_tag option_bind mbind]; intros <-%Some_inj; by apply Hprim).
  cbn [enc_value]. destruct (detect_array t) as [|[tag n]] eqn:E; [done|]. intros <-%Some_inj.
  destruct (detect_array_spec t tag n Ht E) as (En & Htag0 & Htag & _).
  constructor; [done|]. constructor.
  - destruct (decide (n = 0)) as [->|]; [by rewrite Htag0|].
    pose proof (zlen_nonneg t). pose proof (prim_tag_range _ _ (Htag 1 ltac:(lia))).
    unfold is_byte. lia.
  - apply Forall_app_2; [apply le_bytes_bytes|]. apply Forall_concat, Forall_map, Forall_map.
    apply Forall_forall. intros i _. apply payload_bytes. by apply rawgeti_wf.
Qed.

Lemma fields_bytes t keys bs :
  wf_record t -> Forall bytes keys -> enc_fields t keys = Some bs -> bytes bs.
Proof.
  intros Ht HF; revert bs; induction HF as [|k keys Hk HF IH]; intros bs; cbn [enc_fields].
  { by intros <-%Some_inj. }
  unfold enc_field. destruct (enc_value (rawget t k)) as [vb|] eqn:E; [|done].
  cbn [option_bind mbind]. destruct (enc_fields t keys) as [rb|]; [|done].
  intros <-%Some_inj. repeat apply Forall_app_2; auto using le_bytes_bytes.
  eapply value_bytes; [by apply rawget_wf|done].
Qed.

Lemma flatten_bytes t lim bs :
  wf_record t -> 0 <= lim < 2 ^ 31 -> lua_table_flatten (LTable t) lim = (LTF_OK, bs) ->
  bytes bs /\ zlen bs <= lim.
Proof.
  intros Ht Hlim (keys & Hk & Hw & Hfit)%(flatten_ok_iff t lim bs Ht Hlim). split; [|done].
  unfold wire in Hw. destruct (enc_fields t (key_sort keys)) as [body|] eqn:E; [|done].
  apply Some_inj in Hw. cbn [option_bind mbind] in Hw. subst bs.
  apply Forall_app_2; [apply le_bytes_bytes|]. eapply fields_bytes; [exact Ht| |exact E].
  destruct (key_sort_spec keys) as [_ Hperm]. rewrite Hperm. destruct Hk as (Ek & _).
  destruct Ht as [[_ _ Hp _] _]. apply Forall_forall. intros k Hin.
  assert (LStr k ∈ map fst t) as Hin'.
  { rewrite Ek. apply list_elem_of_In, in_map. by apply list_elem_of_In. }
  apply list_elem_of_In, in_map_iff in Hin' as ([k' v] & Ev & Hin'). cbn [fst] in Ev. subst k'.
  rewrite Forall_forall in Hp. apply list_elem_of_In in Hin'. by destruct (Hp _ Hin') as [[? _] _].
Qed.

(** ** Iteration order *)

(** The same contents, met in another order by [lua_next]. *)
Definition value_equiv (v w : lua_value) : Prop :=
  v = w \/ exists es es', v = LTable es /\ w = LTable es' /\ es ≡ₚ es'.

Definition entry_equiv (e e' : lua_value * lua_value) : Prop :=
  e.1 = e'.1 /\ value_equiv e.2 e'.2.

Definition table_equiv (t t' : lua_table) : Prop :=
  exists u, t ≡ₚ u /\ Forall2 entry_equiv u t'.

Lemma rawgeti_unique t i v :
  NoDup (map fst t) -> (LInt i, v) ∈ t -> rawgeti t i = v.
Proof.
  induction t as [|[k w] t IH]; cbn [map fst]; [by intros _ ?%elem_of_nil|].
  intros [Hk Hd]%NoDup_cons [[= <- <-]|Hin]%elem_of_cons.
  - cbn [rawgeti]. by rewrite Z.eqb_refl.
  - specialize (IH Hd Hin). destruct k as [| |z| | | |]; cbn [rawgeti]; try done.
    destruct (Z.eqb_spec z i) as [->|]; [|done]. destruct Hk.
    apply list_elem_of_In, (in_map fst t (LInt i, v)). by apply list_elem_of_In.
Qed.

Lemma rawget_unique t k v :
  NoDup (map fst t) -> (LStr k, v) ∈ t -> rawget t k = v.
Proof.
  induction t as [|[k' w] t IH]; cbn [map fst]; [by intros _ ?%elem_of_nil|].
  intros [Hk Hd]%NoDup_cons [[= <- <-]|Hin]%elem_of_cons.
  - cbn [rawget]. by rewrite decide_True.
  - specialize (IH Hd Hin). destruct k' as [| | | |s| |]; cbn [rawget]; try done.
    destruct (decide (s = k)) as [->|]; [|done]. destruct Hk.
    apply list_elem_of_In, (in_map fst t (LStr k, v)). by apply list_elem_of_In.
Qed.

Lemma wf_table_perm t t' : t ≡ₚ t' -> wf_table t -> wf_table t'.
Proof.
  intros E [H1 H2 H3 H4]. split.
  - by rewrite <-E.
  - by rewrite <-E.
  - by rewrite <-E.
  - unfold zlen in *. by rewrite <-E.
Qed.

Lemma rawgeti_perm t t' i : wf_table t -> t ≡ₚ t' -> rawgeti t i = rawgeti t' i.
Proof.
  intros Ht E. pose proof (wf_table_perm t t' E Ht) as Ht'.
  destruct (rawgeti_in t i) as [H|H].
  - destruct (rawgeti_in t' i) as [H'|H']; [congruence|]. rewrite <-E in H' at 2.
    apply rawgeti_unique in H'; [done|apply Ht].
  - rewrite E in H at 2. apply rawgeti_unique in H; [done|apply Ht'].
Qed.

Lemma detect_loop_ext t t' fuel n tag i :
  (forall i, rawgeti t i = rawgeti t' i) -> detect_loop fuel t n tag i = detect_loop fuel t' n tag i.
Proof.
  intros H. revert n tag i; induction fuel as [|fuel IH]; intros n tag i; [done|].
  cbn [detect_loop]. rewrite <-H. destruct (rawgeti t i); cbn [prim_tag]; try done.
  all: destruct (_ && _); [done|]; destruct (_ <? _); [done|apply IH].
Qed.

Lemma enc_value_equiv v w : wf_value v -> value_equiv v w -> enc_value v = enc_value w.
Proof.
  intros [_ Hv] [->|(es & es' & -> & -> & E)]; [done|]. cbn [enc_value].
  assert (forall i, rawgeti es i = rawgeti es' i) as Hget by (intros; by apply rawgeti_perm).
  assert (detect_array es = detect_array es') as <-.
  { unfold detect_array, zlen. rewrite (detect_loop_ext es es') by done.
    by rewrite (Permutation_length E). }
  destruct (detect_array es) as [|[tag n]]; [done|].
  assert (elems es (Z.to_nat n) = elems es' (Z.to_nat n)) as ->; [|done].
  unfold elems. apply map_ext. intros. apply Hget.
Qed.

Lemma wf_value_equiv v w : value_equiv v w -> wf_value v -> wf_value w.
Proof.
  intros [->|(es & es' & -> & -> & E)]; [done|]. intros [_ H]. split; [done|].
  by eapply wf_table_perm.
Qed.

Lemma equiv_keys u t' : Forall2 entry_equiv u t' -> map fst u = map fst t'.
Proof. induction 1 as [|e e' u t' [He _] _ IH]; [done|]. cbn [map]. by rewrite He, IH. Qed.

Lemma equiv_rawget u t' k :
  Forall2 entry_equiv u t' -> value_equiv (rawget u k) (rawget t' k).
Proof.
  induction 1 as [|[k1 v1] [k2 v2] u t' [Hk Hv] _ IH]; [by left|].
  cbn [fst snd] in *. subst k2. destruct k1; cbn [rawget]; try done.
  by destruct (decide _).
Qed.

Lemma wf_record_equiv u t' : Forall2 entry_equiv u t' -> wf_record u -> wf_record t'.
Proof.
  intros E [[H1 H2 H3 H4] H5]. split; [split|].
  - by rewrite <-(equiv_keys u t').
  - clear -E H2. induction E as [|e e' u t' [_ He] E IH]; inversion H2; subst; constructor; [|auto].
    destruct He as [<-|(? & ? & _ & -> & _)]; done.
  - clear -E H3. induction E as [|e e' u t' [He Hv] E IH]; inversion H3 as [|? ? [Ha Hb]]; subst;
      constructor; [|auto]. rewrite <-He. split; [done|].
    by destruct Hv as [<-|(? & ? & _ & -> & _)].
  - unfold zlen in *. by rewrite <-(Forall2_length _ _ _ E).
  - clear -E H5. induction E as [|e e' u t' [He Hv] E IH]; inversion H5; subst; constructor; [|auto].
    by eapply wf_value_equiv.
Qed.

Lemma wf_record_perm t u : t ≡ₚ u -> wf_record t -> wf_record u.
Proof. intros E [H1 H2]. split; [by eapply wf_table_perm|by rewrite <-E]. Qed.

Lemma rawget_perm t t' k : wf_table t -> t ≡ₚ t' -> rawget t k = rawget t' k.
Proof.
  intros Ht E. pose proof (wf_table_perm t t' E Ht) as Ht'.
  destruct (rawget_in t k) as [H|H].
  - destruct (rawget_in t' k) as [H'|H']; [congruence|]. rewrite <-E in H' at 2.
    apply rawget_unique in H'; [done|apply Ht].
  - rewrite E in H at 2. apply rawget_unique in H; [done|apply Ht'].
Qed.

Lemma enc_fields_ext t t' keys :
  (forall k, enc_value (rawget t k) = enc_value (rawget t' k)) -> enc_fields t keys = enc_fields t' keys.
Proof.
  intros H. induction keys as [|k keys IH]; [done|]. cbn [enc_fields]. unfold enc_field.
  by rewrite H, IH.
Qed.

(** Equivalent tables have the same wire bytes. *)
Lemma wire_equiv t t' keys :
  wf_record t -> table_equiv t t' -> record_keys t keys ->
  exists keys', record_keys t' keys' /\ wire t' keys' = wire t keys.
Proof.
  intros Ht (u & Ep & E2) (Ek & Hl & HF).
  assert (map fst t' ≡ₚ map LStr keys) as Hp.
  { rewrite <-Ek, <-(equiv_keys u t') by done. by rewrite Ep. }
  apply Permutation_map_inv in Hp as (keys' & Ek' & Hp).
  exists keys'. split; [split; [done|split]|].
  - unfold zlen in *. by rewrite <-(Permutation_length Hp).
  - by rewrite <-Hp.
  - unfold wire. rewrite (key_sort_perm keys' keys) by done.
    assert (zlen keys' = zlen keys) as -> by (unfold zlen; by rewrite <-(Permutation_length Hp)).
    rewrite (enc_fields_ext t' t); [done|]. intros k.
    assert (rawget t k = rawget u k) as -> by (apply rawget_perm; [apply Ht|done]).
    symmetry. apply enc_value_equiv; [|by apply equiv_rawget].
    apply rawget_wf. by eapply wf_record_perm.
Qed.

(** C38: The flattened bytes do not depend on Lua's hash order: two tables with the
    same entries, listed by [lua_next] in any two orders (the entries of array
    fields too): when one flattens into a buffer, so does the other, to the same
    bytes.  This is what lets hosts with different Lua builds compare save buffers. *)
Theorem flatten_order_independent t t' lim bs :
  wf_record t -> table_equiv t t' -> 0 <= lim < 2 ^ 31 ->
  lua_table_flatten (LTable t) lim = (LTF_OK, bs) ->
  lua_table_flatten (LTable t') lim = (LTF_OK, bs).
Proof.
  intros Ht E Hlim (keys & Hk & Hw & Hfit)%(flatten_ok_iff t lim bs Ht Hlim).
  assert (wf_record t') as Ht'.
  { destruct E as (u & Ep & E2). eapply wf_record_equiv; [exact E2|]. by eapply wf_record_perm. }
  destruct (wire_equiv t t' keys Ht E Hk) as (keys' & Hk' & Hw').
  apply (flatten_ok_iff t' lim bs Ht' Hlim). exists keys'. rewrite Hw', Hw. done.
Qed.

(** ** Reading *)

(** The reader at offset [p] of the whole buffer. *)
Definition rd (whole : list Z) (p : nat) : source_t := Source whole (zlen whole) (Z.of_nat p) false.

Lemma drop_step {A} (whole : list A) p a b :
  drop p whole = a ++ b -> drop (p + length a) whole = b.
Proof. intros H. by rewrite <-drop_drop, H, drop_app_length. Qed.

Lemma drop_bound {A} (whole : list A) p a b :
  drop p whole = a ++ b -> a <> [] -> (p + length a <= length whole)%nat.
Proof.
  intros H Hne. pose proof (f_equal length H) as E. rewrite length_drop, length_app in E.
  destruct a; [done|]. cbn [length] in *. lia.
Qed.

Lemma lor_shift a b k : 0 <= k -> 0 <= a < 2 ^ k -> 0 <= b -> Z.lor a (b ≪ k) = a + b * 2 ^ k.
Proof.
  intros Hk Ha Hb. assert (Z.land a (b ≪ k) = 0) as H.
  { apply Z.bits_inj'. intros i Hi. rewrite Z.land_spec, Z.bits_0.
    destruct (Z.ltb_spec i k).
    - rewrite (Z.shiftl_spec_low b k i) by done. apply andb_false_r.
    - by rewrite (testbit_high a k). }
  rewrite <-Z.lxor_lor by done. rewrite <-Z.add_nocarry_lxor by done.
  by rewrite Z.shiftl_mul_pow2.
Qed.

Section reading.
Context (whole : list Z) (Hwhole : zlen whole < 2 ^ 32 - 1).

Lemma take_u8_rd p b rest :
  drop p whole = b :: rest -> take_u8 (rd whole p) = (rd whole (p + 1), b).
Proof.
  intros H. pose proof (drop_bound whole p [b] rest H ltac:(done)) as Hb. cbn [length] in Hb.
  unfold take_u8, rd, zlen in *. cbn [len pos src underflowed].
  rewrite wrap_small by lia. destruct (Z.ltb_spec (Z.of_nat (length whole)) (Z.of_nat p + 1)); [lia|].
  rewrite Nat2Z.id, Nat2Z.inj_add. do 2 f_equal.
  rewrite <-(Nat.add_0_r p), <-nth_skipn. by rewrite H.
Qed.

(** The next [k] reads of single bytes. *)
Fixpoint take_n (k : nat) (s : source_t) : source_t * list Z :=
  match k with
  | O => (s, [])
  | S k => let '(s, b) := take_u8 s in let '(s, bs) := take_n k s in (s, b :: bs)
  end.

Lemma take_n_rd bs p rest :
  drop p whole = bs ++ rest -> take_n (length bs) (rd whole p) = (rd whole (p + length bs), bs).
Proof.
  revert p; induction bs as [|b bs IH]; intros p H; cbn [length take_n app] in *.
  { by rewrite Nat.add_0_r. }
  rewrite (take_u8_rd p b _ H). rewrite IH.
  - by replace (p + 1 + length bs)%nat with (p + S (length bs))%nat by lia.
  - exact (drop_step whole p [b] (bs ++ rest) H).
Qed.

Lemma le_val_2 a b : is_byte a -> is_byte b -> Z.lor a (b ≪ 8) = le_val [a; b].
Proof. unfold is_byte. intros. rewrite lor_shift by lia. cbn [le_val]. lia. Qed.

Lemma le_val_4 a b c d :
  is_byte a -> is_byte b -> is_byte c -> is_byte d ->
  Z.lor (Z.lor (Z.lor a (b ≪ 8)) (c ≪ 16)) (d ≪ 24) = le_val [a; b; c; d].
Proof.
  unfold is_byte. intros. rewrite (lor_shift a) by lia. rewrite (lor_shift _ c) by lia.
  rewrite (lor_shift _ d) by lia. cbn [le_val]. lia.
Qed.

Lemma take_u16_rd p v rest :
  0 <= v < 2 ^ 16 -> drop p whole = le_bytes 2 v ++ rest ->
  take_u16 (rd whole p) = (rd whole (p + 2), v).
Proof.
  intros Hv H. pose proof (take_n_rd _ p rest H) as E. pose proof (le_bytes_bytes 2 v) as Hb.
  rewrite <-(le_val_le_bytes 2 v Hv). cbn [le_bytes length take_n] in *.
  unfold take_u16. destruct (take_u8 (rd whole p)) as [s1 a]. destruct (take_u8 s1) as [s2 b].
  injection E as -> -> ->. rewrite !Forall_cons in Hb. rewrite le_val_2; tauto.
Qed.

Lemma take_u32_rd p v rest :
  0 <= v < 2 ^ 32 -> drop p whole = le_bytes 4 v ++ rest ->
  take_u32 (rd whole p) = (rd whole (p + 4), v).
Proof.
  intros Hv H. pose proof (take_n_rd _ p rest H) as E. pose proof (le_bytes_bytes 4 v) as Hb.
  rewrite <-(le_val_le_bytes 4 v Hv). cbn [le_bytes length take_n] in *.
  unfold take_u32. destruct (take_u8 (rd whole p)) as [s1 a]. destruct (take_u8 s1) as [s2 b].
  destruct (take_u8 s2) as [s3 c]. destruct (take_u8 s3) as [s4 d].
  injection E as -> -> -> -> ->. rewrite !Forall_cons in Hb. rewrite le_val_4; tauto.
Qed.

Lemma take_u64_rd p v rest :
  0 <= v < 2 ^ 64 -> drop p whole = le_bytes 8 v ++ rest ->
  take_u64 (rd whole p) = (rd whole (p + 8), v).
Proof.
  intros Hv H. rewrite le_bytes_8 in H. rewrite !(Z.land_ones _ 32), Z.shiftr_div_pow2 in H by done.
  unfold wrap in H. rewrite !Z.mod_mod, <-app_assoc in H by done.
  assert (forall x, 0 <= x mod 2 ^ 32 < 2 ^ 32) as Hr by (intros; by apply Z.mod_pos_bound).
  unfold take_u64. rewrite (take_u32_rd p _ _ (Hr _) H).
  apply drop_step in H. rewrite length_le_bytes in H.
  rewrite (take_u32_rd (p + 4) _ _ (Hr _) H). replace (p + 4 + 4)%nat with (p + 8)%nat by lia.
  f_equal. rewrite lor_shift by (done || apply Hr).
  assert (0 <= v / 2 ^ 32 < 2 ^ 32).
  { split; [apply Z.div_pos; lia|apply Z.div_lt_upper_bound; lia]. }
  rewrite (Z.mod_small (v / 2 ^ 32)) by done. pose proof (Z.div_mod v (2 ^ 32)). lia.
Qed.

Lemma take_string_rd p str rest :
  drop p whole = str ++ rest -> (p <= length whole)%nat ->
  take_string (rd whole p) (zlen str) = Ret (str, rd whole (p + length str)).
Proof.
  intros H Hp. assert (p + length str <= length whole)%nat as Hb.
  { pose proof (f_equal length H) as E. rewrite length_drop, length_app in E. lia. }
  unfold take_string, rd, zlen in *. cbn [len pos src underflowed].
  rewrite wrap_small by lia.
  destruct (Z.ltb_spec (Z.of_nat (length whole)) (Z.of_nat p + Z.of_nat (length str))); [lia|].
  rewrite !Nat2Z.id. unfold slice. rewrite H, take_app_length. by rewrite Nat2Z.inj_add.
Qed.
End reading.

(** ** Round trip *)

(** What a value is after a round trip: floats lose their NaN payload, and an
    array comes back as a table in index order. *)
Definition norm_prim (v : lua_value) : lua_value :=
  match v with LFloat u => LFloat (canonicalize_nanf u) | _ => v end.

Definition array_entries (t : lua_table) (i n : nat) : lua_table :=
  map (fun i => (LInt (Z.of_nat i + 1), norm_prim (rawgeti t (Z.of_nat i + 1)))) (seq i n).

Definition norm (v : lua_value) : lua_value :=
  match v with
  | LTable t => LTable (array_entries t 0 (length t))
  | _ => norm_prim v
  end.

#[local] Arguments le_bytes : simpl never.

Section round_trip.
Context (whole : list Z) (Hwhole : zlen whole < 2 ^ 32 - 1).

Lemma take_payload_rd p v tag rest :
  prim_tag v = Some tag -> wf_prim v -> (p <= length whole)%nat ->
  drop p whole = enc_payload v ++ rest ->
  take_payload tag (rd whole p) = Ret (norm_prim v, rd whole (p + length (enc_payload v))).
Proof.
  intros Htag Hv Hp H. destruct v as [|b|z|u|str|t|ty]; try done; injection Htag as <-;
    unfold take_payload; cbn [enc_payload wf_prim] in *.
  - rewrite (take_u8_rd whole Hwhole p _ _ H). by destruct b.
  - assert (0 <= u64 z < 2 ^ 64) as Hr by by apply wrap_range.
    rewrite (take_u64_rd whole Hwhole p _ _ Hr H). cbn [norm_prim].
    rewrite length_le_bytes. do 3 f_equal. unfold signed at 2. rewrite wrap_wrap by done.
    assert (i32 (if u64 z <? 2 ^ (64 - 1) then u64 z else u64 z - 2 ^ 64) = i32 z) as ->.
    { unfold signed. assert (forall y, wrap 32 (u64 y) = wrap 32 y) as Hw.
      { intros y. unfold wrap. change (2 ^ 64) with (2 ^ 32 * 2 ^ 32).
        rewrite Z.rem_mul_r by lia. rewrite Z.mul_comm, Z.mod_add, Z.mod_mod by lia. done. }
      assert (wrap 32 (if u64 z <? 2 ^ (64 - 1) then u64 z else u64 z - 2 ^ 64) = wrap 32 z) as ->; [|done].
      destruct (_ <? _); [apply Hw|].
      rewrite <-(Hw z). unfold wrap at 1 3.
      replace (u64 z - 2 ^ 64) with (u64 z + (- 2 ^ 32) * 2 ^ 32) by lia. by apply Z.mod_add. }
    by apply signed_small.
  - assert (0 <= canonicalize_nan64 (f64_of_f32 u) < 2 ^ 64) as Hr.
    { rewrite canonicalize_f64_of_f32 by done. by apply f64_of_f32_range. }
    rewrite (take_u64_rd whole Hwhole p _ _ Hr H). rewrite length_le_bytes.
    by rewrite f32_through_f64.
  - destruct Hv as [_ Hl]. pose proof (zlen_nonneg str). rewrite <-app_assoc in H.
    assert (0 <= zlen str < 2 ^ 32) as Hr by lia.
    rewrite (take_u32_rd whole Hwhole p _ _ Hr H).
    pose proof (drop_bound whole p _ _ H ltac:(done)) as Hb. rewrite length_le_bytes in Hb.
    apply drop_step in H. rewrite length_le_bytes in H.
    rewrite (take_string_rd whole Hwhole _ _ _ H Hb). cbn [obind norm_prim].
    rewrite length_app, length_le_bytes. by rewrite Nat.add_assoc.
Qed.

Lemma enc_payload_pos v tag : prim_tag v = Some tag -> (1 <= length (enc_payload v))%nat.
Proof.
  destruct v; try done; intros _; cbn [enc_payload]; rewrite ?length_app, ?length_le_bytes; simpl; lia.
Qed.

Lemma unflatten_elems_rd t tag fuel k i p acc rest :
  wf_table t -> (k < fuel)%nat -> Z.of_nat (i + k) < 2 ^ 30 ->
  (forall j, (i <= j < i + k)%nat -> prim_tag (rawgeti t (Z.of_nat j + 1)) = Some tag) ->
  (p <= length whole)%nat ->
  let bs := concat (map enc_payload (map (fun i => rawgeti t (Z.of_nat i + 1)) (seq i k))) in
  drop p whole = bs ++ rest ->
  unflatten_elems fuel tag (Z.of_nat (i + k)) (Z.of_nat i) acc (rd whole p) =
  Ret (LTable (acc ++ array_entries t i k), rd whole (p + length bs)).
Proof.
  intros Ht; revert fuel i p acc; induction k as [|k IH]; intros [|fuel] i p acc Hf Hi Htag Hp;
    try lia; cbn [seq map concat]; intros H; cbn [unflatten_elems].
  - rewrite Nat.add_0_r, Z.ltb_irrefl. cbn [negb array_entries seq map length].
    by rewrite app_nil_r, Nat.add_0_r.
  - destruct (Z.ltb_spec (Z.of_nat i) (Z.of_nat (i + S k))); [|lia]. cbn [negb].
    rewrite <-app_assoc in H. pose proof (Htag i ltac:(lia)) as Hti.
    rewrite (take_payload_rd p _ tag _ Hti (rawgeti_wf t _ Ht) Hp H). cbn [obind].
    change (underflowed (rd whole _)) with false. cbv iota.
    pose proof (enc_payload_pos _ _ Hti) as Hpos.
    assert (p + length (enc_payload (rawgeti t (Z.of_nat i + 1))) <= length whole)%nat as Hp'.
    { eapply drop_bound; [exact H|]. intros E. rewrite E in Hpos. simpl in Hpos. lia. }
    apply drop_step in H. rewrite signed_small by lia.
    replace (i + S k)%nat with (S i + k)%nat by lia.
    replace (Z.of_nat i + 1) with (Z.of_nat (S i)) at 1 by lia.
    rewrite IH; [|lia|lia|intros; apply Htag; lia|exact Hp'|exact H].
    unfold array_entries. cbn [seq map]. rewrite <-app_assoc, length_app.
    by rewrite Nat.add_assoc.
Qed.

Lemma length_concat_ge (l : list lua_value) tag :
  Forall (fun v => prim_tag v = Some tag) l -> (length l <= length (concat (map enc_payload l)))%nat.
Proof.
  induction 1 as [|v l Hv Hl IH]; [done|]. cbn [map concat length].
  rewrite length_app. pose proof (enc_payload_pos v tag Hv). lia.
Qed.

Lemma unflatten_array_rd t tag n p rest :
  wf_table t -> detect_array t = inr (tag, n) ->
  let body := concat (map enc_payload (elems t (Z.to_nat n))) in
  drop p whole = [tag] ++ le_bytes 4 n ++ body ++ rest ->
  unflatten_array (rd whole p) = Ret (norm (LTable t), rd whole (p + 1 + 4 + length body)).
Proof.
  intros Ht E. destruct (detect_array_spec t tag n Ht E) as (-> & _ & Htag & _).
  pose proof (wf_small t Ht) as Hsm. cbn zeta. unfold zlen in *. rewrite Nat2Z.id.
  set (body := concat _). intros H.
  unfold unflatten_array. rewrite (take_u8_rd whole Hwhole _ _ _ H).
  apply drop_step in H. cbn [length] in H.
  assert (0 <= Z.of_nat (length t) < 2 ^ 32) as Hr by lia.
  rewrite (take_u32_rd whole Hwhole _ _ _ Hr H). change (underflowed (rd whole _)) with false.
  pose proof (drop_bound whole _ _ _ H ltac:(done)) as Hb. rewrite length_le_bytes in Hb.
  apply drop_step in H. rewrite length_le_bytes in H. cbv iota. change (src (rd whole _)) with whole.
  assert (length t <= length body)%nat as Hlen.
  { etransitivity; [|apply (length_concat_ge _ tag)].
    - unfold elems. by rewrite length_map, length_seq.
    - apply Forall_map, Forall_forall. intros i [_ Hi]%elem_of_seq.
      apply Htag. cbn [Nat.add] in Hi. lia. }
  assert (length t < length whole + 2)%nat as Hfuel.
  { pose proof (f_equal length H) as El. rewrite length_drop, length_app in El. lia. }
  pose proof (unflatten_elems_rd t tag _ (length t) 0 _ [] rest Ht Hfuel ltac:(simpl; lia)
             (fun j Hj => Htag (Z.of_nat j + 1) ltac:(lia)) Hb H) as Hel.
  change (Z.of_nat (0 + length t)) with (Z.of_nat (length t)) in Hel.
  change (Z.of_nat 0) with 0 in Hel. exact Hel.
Qed.

Lemma unflatten_value_rd v bs p rest :
  wf_value v -> enc_value v = Some bs -> drop p whole = bs ++ rest ->
  unflatten_value (rd whole p) = Ret (norm v, rd whole (p + length bs)).
Proof.
  intros [Hp Ht] He H.
  assert (forall tag, prim_tag v = Some tag -> Some (tag :: enc_payload v) = Some bs ->
    tag <> LTF_TAG_ARRAY -> norm v = norm_prim v ->
    unflatten_value (rd whole p) = Ret (norm v, rd whole (p + length bs))) as Hprim.
  { intros tag Htag [= <-] Hna ->. unfold unflatten_value. cbn [app] in H.
    rewrite (take_u8_rd whole Hwhole p _ _ H). change (underflowed (rd whole _)) with false.
    destruct (Z.eqb_spec tag LTF_TAG_ARRAY); [done|]. cbv iota.
    pose proof (drop_bound whole p [tag] _ H ltac:(done)) as Hb.
    apply (drop_step whole p [tag]) in H. cbn [length] in *.
    rewrite (take_payload_rd (p + 1) v tag rest Htag Hp ltac:(lia) H).
    by replace (p + 1 + length (enc_payload v))%nat with (p + S (length (enc_payload v)))%nat by lia. }
  destruct v as [|b|z|u|str|t|ty]; try done; try by eapply Hprim.
  clear Hprim. cbn [enc_value] in *. destruct (detect_array t) as [|[tag n]] eqn:E; [done|].
  apply Some_inj in He. subst bs. unfold unflatten_value. cbn [app] in H.
  rewrite (take_u8_rd whole Hwhole p _ _ H). change (underflowed (rd whole _)) with false.
  change (LTF_TAG_ARRAY =? LTF_TAG_ARRAY) with true. cbv iota.
  apply (drop_step whole p [_]) in H. rewrite <-app_assoc in H.
  change (length [LTF_TAG_ARRAY]) with 1%nat in H. rewrite (unflatten_array_rd t tag n _ rest Ht E H). do 3 f_equal. cbn [length].
  rewrite length_app, length_le_bytes. lia.
Qed.

Lemma rawset_fresh t k v :
  ~ LStr k ∈ map fst t -> rawset t k v = t ++ [(LStr k, v)].
Proof.
  induction t as [|[k' v'] t IH]; [done|]. cbn [map fst]. intros Hn.
  assert (rawset t k v = t ++ [(LStr k, v)]) as E.
  { apply IH. intros H. apply Hn. by right. }
  destruct k'; cbn [rawset app]; rewrite E; try done.
  destruct (decide (s = k)) as [->|]; [|done]. destruct Hn. left.
Qed.

Definition norm_fields (t : lua_table) (keys : list (list Z)) : lua_table :=
  map (fun k => (LStr k, norm (rawget t k))) keys.

Lemma unflatten_fields_rd t keys bs p acc rest :
  wf_record t -> NoDup keys -> Forall (fun k => zlen k <= 64) keys ->
  Forall (fun k => ~ LStr k ∈ map fst acc) keys ->
  enc_fields t keys = Some bs -> drop p whole = bs ++ rest ->
  unflatten_fields (length keys) acc (rd whole p) = Ret (LTable (acc ++ norm_fields t keys)).
Proof.
  intros Ht Hnd; revert bs p acc; induction Hnd as [|k keys Hk Hnd IH]; intros bs p acc HF Hacc.
  { intros _ _. cbn [unflatten_fields length norm_fields map]. by rewrite app_nil_r. }
  apply Forall_cons in HF as [Hlen HF]. apply Forall_cons in Hacc as [Hfresh Hacc].
  cbn [enc_fields]. unfold enc_field.
  destruct (enc_value (rawget t k)) as [vb|] eqn:Ev; cbn [option_bind mbind]; [|done].
  destruct (enc_fields t keys) as [rb|]; cbn [option_bind mbind]; [|done].
  intros <-%Some_inj H. rewrite <-!app_assoc in H. cbn [unflatten_fields length].
  pose proof (zlen_nonneg k).
  assert (0 <= zlen k < 2 ^ 16) as Hr by lia.
  rewrite (take_u16_rd whole Hwhole p _ _ Hr H). change (underflowed (rd whole _)) with false.
  unfold LTF_MAX_KEY_LEN. destruct (Z.ltb_spec 64 (zlen k)); [lia|]. cbn [orb].
  pose proof (drop_bound whole p _ _ H ltac:(done)) as Hb. rewrite length_le_bytes in Hb.
  apply drop_step in H. rewrite length_le_bytes in H.
  rewrite (take_string_rd whole Hwhole _ _ _ H Hb). cbn [obind]. apply drop_step in H.
  rewrite (unflatten_value_rd _ vb _ _ (rawget_wf t k Ht) Ev H). cbn [obind].
  apply drop_step in H. rewrite rawset_fresh by done.
  assert (Forall (fun k' => ~ LStr k' ∈ map fst (acc ++ [(LStr k, norm (rawget t k))])) keys) as Hacc'.
  { rewrite Forall_forall in Hacc |- *. intros k' Hk'. rewrite map_app, elem_of_app. cbn [map fst].
    intros [Hin|[= ->]%list_elem_of_singleton]; [by apply (Hacc k')|done]. }
  rewrite (IH rb _ _ HF Hacc' eq_refl H). unfold norm_fields. cbn [map]. by rewrite <-app_assoc.
Qed.
End round_trip.

(** ** Tables after a round trip *)

Lemma norm_prim_tag v : prim_tag (norm_prim v) = prim_tag v.
Proof. by destruct v. Qed.

Lemma norm_prim_payload v : wf_prim v -> enc_payload (norm_prim v) = enc_payload v.
Proof.
  destruct v as [| | |u| | |]; try done. cbn [wf_prim norm_prim enc_payload]. intros Hu.
  destruct (canonicalize_nanf_cases u) as [[Hn ->]|[_ ->]]; [|done].
  rewrite (f64_of_f32_nan u Hn). by vm_compute.
Qed.

Lemma norm_prim_wf v : wf_prim v -> wf_prim (norm_prim v).
Proof. destruct v; try done. cbn. apply canonicalize_nanf_range. Qed.

Lemma rawgeti_array_entries t i n j :
  rawgeti (array_entries t i n) j =
  if (Z.of_nat i <? j) && (j <=? Z.of_nat (i + n)) then norm_prim (rawgeti t j) else LNil.
Proof.
  unfold array_entries. revert i; induction n as [|n IH]; intros i; cbn [seq map rawgeti].
  - destruct (Z.ltb_spec (Z.of_nat i) j), (Z.leb_spec j (Z.of_nat (i + 0))); done || lia.
  - rewrite IH. destruct (Z.eqb_spec (Z.of_nat i + 1) j) as [<-|].
    + destruct (Z.ltb_spec (Z.of_nat i) (Z.of_nat i + 1)); [|lia].
      by destruct (Z.leb_spec (Z.of_nat i + 1) (Z.of_nat (i + S n))); [|lia].
    + destruct (Z.ltb_spec (Z.of_nat (S i)) j), (Z.ltb_spec (Z.of_nat i) j); cbn [andb]; try lia; [|done].
      by replace (i + S n)%nat with (S i + n)%nat by lia.
Qed.

(** A homogeneous sequence is detected. *)
Lemma detect_loop_ok fuel t n0 n tag0 tag :
  0 <= n0 <= n -> n < 2 ^ 30 -> n - n0 < Z.of_nat fuel -> (0 < n0 -> tag0 = tag) ->
  (n0 = n -> tag0 = tag) ->
  (forall j, n0 < j <= n -> prim_tag (rawgeti t j) = Some tag) -> rawgeti t (n + 1) = LNil ->
  detect_loop fuel t n0 tag0 (n0 + 1) = inr (tag, n).
Proof.
  revert n0 tag0; induction fuel as [|fuel IH]; intros n0 tag0 Hn Hn30 Hf Ht Ht' Htag Hnil; [lia|].
  cbn [detect_loop]. destruct (decide (n0 = n)) as [->|Hne].
  { rewrite Hnil. by rewrite Ht'. }
  pose proof (Htag (n0 + 1) ltac:(lia)) as H1.
  destruct (rawgeti t (n0 + 1)) eqn:E; try done; rewrite H1;
    (assert (negb (n0 =? 0) && negb (tag =? tag0) = false) as ->;
      [destruct (Z.eqb_spec n0 0); [done|]; rewrite Ht by lia; by rewrite Z.eqb_refl|]);
    rewrite wrap_small, signed_small by lia;
    (destruct (Z.ltb_spec 0xfffffffe (n0 + 1)); [lia|]);
    (apply IH; [lia|done|lia| | |intros; apply Htag; lia|done]);
    intros _; destruct (Z.eqb_spec n0 0); try done; apply Ht; lia.
Qed.

Lemma zlen_array_entries t i n : zlen (array_entries t i n) = Z.of_nat n.
Proof. unfold zlen, array_entries. by rewrite length_map, length_seq. Qed.

Lemma wf_array_entries t n tag :
  wf_table t -> Z.of_nat n < 2 ^ 30 ->
  (forall j, 1 <= j <= Z.of_nat n -> prim_tag (rawgeti t j) = Some tag) ->
  wf_table (array_entries t 0 n).
Proof.
  intros Ht Hn Htag. split.
  - unfold array_entries. rewrite map_map. cbn [fst].
    apply (NoDup_fmap_2_strong (fun i : nat => LInt (Z.of_nat i + 1))); [|apply NoDup_ListNoDup, seq_NoDup].
    intros x y _ _ [= E]. lia.
  - unfold array_entries. apply Forall_map, Forall_forall. intros i [_ Hi]%elem_of_seq.
    cbn [snd]. specialize (Htag (Z.of_nat i + 1) ltac:(lia)). rewrite <-norm_prim_tag in Htag.
    intros E. by rewrite E in Htag.
  - unfold array_entries. apply Forall_map, Forall_forall. intros i [_ Hi]%elem_of_seq.
    cbn [fst snd wf_prim]. split; [lia|]. by apply norm_prim_wf, rawgeti_wf.
  - by rewrite zlen_array_entries.
Qed.

Lemma norm_value v bs :
  wf_value v -> enc_value v = Some bs -> wf_value (norm v) /\ enc_value (norm v) = Some bs.
Proof.
  intros [Hp Ht]. destruct v as [|b|z|u|str|t|ty]; try done.
  - cbn [enc_value norm norm_prim prim_tag option_bind mbind]. intros <-%Some_inj.
    split; [split; [by apply canonicalize_nanf_range|done]|].
    do 2 f_equal. exact (norm_prim_payload (LFloat u) Hp).
  - cbn [enc_value norm]. destruct (detect_array t) as [|[tag n]] eqn:E; [done|].
    intros <-%Some_inj. destruct (detect_array_spec t tag n Ht E) as (En & Htag0 & Htag & Hnil).
    pose proof (wf_small t Ht) as Hsm. unfold zlen in En, Hsm. subst n.
    assert (wf_table (array_entries t 0 (length t))) as Hwf by by eapply wf_array_entries.
    split; [done|]. rewrite Nat2Z.id.
    assert (forall j, 1 <= j <= Z.of_nat (length t) ->
      rawgeti (array_entries t 0 (length t)) j = norm_prim (rawgeti t j)) as Hget.
    { intros j Hj. rewrite rawgeti_array_entries. cbn [Nat.add].
      destruct (Z.ltb_spec (Z.of_nat 0) j); [|lia].
      by destruct (Z.leb_spec j (Z.of_nat (length t))); [|lia]. }
    assert (detect_array (array_entries t 0 (length t)) = inr (tag, Z.of_nat (length t))) as ->.
    { unfold detect_array. rewrite zlen_array_entries.
      pose proof (zlen_array_entries t 0 (length t)) as Hz. unfold zlen in Hz.
      rewrite (detect_loop_ok _ _ 0 (Z.of_nat (length t)) 0 tag); try lia.
      - by rewrite wrap_small, Z.eqb_refl by lia.
      - intros j Hj. rewrite Hget by lia. rewrite norm_prim_tag. apply Htag. lia.
      - rewrite rawgeti_array_entries. cbn [Nat.add].
        destruct (Z.leb_spec (Z.of_nat (length t) + 1) (Z.of_nat (length t))); [lia|].
        by rewrite andb_false_r. }
    rewrite Nat2Z.id. do 5 f_equal. unfold elems. rewrite !map_map. apply map_ext_in.
    intros i Hi%in_seq. rewrite Hget by lia. apply norm_prim_payload. by apply rawgeti_wf.
Qed.

Lemma norm_nil v : norm v = LNil -> v = LNil.
Proof. by destruct v. Qed.

Lemma map_LStr_inj ks ks' : map LStr ks = map LStr ks' -> ks = ks'.
Proof.
  revert ks'; induction ks as [|k ks IH]; intros [|k' ks']; try done.
  cbn [map]. intros [= -> E]. f_equal. auto.
Qed.

Lemma record_keys_in t keys k : record_keys t keys -> LStr k ∈ map fst t <-> k ∈ keys.
Proof.
  intros (E & _). rewrite E. split.
  - intros (k' & [= ->] & H)%list_elem_of_In%in_map_iff. by apply list_elem_of_In.
  - intros. apply list_elem_of_In, in_map. by apply list_elem_of_In.
Qed.

Lemma record_keys_value t keys k :
  wf_table t -> record_keys t keys -> k ∈ keys -> rawget t k <> LNil.
Proof.
  intros [Hnd Hnil _ _] Hrec Hk%(record_keys_in t keys k Hrec).
  pose proof Hk as H. apply list_elem_of_In, in_map_iff in H as ((k' & v) & Ek & H). cbn [fst] in Ek. subst k'.
  apply list_elem_of_In in H. rewrite (rawget_unique t k v Hnd H).
  rewrite Forall_forall in Hnil. exact (Hnil _ H).
Qed.

Lemma rawget_norm_fields t keys k :
  rawget (norm_fields t keys) k = if decide (k ∈ keys) then norm (rawget t k) else LNil.
Proof.
  unfold norm_fields. induction keys as [|k' keys IH].
  - by destruct (decide _) as [?%elem_of_nil|].
  - cbn [map rawget]. rewrite IH. destruct (decide (k' = k)) as [->|Hne].
    + rewrite decide_True; [done|left].
    + destruct (decide (k ∈ keys)); [rewrite decide_True by (by right); done|].
      rewrite decide_False; [done|]. intros [->|?]%elem_of_cons; done.
Qed.

Lemma fields_value t keys bs k :
  enc_fields t keys = Some bs -> k ∈ keys -> exists vb, enc_value (rawget t k) = Some vb.
Proof.
  revert bs; induction keys as [|k' keys IH]; intros bs; [by intros _ ?%elem_of_nil|].
  cbn [enc_fields]. unfold enc_field. destruct (enc_value (rawget t k')) as [vb|] eqn:E; [|done].
  cbn [option_bind mbind]. destruct (enc_fields t keys) as [rb|]; [|done].
  intros _ [->|Hk]%elem_of_cons; [by exists vb|]. by apply (IH rb).
Qed.

Lemma record_keys_nodup t keys : wf_record t -> record_keys t keys -> NoDup keys.
Proof.
  intros [Ht _] (E & _). apply (NoDup_fmap_1 LStr).
  change (LStr <$> keys) with (map LStr keys). rewrite <-E. apply Ht.
Qed.

(** What the reader rebuilds holds the normalized value of every key. *)
Lemma rebuilt_rawget t keys k :
  record_keys t keys ->
  rawget (norm_fields t (key_sort keys)) k = norm (rawget t k).
Proof.
  intros Hk. destruct (key_sort_spec keys) as [_ Hperm]. rewrite rawget_norm_fields.
  destruct (decide (k ∈ key_sort keys)) as [|Hn]; [done|].
  destruct (rawget_in t k) as [->|Hin]; [done|]. destruct Hn. rewrite Hperm.
  apply (record_keys_in t keys k Hk), list_elem_of_In, (in_map fst t (LStr k, rawget t k)).
  by apply list_elem_of_In.
Qed.

Lemma rebuilt_wf t keys body :
  wf_record t -> record_keys t keys -> enc_fields t (key_sort keys) = Some body ->
  wf_record (norm_fields t (key_sort keys)).
Proof.
  intros Ht Hk Hb. destruct (key_sort_spec keys) as [_ Hperm].
  assert (Forall (fun k => rawget t k <> LNil /\ wf_value (norm (rawget t k))) (key_sort keys)) as HF.
  { apply Forall_forall. intros k Hin. split.
    - eapply record_keys_value; [apply Ht|exact Hk|by rewrite <-Hperm].
    - destruct (fields_value t _ _ k Hb Hin) as [vb Hv].
      by apply (norm_value _ vb); [apply rawget_wf|]. }
  pose proof (record_keys_nodup t keys Ht Hk) as Hnd. pose proof Hk as (_ & Hl & _).
  unfold norm_fields. split; [split|].
  - rewrite map_map. cbn [fst]. apply NoDup_fmap_2; [by intros ?? [= ->]|]. by rewrite Hperm.
  - apply Forall_map. eapply Forall_impl; [exact HF|]. intros k [Hne _] H. cbn [snd] in H.
    by apply norm_nil in H.
  - apply Forall_map, Forall_forall. intros k Hin. rewrite Forall_forall in HF.
    destruct (HF k Hin) as [_ [Hp _]]. split; [|exact Hp]. cbn [fst].
    rewrite Hperm, <-(record_keys_in t keys k Hk) in Hin.
    apply list_elem_of_In, in_map_iff in Hin as ([k' v] & Ek & Hin). cbn [fst] in Ek. subst k'.
    destruct Ht as [[_ _ Hp' _] _]. rewrite Forall_forall in Hp'.
    apply list_elem_of_In in Hin. by apply (Hp' _ Hin).
  - unfold zlen in *. rewrite length_map, (Permutation_length Hperm). lia.
  - apply Forall_map. eapply Forall_impl; [exact HF|]. by intros k [_ ?].
Qed.

Lemma rebuilt_wire t keys bs :
  wf_record t -> record_keys t keys -> wire t keys = Some bs ->
  record_keys (norm_fields t (key_sort keys)) (key_sort keys) /\
  wire (norm_fields t (key_sort keys)) (key_sort keys) = Some bs.
Proof.
  intros Ht Hk Hw. destruct (key_sort_spec keys) as [_ Hperm]. unfold wire in *.
  destruct (enc_fields t (key_sort keys)) as [body|] eqn:Eb; [|done].
  assert (key_sort (key_sort keys) = key_sort keys) as -> by by apply key_sort_perm.
  assert (zlen (key_sort keys) = zlen keys) as Hlen.
  { unfold zlen. by rewrite (Permutation_length Hperm). }
  split.
  - destruct Hk as (_ & Hl & HF). split; [|by rewrite Hlen, Hperm].
    unfold norm_fields. by rewrite map_map.
  - rewrite Hlen. rewrite (enc_fields_ext _ t); [by rewrite Eb|]. intros k.
    rewrite rebuilt_rawget by done. destruct (rawget_in t k) as [->|Hin]; [done|].
    assert (k ∈ key_sort keys) as Hk'.
    { rewrite Hperm. apply (record_keys_in t keys k Hk), list_elem_of_In,
        (in_map fst t (LStr k, rawget t k)). by apply list_elem_of_In. }
    destruct (fields_value t _ _ k Eb Hk') as [vb Hv]. rewrite Hv.
    by apply (norm_value _ vb); [apply rawget_wf|].
Qed.

Lemma flatten_reread t lim bs :
  wf_record t -> 0 <= lim < 2 ^ 31 ->
  lua_table_flatten (LTable t) lim = (LTF_OK, bs) ->
  exists t', lua_table_unflatten bs (zlen bs) = Ret (LTable t') /\
    (forall k, rawget t' k = norm (rawget t k)) /\
    lua_table_flatten (LTable t') lim = (LTF_OK, bs).
Proof.
  intros Ht Hlim (keys & Hk & Hw & Hfit)%(flatten_ok_iff t lim bs Ht Hlim).
  destruct (key_sort_spec keys) as [_ Hperm]. exists (norm_fields t (key_sort keys)).
  split; [|split; [intros k; by apply rebuilt_rawget|]].
  - unfold wire in Hw. destruct (enc_fields t (key_sort keys)) as [body|] eqn:Eb; [|done].
    apply Some_inj in Hw. cbn [option_bind mbind] in Hw. pose proof Hk as (_ & Hl & HF).
    pose proof (zlen_nonneg keys). assert (0 <= zlen keys < 2 ^ 32) as Hr by lia.
    assert (zlen bs < 2 ^ 32 - 1) as Hb by lia.
    assert (drop 0 bs = le_bytes 4 (zlen keys) ++ body) as Hd by by rewrite drop_0.
    unfold lua_table_unflatten. change (Source bs (zlen bs) 0 false) with (rd bs 0).
    rewrite (take_u32_rd bs Hb 0 _ _ Hr Hd). change (underflowed (rd bs _)) with false.
    unfold LTF_MAX_FIELDS. destruct (Z.ltb_spec 32 (zlen keys)); [lia|].
    apply drop_step in Hd. rewrite length_le_bytes in Hd.
    assert (Z.to_nat (zlen keys) = length (key_sort keys)) as ->.
    { rewrite (Permutation_length Hperm). unfold zlen. by rewrite Nat2Z.id. }
    rewrite (unflatten_fields_rd bs Hb t (key_sort keys) body _ [] []); try done.
    + rewrite Hperm. by apply (record_keys_nodup t).
    + by rewrite Hperm.
    + apply Forall_forall. intros k _. apply not_elem_of_nil.
    + by rewrite app_nil_r.
  - destruct (rebuilt_wire t keys bs Ht Hk Hw) as [Hk' Hw'].
    apply flatten_ok_iff; [|done|by exists (key_sort keys)].
    unfold wire in Hw. destruct (enc_fields t (key_sort keys)) as [body|] eqn:Eb; [|done].
    by eapply rebuilt_wf.
Qed.

Lemma flatten_unflatten t lim bs :
  wf_record t -> 0 <= lim < 2 ^ 31 ->
  lua_table_flatten (LTable t) lim = (LTF_OK, bs) ->
  exists t', lua_table_unflatten bs (zlen bs) = Ret (LTable t') /\
    (forall k, rawget t' k = norm (rawget t k)).
Proof. intros Ht Hl Hf. destruct (flatten_reread t lim bs Ht Hl Hf) as (t' & H1 & H2 & _). by exists t'. Qed.

Lemma flatten_code t lim rc bs :
  lua_table_flatten (LTable t) lim = (rc, bs) -> rc < 0 \/ rc = LTF_OK.
Proof.
  cbn [lua_table_flatten]. destruct (collect_keys t []) as [rc'|keys] eqn:E.
  - intros [= <- _]. left. by eapply collect_keys_inl.
  - destruct (emit_fields _ _ _) as [rc' s]. destruct (Z.ltb_spec rc' 0); intros [= <- _]; [by left|by right].
Qed.

(** C8: Flattening loses nothing but NaN payloads and order.  Whenever a table
    flattens, its bytes unflatten without error (and without leaving the
    buffer) to a table with the same keys, every value equal up to NaN
    canonicalization (integers and floats stay apart, arrays keep their
    elements), and flattening that table again, into a buffer of the same
    size, gives the same bytes. *)
Theorem flatten_roundtrip t lim bs :
  wf_record t -> 0 <= lim < 2 ^ 31 ->
  lua_table_flatten (LTable t) lim = (LTF_OK, bs) ->
  exists t', lua_table_unflatten bs (zlen bs) = Ret (LTable t') /\
    (forall k, rawget t' k = norm (rawget t k)) /\
    lua_table_flatten (LTable t') lim = (LTF_OK, bs).
Proof. apply flatten_reread. Qed.

(** ** Reading arbitrary bytes *)

Section safety.
Context (bs : list Z) (Hbytes : bytes bs) (Hlen : zlen bs < 2 ^ 31).

(** No four consecutive bytes encode a length that wraps the bounds check. *)
Definition no_wrapping_length : Prop :=
  forall p, (p + 4 <= length bs)%nat -> le_val (slice p 4 bs) + zlen bs < 2 ^ 32.

Record reader_inv (s : source_t) : Prop := {
  ri_src : src s = bs;
  ri_len : len s = zlen bs;
  ri_pos : 0 <= pos s <= zlen bs;
}.

(** What a reader may do from offset [p0]: it moves forward, by at least one
    byte unless it underflows, always has fuel, and leaves the buffer only
    after a wrapping length. *)
Definition reads_ok {A} (p0 : Z) (m : outcome (A * source_t)) : Prop :=
  match m with
  | Ret (_, s) => reader_inv s /\ p0 <= pos s /\ (underflowed s = false -> p0 < pos s)
  | Err _ => True
  | OutOfBounds => ~ no_wrapping_length
  | OutOfFuel => False
  end.

(** [v] is the byte at [pos s], or 0 past the end. *)
Lemma take_u8_inv s :
  reader_inv s ->
  exists s' v, take_u8 s = (s', v) /\ reader_inv s' /\ is_byte v /\
    ((pos s' = pos s + 1 /\ underflowed s' = underflowed s /\ bs !! Z.to_nat (pos s) = Some v) \/
     (pos s = zlen bs /\ pos s' = pos s /\ underflowed s' = true /\ v = 0)).
Proof.
  intros [Hs Hl Hp]. unfold take_u8. rewrite Hl, Hs, wrap_small by lia.
  destruct (Z.ltb_spec (zlen bs) (pos s + 1)).
  - eexists _, _. split; [done|]. split; [done|]. split; [done|]. right.
    cbn [pos underflowed]. split; [lia|done].
  - eexists _, _. split; [done|].
    destruct (lookup_lt_is_Some_2 bs (Z.to_nat (pos s))) as [b Hb]; [unfold zlen in *; lia|].
    rewrite (nth_lookup_Some _ _ _ _ Hb). split; [split; cbn [src len pos]; try done; lia|].
    split; [by eapply Forall_lookup_1|]. left. done.
Qed.

Lemma reads_ok_weaken {A} p0 p1 (m : outcome (A * source_t)) :
  p1 <= p0 -> reads_ok p0 m -> reads_ok p1 m.
Proof. intros. destruct m as [[a s]| | |]; cbn in *; try done. intuition lia. Qed.

Lemma obind_reads_ok {A B} p0 (m : outcome (A * source_t)) (f : A * source_t -> outcome (B * source_t)) :
  reads_ok p0 m ->
  (forall a s, reader_inv s -> p0 <= pos s -> (underflowed s = false -> p0 < pos s) ->
     reads_ok p0 (f (a, s))) ->
  reads_ok p0 (obind m f).
Proof. destruct m as [[a s]| | |]; cbn; try done. intros (? & ? & ?) Hf. by apply Hf. Qed.

Lemma take_n_inv k s :
  reader_inv s ->
  exists s' vs, take_n k s = (s', vs) /\ reader_inv s' /\ length vs = k /\ bytes vs /\ pos s <= pos s' /\
    ((pos s' = pos s + Z.of_nat k /\ underflowed s' = underflowed s /\
      vs = slice (Z.to_nat (pos s)) k bs /\ pos s + Z.of_nat k <= zlen bs) \/
     (exists j, (j < k)%nat /\ underflowed s' = true /\ drop j vs = replicate (k - j) 0)).
Proof.
  revert s; induction k as [|k IH]; intros s Hs; cbn [take_n].
  { exists s, []. repeat split; try apply Hs; try lia; try done. left. split; [lia|].
    split; [done|]. split; [done|]. destruct Hs; lia. }
  destruct (take_u8_inv s Hs) as (s1 & v & -> & Hs1 & Hv & Hcase).
  destruct (IH s1 Hs1) as (s2 & vs & -> & Hs2 & Hl2 & Hb2 & Hp2 & Hcase2).
  exists s2, (v :: vs). split; [done|]. split; [done|]. split; [cbn; lia|].
  split; [by constructor|]. split; [destruct Hcase as [(? & _)|(_ & ? & _)]; lia|].
  destruct Hcase2 as [(Hp & Hu & -> & Hle)|(j & Hj & Hu & Hd)].
  - destruct Hcase as [(Hp1 & Hu1 & Hv1)|(Hend & Hp1 & Hu1 & ->)].
    + left. split; [lia|]. split; [congruence|]. split; [|lia].
      rewrite Hp1. replace (Z.to_nat (pos s + 1)) with (S (Z.to_nat (pos s))) by (destruct Hs; lia).
      unfold slice. by rewrite (drop_S bs v (Z.to_nat (pos s)) Hv1).
    + right. exists 0%nat. split; [lia|]. split; [congruence|]. rewrite drop_0.
      assert (k = 0)%nat as -> by lia. unfold slice. by rewrite take_0.
  - right. exists (S j). split; [lia|]. split; [done|]. cbn [drop]. by rewrite Hd.
Qed.

Lemma take_u32_as s : take_u32 s =
  let '(s', vs) := take_n 4 s in
  (s', Z.lor (Z.lor (Z.lor (nth 0 vs 0) (nth 1 vs 0 ≪ 8)) (nth 2 vs 0 ≪ 16)) (nth 3 vs 0 ≪ 24)).
Proof.
  unfold take_u32. cbn [take_n]. destruct (take_u8 s) as [s1 a]. destruct (take_u8 s1) as [s2 b].
  destruct (take_u8 s2) as [s3 c]. by destruct (take_u8 s3) as [s4 d].
Qed.

(** A length field read from the buffer. *)
Lemma take_u32_inv s :
  reader_inv s ->
  exists s' v, take_u32 s = (s', v) /\ reader_inv s' /\ 0 <= v < 2 ^ 32 /\ pos s <= pos s' /\
    (underflowed s' = false -> pos s < pos s') /\
    (no_wrapping_length -> v + zlen bs < 2 ^ 32).
Proof.
  intros Hs. destruct (take_n_inv 4 s Hs) as (s' & vs & E & Hs' & Hl & Hb & Hp & Hcase).
  rewrite take_u32_as, E. destruct vs as [|a [|b [|c [|d [|]]]]]; try done. cbn [nth].
  pose proof Hb as Hb'. rewrite !Forall_cons in Hb'.
  rewrite le_val_4 by tauto. pose proof (le_val_bound _ Hb) as Hv. cbn [length] in Hv.
  exists s', (le_val [a; b; c; d]). split; [done|]. split; [done|]. split; [lia|]. split; [lia|].
  destruct Hcase as [(Hp1 & _ & Evs & Hle)|(j & Hj & Hu & Hd)].
  - split; [lia|]. intros Hw. rewrite Evs. apply Hw. destruct Hs. unfold zlen in *. lia.
  - split; [congruence|]. intros _.
    assert (d = 0) as ->.
    { pose proof (f_equal (fun l => nth (3 - j) l 1) Hd) as Hn. cbn beta in Hn.
      rewrite nth_skipn in Hn. replace (j + (3 - j))%nat with 3%nat in Hn by lia.
      cbn [nth] in Hn. rewrite Hn. by apply nth_repeat_lt || (destruct j as [|[|[|[|]]]]; try lia; done). }
    cbn [le_val]. unfold is_byte in Hb'. destruct Hb' as (Ha & Hb1 & Hc & _). lia.
Qed.

Lemma take_u64_inv s :
  reader_inv s ->
  exists s' v, take_u64 s = (s', v) /\ reader_inv s' /\ pos s <= pos s' /\
    (underflowed s' = false -> pos s < pos s').
Proof.
  intros Hs. unfold take_u64.
  destruct (take_u32_inv s Hs) as (s1 & lo & -> & Hs1 & _ & Hp1 & Hu1 & _).
  destruct (take_u32_inv s1 Hs1) as (s2 & hi & -> & Hs2 & _ & Hp2 & Hu2 & _).
  eexists _, _. split; [done|]. split; [done|]. split; [lia|]. intros H. specialize (Hu2 H). lia.
Qed.

Lemma take_u8_reads s :
  reader_inv s ->
  exists s' v, take_u8 s = (s', v) /\ reader_inv s' /\ pos s <= pos s' /\
    (underflowed s' = false -> pos s < pos s').
Proof.
  intros Hs. destruct (take_u8_inv s Hs) as (s' & v & E & Hs' & _ & H). exists s', v.
  split; [done|]. split; [done|]. destruct H as [(? & _)|(_ & ? & ? & _)]; split; lia || congruence.
Qed.

Lemma take_string_inv s n p0 :
  reader_inv s -> 0 <= n -> p0 <= pos s -> (underflowed s = false -> p0 < pos s) ->
  (no_wrapping_length -> n + zlen bs < 2 ^ 32) -> reads_ok p0 (take_string s n).
Proof.
  intros [Hs Hl Hp] Hn Hp0 Hu Hw. unfold take_string. rewrite Hl, Hs.
  destruct (Z.ltb_spec (zlen bs) (u32 (pos s + n))) as [|Hle]; [done|].
  destruct (Z.ltb_spec (zlen bs) (pos s + n)) as [Hlt|Hge].
  - intros Hno. specialize (Hw Hno). rewrite wrap_small in Hle by lia. lia.
  - rewrite wrap_small by lia. cbn [reads_ok pos underflowed]. split; [|split; [lia|]].
    + split; cbn [src len pos]; try done. lia.
    + intros H. specialize (Hu H). lia.
Qed.

Lemma take_payload_inv tag s : reader_inv s -> reads_ok (pos s) (take_payload tag s).
Proof.
  intros Hs. unfold take_payload. destruct (tag =? LTF_TAG_BOOLEAN).
  { destruct (take_u8_reads s Hs) as (s' & v & -> & H). exact H. }
  destruct (tag =? LTF_TAG_INTEGER).
  { destruct (take_u64_inv s Hs) as (s' & v & -> & H). exact H. }
  destruct (tag =? LTF_TAG_FLOAT).
  { destruct (take_u64_inv s Hs) as (s' & v & -> & H). exact H. }
  destruct (tag =? LTF_TAG_STRING); [|done].
  destruct (take_u32_inv s Hs) as (s' & n & -> & Hs' & Hn & Hp & Hu & Hw).
  apply obind_reads_ok; [apply take_string_inv; auto; lia|]. intros str s2 Hs2 H1 H2. done.
Qed.

(** Enough fuel for the bytes left. *)
Lemma unflatten_elems_inv tag n fuel i t s p0 :
  reader_inv s -> p0 <= pos s -> (underflowed s = false -> p0 < pos s) ->
  zlen bs - pos s + 1 < Z.of_nat fuel -> reads_ok p0 (unflatten_elems fuel tag n i t s).
Proof.
  revert i t s; induction fuel as [|fuel IH]; intros i t s Hs Hp Hu Hf.
  { destruct Hs. lia. }
  cbn [unflatten_elems]. destruct (negb (i <? n)); [done|].
  pose proof (take_payload_inv tag s Hs) as H. destruct (take_payload tag s) as [[v s1]| | |]; cbn [obind];
    try done.
  destruct H as (Hs1 & Hp1 & Hu1). destruct (underflowed s1) eqn:E; [done|].
  specialize (Hu1 eq_refl). apply IH; [done|lia|lia|lia].
Qed.

Lemma unflatten_value_inv s : reader_inv s -> reads_ok (pos s) (unflatten_value s).
Proof.
  intros Hs. unfold unflatten_value.
  destruct (take_u8_reads s Hs) as (s1 & tag & -> & Hs1 & Hp1 & Hu1).
  destruct (underflowed s1) eqn:E1; [done|]. specialize (Hu1 eq_refl).
  destruct (tag =? LTF_TAG_ARRAY).
  - unfold unflatten_array. destruct (take_u8_reads s1 Hs1) as (s2 & et & -> & Hs2 & Hp2 & _).
    destruct (take_u32_inv s2 Hs2) as (s3 & n & -> & Hs3 & _ & Hp3 & _).
    destruct (underflowed s3); [done|]. apply unflatten_elems_inv; [done|lia|lia|].
    destruct Hs3 as [-> _ ?]. unfold zlen in *. lia.
  - eapply reads_ok_weaken; [|by apply take_payload_inv]. lia.
Qed.

Lemma take_u16_inv s :
  reader_inv s -> exists s' v, take_u16 s = (s', v) /\ reader_inv s' /\ 0 <= v.
Proof.
  intros Hs. unfold take_u16.
  destruct (take_u8_inv s Hs) as (s1 & a & -> & Hs1 & Ha & _).
  destruct (take_u8_inv s1 Hs1) as (s2 & b & -> & Hs2 & Hb & _).
  eexists _, _. split; [done|]. split; [done|]. unfold is_byte in *.
  apply Z.lor_nonneg. split; [lia|]. apply Z.shiftl_nonneg. lia.
Qed.

Lemma unflatten_fields_safe k t s :
  reader_inv s ->
  unflatten_fields k t s <> OutOfFuel /\
  (no_wrapping_length -> unflatten_fields k t s <> OutOfBounds).
Proof.
  revert t s; induction k as [|k IH]; intros t s Hs; cbn [unflatten_fields].
  { by destruct (underflowed s). }
  destruct (take_u16_inv s Hs) as (s1 & n & -> & Hs1 & Hn).
  destruct (_ || _) eqn:E; [done|].
  apply orb_false_iff in E as [_ E%Z.ltb_ge]. unfold LTF_MAX_KEY_LEN in E.
  pose proof (take_string_inv s1 n (pos s1 - 1) Hs1 Hn ltac:(lia) ltac:(lia) ltac:(lia)) as H.
  destruct (take_string s1 n) as [[key s2]| | |]; cbn [obind]; try done.
  destruct H as (Hs2 & _). pose proof (unflatten_value_inv s2 Hs2) as H.
  destruct (unflatten_value s2) as [[v s3]| | |]; cbn [obind]; try done.
  apply IH. by destruct H.
Qed.

Lemma unflatten_safe_aux :
  lua_table_unflatten bs (zlen bs) <> OutOfFuel /\
  (no_wrapping_length -> lua_table_unflatten bs (zlen bs) <> OutOfBounds).
Proof.
  unfold lua_table_unflatten.
  assert (reader_inv (Source bs (zlen bs) 0 false)) as Hs.
  { split; cbn [src len pos]; try done. pose proof (zlen_nonneg bs). lia. }
  destruct (take_u32_inv _ Hs) as (s & n & -> & Hs' & _).
  destruct (underflowed s); [done|]. destruct (_ <? n); [done|]. by apply unflatten_fields_safe.
Qed.
End safety.

(** C37: Reading an arbitrary buffer (a save file may hold anything) always ends,
    with a table or an error code, and stays inside the buffer provided no four
    consecutive bytes encode a number within the buffer's size of [2 ^ 32]. *)
Theorem unflatten_safe bs :
  bytes bs -> zlen bs < 2 ^ 31 ->
  lua_table_unflatten bs (zlen bs) <> OutOfFuel /\
  (no_wrapping_length bs -> lua_table_unflatten bs (zlen bs) <> OutOfBounds).
Proof. apply unflatten_safe_aux. Qed.

(** The proviso is needed: the check [src->pos + sl > src->len] is done in 32
    bits, so a one-field buffer of 12 bytes whose string claims 4294967284
    bytes passes it, and Lua copies from the bytes after the buffer. *)
Theorem unflatten_wrapping_length_overreads :
  let bs := [1; 0; 0; 0; 1; 0; 97; 4; 0xf4; 0xff; 0xff; 0xff] in
  lua_table_unflatten bs (zlen bs) = OutOfBounds.
Proof. vm_compute. reflexivity. Qed.

(** ** Witnesses *)

(** A table with every kind of value, in two iteration orders. *)
Definition example_table : lua_table :=
  [(LStr (cstr "hp"), LInt (-2)); (LStr (cstr "x"), LFloat 0x7fa00001);
   (LStr (cstr "xs"), LTable [(LInt 2, LStr [66]); (LInt 1, LStr [65])]);
   (LStr (cstr "on"), LBool true)].

Definition example_reordered : lua_table :=
  [(LStr (cstr "on"), LBool true); (LStr (cstr "x"), LFloat 0x7fa00001);
   (LStr (cstr "xs"), LTable [(LInt 1, LStr [65]); (LInt 2, LStr [66])]);
   (LStr (cstr "hp"), LInt (-2))].

(** A list of distinct literals has no duplicates. *)
Ltac nodup_literals :=
  repeat (constructor;
    [intros Hin; repeat (apply elem_of_cons in Hin as [Hin|Hin]; [discriminate|]);
     by apply elem_of_nil in Hin|]); constructor.

Lemma example_inner_wf : wf_table [(LInt 2, LStr [66]); (LInt 1, LStr [65])].
Proof.
  split; [|by repeat constructor| |done].
  - cbn [map fst]. nodup_literals.
  - repeat (constructor; [split; [simpl; lia|split; [by apply bytes_bool|done]]|]). constructor.
Qed.

Lemma example_wf : wf_record example_table.
Proof.
  split; [split; [|by repeat constructor| |done]|].
  - cbn [map fst example_table]. nodup_literals.
  - unfold example_table. repeat (constructor; [split; [split; [by apply bytes_bool|done]|simpl; try done; lia]|]).
    constructor.
  - unfold example_table. constructor; [split; [simpl; lia|done]|].
    constructor; [split; [simpl; lia|done]|].
    constructor; [split; [done|exact example_inner_wf]|].
    constructor; [split; done|]. constructor.
Qed.

Lemma example_equiv : table_equiv example_table example_reordered.
Proof.
  exists [(LStr (cstr "on"), LBool true); (LStr (cstr "x"), LFloat 0x7fa00001);
     (LStr (cstr "xs"), LTable [(LInt 2, LStr [66]); (LInt 1, LStr [65])]);
     (LStr (cstr "hp"), LInt (-2))].
  split.
  { etransitivity; [apply (Permutation_app_comm [(LStr (cstr "hp"), LInt (-2))])|].
    apply (Permutation_app_tail _ (Permutation_app_comm [_; _] [_])). }
  unfold example_reordered. constructor; [split; [done|by left]|].
  constructor; [split; [done|by left]|]. constructor.
  { split; [done|]. right. eexists _, _. split; [done|]. split; [done|]. apply perm_swap. }
  constructor; [split; [done|by left]|]. constructor.
Qed.

Lemma flatten_order_independent_witness :
  lua_table_flatten (LTable example_reordered) 256 =
  (LTF_OK, (lua_table_flatten (LTable example_table) 256).2).
Proof.
  apply (flatten_order_independent example_table example_reordered 256);
    [exact example_wf|exact example_equiv|lia|vm_compute; reflexivity].
Defined.

Lemma flatten_roundtrip_witness :
  let bs := (lua_table_flatten (LTable example_table) 256).2 in
  length bs = 55%nat /\
  exists t', lua_table_unflatten bs (zlen bs) = Ret (LTable t') /\
    (forall k, rawget t' k = norm (rawget example_table k)) /\
    lua_table_flatten (LTable t') 256 = (LTF_OK, bs).
Proof.
  split; [vm_compute; reflexivity|].
  apply (flatten_roundtrip example_table 256);
    [exact example_wf|lia|vm_compute; reflexivity].
Defined.

Lemma unflatten_safe_witness :
  let bs := [1; 0; 0; 0; 1; 0; 97; 4; 2; 0; 0; 0; 66; 67] in
  lua_table_unflatten bs (zlen bs) = Ret (LTable [(LStr [97], LStr [66; 67])]) /\
  (lua_table_unflatten bs (zlen bs) <> OutOfFuel /\
   (no_wrapping_length bs -> lua_table_unflatten bs (zlen bs) <> OutOfBounds)).
Proof.
  split; [vm_compute; reflexivity|].
  apply unflatten_safe; [by apply bytes_bool|vm_compute; reflexivity].
Defined.
