(* ===== verification/LuaCarts.v ===== *)
(** * Lua carts: the console bindings and the lua_simple cart
    (spikes/spike-k/ports/rv32emu/lua_det_bindings_k.c, lua_simple_*.c,
    spikes/spike-k/workloads/det_lua_simple.lua)

    The bindings are C functions from a Lua argument list to a result list, with
    the C globals as state.  Lua is not part of the repository: its argument
    checks are a parameter ([lua_api]), and a script is a computation in the
    monad [LuaM] of globals, output and Lua errors.  The replay theorem for the
    lua_simple workload is proved with a relational logic for [LuaM]: every
    construct preserves "the same up to NaN encodings". *)

From Stdlib Require Import SpecFloat.
From S2P Require Import Prelude Layout Float32 Determinism CString Tracked SaveState SaveIo.
From S2P Require Import Regions Replay Whetstone TableFlatten.
Import FrameStateRegion CartStateLuaSimple.

(** ** The Lua side *)

(** The argument checks of lauxlib: the value converted, or an error. *)
Record lua_api := LuaApi {
  luaL_checkinteger : lua_value -> option Z;
  luaL_checknumber : lua_value -> option Z;
  luaL_checklstring : lua_value -> option (list Z);
}.

(** What they do with a value that already has the type asked for. *)
Class LuaApiLaws (api : lua_api) : Prop := {
  checkinteger_int z : luaL_checkinteger api (LInt z) = Some z;
  checknumber_float u : luaL_checknumber api (LFloat u) = Some u;
  checklstring_str s : luaL_checklstring api (LStr s) = Some s;
}.

(** Computations over globals [S]: the globals afterwards, the text printed,
    and the result ([None] is a raised Lua error). *)
Definition LuaM (S A : Type) : Type := S -> S * list Z * option A.

Definition lret {S A} (a : A) : LuaM S A := fun s => (s, [], Some a).
Definition lraise {S A} : LuaM S A := fun s => (s, [], None).
Definition lbind {S A B} (m : LuaM S A) (f : A -> LuaM S B) : LuaM S B := fun s =>
  let '(s, out, r) := m s in
  match r with
  | Some a => let '(s, out', r) := f a s in (s, out ++ out', r)
  | None => (s, out, None)
  end.
Definition lget {S} : LuaM S S := fun s => (s, [], Some s).
Definition lmodify {S} (f : S -> S) : LuaM S unit := fun s => (f s, [], Some tt).
Definition lprint {S} (text : list Z) : LuaM S unit := fun s => (s, text, Some tt).
Definition lcheck {S A} (o : option A) : LuaM S A :=
  match o with Some a => lret a | None => lraise end.

Declare Scope lua_scope.
Delimit Scope lua_scope with lua.
Notation "'do' p <- m ; f" := (lbind m (fun p => f))
  (at level 10, p pattern, m at level 200, f at level 200) : lua_scope.
Notation "m ;; f" := (lbind m (fun _ => f)) (at level 100, f at level 200, right associativity) : lua_scope.
Open Scope lua_scope.

(** [luaL_check*(L, n)]; arguments count from 1. *)
Definition arg (args : list lua_value) (n : nat) : lua_value := nth (n - 1) args LNil.

(** ** Computations that run alike

    From related globals they lead to related globals, print the same text, and both
    return related values or both raise. *)
Section relational.
Context {S T : Type} (same : S -> T -> Prop).

Definition relates {A B} (R : A -> B -> Prop) (m : LuaM S A) (m' : LuaM T B) : Prop :=
  forall s t, same s t ->
  same (m s).1.1 (m' t).1.1 /\ (m s).1.2 = (m' t).1.2 /\ option_Forall2 R (m s).2 (m' t).2.

Lemma relates_ret {A B} (R : A -> B -> Prop) a b : R a b -> relates R (lret a) (lret b).
Proof. intros HR s t Hst. split; [done|]. split; [done|]. by constructor. Qed.

Lemma relates_bind {A B C D} (R : A -> B -> Prop) (Q : C -> D -> Prop) m m' f f' :
  relates R m m' -> (forall a b, R a b -> relates Q (f a) (f' b)) -> relates Q (lbind m f) (lbind m' f').
Proof.
  intros Hm Hf s t Hst. unfold lbind. destruct (Hm s t Hst) as (H1 & H2 & H3).
  destruct (m s) as [[s1 o1] r1], (m' t) as [[t1 o2] r2]. cbn [fst snd] in *. subst o2.
  destruct H3 as [a b HR|]; [|split; [done|split; [done|constructor]]]. destruct (Hf a b HR s1 t1 H1) as (H4 & H5 & H6).
  destruct (f a s1) as [[s2 o3] r3], (f' b t1) as [[t2 o4] r4]. cbn [fst snd] in *.
  by subst o4.
Qed.

Lemma relates_modify (f : S -> S) (g : T -> T) :
  (forall s t, same s t -> same (f s) (g t)) -> relates eq (lmodify f) (lmodify g).
Proof. intros H s t Hst. split; [by apply H|]. split; [done|]. by constructor. Qed.

Lemma relates_get : relates same lget lget.
Proof. intros s t Hst. split; [done|]. split; [done|]. by constructor. Qed.

Lemma relates_print text text' : text = text' -> relates eq (lprint text) (lprint text').
Proof. intros -> s t Hst. split; [done|]. split; [done|]. by constructor. Qed.

Lemma relates_raise {A B} (R : A -> B -> Prop) : relates R lraise lraise.
Proof. intros s t Hst. split; [exact Hst|]. split; [done|constructor]. Qed.

Lemma relates_check {A B} (R : A -> B -> Prop) o o' : option_Forall2 R o o' -> relates R (lcheck o) (lcheck o').
Proof. intros []; [by apply relates_ret|apply relates_raise]. Qed.

Lemma relates_some {A B} (R : A -> B -> Prop) a b :
  R a b -> relates R (lcheck (Some a)) (lcheck (Some b)).
Proof. apply relates_ret. Qed.
End relational.
Arguments relates_bind {S T same A B C D}.
Arguments relates_some {S T same A B}.
Arguments relates_check {S T same A B}.

(** ** Console bindings (lua_det_bindings_k.c) *)
Module ConsoleK.

Record globals := Globals {
  fs : frame_state_t;
  cs : cart_state_lua_simple_t;
  g_rng : pcg32_t;
  g_load_resume : Z;
  g_num_frames : Z;
}.

Definition set_fs (v : frame_state_t) (s : globals) : globals :=
  Globals v (cs s) (g_rng s) (g_load_resume s) (g_num_frames s).
Definition set_cs (v : cart_state_lua_simple_t) (s : globals) : globals :=
  Globals (fs s) v (g_rng s) (g_load_resume s) (g_num_frames s).
Definition set_g_rng (v : pcg32_t) (s : globals) : globals :=
  Globals (fs s) (cs s) v (g_load_resume s) (g_num_frames s).

(** regions_lua_simple.c. *)
Definition runtime_tracked_regions : list (region globals) :=
  [Region region_frame_state fs set_fs; Region region_cart_state_lua_simple cs set_cs].

(** The C globals before [main]. *)
Definition globals_bss : globals := Globals frame_state_zero cart_state_zero (Pcg32 0 0) 0 30.

Definition cart_det_init (s : globals) : globals :=
  let s := set_g_rng (pcg32_seed PCG_DEFAULT_STATE PCG_DEFAULT_INC) s in
  set_fs (set_rng (state (g_rng s)) (inc (g_rng s)) (fs s)) s.

Definition cart_det_set_load_resume (b : Z) (s : globals) : globals :=
  Globals (fs s) (cs s) (g_rng s) b (g_num_frames s).

Definition cart_det_set_num_frames (n : Z) (s : globals) : globals :=
  Globals (fs s) (cs s) (g_rng s) (g_load_resume s) n.

Definition cart_det_resync_rng_from_fs (s : globals) : globals :=
  set_g_rng (Pcg32 (rng_state (fs s)) (rng_inc (fs s))) s.

Definition binding : Type := list lua_value -> LuaM globals (list lua_value).

Section bindings.
Context (api : lua_api).

Definition l_rng : binding := fun _ =>
  do s <- lget;
  let '(r, v) := pcg32_next (g_rng s) in
  lmodify (set_g_rng r);; lret [LInt (i32 v)].

Definition l_unit_float : binding := fun _ =>
  do s <- lget;
  let '(r, f) := pcg32_unit_float (g_rng s) in
  lmodify (set_g_rng r);; lret [LFloat f].

Definition l_add_misc : binding := fun args =>
  do v <- lcheck (luaL_checknumber api (arg args 1));
  lmodify (fun s => set_fs (set_accum_misc (f32_add (accum_misc (fs s)) v) (fs s)) s);;
  lret [].

Definition l_frame : binding := fun _ =>
  do s <- lget; lret [LInt (i32 (frame (fs s)))].

Definition l_commit_frame : binding := fun _ =>
  lmodify (fun s => set_fs (set_rng (state (g_rng s)) (inc (g_rng s)) (fs s)) s);;
  do s <- lget;
  let '(fs', line) := frame_state_emit_digest (fs s) in
  lmodify (set_fs fs');; lprint line;;
  lmodify (fun s => set_fs (set_frame (u32 (frame (fs s) + 1)) (fs s)) s);;
  lret [].

(** [cs->entities[idx].x = v] and its siblings. *)
Definition set_entity_field (idx : Z) (f : entity -> entity) (s : globals) : globals :=
  set_cs (CartState (alter f (Z.to_nat idx) (entities (cs s)))) s.

Definition l_set_entity : binding := fun args =>
  do idx <- lcheck (luaL_checkinteger api (arg args 1));
  if (idx <? 0) || (LUA_SIMPLE_NUM_ENTITIES <=? idx) then lret []
  else
    do x <- lcheck (luaL_checknumber api (arg args 2));
    lmodify (set_entity_field idx (fun e => Entity x (ey e) (ea e)));;
    do y <- lcheck (luaL_checknumber api (arg args 3));
    lmodify (set_entity_field idx (fun e => Entity (ex e) y (ea e)));;
    do a <- lcheck (luaL_checknumber api (arg args 4));
    lmodify (set_entity_field idx (fun e => Entity (ex e) (ey e) a));;
    lret [].

Definition l_get_entity : binding := fun args =>
  do idx <- lcheck (luaL_checkinteger api (arg args 1));
  if (idx <? 0) || (LUA_SIMPLE_NUM_ENTITIES <=? idx) then lret [LNil; LNil; LNil]
  else
    do s <- lget;
    let e := nth (Z.to_nat idx) (entities (cs s)) (Entity 0 0 0) in
    lret [LFloat (ex e); LFloat (ey e); LFloat (ea e)].

Definition l_is_load_resume : binding := fun _ =>
  do s <- lget; lret [LBool (negb (g_load_resume s =? 0))].

Definition l_num_frames : binding := fun _ =>
  do s <- lget; lret [LInt (g_num_frames s)].
End bindings.
End ConsoleK.

(** ** The lua_simple cart (det_lua_simple.lua, lua_simple_*.c) *)
Module LuaSimple.
Import ConsoleK.

(** [for i = i, ...] with [n] rounds. *)
Fixpoint lfor {S} (n : nat) (i : Z) (body : Z -> LuaM S unit) : LuaM S unit :=
  match n with
  | O => lret tt
  | S n => body i;; lfor n (i + 1) body
  end.

(** The numbers the script computes with are floats: every operand comes from
    a binding that pushes a [lua_Number]. *)
Definition as_float {S} (v : lua_value) : LuaM S Z :=
  match v with LFloat u => lret u | _ => lraise end.

Definition f32_lt (a b : Z) : bool := SFltb (f32_of_bits a) (f32_of_bits b).

(** The script's literals as the guest's [strtof] reads them ([DetHost.literals_read]):
    the last digits of 0.03, 2 pi and pi are off. *)
Definition f32_0_03 : Z := 0x3cf5c290.
Definition f32_128 : Z := 0x43000000.
Definition f32_two_pi : Z := 0x40c90fda.
Definition f32_pi : Z := 0x40490fd9.

Local Infix "+f" := f32_add (at level 50, left associativity).
Local Infix "-f" := f32_sub (at level 50, left associativity).
Local Infix "*f" := f32_mul (at level 40, left associativity).

Section script.
Context (api : lua_api) (m : libm).

(** [console.num_entities]. *)
Definition num_entities : nat := 8.

(** One scaled [console.unit_float()]. *)
Definition unit_scaled (scale : Z) : LuaM globals Z :=
  do r <- l_unit_float [];
  do v <- as_float (arg r 1);
  lret (v *f scale).

Definition init_entities : LuaM globals unit :=
  lfor num_entities 0 (fun i =>
    do x <- unit_scaled f32_128;
    do y <- unit_scaled f32_128;
    do a <- unit_scaled f32_two_pi;
    do _ <- l_set_entity api [LInt i; LFloat x; LFloat y; LFloat a];
    lret tt).

(** [x < 0 or x > 128]. *)
Definition outside (x : Z) : bool := f32_lt x f32_zero || f32_lt f32_128 x.

(** The body of the loop in [update_entities]. *)
Definition update_entity (i : Z) : LuaM globals unit :=
  do r <- l_get_entity api [LInt i];
  do x <- as_float (arg r 1);
  do y <- as_float (arg r 2);
  do a <- as_float (arg r 3);
  let a := a +f f32_0_03 in
  let vx := sinf m a in
  let vy := cosf m a in
  let x := x +f vx in
  let y := y +f vy in
  let '(a, vx) := if outside x then (f32_neg a, f32_neg vx) else (a, vx) in
  let '(a, vy) := if outside y then (f32_pi -f a, f32_neg vy) else (a, vy) in
  do _ <- l_add_misc api [LFloat (vx +f vy *f f32_half)];
  do _ <- l_set_entity api [LInt i; LFloat x; LFloat y; LFloat a];
  lret tt.

Definition update_entities : LuaM globals unit := lfor num_entities 0 update_entity.

(** One round of the frame loop. *)
Definition frame_round : LuaM globals unit :=
  update_entities;; do _ <- l_commit_frame []; lret tt.

(** [for f = start, last - 1], whose body does not use [f]. *)
Definition frame_loop (start last : Z) : LuaM globals unit :=
  lfor (Z.to_nat (last - start)) start (fun _ => frame_round).

Definition as_int {S} (v : lua_value) : LuaM S Z :=
  match v with LInt z => lret z | _ => lraise end.

(** The end of the script: its frame loop from [console.frame()]. *)
Definition script_frames : LuaM globals unit :=
  do r <- l_num_frames [];
  do last <- as_int (arg r 1);
  do r <- l_frame [];
  do start <- as_int (arg r 1);
  frame_loop start last.

Definition script : LuaM globals unit :=
  do r <- l_is_load_resume [];
  (match arg r 1 with LBool true => lret tt | _ => init_entities end);;
  script_frames.
End script.

(** *** The drivers *)

Section drivers.
Context (api : lua_api) (m : libm).
(** What Lua contributes to the drivers: whether a state can be created, the
    message of a script that does not load, and the message of a raised error. *)
Context (newstate_ok : bool) (load_error : option (list Z)) (pcall_error : list Z).

(** From [luaL_newstate] to [lua_pcall]: the globals, the text printed, and
    whether the script ran to its end. *)
Definition run_script (who : list Z) (s : globals) : globals * list Z * bool :=
  if negb newstate_ok then
    (s, printf_s (cstr "PANIC " ++ who ++ cstr ": luaL_newstate failed" ++ [10]), false)
  else match load_error with
  | Some msg => (s, printf_s (cstr "PANIC " ++ who ++ cstr " load: " ++ msg ++ [10]), false)
  | None =>
      match script api m s with
      | (s, out, Some _) => (s, out, true)
      | (s, out, None) =>
          (s, out ++ printf_s (cstr "PANIC " ++ who ++ cstr " pcall: " ++ pcall_error ++ [10]), false)
      end
  end.

Definition main_full : option (exit_state globals) :=
  match save_state_init runtime_tracked_regions with
  | None => None
  | Some ctx =>
      let s := cart_det_init globals_bss in
      let s := cart_det_set_load_resume 0 s in
      let s := cart_det_set_num_frames NFRAMES s in
      let '(s, text, ok) := run_script (cstr "lua_simple_full") s in
      Some (Exit text (if ok then 0 else 1) (ctx, s))
  end.

Definition main_save (argv : list (list Z)) : option (exit_state globals) :=
  let save_frame := save_frame_arg argv 15 in
  match save_state_init runtime_tracked_regions with
  | None => None
  | Some ctx =>
      let s := cart_det_init globals_bss in
      let s := cart_det_set_load_resume 0 s in
      let s := cart_det_set_num_frames (i32 (i32 save_frame + 1)) s in
      let '(s, text, ok) := run_script (cstr "lua_simple_save") s in
      if negb ok then Some (Exit text 1 (ctx, s))
      else
        match save_and_emit runtime_tracked_regions
                (cstr "PANIC lua_simple_save: save_state_save returned 0" ++ [10])
                (ctx, s) save_frame with
        | None => None
        | Some e => Some (Exit (text ++ out e) (code e) (Replay.globals e))
        end
  end.

Definition panics : load_panics := {|
  p_read := cstr "PANIC lua_simple_load: cannot read buffer" ++ [10];
  p_hex _ := cstr "PANIC lua_simple_load: hex parse failed" ++ [10];
  p_rejected _ _ := cstr "PANIC lua_simple_load: save_state_load rejected buffer" ++ [10];
|}.

Context {W : Type} (sys_open : list Z -> W -> W * Z)
  (sys_read : Z -> Z -> W -> W * Z * list Z) (sys_close : Z -> W -> W * Z).

Definition main_load (argv : list (list Z)) (w : W) : option (W * exit_state globals) :=
  match argv with
  | _ :: path :: _ =>
      match save_state_init runtime_tracked_regions with
      | None => None
      | Some ctx =>
          let s := cart_det_init globals_bss in
          match load_buffer runtime_tracked_regions sys_open sys_read sys_close
                  panics (ctx, s) path w with
          | None => None
          | Some (w, inr e) => Some (w, e)
          | Some (w, inl (ctx, s)) =>
              let s := cart_det_resync_rng_from_fs s in
              let s := cart_det_set_load_resume 1 s in
              let s := cart_det_set_num_frames NFRAMES s in
              let '(s, text, ok) := run_script (cstr "lua_simple_load") s in
              Some (w, Exit text (if ok then 0 else 1) (ctx, s))
          end
      end
  | _ =>
      Some (w, Exit (cstr "PANIC lua_simple_load: usage: <buffer-hex-file>" ++ [10]) 1
                 (ctx_bss, globals_bss))
  end.
End drivers.

(** *** The same up to NaN encodings *)

(** States the digests cannot tell apart, and values that are the same number. *)
Definition same (s t : globals) : Prop :=
  frame_state_canonicalize (fs s) = frame_state_canonicalize (fs t) /\
  canonicalize (cs s) = canonicalize (cs t) /\ g_rng s = g_rng t.

Definition vrel (v w : lua_value) : Prop :=
  match v, w with LFloat a, LFloat b => feq a b | _, _ => v = w end.

#[export] Instance vrel_refl : Reflexive vrel.
Proof. intros []; cbn; done. Qed.

Lemma relates_for n i body body' :
  (forall i, relates same eq (body i) (body' i)) -> relates same eq (lfor n i body) (lfor n i body').
Proof.
  intros H. revert i; induction n as [|n IH]; intros i; cbn [lfor]; [by apply relates_ret|].
  eapply relates_bind; [apply H|]. intros _ _ _. apply IH.
Qed.

Lemma lrel_as_float v w : vrel v w -> relates same feq (as_float v) (as_float w).
Proof.
  destruct v, w; cbn [vrel as_float]; intros H; try discriminate; try apply relates_raise.
  by apply relates_ret.
Qed.

(** *** The bindings respect it *)

Lemma same_set_cs f g s t :
  same s t -> canonicalize (f (cs s)) = canonicalize (g (cs t)) ->
  same (set_cs (f (cs s)) s) (set_cs (g (cs t)) t).
Proof. intros (H1 & _ & H3) H. done. Qed.

Lemma rel_unit_float : relates same (Forall2 vrel) (l_unit_float []) (l_unit_float []).
Proof.
  unfold l_unit_float. eapply relates_bind; [apply relates_get|]. intros s t (_ & _ & E). rewrite E.
  destruct (pcg32_unit_float (g_rng t)) as [r f].
  eapply relates_bind; [apply relates_modify; by intros ? ? (H1 & H2 & _)|].
  intros _ _ _. apply relates_ret. by repeat constructor.
Qed.

Lemma rel_commit_frame : relates same (Forall2 vrel) (l_commit_frame []) (l_commit_frame []).
Proof.
  unfold l_commit_frame. eapply relates_bind.
  { apply relates_modify. intros s t (H1 & H2 & H3). split; [|done]. rewrite H3. cbn [fs set_fs].
    unfold frame_state_canonicalize in *. cbn in *. injection H1. congruence. }
  intros _ _ _. eapply relates_bind; [apply relates_get|]. intros s t (H1 & _ & _).
  unfold frame_state_emit_digest. rewrite H1.
  eapply relates_bind; [apply relates_modify; by intros ? ? (_ & H2 & H3)|].
  intros _ _ _. eapply relates_bind; [by apply relates_print|]. intros _ _ _.
  eapply relates_bind; [|intros _ _ _; by apply relates_ret].
  apply relates_modify. intros s' t' (H4 & H5 & H6). split; [|done]. cbn [fs set_fs].
  assert (frame (fs s') = frame (fs t')) as <- by by injection H4.
  by apply canon_set_frame.
Qed.

Section api_laws.
Context (api : lua_api) {laws : LuaApiLaws api} (m : libm) {mlaws : LibmLaws m}.

Lemma rel_add_misc u v :
  feq u v -> relates same (Forall2 vrel) (l_add_misc api [LFloat u]) (l_add_misc api [LFloat v]).
Proof.
  intros Huv. unfold l_add_misc, arg. cbn [nth Nat.sub]. rewrite !checknumber_float.
  eapply (relates_bind feq); [by apply relates_some|]. intros a b Hab.
  eapply relates_bind; [|intros _ _ _; by apply relates_ret].
  apply relates_modify. intros s t (H1 & H2 & H3). split; [|done]. cbn [fs set_fs].
  apply (canon_set_accum_misc_eq _ _ H1).
  assert (feq (accum_misc (fs s)) (accum_misc (fs t))) as Ha.
  { constructor. by destruct (canon_accums _ _ H1). }
  by rewrite Ha, Hab.
Qed.

Lemma nth_canon l l' n :
  map canonicalize_entity l = map canonicalize_entity l' ->
  canonicalize_entity (nth n l (Entity 0 0 0)) = canonicalize_entity (nth n l' (Entity 0 0 0)).
Proof. intros E. rewrite <-!(map_nth canonicalize_entity). by rewrite E. Qed.

Lemma entities_canon s t :
  same s t -> map canonicalize_entity (entities (cs s)) = map canonicalize_entity (entities (cs t)).
Proof. intros (_ & H & _). by injection H. Qed.

Lemma rel_get_entity i : relates same (Forall2 vrel) (l_get_entity api [LInt i]) (l_get_entity api [LInt i]).
Proof.
  unfold l_get_entity, arg. cbn [nth Nat.sub]. rewrite checkinteger_int.
  eapply relates_bind; [by apply (relates_some eq)|]. intros idx _ <-.
  destruct (_ || _); [by apply relates_ret|].
  eapply relates_bind; [apply relates_get|]. intros s t Hst. apply relates_ret.
  pose proof (nth_canon _ _ (Z.to_nat idx) (entities_canon s t Hst)) as E.
  injection E as Ex Ey Ea. repeat constructor; done.
Qed.

Lemma same_set_entity_field i f g s t :
  (forall e e', canonicalize_entity e = canonicalize_entity e' ->
     canonicalize_entity (f e) = canonicalize_entity (g e')) ->
  same s t -> same (set_entity_field i f s) (set_entity_field i g t).
Proof.
  intros Hfg Hst. apply (same_set_cs (fun c => CartState (alter f (Z.to_nat i) (entities c)))
    (fun c => CartState (alter g (Z.to_nat i) (entities c)))); [done|].
  unfold canonicalize. cbn [entities]. f_equal. pose proof (entities_canon s t Hst) as E.
  apply list_eq. intros j. pose proof (f_equal (fun l => l !! j) E) as Ej. cbn beta in Ej.
  rewrite !list_lookup_fmap in Ej |- *.
  destruct (decide (j = Z.to_nat i)) as [->|Hne].
  - rewrite !list_lookup_alter_eq. destruct (entities (cs s) !! Z.to_nat i) as [e|],
      (entities (cs t) !! Z.to_nat i) as [e'|]; cbn in *; try congruence.
    f_equal. apply Hfg. congruence.
  - by rewrite !list_lookup_alter_ne by done.
Qed.

Lemma rel_set_field i f g :
  (forall e e', canonicalize_entity e = canonicalize_entity e' ->
     canonicalize_entity (f e) = canonicalize_entity (g e')) ->
  relates same eq (lmodify (set_entity_field i f)) (lmodify (set_entity_field i g)).
Proof. intros H. apply relates_modify. intros s t Hst. by apply same_set_entity_field. Qed.

Lemma rel_set_entity i x y a x' y' a' :
  feq x x' -> feq y y' -> feq a a' ->
  relates same (Forall2 vrel) (l_set_entity api [LInt i; LFloat x; LFloat y; LFloat a])
    (l_set_entity api [LInt i; LFloat x'; LFloat y'; LFloat a']).
Proof.
  intros Hx Hy Ha. unfold l_set_entity, arg. cbn [nth Nat.sub].
  rewrite checkinteger_int, !checknumber_float.
  eapply relates_bind; [by apply (relates_some eq)|]. intros idx _ <-.
  destruct (_ || _); [by apply relates_ret|].
  assert (forall f g : Z -> entity -> entity,
    (forall u v e e', feq u v -> canonicalize_entity e = canonicalize_entity e' ->
       canonicalize_entity (f u e) = canonicalize_entity (g v e')) -> forall u v m1 m2,
    feq u v -> relates same (Forall2 vrel) m1 m2 ->
    relates same (Forall2 vrel)
      (do x <- lcheck (Some u); lmodify (set_entity_field idx (f x));; m1)
      (do x <- lcheck (Some v); lmodify (set_entity_field idx (g x));; m2)) as Hstep.
  { intros f g Hfg u v m1 m2 Huv Hm. eapply (relates_bind feq); [by apply relates_some|].
    intros u' v' Huv'. eapply relates_bind; [apply rel_set_field; auto|]. by intros _ _ _. }
  assert (forall u v e e', feq u v -> canonicalize_entity e = canonicalize_entity e' ->
    canonicalize_entity (Entity u (ey e) (ea e)) = canonicalize_entity (Entity v (ey e') (ea e')) /\
    canonicalize_entity (Entity (ex e) u (ea e)) = canonicalize_entity (Entity (ex e') v (ea e')) /\
    canonicalize_entity (Entity (ex e) (ey e) u) = canonicalize_entity (Entity (ex e') (ey e') v)) as Hf.
  { intros u v e e' [Huv]. unfold canonicalize_entity. cbn. intros; split_and!; congruence. }
  apply (Hstep (fun x e => Entity x (ey e) (ea e)) (fun x e => Entity x (ey e) (ea e)));
    [intros u v e e' H1 H2; by apply (Hf u v e e' H1 H2)|done|].
  apply (Hstep (fun x e => Entity (ex e) x (ea e)) (fun x e => Entity (ex e) x (ea e)));
    [intros u v e e' H1 H2; by apply (Hf u v e e' H1 H2)|done|].
  apply (Hstep (fun x e => Entity (ex e) (ey e) x) (fun x e => Entity (ex e) (ey e) x));
    [intros u v e e' H1 H2; by apply (Hf u v e e' H1 H2)|done|].
  by apply relates_ret.
Qed.

Lemma rel_update_entity i : relates same eq (update_entity api m i) (update_entity api m i).
Proof.
  unfold update_entity. eapply relates_bind; [apply rel_get_entity|]. intros r r' Hr.
  assert (forall n, vrel (arg r n) (arg r' n)) as Harg.
  { intros n. unfold arg. generalize (n - 1)%nat. clear n. induction Hr as [|v w r r' Hv Hr IH];
      intros [|n]; cbn [nth]; done. }
  eapply relates_bind; [apply lrel_as_float, Harg|]. intros x x' Hx.
  eapply relates_bind; [apply lrel_as_float, Harg|]. intros y y' Hy.
  eapply relates_bind; [apply lrel_as_float, Harg|]. intros a a' Ha.
  assert (a +f f32_0_03 = a' +f f32_0_03) as -> by by rewrite Ha.
  set (a1 := a' +f f32_0_03).
  assert (x +f sinf m a1 = x' +f sinf m a1) as -> by by rewrite Hx.
  assert (y +f cosf m a1 = y' +f cosf m a1) as -> by by rewrite Hy.
  destruct (if outside (x' +f sinf m a1) then _ else _) as [a2 vx].
  destruct (if outside (y' +f cosf m a1) then _ else _) as [a3 vy].
  eapply relates_bind; [by apply rel_add_misc|]. intros _ _ _.
  eapply relates_bind; [by apply rel_set_entity|]. intros _ _ _. by apply relates_ret.
Qed.

Lemma rel_frame_round : relates same eq (frame_round api m) (frame_round api m).
Proof.
  unfold frame_round. eapply relates_bind; [apply relates_for; apply rel_update_entity|]. intros _ _ _.
  eapply relates_bind; [apply rel_commit_frame|]. intros _ _ _. by apply relates_ret.
Qed.

(** *** Runs without errors, well-formedness and the frame counter *)

(** A computation that never raises and keeps an invariant of the globals. *)
Definition lsafe {A} (I : globals -> Prop) (Q : A -> Prop) (c : LuaM globals A) : Prop :=
  forall s, I s -> I (c s).1.1 /\ exists a, (c s).2 = Some a /\ Q a.

Lemma lsafe_ret {A} I (Q : A -> Prop) a : Q a -> lsafe I Q (lret a).
Proof. intros HQ s Hs. split; [done|]. by exists a. Qed.

Lemma lsafe_bind {A B} I (Q : A -> Prop) (R : B -> Prop) c f :
  lsafe I Q c -> (forall a, Q a -> lsafe I R (f a)) -> lsafe I R (lbind c f).
Proof.
  intros Hc Hf s Hs. unfold lbind. destruct (Hc s Hs) as (H1 & a & E & Ha).
  destruct (c s) as [[s1 o] r]. cbn [fst snd] in *. subst r.
  specialize (Hf a Ha s1 H1). destruct (f a s1) as [[s2 o2] r2]. exact Hf.
Qed.

Lemma lsafe_modify I f : (forall s, I s -> I (f s)) -> lsafe I (fun _ => True) (lmodify f).
Proof. intros H s Hs. split; [by apply H|]. by exists tt. Qed.

Lemma lsafe_get I : lsafe I I lget.
Proof. intros s Hs. split; [done|]. by exists s. Qed.

Lemma lsafe_print I text : lsafe I (fun _ => True) (lprint text).
Proof. intros s Hs. split; [done|]. by exists tt. Qed.

Lemma lsafe_for I n i body :
  (forall i, lsafe I (fun _ => True) (body i)) -> lsafe I (fun _ => True) (lfor n i body).
Proof.
  intros H. revert i; induction n as [|n IH]; intros i; cbn [lfor]; [by apply lsafe_ret|].
  eapply lsafe_bind; [apply H|]. intros _ _. apply IH.
Qed.

(** The globals a cart can reach. *)
Definition wf (s : globals) : Prop :=
  lwf frame_state_layout (fs s) /\ lwf layout (cs s) /\ pcg32_ok (g_rng s).
End api_laws.

Section safety.
Context (api : lua_api) {laws : LuaApiLaws api} (m : libm) {mlaws : LibmLaws m}.

(** The globals between two commits: reachable, with the frame number [c] and
    the driver's settings [cfg]. *)
Definition settings (s : globals) : Z * Z := (g_load_resume s, g_num_frames s).
Definition at_frame (cfg : Z * Z) (c : Z) (s : globals) : Prop :=
  wf s /\ frame (fs s) = c /\ settings s = cfg.

Definition word (u : Z) : Prop := 0 <= u < 2 ^ 32.

Lemma word_arith a b : word (a +f b) /\ word (a -f b) /\ word (a *f b).
Proof. destruct (f32_arith_range a b 0) as (? & ? & ? & _). done. Qed.

Lemma word_neg u : word u -> word (f32_neg u).
Proof. intros. apply (lxor_range 32); [done..|]. unfold word. lia. Qed.

Lemma safe_add_misc cfg c u : lsafe (at_frame cfg c) (fun _ => True) (l_add_misc api [LFloat u]).
Proof.
  unfold l_add_misc, arg. cbn [nth Nat.sub]. rewrite checknumber_float.
  eapply lsafe_bind; [by apply (lsafe_ret _ (fun v => True))|]. intros v _.
  eapply lsafe_bind; [|intros; by apply lsafe_ret]. apply lsafe_modify.
  intros s ((H1 & H2 & H3) & Hf). split; [|exact Hf]. split; [|done].
  cbn [fs set_fs]. apply set_accum_misc_wf; [apply word_arith|done].
Qed.

Lemma safe_get_entity cfg c i :
  0 <= i < 8 ->
  lsafe (at_frame cfg c) (fun r => exists x y a, r = [LFloat x; LFloat y; LFloat a] /\
    word x /\ word y /\ word a) (l_get_entity api [LInt i]).
Proof.
  intros Hi. unfold l_get_entity, arg. cbn [nth Nat.sub]. rewrite checkinteger_int.
  eapply lsafe_bind; [by apply (lsafe_ret _ (fun v => v = i))|]. intros idx ->.
  destruct (Z.ltb_spec i 0); [lia|]. unfold LUA_SIMPLE_NUM_ENTITIES.
  destruct (Z.leb_spec 8 i); [lia|]. cbn [orb].
  eapply lsafe_bind; [apply lsafe_get|]. intros s ((_ & (Hl & He) & _) & _). apply lsafe_ret.
  set (e := nth (Z.to_nat i) _ _). exists (ex e), (ey e), (ea e). split; [done|].
  assert (lwf entity_layout e) as (Hx & Hy & Ha).
  { rewrite Forall_forall in He. apply He. apply list_elem_of_In, nth_In.
    cbn [fst struct] in Hl. lia. }
  done.
Qed.

Lemma at_frame_set_field cfg c i f s :
  (forall e, lwf entity_layout e -> lwf entity_layout (f e)) ->
  at_frame cfg c s -> at_frame cfg c (set_entity_field i f s).
Proof.
  intros Hf ((H1 & (Hl & He) & H3) & Hc). split; [|exact Hc]. split; [exact H1|].
  split; [|exact H3]. split; cbn [cs set_entity_field set_cs entities] in *.
  - by rewrite length_alter.
  - apply Forall_alter; [exact He|]. intros e _. apply Hf.
Qed.

Lemma safe_set_entity cfg c i x y a :
  word x -> word y -> word a ->
  lsafe (at_frame cfg c) (fun _ => True) (l_set_entity api [LInt i; LFloat x; LFloat y; LFloat a]).
Proof.
  intros Hx Hy Ha. unfold l_set_entity, arg. cbn [nth Nat.sub].
  rewrite checkinteger_int, !checknumber_float.
  eapply lsafe_bind; [by apply (lsafe_ret _ (fun v => True))|]. intros idx _.
  destruct (_ || _); [by apply lsafe_ret|].
  assert (forall f : Z -> entity -> entity,
    (forall u e, word u -> lwf entity_layout e -> lwf entity_layout (f u e)) ->
    forall u k, word u -> lsafe (at_frame cfg c) (fun _ => True) k ->
    lsafe (at_frame cfg c) (fun _ => True)
      (do x <- lcheck (Some u); lmodify (set_entity_field idx (f x));; k : LuaM globals (list lua_value)))
    as Hstep.
  { intros f Hf u k Hu Hk. eapply lsafe_bind; [by apply (lsafe_ret _ word)|]. intros v Hv.
    eapply lsafe_bind; [apply lsafe_modify; intros s Hs; apply at_frame_set_field; [intros e; by apply Hf|done]|].
    by intros _ _. }
  apply (Hstep (fun x e => Entity x (ey e) (ea e))); [by intros ? ? ? (_ & ? & ?)|done|].
  apply (Hstep (fun x e => Entity (ex e) x (ea e))); [by intros ? ? ? (? & _ & ?)|done|].
  apply (Hstep (fun x e => Entity (ex e) (ey e) x)); [by intros ? ? ? (? & ? & _)|done|].
  by apply lsafe_ret.
Qed.

Lemma safe_update_entity cfg c i :
  0 <= i < 8 -> lsafe (at_frame cfg c) (fun _ => True) (update_entity api m i).
Proof.
  intros Hi. unfold update_entity. eapply lsafe_bind; [by apply safe_get_entity|].
  intros r (x & y & a & -> & Hx & Hy & Ha). unfold arg. cbn [nth Nat.sub as_float].
  eapply lsafe_bind; [by apply (lsafe_ret _ (fun v => v = x))|]. intros ? ->.
  eapply lsafe_bind; [by apply (lsafe_ret _ (fun v => v = y))|]. intros ? ->.
  eapply lsafe_bind; [by apply (lsafe_ret _ (fun v => v = a))|]. intros ? ->.
  set (a1 := a +f f32_0_03). assert (word a1) as Ha1 by apply word_arith.
  assert (word (x +f sinf m a1) /\ word (y +f cosf m a1)) as [Hx1 Hy1] by (split; apply word_arith).
  assert (forall a2 u, word a2 -> lsafe (at_frame cfg c) (fun _ => True)
    (do _ <- l_add_misc api [LFloat u];
     do _ <- l_set_entity api [LInt i; LFloat (x +f sinf m a1); LFloat (y +f cosf m a1); LFloat a2];
     lret tt)) as Htail.
  { intros a2 u Ha2. eapply lsafe_bind; [apply safe_add_misc|]. intros _ _.
    eapply lsafe_bind; [by apply safe_set_entity|]. intros _ _. by apply lsafe_ret. }
  destruct (outside (x +f sinf m a1)), (outside (y +f cosf m a1));
    apply Htail; auto using word_neg; apply word_arith.
Qed.

Lemma lsafe_for_range I n i lo hi body :
  (forall i, lo <= i < hi -> lsafe I (fun _ => True) (body i)) -> lo <= i -> i + Z.of_nat n <= hi ->
  lsafe I (fun _ => True) (lfor n i body).
Proof.
  intros H. revert i; induction n as [|n IH]; intros i Hlo Hhi; cbn [lfor]; [by apply lsafe_ret|].
  eapply lsafe_bind; [apply H; lia|]. intros _ _. apply IH; lia.
Qed.

Lemma safe_update_entities cfg c : lsafe (at_frame cfg c) (fun _ => True) (update_entities api m).
Proof.
  apply (lsafe_for_range _ 8 0 0 8); [|lia|done]. intros i Hi. by apply safe_update_entity.
Qed.

Lemma unit_float_ok r :
  pcg32_ok r -> pcg32_ok (pcg32_unit_float r).1 /\ word (pcg32_unit_float r).2.
Proof.
  intros Hr. destruct (pcg32_next_ok r Hr) as [H1 H2]. unfold pcg32_unit_float.
  destruct (pcg32_next r) as [r' v]. split; [exact H1|apply word_arith].
Qed.

Lemma safe_unit_scaled cfg c k : lsafe (at_frame cfg c) word (unit_scaled k).
Proof.
  unfold unit_scaled. eapply (lsafe_bind _ (fun r => exists u, r = [LFloat u])).
  - unfold l_unit_float. intros s Hs. unfold lbind, lget.
    pose proof (unit_float_ok (g_rng s)) as Hok.
    destruct (pcg32_unit_float (g_rng s)) as [r f]. cbn [fst snd lmodify lret app] in *.
    destruct Hs as ((H1 & H2 & H3) & Hc). destruct (Hok H3) as [Hr _].
    split; [by split|]. eexists. split; [done|]. by exists f.
  - intros r (u & ->). eapply (lsafe_bind _ (fun _ => True)); [by apply lsafe_ret|].
    intros v _. apply lsafe_ret. apply word_arith.
Qed.

Lemma safe_init_entities cfg c : lsafe (at_frame cfg c) (fun _ => True) (init_entities api).
Proof.
  apply lsafe_for. intros i. eapply lsafe_bind; [apply safe_unit_scaled|]. intros x Hx.
  eapply lsafe_bind; [apply safe_unit_scaled|]. intros y Hy.
  eapply lsafe_bind; [apply safe_unit_scaled|]. intros a Ha.
  eapply lsafe_bind; [by apply safe_set_entity|]. intros _ _. by apply lsafe_ret.
Qed.

(** After a commit the frame state carries the generator and the next frame. *)
Definition committed (cfg : Z * Z) (c : Z) (s : globals) : Prop :=
  at_frame cfg c s /\ g_rng s = Pcg32 (rng_state (fs s)) (rng_inc (fs s)).

Lemma commit_frame_runs cfg c s :
  0 <= c < 2 ^ 32 - 1 -> at_frame cfg c s ->
  committed cfg (c + 1) (l_commit_frame [] s).1.1 /\ (l_commit_frame [] s).2 = Some [].
Proof.
  intros Hc ((H1 & H2 & H3) & Hf & Hcfg). split; [|done].
  unfold l_commit_frame, lbind, lmodify, lget, lprint, lret. cbn [fst snd].
  unfold frame_state_emit_digest. cbn [fst snd app fs set_fs].
  set (f1 := set_rng (state (g_rng s)) (inc (g_rng s)) (fs s)).
  assert (lwf frame_state_layout f1) as Hf1.
  { apply set_rng_wf; [apply H3|apply H3|done]. }
  apply frame_state_canonicalize_wf in Hf1.
  assert (frame (frame_state_canonicalize f1) = c) as Hfr by exact Hf.
  rewrite Hfr, wrap_small by lia. split; [split; [split; [|split]|]|].
  - apply set_frame_wf; [lia|done].
  - exact H2.
  - exact H3.
  - done.
  - cbn. by destruct (g_rng s).
Qed.

Lemma frame_round_runs cfg c s :
  0 <= c < 2 ^ 32 - 1 -> at_frame cfg c s ->
  committed cfg (c + 1) (frame_round api m s).1.1 /\ (frame_round api m s).2 = Some tt.
Proof.
  intros Hc Hs. unfold frame_round, lbind.
  destruct (safe_update_entities cfg c s Hs) as (H1 & [] & E & _).
  destruct (update_entities api m s) as [[s1 o] r]. cbn [fst snd] in *. subst r.
  destruct (commit_frame_runs cfg c s1 Hc H1) as [H2 E2].
  destruct (l_commit_frame [] s1) as [[s2 o2] r2]. cbn [fst snd] in *. subst r2. done.
Qed.
End safety.

Section replay.
Context (api : lua_api) {laws : LuaApiLaws api} (m : libm) {mlaws : LibmLaws m}.

(** [n] rounds of the frame loop; the loop variable is not used. *)
Definition rounds (n : nat) : LuaM globals unit := lfor n 0 (fun _ => frame_round api m).

Lemma rounds_any n i : lfor n i (fun _ => frame_round api m) = rounds n.
Proof.
  unfold rounds. generalize 0. revert i. induction n as [|n IH]; intros i j; cbn [lfor]; [done|].
  by rewrite (IH (i + 1) (j + 1)).
Qed.

Lemma rounds_S n s :
  rounds (S n) s = lbind (frame_round api m) (fun _ => rounds n) s.
Proof.
  change (rounds (S n) s) with
    (lbind (frame_round api m) (fun _ => lfor n (0 + 1) (fun _ => frame_round api m)) s).
  unfold lbind. destruct (frame_round api m s) as [[s1 o] [r|]]; [|done].
  by rewrite (rounds_any n (0 + 1)).
Qed.

Lemma rounds_run cfg n c s :
  0 <= c -> c + Z.of_nat n < 2 ^ 32 -> at_frame cfg c s ->
  at_frame cfg (c + Z.of_nat n) (rounds n s).1.1 /\
  ((0 < n)%nat -> committed cfg (c + Z.of_nat n) (rounds n s).1.1) /\ (rounds n s).2 = Some tt.
Proof.
  revert c s; induction n as [|n IH]; intros c s Hc Hn Hs.
  { rewrite Z.add_0_r. split; [done|]. split; [lia|done]. }
  rewrite rounds_S. unfold lbind.
  destruct (frame_round_runs api m cfg c s) as [H1 E]; [lia|done|].
  destruct (frame_round api m s) as [[s1 o] r]. cbn [fst snd] in *. subst r.
  destruct (IH (c + 1) s1) as (H2 & H3 & E2); [lia|lia|apply H1|].
  replace (c + 1 + Z.of_nat n) with (c + Z.of_nat (S n)) in * by lia.
  destruct n as [|n].
  - unfold rounds in *. cbn [lfor lret fst snd] in *.
    replace (c + Z.of_nat 1) with (c + 1) by lia. split; [apply H1|done].
  - destruct (rounds (S n) s1) as [[s2 o2] r2]. cbn [fst snd] in *.
    split; [done|]. split; [intros _; apply H3; lia|done].
Qed.

(** A run of [a + b] rounds is a run of [a] rounds and a run of [b] rounds. *)
Lemma rounds_app cfg a b c s :
  0 <= c -> c + Z.of_nat (a + b) < 2 ^ 32 -> at_frame cfg c s ->
  (rounds (a + b) s).1.2 = (rounds a s).1.2 ++ (rounds b (rounds a s).1.1).1.2.
Proof.
  revert c s; induction a as [|a IH]; intros c s Hc Hn Hs; [done|].
  cbn [Nat.add]. rewrite !rounds_S. unfold lbind.
  destruct (frame_round_runs api m cfg c s) as [H1 E]; [lia|done|].
  destruct (frame_round api m s) as [[s1 o] r]. cbn [fst snd] in *. subst r.
  specialize (IH (c + 1) s1 ltac:(lia) ltac:(lia) (proj1 H1)).
  destruct (rounds (a + b) s1) as [[s2 o2] r2]. destruct (rounds a s1) as [[s3 o3] r3].
  cbn [fst snd] in *. by rewrite IH, app_assoc.
Qed.

Lemma rel_rounds n : relates same eq (rounds n) (rounds n).
Proof. apply relates_for. intros _. by apply rel_frame_round. Qed.

(** The script on a fresh start and on a resume. *)
Lemma script_frames_rounds cfg c n s :
  at_frame (cfg, n) c s -> 0 <= c <= n -> n < 2 ^ 31 ->
  script_frames api m s = rounds (Z.to_nat (n - c)) s.
Proof.
  intros (_ & Hf & Hcfg) Hc Hn. injection Hcfg as Er En.
  cbv [script_frames lbind l_num_frames l_frame arg lget lret nth Nat.sub as_int].
  rewrite Hf, En, signed_small by lia. unfold frame_loop. rewrite rounds_any.
  by destruct (rounds (Z.to_nat (n - c)) s) as [[s2 o2] r2].
Qed.

Lemma script_fresh n s :
  at_frame (0, n) 0 s -> 0 <= n < 2 ^ 31 ->
  let s1 := (init_entities api s).1.1 in
  at_frame (0, n) 0 s1 /\
  script api m s =
  ((rounds (Z.to_nat n) s1).1.1, (init_entities api s).1.2 ++ (rounds (Z.to_nat n) s1).1.2, Some tt).
Proof.
  intros Hs Hn. destruct (safe_init_entities api (0, n) 0 s Hs) as (H1 & [] & E & _).
  cbn zeta. split; [done|]. destruct Hs as (_ & _ & Hcfg). injection Hcfg as Er En.
  cbv [script lbind l_is_load_resume arg lget lret nth Nat.sub].
  rewrite Er. change (negb (0 =? 0)) with false. cbv iota.
  destruct (init_entities api s) as [[s1 o1] r1]. cbn [fst snd] in *. subst r1.
  destruct (rounds_run (0, n) (Z.to_nat n) 0 s1) as (_ & _ & Er2); [lia|lia|done|].
  rewrite (script_frames_rounds 0 0 n) by (done || lia). rewrite Z.sub_0_r.
  destruct (rounds (Z.to_nat n) s1) as [[s2 o2] r2]. cbn [fst snd app] in *. by subst r2.
Qed.

Lemma script_resume c n s :
  at_frame (1, n) c s -> 0 <= c <= n -> n < 2 ^ 31 ->
  script api m s = rounds (Z.to_nat (n - c)) s.
Proof.
  intros Hs Hc Hn. pose proof Hs as (_ & _ & Hcfg). injection Hcfg as Er En.
  cbv [script lbind l_is_load_resume arg lget lret nth Nat.sub].
  rewrite Er. change (negb (1 =? 0)) with true. cbv iota.
  cbv beta iota. rewrite (script_frames_rounds 1 c n) by done.
  by destruct (rounds (Z.to_nat (n - c)) s) as [[s2 o2] r2].
Qed.

(** *** The save and load drivers *)

Definition tracked_wf (s : globals) : Prop :=
  (lwf frame_state_layout (fs s) /\ true = true) /\ ((lwf layout (cs s) /\ true = true) /\ True).

Lemma lua_simple_registry : Registry runtime_tracked_regions tracked_wf.
Proof.
  apply (Registry_cons (Region region_frame_state fs set_fs) _
           (fun v => lwf frame_state_layout v /\ true = true)); [apply _|by split; try intros []|..].
  { repeat constructor. }
  apply (Registry_cons (Region region_cart_state_lua_simple cs set_cs) _
           (fun b => lwf layout b /\ true = true));
    [apply _|by split; try intros []|constructor|constructor].
Qed.

Lemma lua_simple_fits :
  total_fits runtime_tracked_regions /\ save_state_buffer_capacity runtime_tracked_regions <= 8000.
Proof. split; [split; [repeat constructor; done|done]|done]. Qed.

(** What a load leaves, after [cart_det_resync_rng_from_fs] and the settings. *)
Definition resumed (n : Z) (s : globals) : globals :=
  cart_det_set_num_frames n (cart_det_set_load_resume 1 (cart_det_resync_rng_from_fs s)).

Lemma canonicalize_cs_idem c : canonicalize (canonicalize c) = canonicalize c.
Proof.
  unfold canonicalize. cbn. f_equal. rewrite map_map. apply map_ext, canonicalize_entity_idem.
Qed.

Lemma resumed_same cfg c n s t :
  committed cfg c s ->
  at_frame (1, n) c (resumed n (copy_tracked runtime_tracked_regions s t)) /\
  same (resumed n (copy_tracked runtime_tracked_regions s t)) s.
Proof.
  intros ((( H1 & H2 & H3) & Hf & _) & Hr). split.
  - split; [split; [|split]|split; [exact Hf|done]].
    + by apply frame_state_canonicalize_wf.
    + by apply lua_canonicalize_wf.
    + by rewrite Hr in H3.
  - split; [apply frame_state_canonicalize_idem|]. split; [apply canonicalize_cs_idem|by rewrite Hr].
Qed.

(** The globals the fresh drivers start the script with. *)
Definition fresh (n : Z) : globals :=
  cart_det_set_num_frames n (cart_det_set_load_resume 0 (cart_det_init globals_bss)).

Lemma fresh_at_frame n : at_frame (0, n) 0 (fresh n).
Proof.
  split; [|done]. split; [|split].
  - apply set_rng_wf; [by vm_compute|by vm_compute|apply frame_state_zero_wf].
  - split; [done|]. apply Forall_replicate. repeat (split; [simpl; lia|]). simpl; lia.
  - by vm_compute.
Qed.

#[export] Instance lua_same_equiv : Equivalence same.
Proof.
  split; [done|by intros s t (?&?&?)|].
  intros s t u (H1&H2&H3) (H4&H5&H6). split; [congruence|]. split; congruence.
Qed.

Lemma rel_init_entities : relates same eq (init_entities api) (init_entities api).
Proof.
  assert (forall k, relates same eq (unit_scaled k) (unit_scaled k)) as Hu.
  { intros k. unfold unit_scaled. eapply relates_bind; [apply rel_unit_float|]. intros r r' Hr.
    eapply (relates_bind feq); [|intros u u' Huv; apply relates_ret; by rewrite Huv].
    destruct Hr as [|v w r r' Hv Hr]; [apply relates_raise|by apply lrel_as_float]. }
  apply relates_for. intros i. eapply relates_bind; [apply Hu|]. intros x _ <-.
  eapply relates_bind; [apply Hu|]. intros y _ <-. eapply relates_bind; [apply Hu|]. intros a _ <-.
  eapply relates_bind; [by apply rel_set_entity|]. intros _ _ _. by apply relates_ret.
Qed.

(** The text of a straight-through run is the text of the save run followed by
    what the resumed run prints. *)
Lemma run_split k t :
  0 <= k < NFRAMES ->
  let sk := script api m (fresh (k + 1)) in
  sk.2 = Some tt /\ committed (0, k + 1) (k + 1) sk.1.1 /\
  let sl := script api m (resumed NFRAMES (copy_tracked runtime_tracked_regions sk.1.1 t)) in
  let sf := script api m (fresh NFRAMES) in
  sl.2 = Some tt /\ sf.2 = Some tt /\ sf.1.2 = sk.1.2 ++ sl.1.2.
Proof.
  unfold NFRAMES. intros Hk. set (sk := script api m (fresh (k + 1))).
  destruct (script_fresh (k + 1) _ (fresh_at_frame (k + 1)) ltac:(lia)) as [H1 E1].
  destruct (script_fresh 30 _ (fresh_at_frame 30) ltac:(lia)) as [H2 E2].
  destruct (rel_init_entities (fresh 30) (fresh (k + 1))) as (Hi1 & Hi2 & _); [done|].
  set (a := (init_entities api (fresh (k + 1))).1.1) in *.
  set (b := (init_entities api (fresh 30)).1.1) in *.
  destruct (rounds_run (0, k + 1) (Z.to_nat (k + 1)) 0 a) as (H3 & H4 & E3); [lia..|done|].
  replace (0 + Z.of_nat (Z.to_nat (k + 1))) with (k + 1) in * by lia.
  specialize (H4 ltac:(lia)). assert (sk = script api m (fresh (k + 1))) as Esk by done.
  rewrite E1 in Esk. rewrite Esk. cbn [fst snd]. split; [done|]. split; [exact H4|]. cbn zeta.
  destruct (resumed_same (0, k + 1) (k + 1) 30 _ t H4) as [H5 H6].
  rewrite (script_resume (k + 1) 30) by (done || lia). rewrite E2. cbn [fst snd].
  destruct (rounds_run (1, 30) (Z.to_nat (30 - (k + 1))) (k + 1) _ ltac:(lia) ltac:(lia) H5)
    as (_ & _ & E4).
  split; [exact E4|]. split; [done|]. rewrite Hi2, <-app_assoc. f_equal.
  replace (Z.to_nat 30) with (Z.to_nat (k + 1) + Z.to_nat (30 - (k + 1)))%nat by lia.
  rewrite (rounds_app (0, 30) _ _ 0 b) by (done || lia).
  destruct (rel_rounds (Z.to_nat (k + 1)) b a Hi1) as (Hr1 & Hr2 & _). rewrite Hr2. f_equal.
  destruct (rel_rounds (Z.to_nat (30 - (k + 1))) (rounds (Z.to_nat (k + 1)) b).1.1
    (resumed 30 (copy_tracked runtime_tracked_regions (rounds (Z.to_nat (k + 1)) a).1.1 t)))
    as (_ & Hr3 & _); [|exact Hr3].
  by rewrite H6.
Qed.

Context {W : Type} (sys_open : list Z -> W -> W * Z)
  (sys_read : Z -> Z -> W -> W * Z * list Z) (sys_close : Z -> W -> W * Z)
  (remaining : W -> list Z) (pcall_error : list Z).

(** C4: A Lua cart whose state is in the tracked regions replays.  For every save
    frame, every libm that treats NaNs alike and every Lua whose argument checks
    accept values of the right type: the digest lines of the save program
    followed by those of the load program are, byte for byte, the digest lines
    of the straight-through program, and no program panics. *)
Theorem lua_simple_replay k prog :
  0 <= k < NFRAMES ->
  exists lines text rt,
    main_save api m true None pcall_error [prog; dec k] = Some (Exit (lines ++ text) 0 rt) /\
    (forall path w w0 fd,
     sys_open path w = (w0, fd) -> 0 <= fd -> read_posix sys_read remaining fd ->
     remaining w0 = text ->
     exists w' rest rt' rt'',
       main_load api m true None pcall_error sys_open sys_read sys_close [prog; path] w =
         Some (w', Exit rest 0 rt') /\
       main_full api m true None pcall_error = Some (Exit (lines ++ rest) 0 rt'')).
Proof.
  intros Hk. destruct lua_simple_fits as [Hfit Hcap].
  destruct (save_state_init_works runtime_tracked_regions) as (ctx & Hi & Hinit & Hhash);
    [by vm_compute|].
  pose proof (run_split k) as Hrun. cbn zeta in Hrun.
  unfold main_save, main_load, main_full. rewrite Hi, save_frame_dec by done.
  unfold NFRAMES in Hk. rewrite (signed_small 32 k), signed_small by lia.
  fold (fresh (k + 1)). fold (fresh NFRAMES). unfold run_script. cbn [negb].
  destruct (script api m (fresh (k + 1))) as [[sk lines] rk]. cbn [fst snd] in Hrun.
  destruct (Hrun globals_bss Hk) as (-> & Hcom & _). cbn [negb].
  assert (tracked_wf sk) as Hwf.
  { destruct Hcom as (((Hf1 & Hc1 & _) & _) & _).
    exact (conj (conj Hf1 eq_refl) (conj (conj Hc1 eq_refl) I)). }
  destruct (emit_load runtime_tracked_regions tracked_wf sys_open sys_read sys_close remaining
    (cstr "PANIC lua_simple_save: save_state_save returned 0" ++ [10]) ctx sk k
    lua_simple_registry Hfit Hcap Hwf Hinit Hhash ltac:(lia)) as (text & -> & Hload).
  exists lines, text, (ctx, copy_tracked runtime_tracked_regions sk sk). split; [done|].
  intros path w w0 fd Ho Hfd Hread Hrem.
  destruct (Hload panics (cart_det_init globals_bss) path w w0 fd Ho Hfd Hread Hrem) as (w' & ->).
  destruct (Hrun (cart_det_init globals_bss) Hk) as (_ & _ & E1 & E2 & E3).
  fold (resumed NFRAMES (copy_tracked runtime_tracked_regions sk (cart_det_init globals_bss))).
  destruct (script api m (resumed _ _)) as [[sl rest] rl]. cbn [fst snd] in *. subst rl.
  destruct (script api m (fresh NFRAMES)) as [[sf all] rf]. cbn [fst snd] in *. subst rf all.
  exists w', rest, (ctx, sl), (ctx, sf). exact (conj eq_refl eq_refl).
Qed.
End replay.

(** *** Witness *)

(** Argument checks that accept exactly the type asked for. *)
Definition strict_api : lua_api := {|
  luaL_checkinteger v := match v with LInt z => Some z | _ => None end;
  luaL_checknumber v := match v with LFloat u => Some u | _ => None end;
  luaL_checklstring v := match v with LStr s => Some s | _ => None end;
|}.

#[export] Instance strict_api_laws : LuaApiLaws strict_api.
Proof. by split. Qed.

Lemma lua_simple_replay_witness :
  exists lines text rt w' rest rt' rt'',
    main_save strict_api toy_libm true None [] [cstr "save"; dec 12] =
      Some (Exit (lines ++ text) 0 rt) /\
    main_load strict_api toy_libm true None [] (fun _ w => (w, 4)) toy_read (fun _ w => (w, 0))
      [cstr "save"; cstr "f"] text = Some (w', Exit rest 0 rt') /\
    main_full strict_api toy_libm true None [] = Some (Exit (lines ++ rest) 0 rt'').
Proof.
  destruct (lua_simple_replay strict_api toy_libm (fun _ w => (w, 4)) toy_read (fun _ w => (w, 0)) id
    [] 12 (cstr "save")) as (lines & text & rt & Hs & Hl); [by split|].
  destruct (Hl (cstr "f") text text 4 eq_refl ltac:(lia) (toy_read_posix 4) eq_refl)
    as (w' & rest & rt' & rt'' & H1 & H2).
  exists lines, text, rt, w', rest, rt', rt''. exact (conj Hs (conj H1 H2)).
Defined.
End LuaSimple.
