(* ===== verification/ScriptCarts.v ===== *)
(** * Carts with persistent scripts (spikes/spike-m/ports/rv32emu)

    The console bindings of lua_det_bindings_m.c on top of the spike-k ones, and
    the m_driver programs.  What a [blyt32.coroutine] script keeps in its [ctx]
    table travels: table, flattened bytes, slot, save buffer, slot of the next
    process, bytes, table; the theorems follow it all the way. *)

From S2P Require Import Prelude Layout Float32 Determinism CString Tracked SaveState SaveIo.
From S2P Require Import Regions Replay PersistentScripts TableFlatten LuaCarts.
Import FrameStateRegion.

(** ** Globals *)

Record globals := Globals { base : ConsoleK.globals; g_region : runtime_persistent_scripts_t }.

Definition set_base (v : ConsoleK.globals) (s : globals) : globals := Globals v (g_region s).
Definition set_region (v : runtime_persistent_scripts_t) (s : globals) : globals :=
  Globals (base s) v.

Definition get_fs (s : globals) := ConsoleK.fs (base s).
Definition get_cs (s : globals) := ConsoleK.cs (base s).
Definition set_fs v (s : globals) : globals := set_base (ConsoleK.set_fs v (base s)) s.
Definition set_cs v (s : globals) : globals := set_base (ConsoleK.set_cs v (base s)) s.

(** regions_det_two_scripts.c, and every other m cart. *)
Definition runtime_tracked_regions : list (region globals) :=
  [Region region_frame_state get_fs set_fs;
   Region CartStateLuaSimple.region_cart_state_lua_simple get_cs set_cs;
   Region region_persistent_scripts g_region set_region].

Definition globals_bss : globals := Globals ConsoleK.globals_bss persistent_scripts_reset.

Definition cart_det_init (s : globals) : globals :=
  set_region persistent_scripts_reset (set_base (ConsoleK.cart_det_init (base s)) s).

Definition cart_det_set_load_resume (b : Z) (s : globals) : globals :=
  set_base (ConsoleK.cart_det_set_load_resume b (base s)) s.

Definition cart_det_set_num_frames (n : Z) (s : globals) : globals :=
  set_base (ConsoleK.cart_det_set_num_frames n (base s)) s.

Definition cart_det_resync_rng_from_fs (s : globals) : globals :=
  set_base (ConsoleK.cart_det_resync_rng_from_fs (base s)) s.

(** ** Bindings *)

Definition binding : Type := list lua_value -> LuaM globals (list lua_value).

(** The spike-k functions are reproduced in this file on the same globals. *)
Definition lift {A} (c : LuaM ConsoleK.globals A) : LuaM globals A := fun s =>
  let '(b, out, r) := c (base s) in (set_base b s, out, r).

Section bindings.
Context (api : lua_api).

Definition l_rng : binding := fun args => lift (ConsoleK.l_rng args).
Definition l_unit_float : binding := fun args => lift (ConsoleK.l_unit_float args).
Definition l_add_misc : binding := fun args => lift (ConsoleK.l_add_misc api args).
Definition l_frame : binding := fun args => lift (ConsoleK.l_frame args).
Definition l_commit_frame : binding := fun args => lift (ConsoleK.l_commit_frame args).
Definition l_set_entity : binding := fun args => lift (ConsoleK.l_set_entity api args).
Definition l_get_entity : binding := fun args => lift (ConsoleK.l_get_entity api args).
Definition l_is_load_resume : binding := fun args => lift (ConsoleK.l_is_load_resume args).
Definition l_num_frames : binding := fun args => lift (ConsoleK.l_num_frames args).

Definition l_script_alloc : binding := fun _ =>
  do s <- lget;
  let '(g, slot) := persistent_scripts_alloc (g_region s) in
  lmodify (set_region g);; lret [LInt slot].

Definition l_script_free : binding := fun args =>
  do slot <- lcheck (luaL_checkinteger api (arg args 1));
  lmodify (fun s => set_region (persistent_scripts_free (g_region s) slot) s);; lret [].

Definition l_script_write_blob : binding := fun args =>
  do slot <- lcheck (luaL_checkinteger api (arg args 1));
  do bytes <- lcheck (luaL_checklstring api (arg args 2));
  do s <- lget;
  let '(g, ok) := persistent_scripts_write (g_region s) slot bytes (u32 (TableFlatten.zlen bytes)) in
  lmodify (set_region g);; lret [LBool ok].

Definition l_script_read_blob : binding := fun args =>
  do slot <- lcheck (luaL_checkinteger api (arg args 1));
  do s <- lget;
  if persistent_scripts_is_active (g_region s) slot =? 0 then lret [LNil]
  else
    let '(n, buf) := persistent_scripts_read (g_region s) slot PERSISTENT_SCRIPT_SLOT_BYTES in
    if n <? 0 then lret [LNil] else lret [LStr (take (Z.to_nat n) buf)].

Definition l_script_is_active : binding := fun args =>
  do slot <- lcheck (luaL_checkinteger api (arg args 1));
  do s <- lget;
  lret [LBool (negb (persistent_scripts_is_active (g_region s) slot =? 0))].

Definition l_max_persistent_scripts : binding := fun _ => lret [LInt MAX_PERSISTENT_SCRIPTS].

Definition l_script_has_saved_bytes : binding := fun args =>
  do slot <- lcheck (luaL_checkinteger api (arg args 1));
  do s <- lget;
  lret [LBool (0 <? persistent_scripts_raw_blob_len (g_region s) slot)].

(** The C locals: a 256-byte buffer on the stack. *)
Definition l_lua_table_flatten : binding := fun args =>
  match arg args 1 with
  | LTable t =>
      let '(rc, bytes) := lua_table_flatten (LTable t) PERSISTENT_SCRIPT_SLOT_BYTES in
      if rc <? 0 then lret [LNil; LStr (cstr (lua_table_flatten_strerror rc))]
      else lret [LStr bytes]
  | _ => lraise
  end.

(** [None] is the read behind the source buffer. *)
Definition l_lua_table_unflatten (args : list lua_value)
  : option (LuaM globals (list lua_value)) :=
  match luaL_checklstring api (arg args 1) with
  | None => Some lraise
  | Some bytes =>
      match lua_table_unflatten bytes (u32 (TableFlatten.zlen bytes)) with
      | Ret v => Some (lret [v])
      | Err rc => Some (lret [LNil; LStr (cstr (lua_table_flatten_strerror rc))])
      | OutOfBounds | OutOfFuel => None
      end
  end.
End bindings.

(** ** The drivers (m_driver_full.c, m_driver_save.c, m_driver_load.c) *)

(** A cart: the name of its workload module.  What Lua contributes is a
    parameter: whether a state can be created, the message of a module that does
    not load, and the effect of running one (globals, text, error message). *)
Section drivers.
Context {LS : Type} (luaL_newstate : option LS)
  (luaL_loadbufferx : list Z -> LS -> LS * option (list Z))
  (lua_pcall : LS -> globals -> LS * globals * list Z * option (list Z))
  (cart_workload_name : list Z).

Definition run_lua_module (who name : list Z) (L : LS) (s : globals)
  : LS * globals * list Z * bool :=
  match luaL_loadbufferx name L with
  | (L, Some msg) =>
      (L, s, printf_s (cstr "PANIC " ++ who ++ cstr " load " ++ name ++ cstr ": " ++ msg ++ [10]), false)
  | (L, None) =>
      match lua_pcall L s with
      | (L, s, out, None) => (L, s, out, true)
      | (L, s, out, Some msg) =>
          (L, s, out ++ printf_s (cstr "PANIC " ++ who ++ cstr " pcall " ++ name ++ cstr ": " ++ msg ++ [10]),
           false)
      end
  end.

(** From [luaL_newstate] to the end of the workload module. *)
Definition run_cart (who : list Z) (s : globals) : globals * list Z * bool :=
  match luaL_newstate with
  | None => (s, printf_s (cstr "PANIC " ++ who ++ cstr ": luaL_newstate" ++ [10]), false)
  | Some L =>
      let '(L, s, out1, ok) := run_lua_module who (cstr "blyt32_coroutine") L s in
      if negb ok then (s, out1, false)
      else
        let '(L, s, out2, ok) := run_lua_module who cart_workload_name L s in
        (s, out1 ++ out2, ok)
  end.

Definition main_full : option (exit_state globals) :=
  match save_state_init runtime_tracked_regions with
  | None => None
  | Some ctx =>
      let s := cart_det_init globals_bss in
      let s := cart_det_set_load_resume 0 s in
      let s := cart_det_set_num_frames NFRAMES s in
      let '(s, text, ok) := run_cart (cstr "m_full") s in
      Some (Exit text (if ok then 0 else 1) (ctx, s))
  end.

Definition SAVE_BUF_CAP : Z := 32768.
Definition HEX_BUF_CAP : Z := 131072.

Definition main_save (argv : list (list Z)) : option (exit_state globals) :=
  let save_frame := save_frame_arg argv 15 in
  match save_state_init runtime_tracked_regions with
  | None => None
  | Some ctx =>
      let s := cart_det_init globals_bss in
      let s := cart_det_set_load_resume 0 s in
      let s := cart_det_set_num_frames (i32 (i32 save_frame + 1)) s in
      let '(s, text, ok) := run_cart (cstr "m_save") s in
      if negb ok then Some (Exit text 1 (ctx, s))
      else
        match save_and_emit_cap runtime_tracked_regions SAVE_BUF_CAP
                (cstr "PANIC m_save: save_state_save returned 0" ++ [10]) (ctx, s) save_frame with
        | None => None
        | Some e => Some (Exit (text ++ out e) (code e) (Replay.globals e))
        end
  end.

Definition panics : load_panics := {|
  p_read := cstr "PANIC m_load: cannot read buffer" ++ [10];
  p_hex _ := cstr "PANIC m_load: hex parse failed" ++ [10];
  p_rejected _ _ := cstr "PANIC m_load: save_state_load rejected buffer" ++ [10];
|}.

Context {W : Type} (sys_open : list Z -> W -> W * Z)
  (sys_read : Z -> Z -> W -> W * Z * list Z) (sys_close : Z -> W -> W * Z).

(** What the load driver does between a load and the cart. *)
Definition hand_over (s : globals) : globals :=
  let s := set_region (persistent_scripts_unmark_all (g_region s)) s in
  let s := cart_det_resync_rng_from_fs s in
  let s := cart_det_set_load_resume 1 s in
  cart_det_set_num_frames NFRAMES s.

Definition main_load (argv : list (list Z)) (w : W) : option (W * exit_state globals) :=
  match argv with
  | _ :: path :: _ =>
      match save_state_init runtime_tracked_regions with
      | None => None
      | Some ctx =>
          let s := cart_det_init globals_bss in
          match load_buffer_cap runtime_tracked_regions sys_open sys_read sys_close
                  (HEX_BUF_CAP - 1) SAVE_BUF_CAP panics (ctx, s) path w with
          | None => None
          | Some (w, inr e) => Some (w, e)
          | Some (w, inl (ctx, s)) =>
              let s := hand_over s in
              let '(s, text, ok) := run_cart (cstr "m_load") s in
              Some (w, Exit text (if ok then 0 else 1) (ctx, s))
          end
      end
  | _ =>
      Some (w, Exit (cstr "PANIC m_load: usage: <buffer-hex-file>" ++ [10]) 1 (ctx_bss, globals_bss))
  end.
End drivers.

(** ** The registry *)

Definition tracked_wf (s : globals) : Prop :=
  (lwf frame_state_layout (get_fs s) /\ true = true) /\
  ((lwf CartStateLuaSimple.layout (get_cs s) /\ true = true) /\
   ((lwf PersistentScripts.layout (g_region s) /\ true = true) /\ True)).

Lemma scripts_registry : Registry runtime_tracked_regions tracked_wf.
Proof.
  apply (Registry_cons (Region region_frame_state get_fs set_fs) _
           (fun v => lwf frame_state_layout v /\ true = true));
    [apply _|by split; try intros [[] ?]| |].
  { repeat constructor. }
  apply (Registry_cons (Region CartStateLuaSimple.region_cart_state_lua_simple get_cs set_cs) _
           (fun b => lwf CartStateLuaSimple.layout b /\ true = true));
    [exact CartStateLuaSimple.lawful|by split; try intros [[] ?]| |].
  { repeat constructor. }
  apply (Registry_cons (Region region_persistent_scripts g_region set_region) _
           (fun b => lwf PersistentScripts.layout b /\ true = true));
    [apply _|by split; try intros []|constructor|constructor].
Qed.

Lemma scripts_fit :
  total_fits runtime_tracked_regions /\ save_state_buffer_capacity runtime_tracked_regions = 17956.
Proof. split; [split; [repeat constructor; done|done]|done]. Qed.

(** The state a resumed cart starts from, in terms of the saved one: canonical
    frame state and entities, the generator of the frame state, all slots free
    with their blobs in place. *)
Lemma handed_over s t :
  let s' := hand_over (copy_tracked runtime_tracked_regions s t) in
  get_fs s' = frame_state_canonicalize (get_fs s) /\
  get_cs s' = CartStateLuaSimple.canonicalize (get_cs s) /\
  ConsoleK.g_rng (base s') = Pcg32 (rng_state (get_fs s)) (rng_inc (get_fs s)) /\
  g_region s' = persistent_scripts_unmark_all (g_region s) /\
  ConsoleK.g_load_resume (base s') = 1 /\ ConsoleK.g_num_frames (base s') = NFRAMES.
Proof. repeat split. Qed.

(** ** A script's [ctx] across processes *)

(** The region part of a good state. *)
Lemma write_blob_runs (api : lua_api) {laws : LuaApiLaws api} s k bs :
  good (g_region s) -> 0 <= k < 64 -> active (g_region s) k = true ->
  bytes bs -> TableFlatten.zlen bs <= 256 ->
  exists g, l_script_write_blob api [LInt k; LStr bs] s = (set_region g s, [], Some [LBool true]) /\
    good g /\ entry g (Z.to_nat k) = (true, bs).
Proof.
  intros Hg Hk Ha Hb Hl. cbv [l_script_write_blob lbind lcheck arg nth Nat.sub lget lmodify lret].
  rewrite checkinteger_int, checklstring_str. cbv beta iota.
  pose proof (TableFlatten.zlen_nonneg bs). rewrite wrap_small by lia.
  pose proof (refine_write (g_region s) k bs (TableFlatten.zlen bs) Hg Hb ltac:(split; [lia|apply Z.le_refl])) as Hr.
  destruct (persistent_scripts_write (g_region s) k bs (TableFlatten.zlen bs)) as [g ok].
  destruct Hr as [Hgood Hr]. unfold spec_exec in Hr. rewrite spec_live_abs in Hr.
  rewrite (proj2 (slot_in_range_spec k)), Ha in Hr by lia. cbn [andb] in Hr.
  destruct (Z.leb_spec (TableFlatten.zlen bs) 256); [|lia].
  assert (ok = true) as -> by congruence.
  exists g. split; [done|]. split; [done|].
  pose proof (f_equal (fun p => p.1 !! Z.to_nat k) Hr) as E. cbn [fst] in E.
  rewrite (abs_lookup g) in E by lia.
  rewrite list_lookup_insert_eq in E by (rewrite abs_length; lia).
  apply Some_inj in E. rewrite <-E. f_equal. unfold TableFlatten.zlen. by rewrite Nat2Z.id, firstn_all.
Qed.

(** [k] creates of a resumed cart. *)
Definition creates (k : nat) (s : globals) : globals :=
  set_region (Nat.iter k alloc_step (g_region s)) s.

Lemma create_step k s : (l_script_alloc [] (creates k s)).1.1 = creates (S k) s.
Proof.
  cbv [l_script_alloc lbind lget lmodify lret creates]. cbn [g_region set_region base].
  unfold alloc_step at 2. cbn [Nat.iter nat_rect]. unfold alloc_step at 2.
  by destruct (persistent_scripts_alloc _).
Qed.

(** What a resumed cart finds in slot [k]: the [k]-th create is handed that
    slot, and reading it gives the blob saved there. *)
Lemma resumed_blob (api : lua_api) {laws : LuaApiLaws api} s g k bs :
  good g -> (k < 64)%nat -> entry g k = (true, bs) -> g_region s = persistent_scripts_unmark_all g ->
  (l_script_alloc [] (creates k s)).2 = Some [LInt (Z.of_nat k)] /\
  (l_script_read_blob api [LInt (Z.of_nat k)] (creates (S k) s)).2 = Some [LStr bs].
Proof.
  intros Hg Hk He Hs. destruct (allocs_live g k Hg ltac:(lia)) as [Hgood Habs].
  destruct (alloc_step_live g _ k Hgood Hk Habs) as (Hgood' & Habs' & Hslot).
  unfold creates. rewrite Hs.
  change (Nat.iter (S k) alloc_step ?u) with (alloc_step (Nat.iter k alloc_step u)).
  set (h := Nat.iter k alloc_step _) in *.
  cbv [l_script_alloc l_script_read_blob lbind lget lmodify lret lcheck arg nth Nat.sub].
  rewrite checkinteger_int. cbn [g_region set_region base].
  split; [destruct (persistent_scripts_alloc h); cbn [fst snd] in *; by rewrite Hslot|].
  pose proof (refine_read (alloc_step h) (Z.of_nat k) PERSISTENT_SCRIPT_SLOT_BYTES Hgood') as Hr.
  pose proof (zlen_entry g (Z.of_nat k) Hg ltac:(lia)) as Hz. rewrite Nat2Z.id, He in Hz.
  destruct (good_slot g (Z.of_nat k) Hg ltac:(lia)) as ((Hl0 & Hl) & _). cbn [snd] in Hz.
  assert (spec_live (abs (alloc_step h)) (Z.of_nat k) = Some bs) as Hlive.
  { unfold spec_live, spec_lookup. rewrite Habs'. destruct (Z.leb_spec 0 (Z.of_nat k)); [|lia].
    rewrite Nat2Z.id, first_live_lookup, He by done. by rewrite bool_decide_true by lia. }
  unfold spec_exec in Hr. rewrite Hlive, Hz in Hr. unfold PERSISTENT_SCRIPT_SLOT_BYTES in *.
  destruct (Z.leb_spec (blob_len_at g (Z.of_nat k)) 256); [|lia].
  rewrite spec_live_abs in Hlive. unfold persistent_scripts_is_active.
  destruct (slot_in_range (Z.of_nat k)); [|done]. cbn [negb]. rewrite bit_get_zero.
  destruct (active (alloc_step h) (Z.of_nat k)); [|done]. cbn [negb].
  destruct (persistent_scripts_read (alloc_step h) (Z.of_nat k) 256) as [n buf].
  assert (n = blob_len_at g (Z.of_nat k) /\ buf = bs) as [-> ->] by (split; congruence).
  destruct (Z.ltb_spec (blob_len_at g (Z.of_nat k)) 0); [lia|]. cbn [snd].
  rewrite <-Hz. unfold PersistentScripts.zlen. by rewrite Nat2Z.id, firstn_all.
Qed.


Section survival.
Context (api : lua_api) {laws : LuaApiLaws api}.
Context {W : Type} (sys_open : list Z -> W -> W * Z)
  (sys_read : Z -> Z -> W -> W * Z * list Z) (sys_close : Z -> W -> W * Z)
  (remaining : W -> list Z).

(** C3: A script's [ctx] survives the process.  Take a cart whose globals are
    well-formed and whose slot [k] is in use, and a [ctx] table that
    [console.lua_table_flatten] accepts.  Then [script_write_blob] stores the
    bytes; the save driver emits a buffer; a load driver that reads this buffer
    hands over a state in which the [k]-th [script_alloc] returns slot [k] and
    [script_read_blob] of it returns exactly those bytes; and
    [lua_table_unflatten] of them is a table with the same value, up to the
    encoding of NaNs, under every key. *)
Theorem script_ctx_survives s k t bs ctx fr :
  tracked_wf s -> good (g_region s) -> (k < 64)%nat -> active (g_region s) (Z.of_nat k) = true ->
  wf_record t ->
  (l_lua_table_flatten [LTable t] s).2 = Some [LStr bs] ->
  g_initialized ctx = true -> 0 <= g_layout_hash ctx < 2 ^ 64 -> 0 <= fr < 2 ^ 32 ->
  exists s1 e,
    l_script_write_blob api [LInt (Z.of_nat k); LStr bs] s = (s1, [], Some [LBool true]) /\
    save_and_emit_cap runtime_tracked_regions SAVE_BUF_CAP
      (cstr "PANIC m_save: save_state_save returned 0" ++ [10]) (ctx, s1) fr = Some e /\
    code e = 0 /\
    (forall path w w0 fd u,
     sys_open path w = (w0, fd) -> 0 <= fd -> read_posix sys_read remaining fd ->
     remaining w0 = out e ->
     exists w' s2 t',
       load_buffer_cap runtime_tracked_regions sys_open sys_read sys_close
         (HEX_BUF_CAP - 1) SAVE_BUF_CAP panics (ctx, u) path w = Some (w', inl (ctx, s2)) /\
       let s3 := creates k (hand_over s2) in
       (l_script_alloc [] s3).2 = Some [LInt (Z.of_nat k)] /\
       (l_script_read_blob api [LInt (Z.of_nat k)] (l_script_alloc [] s3).1.1).2 = Some [LStr bs] /\
       l_lua_table_unflatten api [LStr bs] = Some (lret [LTable t']) /\
       forall key, rawget t' key = norm (rawget t key)).
Proof.
  intros Hwf Hg Hk Ha Ht Hflat Hinit Hhash Hfr.
  assert (lua_table_flatten (LTable t) 256 = (LTF_OK, bs)) as Hok.
  { unfold l_lua_table_flatten, PERSISTENT_SCRIPT_SLOT_BYTES in Hflat. cbn [arg nth Nat.sub] in Hflat.
    destruct (lua_table_flatten (LTable t) 256) as [rc out] eqn:E.
    destruct (Z.ltb_spec rc 0); [discriminate|]. cbn [lret snd] in Hflat.
    destruct (flatten_code t 256 rc out E) as [?| ->]; [lia|]. congruence. }
  destruct (flatten_bytes t 256 bs Ht ltac:(lia) Hok) as [Hb Hl].
  destruct (write_blob_runs api s (Z.of_nat k) bs Hg ltac:(lia) Ha Hb Hl) as (g & Hw & Hg' & He).
  rewrite Nat2Z.id in He. destruct scripts_fit as [Hfit Hcap].
  assert (tracked_wf (set_region g s)) as Hwf'.
  { destruct Hwf as (H1 & H2 & _). destruct Hg' as [Hg' _].
    exact (conj H1 (conj H2 (conj (conj Hg' eq_refl) I))). }
  destruct (emit_load_cap runtime_tracked_regions tracked_wf sys_open sys_read sys_close remaining
    SAVE_BUF_CAP (HEX_BUF_CAP - 1) (cstr "PANIC m_save: save_state_save returned 0" ++ [10])
    ctx (set_region g s) fr scripts_registry Hfit) as (text & Hsave & Hload);
    [unfold SAVE_BUF_CAP, HEX_BUF_CAP; rewrite ?Hcap; done || lia..|].
  exists (set_region g s), (Exit text 0 (ctx, copy_tracked runtime_tracked_regions (set_region g s) (set_region g s))).
  split; [done|]. split; [exact Hsave|]. split; [done|]. intros path w w0 fd u Ho Hfd Hread Hrem.
  destruct (Hload panics u path w w0 fd Ho Hfd Hread Hrem) as [w' Hl'].
  destruct (flatten_unflatten t 256 bs Ht ltac:(lia) Hok) as (t' & Hun & Hget).
  exists w', (copy_tracked runtime_tracked_regions (set_region g s) u), t'.
  split; [exact Hl'|]. cbn zeta.
  destruct (resumed_blob api (hand_over (copy_tracked runtime_tracked_regions (set_region g s) u))
    g k bs Hg' Hk He eq_refl) as [H1 H2].
  split; [exact H1|]. rewrite create_step. split; [exact H2|]. split; [|exact Hget].
  unfold l_lua_table_unflatten, arg. cbn [nth Nat.sub]. rewrite checklstring_str.
  pose proof (TableFlatten.zlen_nonneg bs). rewrite wrap_small by lia. by rewrite Hun.
Qed.
End survival.

Definition example_globals : globals := set_region (alloc_step persistent_scripts_reset) globals_bss.

Lemma example_globals_wf : tracked_wf example_globals /\ good (g_region example_globals).
Proof.
  assert (good (alloc_step persistent_scripts_reset)) as Hg.
  { pose proof (refine_alloc persistent_scripts_reset good_reset) as H. unfold alloc_step.
    destruct (persistent_scripts_alloc persistent_scripts_reset) as [g i]. apply H. }
  split; [|exact Hg]. destruct (LuaSimple.fresh_at_frame 30) as ((_ & Hc & _) & _).
  exact (conj (conj frame_state_zero_wf eq_refl)
           (conj (conj Hc eq_refl) (conj (conj (proj1 Hg) eq_refl) I))).
Qed.

Lemma script_ctx_survives_witness :
  let bs := (lua_table_flatten (LTable example_table) 256).2 in
  let ctx := {| g_layout_hash := 7; g_initialized := true |} in
  exists s1 (e : exit_state globals) w' s2 t',
    l_script_write_blob LuaSimple.strict_api [LInt (Z.of_nat 0); LStr bs] example_globals =
      (s1, [], Some [LBool true]) /\
    code e = 0 /\
    load_buffer_cap runtime_tracked_regions (fun _ w => (w, 4)) toy_read (fun _ w => (w, 0))
      (HEX_BUF_CAP - 1) SAVE_BUF_CAP panics (ctx, globals_bss) (cstr "f") (out e) =
      Some (w', inl (ctx, s2)) /\
    let s3 := creates 0 (hand_over s2) in
    (l_script_alloc [] s3).2 = Some [LInt (Z.of_nat 0)] /\
    (l_script_read_blob LuaSimple.strict_api [LInt (Z.of_nat 0)] (l_script_alloc [] s3).1.1).2 = Some [LStr bs] /\
    l_lua_table_unflatten LuaSimple.strict_api [LStr bs] = Some (lret [LTable t']) /\
    forall key, rawget t' key = norm (rawget example_table key).
Proof.
  destruct example_globals_wf as [Hwf Hg].
  destruct (script_ctx_survives LuaSimple.strict_api (laws:=LuaSimple.strict_api_laws) (fun _ w => (w, 4)) toy_read (fun _ w => (w, 0)) id
    example_globals 0 example_table (lua_table_flatten (LTable example_table) 256).2
    {| g_layout_hash := 7; g_initialized := true |} 15) as (s1 & e & H1 & _ & H3 & H4);
    [exact Hwf|exact Hg|lia|by vm_compute|exact example_wf|by vm_compute|done|done|done|].
  destruct (H4 (cstr "f") (out e) (out e) 4 globals_bss eq_refl ltac:(lia) (toy_read_posix 4) eq_refl)
    as (w' & s2 & t' & H).
  exists s1, e, w', s2, t'. exact (conj H1 (conj H3 H)).
Defined.
