(* ===== verification/Migrate.v ===== *)
(** * Field migration on hot reload
    (spikes/spike-n/cart_runtime/migrate.c and save_state_n.c)

    When an edit changes the struct of a tracked region, a save buffer written
    by the old program has a layout hash the new program refuses.
    [save_state_load_migrate] then rebuilds every region field by field from the
    old bytes.  The code indexes byte buffers with offsets taken from
    descriptors; an access outside of a buffer is [Undef]. *)

From S2P Require Import Prelude Layout CString Tracked SaveState Replay.

(** ** Runs of the migration code *)

(** A run ends with a value, spins in [save_state_init]'s PANIC loop, or is
    undefined behaviour. *)
Inductive run (A : Type) := Done (a : A) | Spin | Undef.
Arguments Done {A}.
Arguments Spin {A}.
Arguments Undef {A}.

Definition rbind {A B} (m : run A) (f : A -> run B) : run B :=
  match m with Done a => f a | Spin => Spin | Undef => Undef end.

Declare Scope run_scope.
Delimit Scope run_scope with run.
Notation "'let!' p ':=' m 'in' f" := (rbind m (fun p => f))
  (at level 10, p pattern, m at level 200, f at level 200) : run_scope.
Open Scope run_scope.

(** ** Descriptors *)

Inductive mfield_type_t :=
  MTYPE_U8 | MTYPE_U32 | MTYPE_I32 | MTYPE_U64 | MTYPE_I64 | MTYPE_F32 | MTYPE_F64.

#[export] Instance mfield_type_eq_dec : EqDecision mfield_type_t.
Proof. solve_decision. Defined.

Record mfield_desc_t := MField {
  mf_name : list Z;
  mf_type : mfield_type_t;
  mf_offset : Z;
  mf_size : Z;
}.

(** [ml_fields] holds the [count] descriptors [fields] points at. *)
Record mlayout_t := MLayout {
  ml_fields : list mfield_desc_t;
  ml_total_size : Z;
}.

(** [on_retype(old_field, old_type, new_field, new_type)]: it is given the old
    bytes from the old field on and the new bytes from the new field on, and
    leaves the latter changed. *)
Definition mretype_fn_t : Type :=
  list Z -> mfield_type_t -> list Z -> mfield_type_t -> run (list Z * bool).

Definition mfield_type_name (t : mfield_type_t) : list Z :=
  match t with
  | MTYPE_U8 => cstr "u8"
  | MTYPE_U32 => cstr "u32"
  | MTYPE_I32 => cstr "i32"
  | MTYPE_U64 => cstr "u64"
  | MTYPE_I64 => cstr "i64"
  | MTYPE_F32 => cstr "f32"
  | MTYPE_F64 => cstr "f64"
  end.

(** Strings are kept without their NUL: both loops stop at the first
    difference or at the end of the shorter string. *)
Fixpoint str_eq (a b : list Z) : bool :=
  match a, b with
  | c :: a, d :: b => if c =? d then str_eq a b else false
  | [], [] => true
  | _, _ => false
  end.

(** ** The walk (migrate_region_bytes) *)

Definition zero_fill (p : list Z) (n : Z) : run (list Z) :=
  if Z.of_nat (length p) <? n then Undef
  else Done (write_at 0 (repeat 0 (Z.to_nat n)) p).

(** [copy_bytes(dst + doff, src + soff, n)]. *)
Definition copy_bytes (dst : list Z) (doff : Z) (src : list Z) (soff n : Z) : run (list Z) :=
  if (Z.of_nat (length dst) <? doff + n) || (Z.of_nat (length src) <? soff + n) then Undef
  else Done (write_at (Z.to_nat doff) (slice (Z.to_nat soff) (Z.to_nat n) src) dst).

Definition find_field (name : list Z) (fs : list mfield_desc_t) : option mfield_desc_t :=
  List.find (fun f => str_eq name (mf_name f)) fs.

Definition types_arrow (old_f nf : mfield_desc_t) : list Z :=
  cstr " (" ++ mfield_type_name (mf_type old_f) ++ cstr " -> " ++
  mfield_type_name (mf_type nf) ++ cstr ")".

(** One round of the loop over the new fields: the new bytes, what is printed,
    and [false] for an early [return 0]. *)
Definition migrate_field (new_layout old_layout : mlayout_t) (old_bytes : list Z)
    (on_retype : option mretype_fn_t) (nf : mfield_desc_t) (new_bytes : list Z)
  : run (list Z * list Z * bool) :=
  if ml_total_size new_layout <? u32 (mf_offset nf + mf_size nf) then
    Done (new_bytes, printf_s (cstr "migrate: new field '" ++ mf_name nf ++
      cstr "' offset+size overflows struct" ++ [10]), false)
  else
    match find_field (mf_name nf) (ml_fields old_layout) with
    | None => Done (new_bytes, [], true)
    | Some old_f =>
        if ml_total_size old_layout <? u32 (mf_offset old_f + mf_size old_f) then
          Done (new_bytes, printf_s (cstr "migrate: old field '" ++ mf_name old_f ++
            cstr "' offset+size overflows old struct" ++ [10]), false)
        else if bool_decide (mf_type old_f = mf_type nf) && (mf_size old_f =? mf_size nf) then
          let! new_bytes :=
            copy_bytes new_bytes (mf_offset nf) old_bytes (mf_offset old_f) (mf_size nf) in
          Done (new_bytes, [], true)
        else
          match on_retype with
          | Some f =>
              let! (tail, ok) :=
                f (drop (Z.to_nat (mf_offset old_f)) old_bytes) (mf_type old_f)
                  (drop (Z.to_nat (mf_offset nf)) new_bytes) (mf_type nf) in
              Done (take (Z.to_nat (mf_offset nf)) new_bytes ++ tail,
                    if ok : bool then []
                    else printf_s (cstr "migrate: on_retype dropped field '" ++ mf_name nf ++
                      cstr "'" ++ types_arrow old_f nf ++ [10]),
                    true)
          | None =>
              Done (new_bytes, printf_s (cstr "migrate: dropping retyped field '" ++ mf_name nf ++
                cstr "'" ++ types_arrow old_f nf ++ cstr " " ++ [0xe2; 0x80; 0x94] ++
                cstr " no on_retype callback" ++ [10]), true)
          end
    end.

Fixpoint migrate_fields (new_layout old_layout : mlayout_t) (old_bytes : list Z)
    (on_retype : option mretype_fn_t) (nfs : list mfield_desc_t) (new_bytes : list Z)
  : run (list Z * list Z * bool) :=
  match nfs with
  | [] => Done (new_bytes, [], true)
  | nf :: nfs =>
      let! (new_bytes, line, ok) :=
        migrate_field new_layout old_layout old_bytes on_retype nf new_bytes in
      if ok : bool then
        let! (new_bytes, lines, ok) :=
          migrate_fields new_layout old_layout old_bytes on_retype nfs new_bytes in
        Done (new_bytes, line ++ lines, ok)
      else Done (new_bytes, line, false)
  end.

Definition migrate_region_bytes (new_bytes : list Z) (new_layout : mlayout_t)
    (old_bytes : list Z) (old_layout : mlayout_t) (on_retype : option mretype_fn_t)
  : run (list Z * list Z * bool) :=
  let! new_bytes := zero_fill new_bytes (ml_total_size new_layout) in
  migrate_fields new_layout old_layout old_bytes on_retype (ml_fields new_layout) new_bytes.

(** ** The migrating load (save_state_n.c) *)

(** A null [name] or layout pointer is [None]. *)
Record migrate_region_t := MigrateRegion {
  mr_name : option (list Z);
  mr_old_size : Z;
  mr_old_layout : option mlayout_t;
  mr_new_layout : option mlayout_t;
  mr_on_retype : option mretype_fn_t;
}.

(** [sizeof(scratch)]; [scratch] is static and keeps its bytes between regions. *)
Definition scratch_size : Z := 4096.

Section load_migrate.
Context {S : Type} (runtime_tracked_regions : list (region S))
  (migrate_regions : list (option migrate_region_t)).

Fixpoint find_migrate_desc_in (ms : list (option migrate_region_t)) (name : list Z)
  : option migrate_region_t :=
  match ms with
  | [] => None
  | Some m :: ms =>
      match mr_name m with
      | Some a => if str_eq a name then Some m else find_migrate_desc_in ms name
      | None => find_migrate_desc_in ms name
      end
  | None :: ms => find_migrate_desc_in ms name
  end.

Definition find_migrate_desc (name : list Z) : option migrate_region_t :=
  find_migrate_desc_in migrate_regions name.

(** The size a region has in the old buffer. *)
Definition old_size (r : region S) : Z :=
  match find_migrate_desc (name (r_ops r)) with
  | Some m => mr_old_size m
  | None => region_size r
  end.

Definition save_state_get_frame (buf : list Z) : Z := hframe (read_header buf).

(** Phase 2: the regions [p .. endp) covers, and the message when it does not. *)
Fixpoint check_regions (rs : list (region S)) (p endp : Z) : list Z * bool :=
  match rs with
  | [] => ([], true)
  | r :: rs =>
      if endp <? p + old_size r then
        (printf_s (cstr "save_state_load_migrate: old buffer truncated at region '" ++
           name (r_ops r) ++ cstr "'" ++ [10]), false)
      else check_regions rs (p + old_size r) endp
  end.

Definition load_failed (r : region S) : list Z :=
  printf_s (cstr "save_state_load_migrate: r->load failed for region '" ++
    name (r_ops r) ++ cstr "'" ++ [10]).

(** One round of phase 3 on the old bytes from [p] on: the globals, [scratch],
    what is printed, and [false] for an early [return 0]. *)
Definition apply_region (r : region S) (s : S) (scratch old : list Z)
  : run (S * list Z * list Z * bool) :=
  let raw_load :=
    if negb (old_size r =? region_size r) then
      Done (s, scratch, printf_s (cstr "save_state_load_migrate: region '" ++
        name (r_ops r) ++ cstr "' size changed (" ++ dec (old_size r) ++ cstr " -> " ++
        dec (region_size r) ++ cstr ") with no migration descriptor" ++ [10]), false)
    else
      let '(s, ok) := region_load r s old (region_size r) in
      Done (s, scratch, if ok then [] else load_failed r, ok) in
  match find_migrate_desc (name (r_ops r)) with
  | None => raw_load
  | Some m =>
      if negb (str_eq (default [] (mr_name m)) (name (r_ops r))) then
        Done (s, scratch, printf_s (cstr "save_state_load_migrate: internal name mismatch" ++ [10]),
              false)
      else
        match mr_old_layout m, mr_new_layout m with
        | Some old_layout, Some new_layout =>
            if scratch_size <? region_size r then
              Done (s, scratch, printf_s (cstr "save_state_load_migrate: region '" ++
                name (r_ops r) ++ cstr "' size " ++ dec (region_size r) ++
                cstr " exceeds scratch" ++ [10]), false)
            else
              let! (scratch, out, ok) :=
                migrate_region_bytes scratch new_layout old old_layout (mr_on_retype m) in
              if negb ok then
                Done (s, scratch, out ++ printf_s (
                  cstr "save_state_load_migrate: migration failed for region '" ++
                  name (r_ops r) ++ cstr "'" ++ [10]), false)
              else
                let '(s, ok) := region_load r s scratch (region_size r) in
                Done (s, scratch, out ++ if ok then [] else load_failed r, ok)
        | _, _ => raw_load
        end
  end.

Fixpoint apply_regions (rs : list (region S)) (s : S) (scratch buf : list Z) (p : Z)
  : run (S * list Z * list Z * bool) :=
  match rs with
  | [] => Done (s, scratch, [], true)
  | r :: rs =>
      let! (s, scratch, out, ok) := apply_region r s scratch (drop (Z.to_nat p) buf) in
      if ok : bool then
        let! (s, scratch, out', ok) := apply_regions rs s scratch buf (p + old_size r) in
        Done (s, scratch, out ++ out', ok)
      else Done (s, scratch, out, false)
  end.

Definition mismatch_line : list Z :=
  printf_s (cstr "save_state_load_migrate: layout_hash mismatch " ++ [0xe2; 0x80; 0x94] ++
    cstr " running migration" ++ [10]).

Definition save_state_load_migrate (rt : runtime S) (scratch buf : list Z) (size : Z)
  : run (runtime S * list Z * list Z * bool) :=
  let '(ctx, s) := rt in
  if size <? header_size then Done ((ctx, s), scratch, [], false) else
  let h := read_header buf in
  if negb (magic h =? SAVE_STATE_MAGIC) then Done ((ctx, s), scratch, [], false) else
  if negb (version h =? SAVE_STATE_VERSION) then Done ((ctx, s), scratch, [], false) else
  if size <? total_size h then Done ((ctx, s), scratch, [], false) else
  if layout_hash h =? save_state_layout_hash ctx then
    match save_state_load runtime_tracked_regions (ctx, s) buf size with
    | None => Spin
    | Some (rt, ok) => Done (rt, scratch, [], ok)
    end
  else
    let '(line, ok) := check_regions runtime_tracked_regions header_size (total_size h) in
    if negb ok then Done ((ctx, s), scratch, mismatch_line ++ line, false)
    else
      let! (s, scratch, out, ok) :=
        apply_regions runtime_tracked_regions s scratch buf header_size in
      Done ((ctx, s), scratch, mismatch_line ++ out, ok).
End load_migrate.

(** ** Well-formed descriptors *)

(** [sizeof] of a field type. *)
Definition mtype_size (t : mfield_type_t) : Z :=
  match t with
  | MTYPE_U8 => 1
  | MTYPE_U32 | MTYPE_I32 | MTYPE_F32 => 4
  | MTYPE_U64 | MTYPE_I64 | MTYPE_F64 => 8
  end.

Definition field_ok (total : Z) (f : mfield_desc_t) : Prop :=
  0 <= mf_offset f /\ mf_size f = mtype_size (mf_type f) /\ mf_offset f + mf_size f <= total.

Definition field_disjoint (f g : mfield_desc_t) : Prop :=
  mf_offset f + mf_size f <= mf_offset g \/ mf_offset g + mf_size g <= mf_offset f.

(** What a struct's descriptor gives: every field inside of the struct, with
    the size of its type, and a struct that fits the 32-bit address space. *)
Definition mlayout_ok (l : mlayout_t) : Prop :=
  0 <= ml_total_size l < 2 ^ 32 /\ Forall (field_ok (ml_total_size l)) (ml_fields l).

Abbreviation fields_disjoint := (List.ForallOrdPairs field_disjoint).

#[export] Instance field_ok_dec total f : Decision (field_ok total f).
Proof. unfold field_ok. apply _. Defined.
#[export] Instance field_disjoint_dec f g : Decision (field_disjoint f g).
Proof. unfold field_disjoint. apply _. Defined.
#[export] Instance mlayout_ok_dec l : Decision (mlayout_ok l).
Proof. unfold mlayout_ok. apply _. Defined.

(** ** What a retype callback promises *)

(** [f] touches the bytes of the new field only and its result is a function
    [conv] of the bytes of the old one; [None] leaves the field as it is. *)
Class Retype (f : mretype_fn_t) (conv : list Z -> mfield_type_t -> mfield_type_t -> option (list Z))
  : Prop := {
  retype_run ob orest ot nb nrest nt :
    Z.of_nat (length ob) = mtype_size ot -> Z.of_nat (length nb) = mtype_size nt ->
    f (ob ++ orest) ot (nb ++ nrest) nt =
    Done (match conv ob ot nt with Some b => (b ++ nrest, true) | None => (nb ++ nrest, false) end);
  retype_size ob ot nt b :
    conv ob ot nt = Some b -> Z.of_nat (length b) = mtype_size nt;
}.

Definition no_retype : list Z -> mfield_type_t -> mfield_type_t -> option (list Z) :=
  fun _ _ _ => None.

(** A null [on_retype] converts nothing. *)
Definition retypes (on_retype : option mretype_fn_t)
    (conv : list Z -> mfield_type_t -> mfield_type_t -> option (list Z)) : Prop :=
  match on_retype with Some f => Retype f conv | None => conv = no_retype end.

(** ** The reference: a new field's value, by the four cases *)

Definition field_bytes (f : mfield_desc_t) (bs : list Z) : list Z :=
  slice (Z.to_nat (mf_offset f)) (Z.to_nat (mf_size f)) bs.

Definition zeros (n : Z) : list Z := repeat 0 (Z.to_nat n).

Definition migrated_field (conv : list Z -> mfield_type_t -> mfield_type_t -> option (list Z))
    (old_layout : mlayout_t) (old : list Z) (nf : mfield_desc_t) : list Z :=
  match find_field (mf_name nf) (ml_fields old_layout) with
  | None => zeros (mf_size nf)                                         (* added *)
  | Some old_f =>
      if bool_decide (mf_type old_f = mf_type nf) then field_bytes old_f old   (* matching *)
      else default (zeros (mf_size nf))
             (conv (field_bytes old_f old) (mf_type old_f) (mf_type nf))       (* retyped *)
  end.

(** ** Lemmas *)

Lemma str_eq_spec a b : str_eq a b = true <-> a = b.
Proof.
  revert b; induction a as [|c a IH]; intros [|d b]; simpl; try done.
  destruct (Z.eqb_spec c d) as [->|Hne]; [|by split; [|injection 1]].
  rewrite IH. split; [by intros ->|by injection 1].
Qed.

Lemma find_field_some n fs f :
  find_field n fs = Some f -> f ∈ fs /\ mf_name f = n.
Proof.
  unfold find_field. intros [Hin E]%List.find_some. apply str_eq_spec in E as ->.
  split; [by apply list_elem_of_In|done].
Qed.

(** A byte of a range. *)
Lemma slice_lookup {A} o n k (l l' : list A) a :
  slice o n l = l' -> (k < n)%nat -> l' !! k = Some a -> l !! (o + k)%nat = Some a.
Proof.
  intros <- Hk. unfold slice. rewrite lookup_take_lt by done. by rewrite lookup_drop.
Qed.

(** ** The walk meets the reference *)

Section walk.
Context (new_layout old_layout : mlayout_t) (old : list Z) (on_retype : option mretype_fn_t)
  (conv : list Z -> mfield_type_t -> mfield_type_t -> option (list Z)).
Hypothesis Hnew : mlayout_ok new_layout.
Hypothesis Hold : mlayout_ok old_layout.
Hypothesis Hlen : ml_total_size old_layout <= Z.of_nat (length old).
Hypothesis Hretype : retypes on_retype conv.

Lemma length_field_bytes f l total :
  field_ok total f -> total <= Z.of_nat (length l) ->
  Z.of_nat (length (field_bytes f l)) = mf_size f.
Proof.
  intros (H1 & H2 & H3) Hl. unfold field_bytes.
  assert (0 < mf_size f) by (rewrite H2; by destruct (mf_type f)).
  rewrite length_slice by lia. lia.
Qed.

Lemma mtype_size_pos t : 0 < mtype_size t.
Proof. by destruct t. Qed.

Lemma length_migrated_field nf :
  field_ok (ml_total_size new_layout) nf ->
  Z.of_nat (length (migrated_field conv old_layout old nf)) = mf_size nf.
Proof.
  intros Hnf. pose proof Hnf as (_ & Hs & _). pose proof (mtype_size_pos (mf_type nf)).
  assert (Z.of_nat (length (zeros (mf_size nf))) = mf_size nf) as Hz
    by (unfold zeros; rewrite repeat_length; lia).
  unfold migrated_field.
  destruct (find_field (mf_name nf) (ml_fields old_layout)) as [old_f|] eqn:Ef; [|done].
  apply find_field_some in Ef as [Hin _].
  pose proof (proj1 (Forall_forall _ _) (proj2 Hold) _ Hin) as Hof.
  destruct (bool_decide_reflect (mf_type old_f = mf_type nf)) as [E|_].
  - erewrite length_field_bytes by done. destruct Hof as (_ & -> & _). by rewrite Hs, E.
  - destruct (conv _ _ _) as [b|] eqn:Ec; simpl; [|done].
    unfold retypes in Hretype. destruct on_retype as [f|].
    + by rewrite (retype_size _ _ _ _ Ec), Hs.
    + by rewrite Hretype in Ec.
Qed.

(** One round on a field that is still zero. *)
Lemma migrate_field_spec nf new_bytes :
  field_ok (ml_total_size new_layout) nf ->
  ml_total_size new_layout <= Z.of_nat (length new_bytes) ->
  field_bytes nf new_bytes = zeros (mf_size nf) ->
  exists out,
    migrate_field new_layout old_layout old on_retype nf new_bytes =
    Done (write_at (Z.to_nat (mf_offset nf)) (migrated_field conv old_layout old nf) new_bytes,
          out, true).
Proof.
  intros Hnf Hnl Hz. pose proof Hnf as (Ho & Hs & Hin).
  pose proof (mtype_size_pos (mf_type nf)) as Hpos.
  destruct Hnew as [Htn _]. unfold migrate_field, migrated_field.
  rewrite wrap_small by lia.
  destruct (Z.ltb_spec (ml_total_size new_layout) (mf_offset nf + mf_size nf)); [lia|].
  assert (write_at (Z.to_nat (mf_offset nf)) (zeros (mf_size nf)) new_bytes = new_bytes) as Hsame.
  { rewrite <-Hz. apply write_at_slice. lia. }
  destruct (find_field (mf_name nf) (ml_fields old_layout)) as [old_f|] eqn:Ef;
    [|rewrite Hsame; by eexists].
  apply find_field_some in Ef as [Hel _].
  pose proof (proj1 (Forall_forall _ _) (proj2 Hold) _ Hel) as Hof.
  pose proof Hof as (Ho' & Hs' & Hin'). destruct Hold as [Hto _].
  pose proof (mtype_size_pos (mf_type old_f)) as Hpos'.
  rewrite (wrap_small 32 (mf_offset old_f + mf_size old_f)) by lia.
  destruct (Z.ltb_spec (ml_total_size old_layout) (mf_offset old_f + mf_size old_f)); [lia|].
  destruct (bool_decide_reflect (mf_type old_f = mf_type nf)) as [E|Hne].
  - assert (mf_size old_f = mf_size nf) as Es by (rewrite Hs, Hs', E; done).
    rewrite Es, Z.eqb_refl. cbn [andb]. unfold copy_bytes, field_bytes. rewrite Es.
    destruct (Z.ltb_spec (Z.of_nat (length new_bytes)) (mf_offset nf + mf_size nf)); [lia|].
    destruct (Z.ltb_spec (Z.of_nat (length old)) (mf_offset old_f + mf_size nf)); [lia|].
    by eexists.
  - cbn [andb]. unfold retypes in Hretype. destruct on_retype as [f|].
    + assert (drop (Z.to_nat (mf_offset old_f)) old = field_bytes old_f old ++
        drop (Z.to_nat (mf_offset old_f) + Z.to_nat (mf_size old_f)) old) as -> by apply slice_split.
      assert (drop (Z.to_nat (mf_offset nf)) new_bytes = zeros (mf_size nf) ++
        drop (Z.to_nat (mf_offset nf) + Z.to_nat (mf_size nf)) new_bytes) as ->
        by (rewrite <-Hz; apply slice_split).
      rewrite retype_run; [|by rewrite (length_field_bytes _ _ _ Hof)
        |unfold zeros; rewrite repeat_length; lia].
      destruct (conv _ _ _) as [b|] eqn:Ec; cbn [rbind default]; eexists; do 3 f_equal.
      * unfold write_at, id. pose proof (retype_size _ _ _ _ Ec). do 2 f_equal. f_equal. lia.
      * unfold write_at, zeros. rewrite repeat_length. done.
    + rewrite Hretype. cbn [no_retype default]. rewrite Hsame. by eexists.
Qed.

Lemma migrate_fields_spec nfs new_bytes :
  Forall (field_ok (ml_total_size new_layout)) nfs -> fields_disjoint nfs ->
  ml_total_size new_layout <= Z.of_nat (length new_bytes) ->
  Forall (fun nf => field_bytes nf new_bytes = zeros (mf_size nf)) nfs ->
  exists new_bytes' out,
    migrate_fields new_layout old_layout old on_retype nfs new_bytes =
      Done (new_bytes', out, true) /\
    length new_bytes' = length new_bytes /\
    Forall (fun nf => field_bytes nf new_bytes' = migrated_field conv old_layout old nf) nfs /\
    (forall o n, Forall (fun nf => Z.of_nat (o + n) <= mf_offset nf \/
                                   mf_offset nf + mf_size nf <= Z.of_nat o) nfs ->
       slice o n new_bytes' = slice o n new_bytes).
Proof.
  revert new_bytes; induction nfs as [|nf nfs IH]; intros new_bytes Hok Hdis Hnl Hz.
  { eexists _, _. split; [done|]. split_and!; [done|constructor|done]. }
  apply Forall_cons_1 in Hok as [Hnf Hok]. apply Forall_cons_1 in Hz as [Hz0 Hz].
  inversion Hdis as [|? ? Hd Hdis']; subst.
  cbn [migrate_fields]. destruct (migrate_field_spec nf new_bytes Hnf Hnl Hz0) as [line ->].
  cbn [rbind]. pose proof (length_migrated_field nf Hnf) as Hml.
  set (m := migrated_field conv old_layout old nf) in *.
  pose proof Hnf as (Ho & Hs & Hin). pose proof (mtype_size_pos (mf_type nf)) as Hpos.
  assert (length (write_at (Z.to_nat (mf_offset nf)) m new_bytes) = length new_bytes) as Hwl
    by (apply length_write_at; lia).
  destruct (IH (write_at (Z.to_nat (mf_offset nf)) m new_bytes)) as (nb & out & -> & Hnb & Hf & Hfr).
  - done.
  - done.
  - lia.
  - rewrite Forall_forall in *. intros g Hg. rewrite <-(Hz g Hg). unfold field_bytes.
    pose proof (Hok g Hg) as (? & ? & ?). pose proof (mtype_size_pos (mf_type g)).
    apply slice_write_at_disjoint; [|lia].
    specialize (Hd g Hg). unfold field_disjoint in Hd. lia.
  - eexists _, _. split; [reflexivity|]. split_and!; [lia| |].
    + constructor; [|done]. unfold field_bytes. rewrite Hfr.
      * replace (Z.to_nat (mf_size nf)) with (length m) by lia. apply slice_write_at_eq. lia.
      * rewrite Forall_forall in *. intros g Hg.
        specialize (Hd g Hg). unfold field_disjoint in Hd. lia.
    + intros o n Hon. apply Forall_cons_1 in Hon as [Hon0 Hon]. rewrite Hfr by done.
      apply slice_write_at_disjoint; lia.
Qed.
End walk.

Lemma slice_zeros o n t rest :
  0 <= o -> 0 <= n -> o + n <= t ->
  slice (Z.to_nat o) (Z.to_nat n) (zeros t ++ rest) = zeros n.
Proof.
  intros. unfold zeros.
  replace (Z.to_nat t) with (Z.to_nat o + (Z.to_nat n + Z.to_nat (t - o - n)))%nat by lia.
  rewrite !repeat_app, <-!app_assoc. unfold slice.
  rewrite drop_app_length' by (by rewrite repeat_length). apply take_app_length'. by rewrite repeat_length.
Qed.

(** The reference reads the old struct only. *)
Lemma migrated_field_app conv old_layout old nf rest :
  mlayout_ok old_layout -> ml_total_size old_layout <= Z.of_nat (length old) ->
  migrated_field conv old_layout (old ++ rest) nf = migrated_field conv old_layout old nf.
Proof.
  intros [_ Hok] Hl. unfold migrated_field.
  destruct (find_field _ _) as [f|] eqn:Ef; [|done]. apply find_field_some in Ef as [Hin _].
  rewrite Forall_forall in Hok. pose proof (Hok f Hin) as (? & ? & ?).
  assert (field_bytes f (old ++ rest) = field_bytes f old) as ->; [|done].
  pose proof (mtype_size_pos (mf_type f)). unfold field_bytes, slice.
  rewrite drop_app_le by lia. apply take_app_le. rewrite length_drop. lia.
Qed.

(** ** Properties of the walk *)

(** The walk into a buffer of any contents: every field of the new layout is
    the reference's value, every other byte of the struct is zero, and what
    lies behind the struct is left alone. *)
Lemma migrate_region_walk new_layout old_layout old on_retype conv scratch :
  mlayout_ok new_layout -> mlayout_ok old_layout -> fields_disjoint (ml_fields new_layout) ->
  ml_total_size old_layout <= Z.of_nat (length old) ->
  ml_total_size new_layout <= Z.of_nat (length scratch) -> retypes on_retype conv ->
  exists new_bytes out,
    migrate_region_bytes scratch new_layout old old_layout on_retype =
      Done (new_bytes, out, true) /\
    length new_bytes = length scratch /\
    Forall (fun nf => field_bytes nf new_bytes = migrated_field conv old_layout old nf)
      (ml_fields new_layout) /\
    (forall o n, 0 <= o -> 0 <= n -> o + n <= ml_total_size new_layout ->
       Forall (fun nf => o + n <= mf_offset nf \/ mf_offset nf + mf_size nf <= o)
         (ml_fields new_layout) ->
       slice (Z.to_nat o) (Z.to_nat n) new_bytes = zeros n) /\
    drop (Z.to_nat (ml_total_size new_layout)) new_bytes =
    drop (Z.to_nat (ml_total_size new_layout)) scratch.
Proof.
  intros Hnew Hold Hdis Hol Hnl Hre. unfold migrate_region_bytes, zero_fill.
  destruct (Z.ltb_spec (Z.of_nat (length scratch)) (ml_total_size new_layout)); [lia|].
  cbn [rbind]. fold (zeros (ml_total_size new_layout)). pose proof Hnew as [[Ht _] Hfs].
  assert (length (zeros (ml_total_size new_layout)) = Z.to_nat (ml_total_size new_layout)) as Hz
    by apply repeat_length.
  set (t := ml_total_size new_layout) in *.
  assert (write_at 0 (zeros t) scratch = zeros t ++ drop (Z.to_nat t) scratch) as Hw
    by (unfold write_at; rewrite Hz; done).
  assert (length (write_at 0 (zeros t) scratch) = length scratch) as Hwl
    by (apply length_write_at; lia).
  destruct (migrate_fields_spec new_layout old_layout old on_retype conv Hnew Hold Hol Hre
    (ml_fields new_layout) (write_at 0 (zeros t) scratch))
    as (nb & out & -> & Hl & Hf & Hfr); [done|done|fold t; lia| |].
  - apply Forall_forall. intros nf Hnf. rewrite Forall_forall in Hfs.
    destruct (Hfs nf Hnf) as (Ho & Hs & Hin). pose proof (mtype_size_pos (mf_type nf)).
    unfold field_bytes. rewrite Hw. apply slice_zeros; lia.
  - eexists _, _. split_and!; [done|lia|done| |].
    + intros o n Ho Hn Hon Hout. rewrite Hfr; [rewrite Hw; by apply slice_zeros|].
      eapply Forall_impl; [exact Hout|]. intros nf [?|?]; lia.
    + assert (slice (Z.to_nat t) (length nb) nb =
              slice (Z.to_nat t) (length nb) (write_at 0 (zeros t) scratch)) as E.
      { apply Hfr. eapply Forall_impl; [exact Hfs|]. intros nf (_ & _ & ?). lia. }
      unfold slice in E. rewrite !take_ge in E by (rewrite length_drop; lia).
      rewrite E, Hw. by rewrite drop_app_length' by done.
Qed.

(** C11: the migration policy, case by case.  With well-formed descriptors and
    a new struct whose fields do not overlap, the walk never leaves its buffers
    and succeeds; a field the old layout lacks is zero, a field it has with the
    same type keeps its bytes wherever the two structs place it, a field it has
    with another type holds what [on_retype] makes of the old bytes, or zeros
    when it declines or is null; padding is zero and the bytes behind the
    struct are left as they were. *)
Theorem migrate_policy new_layout old_layout old on_retype conv scratch :
  mlayout_ok new_layout -> mlayout_ok old_layout -> fields_disjoint (ml_fields new_layout) ->
  ml_total_size old_layout <= Z.of_nat (length old) ->
  ml_total_size new_layout <= Z.of_nat (length scratch) -> retypes on_retype conv ->
  exists new_bytes out,
    migrate_region_bytes scratch new_layout old old_layout on_retype = Done (new_bytes, out, true) /\
    (forall nf, nf ∈ ml_fields new_layout ->
       (forall old_f, old_f ∈ ml_fields old_layout -> mf_name old_f <> mf_name nf) ->
       field_bytes nf new_bytes = zeros (mf_size nf)) /\
    (forall nf old_f, nf ∈ ml_fields new_layout ->
       find_field (mf_name nf) (ml_fields old_layout) = Some old_f ->
       mf_type old_f = mf_type nf -> field_bytes nf new_bytes = field_bytes old_f old) /\
    (forall nf old_f, nf ∈ ml_fields new_layout ->
       find_field (mf_name nf) (ml_fields old_layout) = Some old_f ->
       mf_type old_f <> mf_type nf ->
       field_bytes nf new_bytes =
       default (zeros (mf_size nf)) (conv (field_bytes old_f old) (mf_type old_f) (mf_type nf))) /\
    (forall i, 0 <= i < ml_total_size new_layout ->
       Forall (fun nf => i < mf_offset nf \/ mf_offset nf + mf_size nf <= i)
         (ml_fields new_layout) -> new_bytes !! Z.to_nat i = Some 0) /\
    drop (Z.to_nat (ml_total_size new_layout)) new_bytes =
    drop (Z.to_nat (ml_total_size new_layout)) scratch.
Proof.
  intros Hnew Hold Hdis Hol Hnl Hre.
  destruct (migrate_region_walk new_layout old_layout old on_retype conv scratch)
    as (nb & out & E & Hl & Hf & Hz & Hd); [done..|]. rewrite Forall_forall in Hf.
  exists nb, out. split_and!; [done| | | | |done].
  - intros nf Hnf Hno. rewrite (Hf nf Hnf). unfold migrated_field.
    destruct (find_field _ _) as [old_f|] eqn:Ef; [|done].
    apply find_field_some in Ef as [? ?]. by destruct (Hno old_f).
  - intros nf old_f Hnf Ef Et. rewrite (Hf nf Hnf). unfold migrated_field.
    rewrite Ef. by rewrite bool_decide_true.
  - intros nf old_f Hnf Ef Et. rewrite (Hf nf Hnf). unfold migrated_field.
    rewrite Ef. by rewrite bool_decide_false.
  - intros i Hi Hout. specialize (Hz i 1 ltac:(lia) ltac:(lia) ltac:(lia)).
    rewrite <-(Nat.add_0_r (Z.to_nat i)).
    apply (slice_lookup (Z.to_nat i) 1 0 nb [0]); [|lia|done].
    apply Hz. eapply Forall_impl; [exact Hout|]. intros nf [?|?]; lia.
Qed.

(** ** Two layouts of the same fields *)

(** Every field of [l] is in [l'] under its name, with its type. *)
Definition same_fields (l l' : mlayout_t) : Prop :=
  Forall (fun f => exists g, find_field (mf_name f) (ml_fields l') = Some g /\ mf_type g = mf_type f)
    (ml_fields l).

(** Without padding: every byte belongs to a field. *)
Definition covers (l : mlayout_t) : Prop :=
  forall i, 0 <= i < ml_total_size l ->
    exists f, f ∈ ml_fields l /\ mf_offset f <= i < mf_offset f + mf_size f.

Definition distinct_names (l : mlayout_t) : Prop := NoDup (map mf_name (ml_fields l)).

Lemma find_field_distinct fs f :
  NoDup (map mf_name fs) -> f ∈ fs -> find_field (mf_name f) fs = Some f.
Proof.
  intros Hnd Hf. destruct (find_field (mf_name f) fs) as [g|] eqn:E.
  - apply find_field_some in E as [Hg En]. f_equal. revert Hnd Hf Hg En. clear.
    induction fs as [|h fs IH]; cbn [map]; intros Hnd Hf Hg En; [by apply elem_of_nil in Hf|].
    apply NoDup_cons in Hnd as [Hnin Hnd].
    assert (forall x, x ∈ fs -> mf_name x <> mf_name h) as Hne.
    { intros x Hx E. apply Hnin. rewrite <-E. by apply list_elem_of_fmap_2. }
    apply elem_of_cons in Hf as [->|Hf], Hg as [->|Hg]; auto.
    + by destruct (Hne g Hg).
    + by destruct (Hne f Hf).
  - unfold find_field in E. apply list_elem_of_In in Hf.
    pose proof (List.find_none _ _ E f Hf) as Hn. cbv beta in Hn.
    by rewrite (proj2 (str_eq_spec (mf_name f) (mf_name f)) eq_refl) in Hn.
Qed.

(** Struct bytes are determined by the fields' bytes. *)
Lemma covered_eq l bs bs' :
  covers l -> Forall (field_ok (ml_total_size l)) (ml_fields l) ->
  Z.of_nat (length bs) = ml_total_size l -> Z.of_nat (length bs') = ml_total_size l ->
  Forall (fun f => field_bytes f bs = field_bytes f bs') (ml_fields l) -> bs = bs'.
Proof.
  intros Hc Hok Hl Hl' Hf. rewrite Forall_forall in Hok, Hf.
  apply (list_eq_same_length _ _ (length bs)); [lia|done|].
  intros i a b Hi Ha Hb. destruct (Hc (Z.of_nat i)) as (f & Hin & Hr); [lia|].
  destruct (Hok f Hin) as (? & ? & ?). specialize (Hf f Hin). unfold field_bytes in Hf.
  assert (forall (l1 : list Z) c, l1 !! i = Some c ->
    slice (Z.to_nat (mf_offset f)) (Z.to_nat (mf_size f)) l1 !! (i - Z.to_nat (mf_offset f))%nat = Some c)
    as Hs.
  { intros l' c Hc'. unfold slice. rewrite lookup_take_lt by lia. rewrite lookup_drop.
    by replace (Z.to_nat (mf_offset f) + (i - Z.to_nat (mf_offset f)))%nat with i by lia. }
  apply Hs in Ha, Hb. rewrite Hf in Ha. congruence.
Qed.

(** reordering and moving fields loses nothing.  When two layouts have the
    same named fields of the same types, the bytes of a struct without padding
    migrated to the other layout and back are the bytes it started with,
    whatever the scratch buffers held. *)
Theorem reorder_roundtrip l l' old on_retype conv scratch scratch' :
  mlayout_ok l -> mlayout_ok l' -> fields_disjoint (ml_fields l) ->
  fields_disjoint (ml_fields l') -> distinct_names l -> distinct_names l' ->
  same_fields l l' -> same_fields l' l -> covers l -> retypes on_retype conv ->
  Z.of_nat (length old) = ml_total_size l -> ml_total_size l' <= Z.of_nat (length scratch) ->
  ml_total_size l <= Z.of_nat (length scratch') ->
  exists mid out back out',
    migrate_region_bytes scratch l' old l on_retype = Done (mid, out, true) /\
    migrate_region_bytes scratch' l mid l' on_retype = Done (back, out', true) /\
    take (Z.to_nat (ml_total_size l)) back = old.
Proof.
  intros Hl Hl' Hd Hd' Hn Hn' Hs Hs' Hc Hre Hlen Hsc Hsc'.
  destruct (migrate_region_walk l' l old on_retype conv scratch)
    as (mid & out & E & Hml & Hf & _); [done..|lia|done|done|].
  destruct (migrate_region_walk l l' mid on_retype conv scratch')
    as (back & out' & E' & Hbl & Hf' & _); [done..|lia|done|done|].
  exists mid, out, back, out'. split; [done|]. split; [done|].
  apply (covered_eq l); [done|apply Hl|rewrite length_take; lia|done|].
  pose proof (proj2 Hl) as Hok. unfold same_fields in *. rewrite Forall_forall in *.
  intros f Hin. pose proof (Hok f Hin) as (? & ? & ?).
  assert (field_bytes f (take (Z.to_nat (ml_total_size l)) back) = field_bytes f back) as ->.
  { unfold field_bytes, slice. rewrite skipn_firstn_comm, take_take. f_equal. lia. }
  destruct (Hs f Hin) as (g & Eg & Et). rewrite (Hf' f Hin). unfold migrated_field.
  rewrite Eg, bool_decide_true by done. apply find_field_some in Eg as [Hg En].
  rewrite (Hf g Hg). unfold migrated_field.
  rewrite En, (find_field_distinct _ f) by done. by rewrite bool_decide_true by done.
Qed.

(** ** The migrating load *)

Section load_migrate_lemmas.
Context {S : Type} (ms : list (option migrate_region_t)).
Implicit Types (r : region S) (rs : list (region S)) (s : S).

(** Region by region, the old bytes [segs] are accepted and leave [s'], the
    scratch buffer [sc'] and the messages [out]; [rest] lies behind them in the
    buffer. *)
Inductive applies (rest : list Z) : list (region S) -> list (list Z) -> S -> list Z -> S -> list Z -> list Z -> Prop :=
  | applies_nil s sc : applies rest [] [] s sc s sc []
  | applies_cons r rs seg segs s sc s1 sc1 out1 s2 sc2 out2 :
      Z.of_nat (length seg) = old_size ms r ->
      apply_region ms r s sc (seg ++ concat segs ++ rest) = Done (s1, sc1, out1, true) ->
      applies rest rs segs s1 sc1 s2 sc2 out2 ->
      applies rest (r :: rs) (seg :: segs) s sc s2 sc2 (out1 ++ out2).

Lemma check_regions_ok rest rs segs s sc s' sc' out p endp :
  applies rest rs segs s sc s' sc' out -> p + Z.of_nat (length (concat segs)) <= endp ->
  check_regions ms rs p endp = ([], true).
Proof.
  intros H; revert p; induction H as [|r rs seg segs s sc s1 sc1 out1 s2 sc2 out2 Hl Ha H IH];
    intros p Hp; cbn [check_regions concat] in *; [done|].
  rewrite length_app, Nat2Z.inj_add in Hp.
  destruct (Z.ltb_spec endp (p + old_size ms r)); [lia|]. apply IH. lia.
Qed.

Lemma apply_regions_ok rs segs s sc s' sc' out pre rest :
  applies rest rs segs s sc s' sc' out ->
  apply_regions ms rs s sc (pre ++ concat segs ++ rest) (Z.of_nat (length pre)) =
  Done (s', sc', out, true).
Proof.
  intros H; revert pre; induction H as [|r rs seg segs s sc s1 sc1 out1 s2 sc2 out2 Hl Ha H IH];
    intros pre; cbn [apply_regions concat]; [done|].
  rewrite Nat2Z.id, drop_app_length, <-(app_assoc seg), Ha. cbn [rbind].
  rewrite <-Hl, <-Nat2Z.inj_add, <-length_app, (app_assoc pre), IH. done.
Qed.

(** A load of a buffer with another layout hash runs the migration. *)
Lemma load_migrate_applies rs ctx s sc h segs rest size s' sc' out :
  lwf header_layout h -> magic h = SAVE_STATE_MAGIC -> version h = SAVE_STATE_VERSION ->
  layout_hash h <> save_state_layout_hash ctx ->
  header_size + Z.of_nat (length (concat segs)) <= total_size h -> total_size h <= size ->
  applies rest rs segs s sc s' sc' out ->
  save_state_load_migrate rs ms (ctx, s) sc (lenc header_layout h ++ concat segs ++ rest) size =
  Done ((ctx, s'), sc', mismatch_line ++ out, true).
Proof.
  intros Hh Hm Hv Hlh Ht Hsz H. unfold save_state_load_migrate.
  rewrite read_header_app by done. unfold header_size in *.
  destruct (Z.ltb_spec size 24); [lia|]. rewrite Hm, Hv, !Z.eqb_refl. cbn [negb].
  destruct (Z.ltb_spec size (total_size h)); [lia|].
  destruct (Z.eqb_spec (layout_hash h) (save_state_layout_hash ctx)); [done|].
  rewrite (check_regions_ok _ _ _ _ _ _ _ _ _ _ H) by lia. cbn [negb].
  change 24 with (Z.of_nat (lsize header_layout)). rewrite <-(length_lenc h Hh).
  by rewrite (apply_regions_ok _ _ _ _ _ _ _ _ _ H).
Qed.

(** An unchanged region without a descriptor loads its old bytes. *)
Lemma apply_region_raw r s sc seg s' :
  find_migrate_desc ms (name (r_ops r)) = None ->
  region_load r s seg (region_size r) = (s', true) ->
  apply_region ms r s sc seg = Done (s', sc, [], true).
Proof.
  intros Hm Hl. unfold apply_region, old_size. rewrite Hm, Z.eqb_refl, Hl. done.
Qed.

(** A region with a descriptor loads what the walk makes of its old bytes. *)
Lemma apply_region_migrates r s sc seg m n lo ln sc' out s' :
  find_migrate_desc ms (name (r_ops r)) = Some m -> mr_name m = Some n ->
  mr_old_layout m = Some lo -> mr_new_layout m = Some ln ->
  region_size r <= scratch_size ->
  migrate_region_bytes sc ln seg lo (mr_on_retype m) = Done (sc', out, true) ->
  region_load r s sc' (region_size r) = (s', true) ->
  apply_region ms r s sc seg = Done (s', sc', out, true).
Proof.
  intros Hm Hn Hlo Hln Hsz Hmig Hl. unfold apply_region. rewrite Hm, Hn, Hlo, Hln.
  assert (str_eq n (name (r_ops r)) = true) as Hs.
  { unfold find_migrate_desc in Hm. clear -Hm Hn. induction ms as [|[m'|] l IH]; simpl in Hm; [done| |auto].
    destruct (mr_name m') as [a|] eqn:E; [|auto]. destruct (str_eq a _) eqn:Es; [|auto].
    injection Hm as ->. rewrite E in Hn. by injection Hn as <-. }
  change (default [] (Some n)) with n. rewrite Hs. cbn [negb].
  destruct (Z.ltb_spec scratch_size (region_size r)); [lia|].
  rewrite Hmig. cbn [rbind negb]. rewrite Hl. by rewrite app_nil_r.
Qed.
End load_migrate_lemmas.

(** The gates in front of any change: magic, version, size, and on a layout
    mismatch an old buffer long enough for every region. *)
Definition migrate_gate {S} (rs : list (region S)) (ms : list (option migrate_region_t))
    (ctx : save_ctx) (buf : list Z) (size : Z) : Prop :=
  let h := read_header buf in
  header_size <= size /\ magic h = SAVE_STATE_MAGIC /\ version h = SAVE_STATE_VERSION /\
  total_size h <= size /\
  (layout_hash h = save_state_layout_hash ctx \/
   header_size + foldr (fun r acc => old_size ms r + acc) 0 rs <= total_size h).

Lemma check_regions_sum {S} ms (rs : list (region S)) p endp :
  Forall (fun r => 0 <= old_size ms r) rs ->
  (check_regions ms rs p endp).2 = true ->
  p + foldr (fun r acc => old_size ms r + acc) 0 rs <= endp \/ rs = [].
Proof.
  intros H; revert p; induction H as [|r rs Hr H IH]; intros p; cbn [check_regions foldr]; [by right|].
  destruct (Z.ltb_spec endp (p + old_size ms r)); [done|]. intros Hc. left.
  destruct (IH _ Hc) as [?| ->]; simpl in *; lia.
Qed.

(** a load whose layout hash matches is the ordinary load, and a buffer
    that fails a gate is refused before any region is touched. *)
Theorem load_migrate_gates {S} (rs : list (region S)) ms ctx s sc buf size :
  rs <> [] -> Forall (fun r => 0 <= old_size ms r) rs ->
  (~ migrate_gate rs ms ctx buf size ->
     exists out, save_state_load_migrate rs ms (ctx, s) sc buf size =
       Done ((ctx, s), sc, out, false)) /\
  (layout_hash (read_header buf) = save_state_layout_hash ctx ->
   magic (read_header buf) = SAVE_STATE_MAGIC -> version (read_header buf) = SAVE_STATE_VERSION ->
   header_size <= size -> total_size (read_header buf) <= size ->
     save_state_load_migrate rs ms (ctx, s) sc buf size =
     match save_state_load rs (ctx, s) buf size with
     | None => Spin
     | Some (rt, ok) => Done (rt, sc, [], ok)
     end).
Proof.
  intros Hne Hpos. unfold migrate_gate, save_state_load_migrate. cbv zeta.
  set (h := read_header buf).
  destruct (Z.ltb_spec size header_size); [split; [by eexists|lia]|].
  destruct (Z.eqb_spec (magic h) SAVE_STATE_MAGIC); cbn [negb]; [|split; [by eexists|done]].
  destruct (Z.eqb_spec (version h) SAVE_STATE_VERSION); cbn [negb]; [|split; [by eexists|done]].
  destruct (Z.ltb_spec size (total_size h)); [split; [by eexists|lia]|].
  destruct (Z.eqb_spec (layout_hash h) (save_state_layout_hash ctx)) as [?|?]; [by split; tauto|].
  split; [|done]. intros Hg.
  destruct (check_regions ms rs header_size (total_size h)) as [line ok] eqn:Ec.
  destruct ok; cbn [negb]; [|by eexists]. destruct Hg. split_and!; [done..|].
  right. destruct (check_regions_sum ms rs header_size (total_size h)) as [?|?]; [done| |done|done].
  by rewrite Ec.
Qed.

(** ** Descriptors the walk does not survive *)

(** The range checks add 32-bit numbers: a descriptor whose offset and size
    wrap around passes them, and the copy leaves the buffer. *)
Theorem wrapping_descriptor_overruns new_layout old_layout old on_retype nf old_f new_bytes :
  find_field (mf_name nf) (ml_fields old_layout) = Some old_f ->
  field_ok (ml_total_size old_layout) old_f -> ml_total_size old_layout < 2 ^ 32 ->
  mf_type old_f = mf_type nf -> mf_size old_f = mf_size nf ->
  2 ^ 32 <= mf_offset nf + mf_size nf -> u32 (mf_offset nf + mf_size nf) <= ml_total_size new_layout ->
  Z.of_nat (length new_bytes) < 2 ^ 32 ->
  migrate_field new_layout old_layout old on_retype nf new_bytes = Undef.
Proof.
  intros Ef (Ho & Hs & Hin) Ht Et Es Hwrap Hpass Hl.
  assert (0 < mf_size old_f) by (rewrite Hs; apply mtype_size_pos).
  unfold migrate_field. rewrite Ef.
  destruct (Z.ltb_spec (ml_total_size new_layout) (u32 (mf_offset nf + mf_size nf))); [lia|].
  rewrite (wrap_small 32 (mf_offset old_f + mf_size old_f)) by lia.
  destruct (Z.ltb_spec (ml_total_size old_layout) (mf_offset old_f + mf_size old_f)); [lia|].
  rewrite bool_decide_true, Es, Z.eqb_refl by done. cbn [andb]. unfold copy_bytes.
  destruct (Z.ltb_spec (Z.of_nat (length new_bytes)) (mf_offset nf + mf_size nf)); [done|lia].
Qed.

Example wrapping_descriptor :
  let f off := MField (cstr "x") MTYPE_U32 off 4 in
  migrate_region_bytes (repeat 0 4096) (MLayout [f 0xfffffffe] 4) [1; 2; 3; 4] (MLayout [f 0] 4) None
  = Undef.
Proof. vm_compute. reflexivity. Qed.
