(* ===== verification/HotReload.v ===== *)
(** * Hot reload of the edited carts (spikes/spike-n)

    A cart is saved by the program before an edit and continued by the program
    after it.  The native cart's struct goes through versions v0, v3, v4, v5 and
    v6, the Lua cart's through v0, v2, v3 and v4; [NATIVE_STATE_VERSION] and
    [LUA_STATE_VERSION] pick one at compile time, here a Module per version.
    [HotReload] states what an edit's descriptors have to achieve, the drivers'
    theorem is proved against it, and every edit discharges it. *)

From S2P Require Import Prelude Layout Float32 Determinism CString Tracked SaveState SaveIo.
From S2P Require Import Regions Replay Migrate.
Import FrameStateRegion.

#[local] Arguments le_bytes : simpl never.

(** ** Regions that are copied out and in as they are *)

(** The callbacks of region_native_state.c and region_lua_cart_state.c, for a
    struct [l] and a list of [describe] calls. *)
Definition pod_region {A} (nm : string) (l : layout A) (calls : list sink_call)
  : runtime_tracked_region_t A := {|
  Tracked.name := cstr nm;
  Tracked.size := Z.of_nat (lsize l);
  Tracked.describe := Some (emit calls);
  Tracked.save := fun g_state => (g_state, lenc l g_state);
  Tracked.load := fun g_state src n =>
    if negb (n =? Z.of_nat (lsize l)) then (g_state, false)
    else (ldec l (take (Z.to_nat n) src), true);
|}.

#[export] Instance pod_region_lawful {A} nm (l : layout A) calls :
  Lawful l -> LawfulRegion (pod_region nm l calls) (fun a => lwf l a /\ true = true).
Proof.
  intros Hl. apply (memcpy_region_lawful _ l id (fun _ => true)); try done.
Qed.

(** [string_sink_puts(out, "name:type@"); string_sink_putu(out, offset);
    string_sink_putc(out, ',')]. *)
Definition describe_field (nm : string) (offset : Z) : list sink_call :=
  [Puts nm; Putu offset; Putc comma].

Definition field (nm : string) (t : mfield_type_t) (offset sz : Z) : mfield_desc_t :=
  MField (cstr nm) t offset sz.

(** ** The native cart's struct (region_native_state.c) *)

Module NativeV0.
Record native_cart_state_t := State { frame_count : Z; some_value : Z; unused_count : Z }.
Definition layout : layout native_cart_state_t :=
  struct (sint 4 ⨾ sint 4 ⨾ sint 4)%layout
    (fun s => (frame_count s, (some_value s, unused_count s)))
    (fun '(a, (b, c)) => State a b c).
#[export] Instance layout_lawful : Lawful layout.
Proof. apply struct_lawful; [apply _|by intros []|by intros (?&?&?)]. Qed.
Definition region_native_state : runtime_tracked_region_t native_cart_state_t :=
  pod_region "native_state" layout
    (describe_field "frame_count:i32@" 0 ++ describe_field "some_value:i32@" 4 ++
     describe_field "unused_count:i32@" 8).
Definition native_state_layout : mlayout_t :=
  MLayout [field "frame_count" MTYPE_I32 0 4; field "some_value" MTYPE_I32 4 4;
           field "unused_count" MTYPE_I32 8 4] 12.
End NativeV0.

Module NativeV3.
Record native_cart_state_t :=
  State { frame_count : Z; some_value : Z; unused_count : Z; last_score : Z }.
Definition layout : layout native_cart_state_t :=
  struct (sint 4 ⨾ sint 4 ⨾ sint 4 ⨾ sint 4)%layout
    (fun s => (frame_count s, (some_value s, (unused_count s, last_score s))))
    (fun '(a, (b, (c, d))) => State a b c d).
#[export] Instance layout_lawful : Lawful layout.
Proof. apply struct_lawful; [apply _|by intros []|by intros (?&?&?&?)]. Qed.
Definition region_native_state : runtime_tracked_region_t native_cart_state_t :=
  pod_region "native_state" layout
    (describe_field "frame_count:i32@" 0 ++ describe_field "some_value:i32@" 4 ++
     describe_field "unused_count:i32@" 8 ++ describe_field "last_score:i32@" 12).
Definition native_state_layout : mlayout_t :=
  MLayout [field "frame_count" MTYPE_I32 0 4; field "some_value" MTYPE_I32 4 4;
           field "unused_count" MTYPE_I32 8 4; field "last_score" MTYPE_I32 12 4] 16.
End NativeV3.

Module NativeV4.
Record native_cart_state_t := State { frame_count : Z; some_value : Z; last_score : Z }.
Definition layout : layout native_cart_state_t :=
  struct (sint 4 ⨾ sint 4 ⨾ sint 4)%layout
    (fun s => (frame_count s, (some_value s, last_score s)))
    (fun '(a, (b, c)) => State a b c).
#[export] Instance layout_lawful : Lawful layout.
Proof. apply struct_lawful; [apply _|by intros []|by intros (?&?&?)]. Qed.
Definition region_native_state : runtime_tracked_region_t native_cart_state_t :=
  pod_region "native_state" layout
    (describe_field "frame_count:i32@" 0 ++ describe_field "some_value:i32@" 4 ++
     describe_field "last_score:i32@" 8).
Definition native_state_layout : mlayout_t :=
  MLayout [field "frame_count" MTYPE_I32 0 4; field "some_value" MTYPE_I32 4 4;
           field "last_score" MTYPE_I32 8 4] 12.
End NativeV4.

Module NativeV5.
Record native_cart_state_t := State { frame_count : Z; some_value : Z; last_score : Z }.
Definition layout : layout native_cart_state_t :=
  struct (sint 8 ⨾ sint 4 ⨾ sint 4)%layout
    (fun s => (frame_count s, (some_value s, last_score s)))
    (fun '(a, (b, c)) => State a b c).
#[export] Instance layout_lawful : Lawful layout.
Proof. apply struct_lawful; [apply _|by intros []|by intros (?&?&?)]. Qed.
Definition region_native_state : runtime_tracked_region_t native_cart_state_t :=
  pod_region "native_state" layout
    (describe_field "frame_count:i64@" 0 ++ describe_field "some_value:i32@" 8 ++
     describe_field "last_score:i32@" 12).
Definition native_state_layout : mlayout_t :=
  MLayout [field "frame_count" MTYPE_I64 0 8; field "some_value" MTYPE_I32 8 4;
           field "last_score" MTYPE_I32 12 4] 16.
End NativeV5.

Module NativeV6.
Record native_cart_state_t := State { some_value : Z; last_score : Z; frame_count : Z }.
Definition layout : layout native_cart_state_t :=
  struct (sint 4 ⨾ sint 4 ⨾ sint 8)%layout
    (fun s => (some_value s, (last_score s, frame_count s)))
    (fun '(a, (b, c)) => State a b c).
#[export] Instance layout_lawful : Lawful layout.
Proof. apply struct_lawful; [apply _|by intros []|by intros (?&?&?)]. Qed.
Definition region_native_state : runtime_tracked_region_t native_cart_state_t :=
  pod_region "native_state" layout
    (describe_field "some_value:i32@" 0 ++ describe_field "last_score:i32@" 4 ++
     describe_field "frame_count:i64@" 8).
Definition native_state_layout : mlayout_t :=
  MLayout [field "some_value" MTYPE_I32 0 4; field "last_score" MTYPE_I32 4 4;
           field "frame_count" MTYPE_I64 8 8] 16.
End NativeV6.

(** The callback of n5: sign-extend an i32 to an i64. *)
Definition native_state_retype_i32_to_i64 : mretype_fn_t :=
  fun old_field old_type new_field new_type =>
    if negb (bool_decide (old_type = MTYPE_I32)) || negb (bool_decide (new_type = MTYPE_I64))
    then Done (new_field, false)
    else if (length old_field <? 4)%nat || (length new_field <? 8)%nat then Undef
    else
      let v32 := i32 (le_val (take 4 old_field)) in
      Done (le_bytes 8 (u64 v32) ++ drop 8 new_field, true).

(** ** The Lua cart's struct (region_lua_cart_state.c) *)

Module LuaV0.
Record lua_cart_state_t := State { score : Z; step : Z; combo : Z }.
Definition layout : layout lua_cart_state_t :=
  struct (sint 4 ⨾ sint 4 ⨾ sint 4)%layout
    (fun s => (score s, (step s, combo s))) (fun '(a, (b, c)) => State a b c).
#[export] Instance layout_lawful : Lawful layout.
Proof. apply struct_lawful; [apply _|by intros []|by intros (?&?&?)]. Qed.
Definition region_lua_cart_state : runtime_tracked_region_t lua_cart_state_t :=
  pod_region "lua_cart_state" layout
    (describe_field "score:i32@" 0 ++ describe_field "step:i32@" 4 ++
     describe_field "combo:i32@" 8).
Definition lua_cart_state_layout : mlayout_t :=
  MLayout [field "score" MTYPE_I32 0 4; field "step" MTYPE_I32 4 4;
           field "combo" MTYPE_I32 8 4] 12.
End LuaV0.

Module LuaV2.
Record lua_cart_state_t := State { score : Z; step : Z; combo : Z; bonus : Z }.
Definition layout : layout lua_cart_state_t :=
  struct (sint 4 ⨾ sint 4 ⨾ sint 4 ⨾ sint 4)%layout
    (fun s => (score s, (step s, (combo s, bonus s))))
    (fun '(a, (b, (c, d))) => State a b c d).
#[export] Instance layout_lawful : Lawful layout.
Proof. apply struct_lawful; [apply _|by intros []|by intros (?&?&?&?)]. Qed.
Definition region_lua_cart_state : runtime_tracked_region_t lua_cart_state_t :=
  pod_region "lua_cart_state" layout
    (describe_field "score:i32@" 0 ++ describe_field "step:i32@" 4 ++
     describe_field "combo:i32@" 8 ++ describe_field "bonus:i32@" 12).
Definition lua_cart_state_layout : mlayout_t :=
  MLayout [field "score" MTYPE_I32 0 4; field "step" MTYPE_I32 4 4;
           field "combo" MTYPE_I32 8 4; field "bonus" MTYPE_I32 12 4] 16.
End LuaV2.

Module LuaV3.
Record lua_cart_state_t := State { score : Z; step : Z; combo : Z }.
Definition layout : layout lua_cart_state_t :=
  struct (sint 4 ⨾ sint 4 ⨾ sint 4)%layout
    (fun s => (score s, (step s, combo s))) (fun '(a, (b, c)) => State a b c).
#[export] Instance layout_lawful : Lawful layout.
Proof. apply struct_lawful; [apply _|by intros []|by intros (?&?&?)]. Qed.
Definition region_lua_cart_state : runtime_tracked_region_t lua_cart_state_t :=
  pod_region "lua_cart_state" layout
    (describe_field "score:i32@" 0 ++ describe_field "step:i32@" 4 ++
     describe_field "combo:i32@" 8).
Definition lua_cart_state_layout : mlayout_t :=
  MLayout [field "score" MTYPE_I32 0 4; field "step" MTYPE_I32 4 4;
           field "combo" MTYPE_I32 8 4] 12.
End LuaV3.

(** [combo_mult] is a float, kept as its bits. *)
Module LuaV4.
Record lua_cart_state_t := State { score : Z; step : Z; combo_mult : Z }.
Definition layout : layout lua_cart_state_t :=
  struct (sint 4 ⨾ sint 4 ⨾ uint 4)%layout
    (fun s => (score s, (step s, combo_mult s))) (fun '(a, (b, c)) => State a b c).
#[export] Instance layout_lawful : Lawful layout.
Proof. apply struct_lawful; [apply _|by intros []|by intros (?&?&?)]. Qed.
Definition region_lua_cart_state : runtime_tracked_region_t lua_cart_state_t :=
  pod_region "lua_cart_state" layout
    (describe_field "score:i32@" 0 ++ describe_field "step:i32@" 4 ++
     describe_field "combo_mult:f32@" 8).
Definition lua_cart_state_layout : mlayout_t :=
  MLayout [field "score" MTYPE_I32 0 4; field "step" MTYPE_I32 4 4;
           field "combo_mult" MTYPE_F32 8 4] 12.
End LuaV4.

(** [0.1f]. *)
Definition f32_0_1 : Z := 0x3dcccccd.

(** The callback of l4: [combo * 0.1f]. *)
Definition lua_cart_state_retype_combo_to_mult : mretype_fn_t :=
  fun old_field old_type new_field new_type =>
    if negb (bool_decide (old_type = MTYPE_I32)) || negb (bool_decide (new_type = MTYPE_F32))
    then Done (new_field, false)
    else if (length old_field <? 4)%nat || (length new_field <? 4)%nat then Undef
    else
      let v32 := i32 (le_val (take 4 old_field)) in
      let mult := f32_mul (f32_of_Z v32) f32_0_1 in
      Done (le_bytes 4 mult ++ drop 4 new_field, true).

(** ** Migration descriptors (regions_native_edit.c, regions_lua_edit.c) *)

Definition migrate_region (nm : string) (old_sz : Z) (lo ln : mlayout_t)
    (on_retype : option mretype_fn_t) : migrate_region_t := {|
  mr_name := Some (cstr nm);
  mr_old_size := old_sz;
  mr_old_layout := Some lo;
  mr_new_layout := Some ln;
  mr_on_retype := on_retype;
|}.

(** The weak default of save_state_n.c: edits without a schema change. *)
Definition migrate_regions_default : list (option migrate_region_t) := [].

Definition migrate_native_n3 : migrate_region_t :=
  migrate_region "native_state" 12 NativeV0.native_state_layout NativeV3.native_state_layout None.
Definition migrate_native_n4 : migrate_region_t :=
  migrate_region "native_state" 16 NativeV3.native_state_layout NativeV4.native_state_layout None.
Definition migrate_native_n5 : migrate_region_t :=
  migrate_region "native_state" 12 NativeV4.native_state_layout NativeV5.native_state_layout
    (Some native_state_retype_i32_to_i64).
Definition migrate_native_n6 : migrate_region_t :=
  migrate_region "native_state" 16 NativeV5.native_state_layout NativeV6.native_state_layout None.

Definition migrate_lua_l2 : migrate_region_t :=
  migrate_region "lua_cart_state" 12 LuaV0.lua_cart_state_layout LuaV2.lua_cart_state_layout None.
Definition migrate_lua_l3 : migrate_region_t :=
  migrate_region "lua_cart_state" 16 LuaV2.lua_cart_state_layout LuaV3.lua_cart_state_layout None.
Definition migrate_lua_l4 : migrate_region_t :=
  migrate_region "lua_cart_state" 12 LuaV3.lua_cart_state_layout LuaV4.lua_cart_state_layout
    (Some lua_cart_state_retype_combo_to_mult).

(** ** The native drivers (n_native_driver_{full,save,load}.c) *)

(** The globals of a native cart: the frame state and the cart's struct. *)
Record native_globals (X : Type) := NativeGlobals { fs : frame_state_t; st : X }.
Arguments NativeGlobals {X}.
Arguments fs {X}.
Arguments st {X}.

Definition set_fs {X} (v : frame_state_t) (s : native_globals X) : native_globals X :=
  NativeGlobals v (st s).
Definition set_st {X} (v : X) (s : native_globals X) : native_globals X :=
  NativeGlobals (fs s) v.

Definition SAVE_FRAME_DEFAULT : Z := 15.
Definition SAVE_BUF_CAP : Z := 32768.
Definition HEX_BUF_CAP : Z := 131072.

Section native_driver.
Context {X : Type} (region_native_state : runtime_tracked_region_t X) (g_state_bss : X)
  (native_cart_update : Z -> native_globals X -> native_globals X).

(** regions_native_edit.c. *)
Definition runtime_tracked_regions : list (region (native_globals X)) :=
  [Region region_frame_state fs set_fs; Region region_native_state st set_st].

Definition globals_bss : native_globals X := NativeGlobals frame_state_zero g_state_bss.

(** The body of the three loops: update, digest, frame number. *)
Definition frame_step (f : Z) (s : native_globals X) : native_globals X * list Z :=
  let '(s, line) := with_digest fs set_fs native_cart_update f s in
  (set_fs (set_frame (u32 (f + 1)) (fs s)) s, line).

(** [for (int f = start; f < bound; f++)]. *)
Fixpoint int_frames (n : nat) (f : Z) (s : native_globals X) : native_globals X * list (list Z) :=
  match n with
  | O => (s, [])
  | Datatypes.S n =>
      let '(s, line) := frame_step f s in
      let '(s, lines) := int_frames n (f + 1) s in
      (s, line :: lines)
  end.

Definition int_loop (start bound : Z) (s : native_globals X)
  : native_globals X * list (list Z) := int_frames (Z.to_nat (bound - start)) start s.

Definition main_full : option (exit_state (native_globals X)) :=
  match save_state_init runtime_tracked_regions with
  | None => None
  | Some ctx =>
      let '(s, lines) := int_loop 0 NFRAMES globals_bss in
      Some (Exit (output lines) 0 (ctx, s))
  end.

(** A save frame of [INT_MAX] makes [f++] overflow, which C leaves undefined. *)
Definition main_save (argv : list (list Z)) : option (exit_state (native_globals X)) :=
  let save_frame := match argv with _ :: a :: _ => atoi a | _ => SAVE_FRAME_DEFAULT end in
  match save_state_init runtime_tracked_regions with
  | None => None
  | Some ctx =>
      if save_frame =? 2 ^ 31 - 1 then None
      else
        let '(s, lines) := int_loop 0 (save_frame + 1) globals_bss in
        match save_and_emit_cap runtime_tracked_regions SAVE_BUF_CAP
          (cstr "PANIC n_native_save: save_state_save returned 0" ++ [10])
          (ctx, s) (u32 save_frame) with
        | None => None
        | Some e => Some (Exit (output lines ++ out e) (code e) (globals e))
        end
  end.

Context (migrate_regions : list (option migrate_region_t)).
Context {W : Type} (sys_open : list Z -> W -> W * Z)
  (sys_read : Z -> Z -> W -> W * Z * list Z) (sys_close : Z -> W -> W * Z).

(** The continuation: the restored state is saved again and printed, then the
    remaining frames run. *)
Definition continue_load (rt : runtime (native_globals X)) (frame_no : Z)
  : run (exit_state (native_globals X)) :=
  match save_state_save runtime_tracked_regions rt (repeat 0 (Z.to_nat SAVE_BUF_CAP))
          SAVE_BUF_CAP frame_no with
  | None => Spin
  | Some (ctx, s, post_buf, post_n) =>
      let post := if post_n =? 0 then [] else save_state_emit_hex post_buf post_n in
      let start_frame := i32 (frame (fs s)) in
      let '(s, lines) := int_loop start_frame NFRAMES s in
      Done (Exit (post ++ output lines) 0 (ctx, s))
  end.

Definition main_load (argv : list (list Z)) (w : W) : run (W * exit_state (native_globals X)) :=
  match argv with
  | _ :: path :: _ =>
      match save_state_init runtime_tracked_regions with
      | None => Spin
      | Some ctx =>
          let rt := (ctx, globals_bss) in
          match save_io_read_file sys_open sys_read sys_close w path (HEX_BUF_CAP - 1) with
          | None => Spin
          | Some (w, hexbuf, n) =>
              if n <? 0 then
                Done (w, Exit (cstr "PANIC n_native_load: cannot read buffer" ++ [10]) 1 rt)
              else
                let '(bin, m) := save_io_parse_hex hexbuf SAVE_BUF_CAP in
                if m <? 0 then
                  Done (w, Exit (cstr "PANIC n_native_load: hex parse failed" ++ [10]) 1 rt)
                else
                  let bin := bin ++ repeat 0 (Z.to_nat SAVE_BUF_CAP - length bin) in
                  let! (rt, scratch, lines, ok) :=
                    save_state_load_migrate runtime_tracked_regions migrate_regions rt
                      (repeat 0 (Z.to_nat scratch_size)) bin m in
                  if negb ok then
                    Done (w, Exit (lines ++ cstr
                      "PANIC n_native_load: save_state_load_migrate rejected buffer" ++ [10]) 1 rt)
                  else
                    let! e := continue_load rt (save_state_get_frame bin) in
                    Done (w, Exit (lines ++ out e) (code e) (globals e))
          end
      end
  | _ =>
      Done (w, Exit (cstr "PANIC n_native_load: usage: <buffer-hex-file>" ++ [10]) 1
                 (ctx_bss, globals_bss))
  end.
End native_driver.

(** ** The edited cart (cart_native_edit.c)

    One definition per [EDIT_NUM] and [EDIT_SIDE].  Signed overflow, which C
    leaves undefined, is written as wrap-around; frames stay below [NFRAMES]. *)

(** [fs->accum_misc += (float)s->some_value]. *)
Definition fold_some_value {X} (some_value : Z) (s : native_globals X) : native_globals X :=
  set_fs (set_accum_misc (f32_add (accum_misc (fs s)) (f32_of_Z some_value)) (fs s)) s.

Module NativeEdits.

Definition mylib_helper (frame : Z) : Z := Z.rem frame 5.

Section v0.
Import NativeV0.
Definition update_v0 (some unused : Z) (g : native_globals native_cart_state_t)
  : native_globals native_cart_state_t :=
  let s := st g in
  fold_some_value some (set_st (State (i32 (frame_count s + 1)) some unused) g).

Definition n1_pre (frame : Z) := update_v0 (i32 (frame * 3)) (i32 (frame * 7)).
Definition n1_post (frame : Z) := update_v0 (i32 (i32 (frame * 3) + 1)) (i32 (frame * 7)).
Definition n2_pre (frame : Z) := update_v0 (i32 (frame * 3)) (i32 (frame * 7)).
Definition n2_post (frame : Z) :=
  update_v0 (i32 (frame * 3)) (i32 (i32 (frame * 7) + mylib_helper frame)).
Definition n3_pre (frame : Z) := update_v0 (i32 (frame * 3)) (i32 (frame * 7)).
End v0.

Section v3.
Import NativeV3.
Definition update_v3 (frame : Z) (g : native_globals native_cart_state_t)
  : native_globals native_cart_state_t :=
  let s := st g in
  fold_some_value (i32 (frame * 3))
    (set_st (State (i32 (frame_count s + 1)) (i32 (frame * 3)) (i32 (frame * 7)) (i32 (frame * 2))) g).
Definition n3_post := update_v3.
Definition n4_pre := update_v3.
End v3.

Section v4.
Import NativeV4.
Definition update_v4 (frame : Z) (g : native_globals native_cart_state_t)
  : native_globals native_cart_state_t :=
  let s := st g in
  fold_some_value (i32 (frame * 3))
    (set_st (State (i32 (frame_count s + 1)) (i32 (frame * 3)) (i32 (frame * 2))) g).
Definition n4_post := update_v4.
Definition n5_pre := update_v4.
End v4.

Section v5.
Import NativeV5.
Definition update_v5 (frame : Z) (g : native_globals native_cart_state_t)
  : native_globals native_cart_state_t :=
  let s := st g in
  fold_some_value (i32 (frame * 3))
    (set_st (State (i64 (frame_count s + 1)) (i32 (frame * 3)) (i32 (frame * 2))) g).
Definition n5_post := update_v5.
Definition n6_pre := update_v5.
End v5.

Section v6.
Import NativeV6.
Definition n6_post (frame : Z) (g : native_globals native_cart_state_t)
  : native_globals native_cart_state_t :=
  let s := st g in
  fold_some_value (i32 (frame * 3))
    (set_st (State (i32 (frame * 3)) (i32 (frame * 2)) (i64 (frame_count s + 1))) g).
End v6.
End NativeEdits.

(** ** The contract of an edit *)

(** What an edit's descriptors have to achieve: the old and the new struct are
    lawful regions of the same name, the frame state has no descriptor, and one
    round of the load turns the bytes of an old struct [a] into [conv a]. *)
Class HotReload {A B} (old : runtime_tracked_region_t A) (new : runtime_tracked_region_t B)
    (wfA : A -> Prop) (wfB : B -> Prop) (ms : list (option migrate_region_t)) (conv : A -> B)
  : Prop := {
  hr_old : LawfulRegion old wfA;
  hr_new : LawfulRegion new wfB;
  hr_frame_state : find_migrate_desc ms (cstr "frame_state") = None;
  hr_wf a : wfA a -> wfB (conv a);
  hr_canonical a : wfA a -> (Tracked.save new (conv a)).1 = conv a;
  hr_small : 0 <= size old <= 64 /\ 0 <= size new <= 64;
  hr_old_size {S} (get : S -> B) set : old_size ms (Region new get set) = size old;
  hr_apply {S} (get : S -> B) set s sc a rest : wfA a -> length sc = Z.to_nat scratch_size ->
    exists sc' out,
      apply_region ms (Region new get set) s sc ((Tracked.save old a).2 ++ rest) =
      Done (set (conv a) s, sc', out, true);
}.

(** Offsets, sizes and field disjointness of a descriptor, as a program. *)
Fixpoint disjointb (fs : list mfield_desc_t) : bool :=
  match fs with
  | [] => true
  | f :: fs => forallb (fun g => bool_decide (field_disjoint f g)) fs && disjointb fs
  end.

Lemma disjointb_ok fs : disjointb fs = true -> fields_disjoint fs.
Proof.
  induction fs as [|f fs IH]; simpl; [constructor|]. intros [Hf Hfs]%andb_prop.
  constructor; [|auto]. apply Forall_forall. intros g Hg.
  apply list_elem_of_In in Hg. rewrite forallb_forall in Hf.
  exact (proj1 (bool_decide_eq_true _) (Hf g Hg)).
Qed.

Definition coversb (l : mlayout_t) : bool :=
  forallb (fun i => existsb (fun f => (mf_offset f <=? i) && (i <? mf_offset f + mf_size f))
                      (ml_fields l)) (seqZ 0 (ml_total_size l)).

Lemma coversb_ok l : coversb l = true -> covers l.
Proof.
  unfold coversb, covers. rewrite forallb_forall. intros H i Hi.
  specialize (H i). rewrite <-list_elem_of_In, elem_of_seqZ, existsb_exists in H.
  destruct H as (f & Hf & [?%Z.leb_le ?%Z.ltb_lt]%andb_prop); [lia|].
  exists f. by rewrite list_elem_of_In.
Qed.

#[export] Instance retype_i32_to_i64_ok : Retype native_state_retype_i32_to_i64
  (fun ob ot nt =>
     if bool_decide (ot = MTYPE_I32) && bool_decide (nt = MTYPE_I64)
     then Some (le_bytes 8 (u64 (i32 (le_val ob)))) else None).
Proof.
  split.
  - intros ob orest ot nb nrest nt Ho Hn. unfold native_state_retype_i32_to_i64.
    destruct ot; try done; destruct nt; try done. cbn [mtype_size] in *.
    rewrite !bool_decide_true by done. cbn [negb orb andb].
    rewrite !length_app.
    destruct (Nat.ltb_spec (length ob + length orest) 4); [lia|].
    destruct (Nat.ltb_spec (length nb + length nrest) 8); [lia|]. cbn [orb].
    rewrite take_app_length', drop_app_length' by lia. done.
  - intros ob ot nt b. destruct (_ && bool_decide (nt = MTYPE_I64)) eqn:E; [|done].
    apply andb_prop in E as [_ ->%bool_decide_eq_true]. intros <-%Some_inj.
    by rewrite length_le_bytes.
Qed.

#[export] Instance retype_combo_to_mult_ok : Retype lua_cart_state_retype_combo_to_mult
  (fun ob ot nt =>
     if bool_decide (ot = MTYPE_I32) && bool_decide (nt = MTYPE_F32)
     then Some (le_bytes 4 (f32_mul (f32_of_Z (i32 (le_val ob))) f32_0_1)) else None).
Proof.
  split.
  - intros ob orest ot nb nrest nt Ho Hn. unfold lua_cart_state_retype_combo_to_mult.
    destruct ot; try done; destruct nt; try done. cbn [mtype_size] in *.
    rewrite !bool_decide_true by done. cbn [negb orb andb].
    rewrite !length_app.
    destruct (Nat.ltb_spec (length ob + length orest) 4); [lia|].
    destruct (Nat.ltb_spec (length nb + length nrest) 4); [lia|]. cbn [orb].
    rewrite take_app_length', drop_app_length' by lia. done.
  - intros ob ot nt b. destruct (_ && bool_decide (nt = MTYPE_F32)) eqn:E; [|done].
    apply andb_prop in E as [_ ->%bool_decide_eq_true]. intros <-%Some_inj.
    by rewrite length_le_bytes.
Qed.

(** ** Edits of plain structs meet the contract *)

Section pod_edit.
Context {A B : Type} (nm : string) (la : layout A) (lb : layout B) `{!Lawful la, !Lawful lb}
  (calls_a calls_b : list sink_call) (lo ln : mlayout_t) (on_retype : option mretype_fn_t)
  (retype : list Z -> mfield_type_t -> mfield_type_t -> option (list Z)) (conv : A -> B).

Abbreviation ms := [Some (migrate_region nm (Z.of_nat (lsize la)) lo ln on_retype)].

(** What is left to show of an edit: its descriptors are sound, and the
    reference gives every new field the bytes it has in [conv a]. *)
Lemma hot_reload_pod :
  str_eq (cstr nm) (cstr "frame_state") = false -> mlayout_ok lo -> mlayout_ok ln ->
  disjointb (ml_fields ln) = true -> covers ln ->
  ml_total_size lo = Z.of_nat (lsize la) -> ml_total_size ln = Z.of_nat (lsize lb) ->
  Z.of_nat (lsize la) <= 64 -> Z.of_nat (lsize lb) <= 64 -> retypes on_retype retype ->
  (forall a, lwf la a -> lwf lb (conv a)) ->
  (forall a, lwf la a -> Forall (fun nf => migrated_field retype lo (lenc la a) nf =
                          field_bytes nf (lenc lb (conv a))) (ml_fields ln)) ->
  HotReload (pod_region nm la calls_a) (pod_region nm lb calls_b)
    (fun a => lwf la a /\ true = true) (fun b => lwf lb b /\ true = true) ms conv.
Proof.
  intros Hnm Hlo Hln Hdis%disjointb_ok Hcov Hto Htn Hsa Hsb Hre Hwf Hfields.
  assert (str_eq (cstr nm) (cstr nm) = true) as Hself by by apply str_eq_spec.
  assert (find_migrate_desc ms (cstr nm)
          = Some (migrate_region nm (Z.of_nat (lsize la)) lo ln on_retype)) as Hfind
    by (unfold find_migrate_desc; simpl; by rewrite Hself).
  split; try apply _; try (cbn; lia).
  - unfold find_migrate_desc. cbn [find_migrate_desc_in migrate_region mr_name].
    by rewrite Hnm.
  - intros a [Ha _]. split; [auto|done].
  - done.
  - intros S get set. unfold old_size. cbn [r_ops name pod_region]. by rewrite Hfind.
  - intros S get set s sc a rest [Ha _] Hsc. cbn [Tracked.save pod_region snd].
    pose proof (length_lenc a Ha) as Hla.
    destruct (migrate_region_walk ln lo (lenc la a ++ rest) on_retype retype sc)
      as (nb & out & E & Hl & Hf & _ & _); [done..| | |done|].
    { rewrite Hto, length_app. lia. }
    { rewrite Htn, Hsc. unfold scratch_size. lia. }
    exists nb, out.
    eapply (apply_region_migrates ms _ s sc); [exact Hfind|done..| |exact E|].
    { cbn. unfold scratch_size. lia. }
    assert (take (lsize lb) nb = lenc lb (conv a)) as Hnb.
    { pose proof (length_lenc (conv a) (Hwf a Ha)) as Hlb. unfold scratch_size in Hsc.
      apply (covered_eq ln); [done|apply Hln|rewrite length_take; lia|lia|].
      pose proof (proj2 Hln) as Hok. pose proof (Hfields a Ha) as Hfa.
      rewrite Forall_forall in *. intros f Hin. pose proof (Hok f Hin) as (? & ? & ?).
      rewrite <-(Hfa f Hin), <-(migrated_field_app _ _ _ _ rest), <-(Hf f Hin).
      - unfold field_bytes, slice. rewrite skipn_firstn_comm, take_take. f_equal. lia.
      - done.
      - rewrite Hto. lia. }
    unfold region_load, region_size. cbn [r_ops r_get r_set Tracked.load Tracked.size pod_region].
    rewrite Z.eqb_refl, Nat2Z.id, Hnb, ldec_lenc by auto. done.
Qed.
End pod_edit.

(** An edit without a schema change. *)
Lemma hot_reload_same {A} nm (la : layout A) calls :
  Lawful la -> Z.of_nat (lsize la) <= 64 ->
  HotReload (pod_region nm la calls) (pod_region nm la calls)
    (fun a => lwf la a /\ true = true) (fun a => lwf la a /\ true = true)
    migrate_regions_default id.
Proof.
  intros Hl Hs. split; try apply _; try done; try (cbn; lia).
  intros S get set s sc a rest Ha Hsc. exists sc, [].
  apply (apply_region_raw migrate_regions_default _ s sc _ (set a s)); [done|].
  pose proof (lr_load (LawfulRegion := pod_region_lawful nm la calls Hl) a (get s) rest Ha) as E.
  change ((let '(x, ok) := Tracked.load (pod_region nm la calls) (get s)
             ((Tracked.save (pod_region nm la calls) a).2 ++ rest) (size (pod_region nm la calls))
           in (set x s, ok)) = (set a s, true)).
  by rewrite E.
Qed.

(** ** What every edit makes of the old struct *)

Definition n3_conv (a : NativeV0.native_cart_state_t) : NativeV3.native_cart_state_t :=
  NativeV3.State (NativeV0.frame_count a) (NativeV0.some_value a) (NativeV0.unused_count a) 0.
Definition n4_conv (a : NativeV3.native_cart_state_t) : NativeV4.native_cart_state_t :=
  NativeV4.State (NativeV3.frame_count a) (NativeV3.some_value a) (NativeV3.last_score a).
Definition n5_conv (a : NativeV4.native_cart_state_t) : NativeV5.native_cart_state_t :=
  NativeV5.State (NativeV4.frame_count a) (NativeV4.some_value a) (NativeV4.last_score a).
Definition n6_conv (a : NativeV5.native_cart_state_t) : NativeV6.native_cart_state_t :=
  NativeV6.State (NativeV5.some_value a) (NativeV5.last_score a) (NativeV5.frame_count a).

Definition l2_conv (a : LuaV0.lua_cart_state_t) : LuaV2.lua_cart_state_t :=
  LuaV2.State (LuaV0.score a) (LuaV0.step a) (LuaV0.combo a) 0.
Definition l3_conv (a : LuaV2.lua_cart_state_t) : LuaV3.lua_cart_state_t :=
  LuaV3.State (LuaV2.score a) (LuaV2.step a) (LuaV2.combo a).
(** The new field is called [combo_mult], so it counts as added. *)
Definition l4_conv (a : LuaV3.lua_cart_state_t) : LuaV4.lua_cart_state_t :=
  LuaV4.State (LuaV3.score a) (LuaV3.step a) 0.

(** The descriptors are decided, the field values evaluated on the symbolic
    bytes of the old struct; what is left is that [conv a] is well-formed. *)
Ltac pod_edit_conditions old_lawful new_lawful :=
  eapply hot_reload_pod;
  [ exact old_lawful | exact new_lawful | reflexivity
  | apply (bool_decide_eq_true_1 _); vm_compute; reflexivity
  | apply (bool_decide_eq_true_1 _); vm_compute; reflexivity
  | reflexivity | apply coversb_ok; vm_compute; reflexivity
  | reflexivity | reflexivity | done | done
  | first [reflexivity | unfold retypes; apply _] | intros []; cbn; lia | ].
Ltac pod_edit old_lawful new_lawful :=
  pod_edit_conditions old_lawful new_lawful; intros [] _; repeat constructor.

Abbreviation pod_wf l := (fun a => lwf l a /\ true = true).

#[export] Instance n3_edit : HotReload NativeV0.region_native_state NativeV3.region_native_state
  (pod_wf NativeV0.layout) (pod_wf NativeV3.layout) [Some migrate_native_n3] n3_conv.
Proof. pod_edit NativeV0.layout_lawful NativeV3.layout_lawful. Qed.

#[export] Instance n4_edit : HotReload NativeV3.region_native_state NativeV4.region_native_state
  (pod_wf NativeV3.layout) (pod_wf NativeV4.layout) [Some migrate_native_n4] n4_conv.
Proof. pod_edit NativeV3.layout_lawful NativeV4.layout_lawful. Qed.

#[export] Instance n6_edit : HotReload NativeV5.region_native_state NativeV6.region_native_state
  (pod_wf NativeV5.layout) (pod_wf NativeV6.layout) [Some migrate_native_n6] n6_conv.
Proof. pod_edit NativeV5.layout_lawful NativeV6.layout_lawful. Qed.

#[export] Instance l2_edit : HotReload LuaV0.region_lua_cart_state LuaV2.region_lua_cart_state
  (pod_wf LuaV0.layout) (pod_wf LuaV2.layout) [Some migrate_lua_l2] l2_conv.
Proof. pod_edit LuaV0.layout_lawful LuaV2.layout_lawful. Qed.

#[export] Instance l3_edit : HotReload LuaV2.region_lua_cart_state LuaV3.region_lua_cart_state
  (pod_wf LuaV2.layout) (pod_wf LuaV3.layout) [Some migrate_lua_l3] l3_conv.
Proof. pod_edit LuaV2.layout_lawful LuaV3.layout_lawful. Qed.

#[export] Instance l4_edit : HotReload LuaV3.region_lua_cart_state LuaV4.region_lua_cart_state
  (pod_wf LuaV3.layout) (pod_wf LuaV4.layout) [Some migrate_lua_l4] l4_conv.
Proof. pod_edit LuaV3.layout_lawful LuaV4.layout_lawful. Qed.

(** n5 is the edit whose callback fires: the old i32, sign-extended. *)
Lemma widen_i32 v :
  - 2 ^ 31 <= v < 2 ^ 31 ->
  le_bytes 8 (u64 (i32 (le_val (le_bytes 4 (u32 v))))) = le_bytes 8 (u64 v).
Proof.
  intros Hv. rewrite le_val_le_bytes by (apply (wrap_range 32); lia).
  rewrite signed_wrap by lia. rewrite signed_small by lia. done.
Qed.

#[export] Instance n5_edit : HotReload NativeV4.region_native_state NativeV5.region_native_state
  (pod_wf NativeV4.layout) (pod_wf NativeV5.layout) [Some migrate_native_n5] n5_conv.
Proof.
  pod_edit_conditions NativeV4.layout_lawful NativeV5.layout_lawful.
  intros [fc sv ls] (Hfc & _). constructor; [|repeat constructor].
  exact (widen_i32 fc Hfc).
Qed.

#[export] Instance n1_edit : HotReload NativeV0.region_native_state NativeV0.region_native_state
  (pod_wf NativeV0.layout) (pod_wf NativeV0.layout) migrate_regions_default id.
Proof. apply hot_reload_same; [exact NativeV0.layout_lawful|done]. Qed.

(** ** The drivers across an edit *)

(** A cart whose update keeps its struct well-formed. *)
Class NativeCart {X} (wf : X -> Prop) (g_state_bss : X)
    (update : Z -> native_globals X -> native_globals X) : Prop := {
  nc_bss : wf g_state_bss;
  nc_update f s : 0 <= f < NFRAMES -> lwf frame_state_layout (fs s) -> wf (st s) ->
    lwf frame_state_layout (fs (update f s)) /\ wf (st (update f s));
}.

Section native_cart.
Context {X : Type} (r : runtime_tracked_region_t X) (wf : X -> Prop) (g_state_bss : X)
  (update : Z -> native_globals X -> native_globals X)
  `{!LawfulRegion r wf, !NativeCart wf g_state_bss update}.

Definition native_wf (s : native_globals X) : Prop :=
  (lwf frame_state_layout (fs s) /\ true = true) /\ (wf (st s) /\ True).

Lemma native_registry : Registry (runtime_tracked_regions r) native_wf.
Proof.
  apply (Registry_cons (Region region_frame_state fs set_fs) _
           (fun v => lwf frame_state_layout v /\ true = true)); [apply _|by split; try intros []|..].
  { repeat constructor. }
  apply (Registry_cons (Region r st set_st) _ wf);
    [apply _|by split; try intros []|constructor|constructor].
Qed.

Lemma native_fits :
  0 <= size r <= 64 ->
  total_fits (runtime_tracked_regions r) /\
  save_state_buffer_capacity (runtime_tracked_regions r) = 1340 + size r.
Proof.
  intros Hs. unfold save_state_buffer_capacity, runtime_tracked_total_size, runtime_tracked_regions.
  cbn [fold_left]. unfold region_size. cbn [r_ty r_ops region_frame_state Tracked.size].
  unfold header_size. change (u32 (0 + 1316)) with 1316. rewrite (wrap_small 32 (1316 + size r)) by lia.
  rewrite wrap_small by lia. split; [|lia]. split.
  - repeat constructor; unfold region_size; cbn; lia.
  - unfold header_size, region_size. cbn [foldr r_ty r_ops region_frame_state Tracked.size]. lia.
Qed.

Lemma int_frames_ok n f s :
  0 <= f -> f + Z.of_nat n <= NFRAMES -> native_wf s ->
  native_wf (int_frames update n f s).1 /\
  ((0 < n)%nat -> frame (fs (int_frames update n f s).1) = f + Z.of_nat n).
Proof.
  unfold NFRAMES.
  revert f s; induction n as [|n IH]; intros f s Hf Hn Hs; [by split; [|lia]|].
  cbn [int_frames]. unfold frame_step, with_digest, frame_state_emit_digest.
  destruct Hs as [[Hfs _] [Hst _]].
  destruct (nc_update f s ltac:(unfold NFRAMES; lia) Hfs Hst) as [Hfs' Hst'].
  set (s1 := set_fs (set_frame (u32 (f + 1)) _) _). cbn [fst snd].
  assert (native_wf s1) as H1.
  { split; [|done]. split; [|done]. apply set_frame_wf; [by apply wrap_range|].
    by apply frame_state_canonicalize_wf. }
  destruct (IH (f + 1) s1 ltac:(lia) ltac:(lia) H1) as [IH1 IH2].
  destruct (int_frames update n (f + 1) s1) as [s2 ls] eqn:E. cbn [fst] in *.
  split; [done|]. intros _. destruct n as [|n].
  - injection E as <- _. cbn. rewrite wrap_small by lia. lia.
  - rewrite IH2 by lia. lia.
Qed.
End native_cart.

Section reload.
Context {A B : Type} (oldR : runtime_tracked_region_t A) (newR : runtime_tracked_region_t B)
  (wfA : A -> Prop) (wfB : B -> Prop) (bssA : A) (bssB : B)
  (updA : Z -> native_globals A -> native_globals A)
  (updB : Z -> native_globals B -> native_globals B)
  (ms : list (option migrate_region_t)) (conv : A -> B)
  {Hedit : HotReload oldR newR wfA wfB ms conv} {HcartA : NativeCart wfA bssA updA}.
Context {W : Type} (sys_open : list Z -> W -> W * Z)
  (sys_read : Z -> Z -> W -> W * Z * list Z) (sys_close : Z -> W -> W * Z)
  (remaining : W -> list Z).

#[local] Existing Instance hr_old.
#[local] Existing Instance hr_new.

Abbreviation rsA := (runtime_tracked_regions oldR).
Abbreviation rsB := (runtime_tracked_regions newR).

(** The new program's globals right after the load of a state [s] of the old. *)
Definition migrated_state (s : native_globals A) : native_globals B :=
  NativeGlobals (frame_state_canonicalize (fs s)) (conv (st s)).

(** The layouts hash differently. *)
Definition layouts_differ : Prop :=
  fnv1a_64 (sbuf (runtime_tracked_describe rsA (Sink [] 4096 false))) <>
  fnv1a_64 (sbuf (runtime_tracked_describe rsB (Sink [] 4096 false))).

Lemma migrated_resave s : native_wf wfA s ->
  copy_tracked rsB (migrated_state s) (migrated_state s) = migrated_state s.
Proof.
  intros [_ [Hst _]]. unfold runtime_tracked_regions. rewrite !copy_tracked_cons.
  cbn [r_ops r_get r_set r_ty copy_tracked fold_left migrated_state fs st].
  rewrite (hr_canonical (HotReload := Hedit) (st s) Hst). unfold set_fs, set_st. cbn [fs st].
  unfold migrated_state. f_equal. exact (frame_state_canonicalize_idem (fs s)).
Qed.

(** The old program's buffer, loaded by the new one. *)
Lemma reload_applies s t rest : native_wf wfA s ->
  exists sc out,
    applies ms rest rsB [(Tracked.save region_frame_state (fs s)).2; (Tracked.save oldR (st s)).2]
      t (repeat 0 (Z.to_nat scratch_size)) (migrated_state s) sc out.
Proof.
  intros [Hfs [Hst _]]. set (sc0 := repeat 0 _).
  set (t1 := set_fs (frame_state_canonicalize (fs s)) t).
  destruct (hr_apply (HotReload := Hedit) st set_st t1 sc0 (st s) rest Hst)
    as (sc' & out & Happ); [by apply repeat_length|].
  exists sc', ([] ++ out ++ []). eapply (applies_cons ms rest _ _ _ _ _ _ t1); [| |eapply applies_cons; [| |apply applies_nil]].
  - unfold old_size. cbn [r_ops region_frame_state name]. rewrite hr_frame_state.
    by rewrite (lr_size (fs s) Hfs).
  - apply apply_region_raw; [exact hr_frame_state|].
    pose proof (lr_load (LawfulRegion := FrameStateRegion.lawful) (fs s) (fs t)
      (concat [(Tracked.save oldR (st s)).2] ++ rest) Hfs) as E.
    unfold region_load, region_size. cbn [r_ops r_get r_set r_ty].
    by rewrite E.
  - rewrite (hr_old_size (HotReload := Hedit)). by apply (lr_size (LawfulRegion := hr_old)).
  - cbn [concat app]. rewrite Happ. done.
Qed.

(** The continuation from the restored state: the buffer it saves again, and
    the remaining frames. *)
Lemma continue_migrated ctx s k panic :
  NativeCart wfB bssB updB -> native_wf wfA s -> g_initialized ctx = true ->
  0 <= g_layout_hash ctx < 2 ^ 64 -> 0 <= k < NFRAMES -> frame (fs s) = k + 1 ->
  exists post rt,
    save_and_emit_cap rsB SAVE_BUF_CAP panic (ctx, migrated_state s) k =
      Some (Exit post 0 (ctx, migrated_state s)) /\
    continue_load newR updB (ctx, migrated_state s) k =
      Done (Exit (post ++ output (int_loop updB (k + 1) NFRAMES (migrated_state s)).2) 0 rt).
Proof.
  intros HcartB Hs Hinit Hhash Hk Hfr. pose proof Hs as [[Hfs _] [Hst _]].
  destruct (hr_small (HotReload := Hedit)) as [_ Hsz].
  destruct (native_fits newR Hsz) as [Hfit Hcap].
  assert (native_wf wfB (migrated_state s)) as HsB.
  { split; [split; [by apply frame_state_canonicalize_wf|done]|split; [exact (hr_wf (HotReload := Hedit) _ Hst)|done]]. }
  assert (save_state_save rsB (ctx, migrated_state s) (repeat 0 (Z.to_nat SAVE_BUF_CAP)) SAVE_BUF_CAP k =
    Some (ctx, migrated_state s,
      lenc header_layout (Header SAVE_STATE_MAGIC SAVE_STATE_VERSION (g_layout_hash ctx) k
        (save_state_buffer_capacity rsB)) ++ images rsB (migrated_state s) ++
      drop (Z.to_nat (save_state_buffer_capacity rsB)) (repeat 0 (Z.to_nat SAVE_BUF_CAP)),
      save_state_buffer_capacity rsB)) as Hsave.
  { rewrite (save_state_save_layout rsB (native_wf wfB));
      [by rewrite migrated_resave|by apply (native_registry newR wfB)|done..| |].
    - unfold SAVE_BUF_CAP. lia.
    - by rewrite repeat_length. }
  unfold save_and_emit_cap, continue_load. rewrite Hsave.
  destruct (Z.eqb_spec (save_state_buffer_capacity rsB) 0); [lia|].
  replace (i32 (frame (fs (migrated_state s)))) with (k + 1).
  2:{ change (frame (fs (migrated_state s))) with (frame (fs s)). rewrite Hfr.
      unfold NFRAMES in Hk. symmetry. apply signed_small; lia. }
  destruct (int_loop updB (k + 1) NFRAMES (migrated_state s)) as [s' lines].
  eexists _, _. exact (conj eq_refl eq_refl).
Qed.

(** The load of the old program's buffer by the new one: [printed] are the
    lines it may print. *)
Definition reloads (printed : list Z -> Prop) : Prop :=
  forall ctxA ctxB s k pad, save_state_init rsA = Some ctxA -> save_state_init rsB = Some ctxB ->
    native_wf wfA s -> lwf header_layout (saved_header rsA ctxA k) ->
    exists sc lines, printed lines /\
      save_state_load_migrate rsB ms (ctxB, globals_bss bssB) (repeat 0 (Z.to_nat scratch_size))
        (lenc header_layout (saved_header rsA ctxA k) ++ images rsA s ++ pad)
        (save_state_buffer_capacity rsA) =
      Done ((ctxB, migrated_state s), sc, lines, true).

(** The drivers over any such load; the two theorems below are its instances. *)
Lemma drivers_reload printed k prog :
  NativeCart wfB bssB updB -> reloads printed -> 0 <= k < NFRAMES ->
  overflowed (runtime_tracked_describe rsA (Sink [] 4096 false)) = false ->
  overflowed (runtime_tracked_describe rsB (Sink [] 4096 false)) = false ->
  let '(sA, linesA) := int_loop updA 0 (k + 1) (globals_bss bssA) in
  exists text rt ctxA ctxB post,
    save_state_init rsA = Some ctxA /\
    save_and_emit_cap rsA SAVE_BUF_CAP
      (cstr "PANIC n_native_save: save_state_save returned 0" ++ [10]) (ctxA, sA) k =
      Some (Exit text 0 rt) /\
    main_save oldR bssA updA [prog; dec k] = Some (Exit (output linesA ++ text) 0 rt) /\
    save_state_init rsB = Some ctxB /\
    save_and_emit_cap rsB SAVE_BUF_CAP [] (ctxB, migrated_state sA) k =
      Some (Exit post 0 (ctxB, migrated_state sA)) /\
    (forall path w w0 fd,
     sys_open path w = (w0, fd) -> 0 <= fd -> read_posix sys_read remaining fd ->
     remaining w0 = text ->
     exists w' lines rt', printed lines /\
       main_load newR bssB updB ms sys_open sys_read sys_close [prog; path] w =
       Done (w', Exit (lines ++ post ++
                       output (int_loop updB (k + 1) NFRAMES (migrated_state sA)).2) 0 rt')).
Proof.
  intros HcartB Hload Hk HovA HovB.
  destruct (save_state_init_works rsA HovA) as (ctxA & HiA & HinitA & HhashA).
  destruct (save_state_init_works rsB HovB) as (ctxB & HiB & HinitB & HhashB).
  pose proof (int_frames_ok wfA bssA updA (Z.to_nat (k + 1 - 0)) 0 (globals_bss bssA)) as Hok.
  unfold NFRAMES in Hk. destruct Hok as [HwfA Hframe]; [lia|unfold NFRAMES; lia| |].
  { split; [split; [apply frame_state_zero_wf|done]|split; [apply (nc_bss (NativeCart := HcartA))|done]]. }
  specialize (Hframe ltac:(lia)). fold (int_loop updA 0 (k + 1) (globals_bss bssA)) in HwfA, Hframe.
  destruct (int_loop updA 0 (k + 1) (globals_bss bssA)) as [sA linesA] eqn:EA. cbn [fst] in *.
  destruct (hr_small (HotReload := Hedit)) as [Hsz _].
  destruct (native_fits oldR Hsz) as [HfitA HcapA].
  destruct (emit_parse_cap rsA (native_wf wfA) sys_open sys_read sys_close remaining
    SAVE_BUF_CAP (HEX_BUF_CAP - 1) (cstr "PANIC n_native_save: save_state_save returned 0" ++ [10])
    ctxA sA k) as (text & Hsave & Hh & Hparse & Hread);
    [by apply (native_registry oldR wfA)|done|unfold SAVE_BUF_CAP; lia|done
    |unfold HEX_BUF_CAP; lia|done|done|done|lia|].
  destruct (continue_migrated ctxB sA k [] HcartB HwfA HinitB HhashB) as (post & rt' & Hpost & Hcont);
    [unfold NFRAMES; lia|lia|].
  exists text, (ctxA, copy_tracked rsA sA sA), ctxA, ctxB, post. split_and!; [done|done| |done|done|].
  { unfold main_save. rewrite HiA.
    pose proof (proj2 (atoi_of_dec k [] ltac:(lia) ltac:(done))) as Ha.
    rewrite app_nil_r in Ha. rewrite Ha. destruct (Z.eqb_spec k (2 ^ 31 - 1)); [lia|].
    rewrite EA, wrap_small, Hsave by lia. done. }
  intros path w w0 fd Ho Hfd Hpx Hrem. destruct (Hread path w w0 fd Ho Hfd Hpx Hrem) as [w' Hr].
  set (pad := repeat 0 (Z.to_nat SAVE_BUF_CAP - length
    (lenc header_layout (saved_header rsA ctxA k) ++ images rsA sA))).
  destruct (Hload ctxA ctxB sA k pad HiA HiB HwfA Hh) as (sc & lines & Hp & Hl).
  exists w', lines, rt'. split; [done|]. unfold main_load. rewrite HiB, Hr.
  destruct (Z.ltb_spec (Z.of_nat (length text)) 0); [lia|]. rewrite Hparse.
  destruct (Z.ltb_spec (save_state_buffer_capacity rsA) 0); [lia|]. fold pad.
  rewrite <-app_assoc, Hl. cbn [rbind negb]. unfold save_state_get_frame.
  rewrite read_header_app by done. cbn [saved_header hframe]. rewrite Hcont.
  cbn [rbind out code globals]. done.
Qed.

Lemma schema_change_reloads :
  layouts_differ -> overflowed (runtime_tracked_describe rsA (Sink [] 4096 false)) = false ->
  overflowed (runtime_tracked_describe rsB (Sink [] 4096 false)) = false ->
  reloads (fun lines => exists warnings, lines = mismatch_line ++ warnings).
Proof.
  intros Hdiff HovA HovB ctxA ctxB s k pad HiA HiB Hs Hh.
  destruct (reload_applies s (globals_bss bssB) pad Hs) as (sc & warnings & Happ).
  destruct (hr_small (HotReload := Hedit)) as [Hsz _].
  destruct (native_fits oldR Hsz) as [Hfit _].
  assert (images rsA s = concat [(Tracked.save region_frame_state (fs s)).2; (Tracked.save oldR (st s)).2])
    as Himg by (unfold runtime_tracked_regions; by rewrite !images_cons).
  exists sc, (mismatch_line ++ warnings). split; [by eexists|]. rewrite Himg.
  eapply (load_migrate_applies ms rsB ctxB); [done..| | | |exact Happ].
  - unfold saved_header, save_state_layout_hash. cbn [layout_hash]. intros E.
    apply Hdiff. unfold save_state_init in HiA, HiB. rewrite HovA in HiA. rewrite HovB in HiB.
    apply Some_inj in HiA, HiB. rewrite <-HiA, <-HiB in E. exact E.
  - cbn [saved_header total_size]. rewrite (capacity_images rsA (native_wf wfA) s), Himg by
      (done || by apply (native_registry oldR wfA)). done.
  - cbn [saved_header total_size]. lia.
Qed.

(** C1: hot reload across a schema change.  For every edit that meets the
    contract and every save frame before the last, the old program prints its
    digests and a buffer; on a host that hands the buffer's text to the new
    program, the load notices the layout mismatch, migrates, prints the very
    buffer the new program itself would save in the migrated state, and
    continues with the new code's digests from the frame behind the save, with
    the old frame state and with [conv] of the old struct. *)
Theorem hot_reload k prog :
  NativeCart wfB bssB updB -> layouts_differ -> 0 <= k < NFRAMES ->
  overflowed (runtime_tracked_describe rsA (Sink [] 4096 false)) = false ->
  overflowed (runtime_tracked_describe rsB (Sink [] 4096 false)) = false ->
  let '(sA, linesA) := int_loop updA 0 (k + 1) (globals_bss bssA) in
  exists text rt ctxB post,
    main_save oldR bssA updA [prog; dec k] = Some (Exit (output linesA ++ text) 0 rt) /\
    save_state_init rsB = Some ctxB /\
    save_and_emit_cap rsB SAVE_BUF_CAP [] (ctxB, migrated_state sA) k =
      Some (Exit post 0 (ctxB, migrated_state sA)) /\
    (forall path w w0 fd,
     sys_open path w = (w0, fd) -> 0 <= fd -> read_posix sys_read remaining fd ->
     remaining w0 = text ->
     exists w' lines rt', (exists warnings, lines = mismatch_line ++ warnings) /\
       main_load newR bssB updB ms sys_open sys_read sys_close [prog; path] w =
       Done (w', Exit (lines ++ post ++
                       output (int_loop updB (k + 1) NFRAMES (migrated_state sA)).2) 0 rt')).
Proof.
  intros HcartB Hdiff Hk HovA HovB.
  pose proof (drivers_reload _ k prog HcartB (schema_change_reloads Hdiff HovA HovB) Hk HovA HovB) as H.
  destruct (int_loop updA 0 (k + 1) (globals_bss bssA)) as [sA linesA].
  destruct H as (text & rt & ctxA & ctxB & post & _ & _ & H1 & H2 & H3 & H4).
  by exists text, rt, ctxB, post.
Qed.
End reload.

(** *** Edits of the code alone *)

Section same_layout.
Context {X : Type} (r : runtime_tracked_region_t X) (wf : X -> Prop) (bss : X)
  (ms : list (option migrate_region_t)) {Hedit : HotReload r r wf wf ms id}.

Abbreviation rs := (runtime_tracked_regions r).

#[local] Existing Instance hr_old.

Lemma copy_tracked_migrated s t :
  native_wf wf s -> copy_tracked rs s t = migrated_state id s.
Proof.
  intros [_ [Hst _]]. unfold runtime_tracked_regions. rewrite !copy_tracked_cons.
  cbn [r_ops r_get r_set r_ty copy_tracked fold_left fs st].
  pose proof (hr_canonical (HotReload := Hedit) (st s) Hst) as E. unfold id in E. by rewrite E.
Qed.

Lemma same_layout_reloads : reloads r r wf bss ms id (fun lines => lines = []).
Proof.
  intros ctxA ctxB s k pad HiA HiB Hs Hh. rewrite HiA in HiB. apply Some_inj in HiB as <-.
  destruct (hr_small (HotReload := Hedit)) as [Hsz _]. destruct (native_fits r Hsz) as [Hfit Hcap].
  exists (repeat 0 (Z.to_nat scratch_size)), []. split; [done|].
  assert (g_initialized ctxA = true) as Hinit.
  { unfold save_state_init in HiA. destruct (overflowed _); [done|]. by apply Some_inj in HiA as <-. }
  unfold save_state_load_migrate. rewrite read_header_app by done.
  unfold header_size. destruct (Z.ltb_spec (save_state_buffer_capacity rs) 24); [lia|].
  cbn [saved_header magic version layout_hash total_size]. rewrite !Z.eqb_refl. cbn [negb].
  rewrite Z.ltb_irrefl. unfold save_state_layout_hash. rewrite ?Z.eqb_refl.
  pose proof Hh as (_ & _ & Hhash & Hk & _). unfold saved_header.
  rewrite (load_image rs (native_wf wf)); [by rewrite copy_tracked_migrated
    |by apply (native_registry r wf)|done|done|done|exact Hhash|exact Hk|lia].
Qed.

(** The buffer of the restored state is the buffer it was restored from. *)
Lemma emit_migrated ctx s k p1 p2 :
  native_wf wf s -> g_initialized ctx = true ->
  exists text,
    save_and_emit_cap rs SAVE_BUF_CAP p1 (ctx, s) k =
      Some (Exit text 0 (ctx, migrated_state id s)) /\
    save_and_emit_cap rs SAVE_BUF_CAP p2 (ctx, migrated_state id s) k =
      Some (Exit text 0 (ctx, migrated_state id s)).
Proof.
  intros Hs Hinit. destruct (hr_small (HotReload := Hedit)) as [Hsz _].
  destruct (native_fits r Hsz) as [Hfit Hcap].
  pose proof (copy_tracked_migrated s s Hs) as Ecopy.
  pose proof (copy_tracked_wf rs (native_wf wf) s s (native_registry r wf) Hs) as HsB.
  rewrite Ecopy in HsB.
  unfold save_and_emit_cap.
  rewrite !(save_state_save_layout rs (native_wf wf)) by
    (done || (by apply (native_registry r wf)) || (unfold SAVE_BUF_CAP; lia) || by rewrite repeat_length).
  destruct (Z.eqb_spec (save_state_buffer_capacity rs) 0); [lia|].
  rewrite Ecopy, (migrated_resave r r wf wf ms id s Hs).
  assert (images rs (migrated_state id s) = images rs s) as ->.
  { rewrite <-Ecopy. by apply (images_copy_tracked rs (native_wf wf)), Hs; apply (native_registry r wf). }
  eexists. exact (conj eq_refl eq_refl).
Qed.
End same_layout.

(** C14: an edit of the code alone.  With the struct unchanged the hash
    matches, no migration runs and nothing but the buffer and the digests is
    printed: the saved buffer comes back byte for byte and the new code
    continues from the saved state. *)
Theorem code_edit_reload {X} (r : runtime_tracked_region_t X) (wf : X -> Prop) (bss : X) upd upd'
    ms {W} sys_open sys_read (sys_close : Z -> W -> W * Z) remaining k prog :
  HotReload r r wf wf ms id -> NativeCart wf bss upd -> NativeCart wf bss upd' ->
  0 <= k < NFRAMES ->
  overflowed (runtime_tracked_describe (runtime_tracked_regions r) (Sink [] 4096 false)) = false ->
  let '(s, lines) := int_loop upd 0 (k + 1) (globals_bss bss) in
  exists text rt,
    main_save r bss upd [prog; dec k] = Some (Exit (output lines ++ text) 0 rt) /\
    (forall path w w0 fd,
     sys_open path w = (w0, fd) -> 0 <= fd -> read_posix sys_read remaining fd ->
     remaining w0 = text ->
     exists w' rt', main_load r bss upd' ms sys_open sys_read sys_close [prog; path] w =
       Done (w', Exit (text ++ output (int_loop upd' (k + 1) NFRAMES (migrated_state id s)).2) 0 rt')).
Proof.
  intros Hedit Hcart Hcart' Hk Hov.
  pose proof (drivers_reload r r wf wf bss bss upd upd' ms id sys_open sys_read sys_close remaining
    (fun lines => lines = []) k prog Hcart' (same_layout_reloads r wf bss ms) Hk Hov Hov) as H.
  destruct (int_loop upd 0 (k + 1) (globals_bss bss)) as [s lines] eqn:Es.
  destruct H as (text & rt & ctxA & ctxB & post & HiA & Htext & Hsave & HiB & Hpost & Hload).
  exists text, rt. split; [done|]. intros path w w0 fd Ho Hfd Hpx Hrem.
  destruct (Hload path w w0 fd Ho Hfd Hpx Hrem) as (w' & l & rt' & -> & ->).
  exists w', rt'. assert (post = text) as ->; [|done].
  rewrite HiA in HiB. apply Some_inj in HiB as <-.
  assert (g_initialized ctxA = true) as Hinit.
  { unfold save_state_init in HiA. rewrite Hov in HiA. by apply Some_inj in HiA as <-. }
  pose proof (int_frames_ok wf bss upd (Z.to_nat (k + 1 - 0)) 0 (globals_bss bss)) as [Hwf _];
    [lia|unfold NFRAMES in *; lia| |].
  { split; [split; [apply frame_state_zero_wf|done]|split; [apply (nc_bss (NativeCart := Hcart))|done]]. }
  fold (int_loop upd 0 (k + 1) (globals_bss bss)) in Hwf. rewrite Es in Hwf.
  destruct (emit_migrated r wf ms ctxA s k
    (cstr "PANIC n_native_save: save_state_save returned 0" ++ [10]) [] Hwf Hinit) as (t' & E1 & E2).
  congruence.
Qed.

(** ** The edits of the suite *)

Lemma fold_some_value_wf {X} v (s : native_globals X) :
  lwf frame_state_layout (fs s) -> lwf frame_state_layout (fs (fold_some_value v s)).
Proof. intros. apply set_accum_misc_wf; [apply f32_to_bits_range|done]. Qed.

(** Every field an update stores is in range, because it is wrapped. *)
Ltac native_cart :=
  split; [cbn; lia|]; intros f [? []] ? Hfs [Hst _]; cbn in Hst |- *;
  (split; [by apply (fold_some_value_wf _ _ Hfs)|]);
  repeat split; cbn; try (apply (signed_range 32); lia); try (apply (signed_range 64); lia); tauto.

#[export] Instance n1_pre_cart :
  NativeCart (pod_wf NativeV0.layout) (NativeV0.State 0 0 0) NativeEdits.n1_pre.
Proof. native_cart. Qed.
#[export] Instance n1_post_cart :
  NativeCart (pod_wf NativeV0.layout) (NativeV0.State 0 0 0) NativeEdits.n1_post.
Proof. native_cart. Qed.
#[export] Instance n2_pre_cart :
  NativeCart (pod_wf NativeV0.layout) (NativeV0.State 0 0 0) NativeEdits.n2_pre.
Proof. native_cart. Qed.
#[export] Instance n2_post_cart :
  NativeCart (pod_wf NativeV0.layout) (NativeV0.State 0 0 0) NativeEdits.n2_post.
Proof. native_cart. Qed.
#[export] Instance n3_pre_cart :
  NativeCart (pod_wf NativeV0.layout) (NativeV0.State 0 0 0) NativeEdits.n3_pre.
Proof. native_cart. Qed.
#[export] Instance n3_post_cart :
  NativeCart (pod_wf NativeV3.layout) (NativeV3.State 0 0 0 0) NativeEdits.n3_post.
Proof. native_cart. Qed.
#[export] Instance n4_pre_cart :
  NativeCart (pod_wf NativeV3.layout) (NativeV3.State 0 0 0 0) NativeEdits.n4_pre.
Proof. native_cart. Qed.
#[export] Instance n4_post_cart :
  NativeCart (pod_wf NativeV4.layout) (NativeV4.State 0 0 0) NativeEdits.n4_post.
Proof. native_cart. Qed.
#[export] Instance n5_pre_cart :
  NativeCart (pod_wf NativeV4.layout) (NativeV4.State 0 0 0) NativeEdits.n5_pre.
Proof. native_cart. Qed.
#[export] Instance n5_post_cart :
  NativeCart (pod_wf NativeV5.layout) (NativeV5.State 0 0 0) NativeEdits.n5_post.
Proof. native_cart. Qed.
#[export] Instance n6_pre_cart :
  NativeCart (pod_wf NativeV5.layout) (NativeV5.State 0 0 0) NativeEdits.n6_pre.
Proof. native_cart. Qed.
#[export] Instance n6_post_cart :
  NativeCart (pod_wf NativeV6.layout) (NativeV6.State 0 0 0) NativeEdits.n6_post.
Proof. native_cart. Qed.

(** One round of the load takes the bytes of every well-formed old struct to
    the new struct [conv] gives. *)
Definition edit_takes {A B} (old : runtime_tracked_region_t A) (new : runtime_tracked_region_t B)
    (wf : A -> Prop) (ms : list (option migrate_region_t)) (conv : A -> B) : Prop :=
  forall a b scratch rest, wf a -> length scratch = Z.to_nat scratch_size ->
  exists scratch' out,
    apply_region ms (Region new id (fun b _ => b)) b scratch ((Tracked.save old a).2 ++ rest) =
    Done (conv a, scratch', out, true).

Lemma hot_reload_takes {A B} (old : runtime_tracked_region_t A) (new : runtime_tracked_region_t B)
    wfA wfB ms conv :
  HotReload old new wfA wfB ms conv -> edit_takes old new wfA ms conv.
Proof.
  intros H a b sc rest Ha Hsc. exact (hr_apply (HotReload := H) id (fun b _ => b) b sc a rest Ha Hsc).
Qed.

Lemma edit_takes_as {A B} (old : runtime_tracked_region_t A) (new : runtime_tracked_region_t B)
    wfA wfB ms conv conv' :
  HotReload old new wfA wfB ms conv -> (forall a, conv a = conv' a) ->
  edit_takes old new wfA ms conv'.
Proof.
  intros H E a b sc rest Ha Hsc. rewrite <-E.
  exact (hot_reload_takes old new wfA wfB ms conv H a b sc rest Ha Hsc).
Qed.

(** the schema changes of the edit suite, for every value of the old
    struct: n3 adds [last_score] as 0, n4 drops [unused_count], n5 widens
    [frame_count] keeping its signed value, n6 reorders and keeps every field;
    l2 adds [bonus] as 0, l3 drops it; and l4, whose new field has a new name,
    never calls its [on_retype] and sets [combo_mult] to 0. *)
Theorem edit_suite_values :
  edit_takes NativeV0.region_native_state NativeV3.region_native_state (pod_wf NativeV0.layout)
    [Some migrate_native_n3] (fun '(NativeV0.State fc sv uc) => NativeV3.State fc sv uc 0) /\
  edit_takes NativeV3.region_native_state NativeV4.region_native_state (pod_wf NativeV3.layout)
    [Some migrate_native_n4] (fun '(NativeV3.State fc sv uc ls) => NativeV4.State fc sv ls) /\
  edit_takes NativeV4.region_native_state NativeV5.region_native_state (pod_wf NativeV4.layout)
    [Some migrate_native_n5] (fun '(NativeV4.State fc sv ls) => NativeV5.State fc sv ls) /\
  edit_takes NativeV5.region_native_state NativeV6.region_native_state (pod_wf NativeV5.layout)
    [Some migrate_native_n6] (fun '(NativeV5.State fc sv ls) => NativeV6.State sv ls fc) /\
  edit_takes LuaV0.region_lua_cart_state LuaV2.region_lua_cart_state (pod_wf LuaV0.layout)
    [Some migrate_lua_l2] (fun '(LuaV0.State sc sp cb) => LuaV2.State sc sp cb 0) /\
  edit_takes LuaV2.region_lua_cart_state LuaV3.region_lua_cart_state (pod_wf LuaV2.layout)
    [Some migrate_lua_l3] (fun '(LuaV2.State sc sp cb bn) => LuaV3.State sc sp cb) /\
  edit_takes LuaV3.region_lua_cart_state LuaV4.region_lua_cart_state (pod_wf LuaV3.layout)
    [Some migrate_lua_l4] (fun '(LuaV3.State sc sp cb) => LuaV4.State sc sp 0).
Proof.
  refine (conj (edit_takes_as _ _ _ _ _ _ _ n3_edit _) (conj (edit_takes_as _ _ _ _ _ _ _ n4_edit _)
    (conj (edit_takes_as _ _ _ _ _ _ _ n5_edit _) (conj (edit_takes_as _ _ _ _ _ _ _ n6_edit _)
    (conj (edit_takes_as _ _ _ _ _ _ _ l2_edit _) (conj (edit_takes_as _ _ _ _ _ _ _ l3_edit _)
    (edit_takes_as _ _ _ _ _ _ _ l4_edit _))))))); by intros [].
Qed.

(** What l4's callback would have made of a combo of 10: [1.0f]. *)
Example retype_combo_would_give :
  lua_cart_state_retype_combo_to_mult (le_bytes 4 10) MTYPE_I32 (zeros 4) MTYPE_F32 =
  Done (le_bytes 4 f32_one, true).
Proof. vm_compute. reflexivity. Qed.

(** The v3 layout of the Lua cart contributes the same text to the hash as v0. *)
Lemma lua_v3_describes_like_v0 :
  Tracked.describe LuaV3.region_lua_cart_state = Tracked.describe LuaV0.region_lua_cart_state /\
  name LuaV3.region_lua_cart_state = name LuaV0.region_lua_cart_state /\
  size LuaV3.region_lua_cart_state = size LuaV0.region_lua_cart_state.
Proof. exact (conj eq_refl (conj eq_refl eq_refl)). Qed.

(** *** Loads that go wrong quietly *)

(** A struct that shrank without a descriptor passes the size check, which
    compares the new size with itself, and is read as if nothing had moved:
    here v4's [last_score] is v3's [unused_count]. *)
Theorem undescribed_shrink_accepted b scratch rest fc sv uc ls :
  lwf NativeV3.layout (NativeV3.State fc sv uc ls) ->
  apply_region migrate_regions_default (Region NativeV4.region_native_state id (fun b _ => b))
    b scratch ((Tracked.save NativeV3.region_native_state (NativeV3.State fc sv uc ls)).2 ++ rest) =
  Done (NativeV4.State fc sv uc, scratch, [], true).
Proof.
  intros (Hfc & Hsv & Huc & Hls).
  set (a := NativeV4.State fc sv uc).
  assert (lwf NativeV4.layout a /\ true = true) as Ha by done.
  pose proof (lr_load (LawfulRegion := pod_region_lawful "native_state" NativeV4.layout
    (describe_field "frame_count:i32@" 0 ++ describe_field "some_value:i32@" 4 ++
     describe_field "last_score:i32@" 8) NativeV4.layout_lawful) a b
    (le_bytes 4 (u32 ls) ++ rest) Ha) as E.
  apply apply_region_raw; [done|]. unfold region_load, region_size. cbn [r_ops r_get r_set r_ty].
  change (id b) with b.
  assert ((Tracked.save NativeV3.region_native_state (NativeV3.State fc sv uc ls)).2 ++ rest =
    lenc NativeV4.layout a ++ le_bytes 4 (u32 ls) ++ rest) as -> by (cbn; by rewrite <-!app_assoc).
  change (Tracked.load NativeV4.region_native_state b (lenc NativeV4.layout a ++ le_bytes 4 (u32 ls) ++ rest)
    (size NativeV4.region_native_state) = (a, true)) in E. by rewrite E.
Qed.

(** The load commits region by region: when the second region is refused, the
    first has been overwritten. *)
Theorem failed_migration_overwrites ctx s t h size m rest :
  let rsB := runtime_tracked_regions NativeV4.region_native_state in
  let ms := [Some {| mr_name := Some (cstr "native_state"); mr_old_size := 16;
                     mr_old_layout := None; mr_new_layout := None; mr_on_retype := m |}] in
  lwf header_layout h -> magic h = SAVE_STATE_MAGIC -> version h = SAVE_STATE_VERSION ->
  layout_hash h <> save_state_layout_hash ctx -> total_size h = 24 + 1316 + 16 ->
  total_size h <= size -> lwf frame_state_layout s -> length rest = 16%nat ->
  exists out,
    save_state_load_migrate rsB ms (ctx, t) (repeat 0 (Z.to_nat scratch_size))
      (lenc header_layout h ++ (Tracked.save region_frame_state s).2 ++ rest) size =
    Done ((ctx, set_fs (frame_state_canonicalize s) t), repeat 0 (Z.to_nat scratch_size), out, false).
Proof.
  intros rsB ms Hh Hm Hv Hlh Ht Hsz Hs Hrest. eexists. unfold save_state_load_migrate.
  rewrite read_header_app by done. unfold header_size.
  destruct (Z.ltb_spec size 24); [lia|]. rewrite Hm, Hv, !Z.eqb_refl. cbn [negb].
  destruct (Z.ltb_spec size (total_size h)); [lia|].
  destruct (Z.eqb_spec (layout_hash h) (save_state_layout_hash ctx)); [done|].
  rewrite Ht. change (check_regions ms rsB 24 (24 + 1316 + 16)) with (@nil Z, true). cbn [negb].
  unfold rsB, runtime_tracked_regions. cbn [apply_regions].
  change (Z.to_nat 24) with (lsize header_layout). rewrite <-(length_lenc h Hh), drop_app_length.
  rewrite (apply_region_raw ms (Region region_frame_state fs set_fs) t _ _
    (set_fs (frame_state_canonicalize s) t)); [|done|].
  2:{ pose proof (lr_load (LawfulRegion := FrameStateRegion.lawful) s (fs t) rest (conj Hs eq_refl)) as E.
      unfold region_load, region_size. cbn [r_ops r_get r_set r_ty]. by rewrite E. }
  cbn [rbind]. exact eq_refl.
Qed.

(** ** The theorems at work *)

Lemma native_n5_differs :
  layouts_differ NativeV4.region_native_state NativeV5.region_native_state.
Proof. unfold layouts_differ. vm_compute. discriminate. Qed.

Lemma native_V4_ok : mlayout_ok NativeV4.native_state_layout.
Proof. apply (bool_decide_eq_true_1 _). vm_compute. reflexivity. Qed.
Lemma native_V5_ok : mlayout_ok NativeV5.native_state_layout.
Proof. apply (bool_decide_eq_true_1 _). vm_compute. reflexivity. Qed.
Lemma native_V6_ok : mlayout_ok NativeV6.native_state_layout.
Proof. apply (bool_decide_eq_true_1 _). vm_compute. reflexivity. Qed.

Lemma native_frame_15 : 0 <= 15 < NFRAMES.
Proof. unfold NFRAMES. lia. Qed.

Lemma hot_reload_witness :
  exists lines text w' out rt rt',
    main_save NativeV4.region_native_state (NativeV4.State 0 0 0) NativeEdits.n5_pre
      [cstr "save"; dec 15] = Some (Exit (output lines ++ text) 0 rt) /\
    main_load NativeV5.region_native_state (NativeV5.State 0 0 0) NativeEdits.n5_post
      [Some migrate_native_n5] (fun _ w => (w, 4)) toy_read (fun _ w => (w, 0))
      [cstr "save"; cstr "f"] text = Done (w', Exit out 0 rt').
Proof.
  pose proof (hot_reload NativeV4.region_native_state NativeV5.region_native_state
    (pod_wf NativeV4.layout) (pod_wf NativeV5.layout) (NativeV4.State 0 0 0) (NativeV5.State 0 0 0)
    NativeEdits.n5_pre NativeEdits.n5_post [Some migrate_native_n5] n5_conv
    (fun _ w => (w, 4)) toy_read (fun _ w => (w, 0)) id 15 (cstr "save")
    n5_post_cart native_n5_differs native_frame_15 eq_refl eq_refl) as H.
  destruct (int_loop NativeEdits.n5_pre 0 (15 + 1) (globals_bss (NativeV4.State 0 0 0))) as [sA linesA].
  destruct H as (text & rt & ctxB & post & Hs & _ & _ & Hl).
  destruct (Hl (cstr "f") text text 4 eq_refl ltac:(lia) (toy_read_posix 4) eq_refl)
    as (w' & lines & rt' & _ & H).
  exists linesA, text, w'. eexists _, rt, rt'. exact (conj Hs H).
Defined.

Lemma code_edit_reload_witness :
  exists lines text w' out rt rt',
    main_save NativeV0.region_native_state (NativeV0.State 0 0 0) NativeEdits.n1_pre
      [cstr "p"; dec 15] = Some (Exit (output lines ++ text) 0 rt) /\
    main_load NativeV0.region_native_state (NativeV0.State 0 0 0) NativeEdits.n1_post
      migrate_regions_default (fun _ w => (w, 4)) toy_read (fun _ w => (w, 0))
      [cstr "p"; cstr "f"] text = Done (w', Exit (text ++ out) 0 rt').
Proof.
  pose proof (code_edit_reload NativeV0.region_native_state (pod_wf NativeV0.layout)
    (NativeV0.State 0 0 0) NativeEdits.n1_pre NativeEdits.n1_post migrate_regions_default
    (fun _ w => (w, 4)) toy_read (fun _ w => (w, 0)) id 15 (cstr "p")
    n1_edit n1_pre_cart n1_post_cart native_frame_15 eq_refl) as H.
  destruct (int_loop NativeEdits.n1_pre 0 (15 + 1) (globals_bss (NativeV0.State 0 0 0))) as [s lines].
  destruct H as (text & rt & Hs & Hl).
  destruct (Hl (cstr "f") text text 4 eq_refl ltac:(lia) (toy_read_posix 4) eq_refl)
    as (w' & rt' & H).
  exists lines, text, w'. eexists _, rt, rt'. exact (conj Hs H).
Defined.

Lemma migrate_policy_witness :
  exists new_bytes out,
    migrate_region_bytes (repeat 9 20) NativeV5.native_state_layout
      [0xfe; 0xff; 0xff; 0xff; 7; 0; 0; 0; 8; 0; 0; 0] NativeV4.native_state_layout
      (Some native_state_retype_i32_to_i64) = Done (new_bytes, out, true) /\
    drop 16 new_bytes = [9; 9; 9; 9] /\ take 8 new_bytes = le_bytes 8 (u64 (-2)).
Proof.
  destruct (migrate_policy NativeV5.native_state_layout NativeV4.native_state_layout
    [0xfe; 0xff; 0xff; 0xff; 7; 0; 0; 0; 8; 0; 0; 0] (Some native_state_retype_i32_to_i64) _
    (repeat 9 20)
    native_V5_ok
    native_V4_ok
    (disjointb_ok (ml_fields NativeV5.native_state_layout) eq_refl)
    ltac:(cbn; lia) ltac:(cbn; lia) retype_i32_to_i64_ok)
    as (nb & out & E & _ & _ & Hre & _ & Hd).
  exists nb, out. split; [exact E|]. split; [exact Hd|].
  exact (Hre (field "frame_count" MTYPE_I64 0 8) (field "frame_count" MTYPE_I32 0 4)
    (list_elem_of_here _ _) eq_refl ltac:(discriminate)).
Defined.

Lemma reorder_roundtrip_witness :
  exists mid out back out',
    migrate_region_bytes (repeat 9 4096) NativeV6.native_state_layout
      [1; 2; 3; 4; 5; 6; 7; 8; 11; 12; 13; 14; 21; 22; 23; 24] NativeV5.native_state_layout None
      = Done (mid, out, true) /\
    migrate_region_bytes (repeat 9 4096) NativeV5.native_state_layout mid
      NativeV6.native_state_layout None = Done (back, out', true) /\
    take 16 back = [1; 2; 3; 4; 5; 6; 7; 8; 11; 12; 13; 14; 21; 22; 23; 24].
Proof.
  apply (reorder_roundtrip NativeV5.native_state_layout NativeV6.native_state_layout
    [1; 2; 3; 4; 5; 6; 7; 8; 11; 12; 13; 14; 21; 22; 23; 24] None no_retype
    (repeat 9 4096) (repeat 9 4096)).
  - exact native_V5_ok.
  - exact native_V6_ok.
  - exact (disjointb_ok (ml_fields NativeV5.native_state_layout) eq_refl).
  - exact (disjointb_ok (ml_fields NativeV6.native_state_layout) eq_refl).
  - apply (bool_decide_eq_true_1 _); vm_compute; reflexivity.
  - apply (bool_decide_eq_true_1 _); vm_compute; reflexivity.
  - repeat constructor; eexists; exact (conj eq_refl eq_refl).
  - repeat constructor; eexists; exact (conj eq_refl eq_refl).
  - exact (coversb_ok NativeV5.native_state_layout eq_refl).
  - exact eq_refl.
  - exact eq_refl.
  - rewrite repeat_length. cbn. lia.
  - rewrite repeat_length. cbn. lia.
Defined.

Lemma load_migrate_gates_witness :
  let rs := runtime_tracked_regions NativeV0.region_native_state in
  let s := globals_bss (NativeV0.State 0 0 0) in
  exists out,
    save_state_load_migrate rs [] (ctx_bss, s) [] (repeat 7 64) 64 =
    Done ((ctx_bss, s), [], out, false).
Proof.
  intros rs s. apply (load_migrate_gates rs [] ctx_bss s [] (repeat 7 64) 64).
  - discriminate.
  - repeat constructor; cbn; lia.
  - intros (_ & H & _). vm_compute in H. discriminate.
Defined.
