(* ===== verification/Diagnostic.v ===== *)
(** * The hot-reload diagnostic (spikes/spike-n/cart_runtime/hot_reload_diagnostic.c)

    The text the runtime prints when an edit cannot migrate a persistent
    script.  The formatter appends piece by piece into a bounded buffer and
    ignores every piece's "did not fit" result; the theorem says what reaches
    the buffer nevertheless. *)

From S2P Require Import Prelude SaveState.

(** A null [func_name] is [None]. *)
Inductive hot_reload_reason_t :=
  HRDG_FUNCTION_NOT_FOUND | HRDG_FUNCTION_DELETED | HRDG_RETYPE_REJECTED |
  HRDG_SCHEMA_MISMATCH | HRDG_SAVE_FLATTEN_FAILED.

Definition HOT_RELOAD_DIAG_MAX : Z := 512.

(** The loops of [emit_uint] and [emit_str]: [buf[pos++] = c] while
    [*pos < buf_cap - 1]. *)
Fixpoint emit_chars (buf_cap : Z) (cs : list Z) (bp : list Z * Z) : list Z * Z * bool :=
  match cs with
  | [] => (bp, true)
  | c :: cs =>
      let '(buf, pos) := bp in
      if buf_cap - 1 <=? pos then (bp, false)
      else emit_chars buf_cap cs (<[Z.to_nat pos := c]> buf, pos + 1)
  end.

Definition emit_uint (buf_cap : Z) (v : Z) (bp : list Z * Z) : list Z * Z * bool :=
  emit_chars buf_cap (dec v) bp.

Definition emit_str (buf_cap : Z) (s : option (list Z)) (bp : list Z * Z) : list Z * Z * bool :=
  emit_chars buf_cap (default [] s) bp.

(** [emit_str(buf, buf_cap, &pos, "...")], the result dropped. *)
Definition put_lit (buf_cap : Z) (s : string) (bp : list Z * Z) : list Z * Z :=
  (emit_str buf_cap (Some (cstr s)) bp).1.
Definition put_str (buf_cap : Z) (s : list Z) (bp : list Z * Z) : list Z * Z :=
  (emit_str buf_cap (Some s) bp).1.
(** [(unsigned long)(unsigned)v]. *)
Definition put_uint (buf_cap : Z) (v : Z) (bp : list Z * Z) : list Z * Z :=
  (emit_uint buf_cap (u32 v) bp).1.

Definition put_reason (buf_cap : Z) (func_name : option (list Z)) (reason : hot_reload_reason_t)
    (bp : list Z * Z) : list Z * Z :=
  let name := default (cstr "(unknown)") func_name in
  match reason with
  | HRDG_FUNCTION_NOT_FOUND =>
      let bp := put_lit buf_cap "function '" bp in
      let bp := put_str buf_cap name bp in
      put_str buf_cap (cstr "' not found in new code" ++ [10]) bp
  | HRDG_FUNCTION_DELETED =>
      let bp := put_lit buf_cap "function '" bp in
      let bp := put_str buf_cap name bp in
      put_str buf_cap (cstr "' was deleted from new code" ++ [10]) bp
  | HRDG_RETYPE_REJECTED =>
      put_str buf_cap (cstr "field retype rejected by on_retype callback" ++ [10]) bp
  | HRDG_SCHEMA_MISMATCH =>
      put_str buf_cap (cstr "region layout changed but no migration descriptor registered" ++ [10]) bp
  | HRDG_SAVE_FLATTEN_FAILED =>
      put_str buf_cap (cstr "pre-reload ctx flatten failed (BLYT_ERR_FLATTEN_UNSUPPORTED_TYPE)" ++ [10]) bp
  end.

Definition put_body (buf_cap : Z) (old_line : Z) (bp : list Z * Z) : list Z * Z :=
  if 0 <? old_line then
    let bp := put_lit buf_cap "  body: cart.lua:" bp in
    let bp := put_uint buf_cap old_line bp in
    put_str buf_cap (cstr " (old) -> cart.lua:??? (new)" ++ [10]) bp
  else bp.

(** The buffer afterwards and the returned [pos]. *)
Definition hot_reload_diagnostic_format (buf : list Z) (buf_cap : Z) (slot : Z)
    (func_name : option (list Z)) (old_line : Z) (reason : hot_reload_reason_t) : list Z * Z :=
  let bp := (buf, 0) in
  let bp := put_lit buf_cap "hot_reload: failed to migrate slot " bp in
  let bp := put_uint buf_cap slot bp in
  let bp := put_str buf_cap (cstr " (persistent script)" ++ [10]) bp in
  let bp := put_body buf_cap old_line bp in
  let bp := put_lit buf_cap "  reason: " bp in
  let bp := put_reason buf_cap func_name reason bp in
  let bp := put_lit buf_cap "  surfaced via: blyt32.on_hot_reload_failed(slot=" bp in
  let bp := put_uint buf_cap slot bp in
  let bp := put_str buf_cap (cstr ", reason=...)" ++ [10]) bp in
  let '(buf, pos) := bp in
  if pos <? buf_cap then (<[Z.to_nat pos := 0]> buf, pos) else (buf, pos).

(** What is printed, and the string the hook is called with, on the static
    buffer [diag] and with [g_hook] registered or not. *)
Definition hot_reload_diagnostic_emit (g_hook : bool) (diag : list Z) (slot : Z)
    (func_name : option (list Z)) (old_line : Z) (reason : hot_reload_reason_t)
  : list Z * option (Z * list Z) :=
  let diag := (hot_reload_diagnostic_format diag HOT_RELOAD_DIAG_MAX slot func_name old_line reason).1 in
  (printf_s (cstr "STDERR " ++ c_string diag),
   if g_hook then Some (slot, c_string diag) else None).

(** ** The whole text *)

Definition reason_text (func_name : option (list Z)) (reason : hot_reload_reason_t) : list Z :=
  let name := default (cstr "(unknown)") func_name in
  match reason with
  | HRDG_FUNCTION_NOT_FOUND => cstr "function '" ++ name ++ cstr "' not found in new code"
  | HRDG_FUNCTION_DELETED => cstr "function '" ++ name ++ cstr "' was deleted from new code"
  | HRDG_RETYPE_REJECTED => cstr "field retype rejected by on_retype callback"
  | HRDG_SCHEMA_MISMATCH =>
      cstr "region layout changed but no migration descriptor registered"
  | HRDG_SAVE_FLATTEN_FAILED =>
      cstr "pre-reload ctx flatten failed (BLYT_ERR_FLATTEN_UNSUPPORTED_TYPE)"
  end.

Definition body_text (old_line : Z) : list Z :=
  if 0 <? old_line then
    cstr "  body: cart.lua:" ++ dec (u32 old_line) ++ cstr " (old) -> cart.lua:??? (new)" ++ [10]
  else [].

Definition diagnostic_text (slot : Z) (func_name : option (list Z)) (old_line : Z)
    (reason : hot_reload_reason_t) : list Z :=
  cstr "hot_reload: failed to migrate slot " ++ dec (u32 slot) ++
  cstr " (persistent script)" ++ [10] ++
  body_text old_line ++ cstr "  reason: " ++ reason_text func_name reason ++ [10] ++
  cstr "  surfaced via: blyt32.on_hot_reload_failed(slot=" ++ dec (u32 slot) ++
  cstr ", reason=...)" ++ [10].

(** ** Lemmas *)

Section put.
Context (buf0 : list Z) (buf_cap : Z).
Hypothesis Hcap : 0 < buf_cap <= Z.of_nat (length buf0).

(** The buffer after the text [t]: as much of it as fits, and the old bytes. *)
Definition holds (t : list Z) (bp : list Z * Z) : Prop :=
  bp = (take (Z.to_nat (buf_cap - 1)) t ++
          drop (length (take (Z.to_nat (buf_cap - 1)) t)) buf0,
        Z.of_nat (length (take (Z.to_nat (buf_cap - 1)) t))).

Lemma holds_nil : holds [] (buf0, 0).
Proof. unfold holds. by rewrite take_nil. Qed.

Lemma emit_chars_holds cs t bp :
  holds t bp -> holds (t ++ cs) (emit_chars buf_cap cs bp).1.
Proof.
  revert t bp; induction cs as [|c cs IH]; intros t bp Hbp; cbn [emit_chars].
  { by rewrite app_nil_r. }
  unfold holds in Hbp. rewrite Hbp. set (n := Z.to_nat (buf_cap - 1)) in *.
  pose proof (length_take t n) as Hl.
  destruct (Z.leb_spec (buf_cap - 1) (Z.of_nat (length (take n t)))) as [Hfull|Hroom].
  - unfold holds. cbn [fst]. fold n. by rewrite take_app_le by lia.
  - rewrite (take_ge t) by lia. replace (t ++ c :: cs) with ((t ++ [c]) ++ cs) by by rewrite <-app_assoc.
    apply IH. unfold holds. fold n. rewrite (take_ge (t ++ [c])) by (rewrite length_app; simpl; lia).
    rewrite length_app, Nat2Z.id. f_equal; [|simpl; lia].
    rewrite insert_app_r_alt by lia. rewrite Nat.sub_diag, <-app_assoc. f_equal.
    destruct (drop (length t) buf0) as [|b rest] eqn:E.
    + apply (f_equal length) in E. rewrite length_drop in E. simpl in E. lia.
    + cbn [length]. assert (drop (length t + 1) buf0 = rest) as -> by (by rewrite <-drop_drop, E). done.
Qed.

Lemma put_lit_holds s t bp : holds t bp -> holds (t ++ cstr s) (put_lit buf_cap s bp).
Proof. apply emit_chars_holds. Qed.
Lemma put_str_holds s t bp : holds t bp -> holds (t ++ s) (put_str buf_cap s bp).
Proof. apply emit_chars_holds. Qed.
Lemma put_uint_holds v t bp : holds t bp -> holds (t ++ dec (u32 v)) (put_uint buf_cap v bp).
Proof. apply emit_chars_holds. Qed.

Lemma put_reason_holds f r t bp :
  holds t bp -> holds (t ++ reason_text f r ++ [10]) (put_reason buf_cap f r bp).
Proof.
  intros H. destruct r; cbn [put_reason reason_text]; rewrite <-?app_assoc;
    try (by apply put_str_holds); rewrite (app_assoc t), (app_assoc (t ++ _));
    by apply put_str_holds, put_str_holds, put_lit_holds.
Qed.

Lemma put_body_holds old_line t bp :
  holds t bp -> holds (t ++ body_text old_line) (put_body buf_cap old_line bp).
Proof.
  intros H. unfold put_body, body_text. destruct (0 <? old_line); [|by rewrite app_nil_r].
  rewrite (app_assoc t), (app_assoc (t ++ _)).
  by apply put_str_holds, put_uint_holds, put_lit_holds.
Qed.
End put.

(** the formatter under truncation.  For every buffer and every positive
    capacity within it, whatever the name, the slot and the line, the buffer
    holds the longest prefix of the full text that leaves room for the
    terminator, then the terminator, then its old bytes; the result is the
    prefix's length, below the capacity. *)
Theorem diagnostic_format_prefix buf buf_cap slot func_name old_line reason :
  0 < buf_cap <= Z.of_nat (length buf) ->
  let t := take (Z.to_nat (buf_cap - 1)) (diagnostic_text slot func_name old_line reason) in
  hot_reload_diagnostic_format buf buf_cap slot func_name old_line reason =
    (t ++ 0 :: drop (length t + 1) buf, Z.of_nat (length t)) /\
  Z.of_nat (length t) < buf_cap.
Proof.
  intros Hcap t. pose proof (length_take (diagnostic_text slot func_name old_line reason)
    (Z.to_nat (buf_cap - 1))) as Hl. fold t in Hl. split; [|lia].
  unfold hot_reload_diagnostic_format.
  match goal with |- (let '(b, p) := ?x in _) = _ => set (bp := x) end.
  assert (holds buf buf_cap (diagnostic_text slot func_name old_line reason) bp) as H.
  { pose proof (holds_nil buf buf_cap) as H.
    apply (put_lit_holds buf buf_cap Hcap "hot_reload: failed to migrate slot ") in H.
    apply (put_uint_holds buf buf_cap Hcap slot) in H.
    apply (put_str_holds buf buf_cap Hcap (cstr " (persistent script)" ++ [10])) in H.
    apply (put_body_holds buf buf_cap Hcap old_line) in H.
    apply (put_lit_holds buf buf_cap Hcap "  reason: ") in H.
    apply (put_reason_holds buf buf_cap Hcap func_name reason) in H.
    apply (put_lit_holds buf buf_cap Hcap "  surfaced via: blyt32.on_hot_reload_failed(slot=") in H.
    apply (put_uint_holds buf buf_cap Hcap slot) in H.
    apply (put_str_holds buf buf_cap Hcap (cstr ", reason=...)" ++ [10])) in H.
    unfold diagnostic_text. rewrite <-!app_assoc in H. exact H. }
  unfold holds in H. rewrite H. fold t.
  destruct (Z.ltb_spec (Z.of_nat (length t)) buf_cap); [|lia]. f_equal.
  rewrite Nat2Z.id, insert_app_r_alt by lia. rewrite Nat.sub_diag. f_equal.
  rewrite <-drop_drop. destruct (drop (length t) buf) as [|b rest] eqn:E; [|done].
  apply (f_equal length) in E. rewrite length_drop in E. simpl in E. lia.
Qed.

Lemma diagnostic_format_prefix_witness :
  let t := take 19 (diagnostic_text 3 (Some (cstr "boss")) 7 HRDG_FUNCTION_DELETED) in
  hot_reload_diagnostic_format (repeat 1 24) 20 3 (Some (cstr "boss")) 7 HRDG_FUNCTION_DELETED =
  (t ++ 0 :: drop (length t + 1) (repeat 1 24), 19) /\ t = cstr "hot_reload: failed ".
Proof.
  intros t. split; [|reflexivity].
  apply (diagnostic_format_prefix (repeat 1 24) 20 3 (Some (cstr "boss")) 7 HRDG_FUNCTION_DELETED).
  rewrite repeat_length. lia.
Defined.
