(* ===== verification/Sha256.v ===== *)
(** * SHA-256 as the standard states it

    FIPS 180-4, independently of the program: the constants are the first 32 bits of
    the fractional parts of the cube and square roots of the first primes (4.2.2,
    5.3.3), the six functions are those of 4.1.2, and padding, parsing, message
    schedule and rounds are those of 5.1.1, 5.2.1 and 6.2.2.  [Packer] proves that the
    packer's implementation computes it. *)

From S2P Require Import Prelude.
Open Scope Z_scope.

(** ** Words and functions (2.2.2, 4.1.2) *)

(** Addition of words is modulo [2 ^ 32]. *)
Definition modulus : Z := 4294967296.
Definition plus (l : list Z) : Z := fold_right Z.add 0 l mod modulus.

(** Circular right shift: the low [n] bits become the high ones. *)
Definition rotr (n x : Z) : Z := x / 2 ^ n + (x mod 2 ^ n) * 2 ^ (32 - n).
Definition shr (n x : Z) : Z := x / 2 ^ n.
Definition complement (x : Z) : Z := modulus - 1 - x.

Definition Ch (x y z : Z) : Z := Z.lxor (Z.land x y) (Z.land (complement x) z).
Definition Maj (x y z : Z) : Z := Z.lxor (Z.lxor (Z.land x y) (Z.land x z)) (Z.land y z).
Definition Sigma_0 (x : Z) : Z := Z.lxor (Z.lxor (rotr 2 x) (rotr 13 x)) (rotr 22 x).
Definition Sigma_1 (x : Z) : Z := Z.lxor (Z.lxor (rotr 6 x) (rotr 11 x)) (rotr 25 x).
Definition sigma_0 (x : Z) : Z := Z.lxor (Z.lxor (rotr 7 x) (rotr 18 x)) (shr 3 x).
Definition sigma_1 (x : Z) : Z := Z.lxor (Z.lxor (rotr 17 x) (rotr 19 x)) (shr 10 x).

(** ** Constants (4.2.2, 5.3.3) *)

Definition is_prime (n : nat) : bool :=
  forallb (fun d => negb (n mod d =? 0)%nat) (seq 2 (n - 2)).

(** The first 64 primes; the last is 311. *)
Definition primes : list Z := map Z.of_nat (List.filter is_prime (seq 2 310)).

(** The whole part of the cube root, by bisection of [lo .. lo + 2 ^ n). *)
Fixpoint cube_root (n : nat) (lo x : Z) : Z :=
  match n with
  | O => lo
  | S n => let mid := lo + 2 ^ Z.of_nat n in cube_root n (if mid ^ 3 <=? x then mid else lo) x
  end.

(** [floor (2 ^ 32 * frac (cbrt p))] and [floor (2 ^ 32 * frac (sqrt p))]. *)
Definition K : list Z := map (fun p => cube_root 40 0 (p * 2 ^ 96) mod modulus) primes.
Definition H0 : list Z := map (fun p => Z.sqrt (p * 2 ^ 64) mod modulus) (take 8 primes).

(** ** Padding and parsing (5.1.1, 5.2.1) *)

(** The length in bits, in eight bytes, most significant first. *)
Definition length_field (n : nat) : list Z :=
  map (fun k => (8 * Z.of_nat n / 256 ^ k) mod 256) [7; 6; 5; 4; 3; 2; 1; 0].

(** A one bit, the fewest zeros that leave room for the length. *)
Definition padded (msg : list Z) : list Z :=
  msg ++ [0x80] ++ repeat 0 (Z.to_nat ((55 - Z.of_nat (length msg)) mod 64)) ++ length_field (length msg).

(** The bytes of a block as words, most significant byte first. *)
Fixpoint parse (block : list Z) : list Z :=
  match block with
  | b0 :: b1 :: b2 :: b3 :: block => b0 * 2 ^ 24 + b1 * 2 ^ 16 + b2 * 2 ^ 8 + b3 :: parse block
  | _ => []
  end.

(** ** Hash computation (6.2.2) *)

(** [W_0 .. W_(n - 1)] of the message words [m]. *)
Fixpoint schedule (m : list Z) (n : nat) : list Z :=
  match n with
  | O => []
  | S t =>
      let w := schedule m t in
      let W i := nth i w 0 in
      w ++ [if (t <? 16)%nat then nth t m 0
            else plus [sigma_1 (W (t - 2)%nat); W (t - 7)%nat; sigma_0 (W (t - 15)%nat); W (t - 16)%nat]]
  end.

(** The working variables. *)
Record variables := Variables { a_ : Z; b_ : Z; c_ : Z; d_ : Z; e_ : Z; f_ : Z; g_ : Z; h_ : Z }.

Definition round (v : variables) (kw : Z * Z) : variables :=
  let T1 := plus [h_ v; Sigma_1 (e_ v); Ch (e_ v) (f_ v) (g_ v); fst kw; snd kw] in
  let T2 := plus [Sigma_0 (a_ v); Maj (a_ v) (b_ v) (c_ v)] in
  Variables (plus [T1; T2]) (a_ v) (b_ v) (c_ v) (plus [d_ v; T1]) (e_ v) (f_ v) (g_ v).

Definition variables_of (H : list Z) : variables :=
  let h i := nth i H 0 in
  Variables (h 0%nat) (h 1%nat) (h 2%nat) (h 3%nat) (h 4%nat) (h 5%nat) (h 6%nat) (h 7%nat).

Definition values (v : variables) : list Z := [a_ v; b_ v; c_ v; d_ v; e_ v; f_ v; g_ v; h_ v].

(** The intermediate hash after a block. *)
Definition next_hash (H block : list Z) : list Z :=
  let v := fold_left round (zip K (schedule (parse block) 64)) (variables_of H) in
  zip_with (fun x y => plus [x; y]) (values v) H.

Fixpoint hash_blocks (n : nat) (H d : list Z) : list Z :=
  match n with
  | O => H
  | S n => hash_blocks n (next_hash H (take 64 d)) (drop 64 d)
  end.

Definition word_octets (w : Z) : list Z := [w / 2 ^ 24; (w / 2 ^ 16) mod 256; (w / 2 ^ 8) mod 256; w mod 256].

Definition sha256 (msg : list Z) : list Z :=
  concat (map word_octets (hash_blocks (length (padded msg) / 64) H0 (padded msg))).

(** ** Ranges *)

Definition word (x : Z) : Prop := 0 <= x < modulus.

Lemma plus_word l : word (plus l).
Proof. apply Z.mod_pos_bound. done. Qed.

Lemma K_words : Forall word K /\ length K = 64%nat.
Proof.
  assert (forallb (fun x => (0 <=? x) && (x <? modulus)) K = true /\ length K = 64%nat) as [H ?]
    by (split; vm_compute; reflexivity).
  split; [|done]. rewrite forallb_forall in H. apply Forall_forall. intros x Hx%list_elem_of_In.
  apply H, andb_prop in Hx as [?%Z.leb_le ?%Z.ltb_lt]. done.
Qed.

Lemma H0_words : Forall word H0 /\ length H0 = 8%nat.
Proof.
  assert (forallb (fun x => (0 <=? x) && (x <? modulus)) H0 = true /\ length H0 = 8%nat) as [H ?]
    by (split; vm_compute; reflexivity).
  split; [|done]. rewrite forallb_forall in H. apply Forall_forall. intros x Hx%list_elem_of_In.
  apply H, andb_prop in Hx as [?%Z.leb_le ?%Z.ltb_lt]. done.
Qed.

Lemma length_parse n block : length block = (4 * n)%nat -> length (parse block) = n.
Proof.
  revert block. induction n as [|n IH]; intros block H; [by destruct block|].
  destruct block as [|b0 [|b1 [|b2 [|b3 block]]]]; cbn in H; try lia. cbn [parse length].
  rewrite IH; lia.
Qed.

Lemma parse_words block : bytes block -> Forall word (parse block).
Proof.
  assert (forall n block, (length block <= n)%nat -> bytes block -> Forall word (parse block)) as H.
  { induction n as [|n IH]; intros bl Hl Hb.
    { destruct bl; [constructor|cbn in Hl; lia]. }
    destruct bl as [|b0 [|b1 [|b2 [|b3 bl]]]]; try constructor.
    - inversion_clear Hb as [|? ? H0 Hb1]. inversion_clear Hb1 as [|? ? H1 Hb2]. inversion_clear Hb2 as [|? ? H2 Hb3].
      inversion_clear Hb3 as [|? ? H3 Hb4]. unfold word, modulus, is_byte in *. lia.
    - apply IH; [cbn in Hl; lia|]. by do 4 apply Forall_inv_tail in Hb. }
  by eapply H.
Qed.

Lemma length_schedule m n : length (schedule m n) = n.
Proof. induction n as [|n IH]; [done|]. cbn [schedule]. rewrite length_app, IH. cbn. lia. Qed.

(** Later words leave the earlier ones alone. *)
Lemma schedule_take m n k : (n <= k)%nat -> take n (schedule m k) = schedule m n.
Proof.
  induction 1 as [|k Hk IH]; [by rewrite take_ge by (rewrite length_schedule; lia)|].
  cbn [schedule]. by rewrite take_app_le by (rewrite length_schedule; lia).
Qed.

Lemma schedule_short m n : (n <= 16)%nat -> (n <= length m)%nat -> schedule m n = take n m.
Proof.
  induction n as [|n IH]; intros Hn Hm; [done|]. cbn [schedule]. rewrite IH by lia.
  rewrite (proj2 (Nat.ltb_lt n 16)) by lia.
  destruct (lookup_lt_is_Some_2 m n) as [x Hx]; [lia|].
  by rewrite (take_S_r m n x Hx), (nth_lookup m n 0), Hx.
Qed.

Lemma schedule_words m n : Forall word m -> Forall word (schedule m n).
Proof.
  intros Hm. induction n as [|n IH]; [constructor|]. cbn [schedule]. apply Forall_app. split; [done|].
  apply Forall_singleton. destruct (n <? 16)%nat; [|apply plus_word].
  rewrite nth_lookup. destruct (m !! n) as [x|] eqn:E; [|done]. by eapply Forall_lookup_1 in E.
Qed.

Lemma length_next_hash H block : length H = 8%nat -> length (next_hash H block) = 8%nat.
Proof. intros E. unfold next_hash. rewrite length_zip_with, E. reflexivity. Qed.

Lemma next_hash_words H block : Forall word (next_hash H block).
Proof.
  unfold next_hash. apply Forall_forall. intros x Hx. apply list_elem_of_lookup in Hx as [i Hi].
  apply lookup_zip_with_Some in Hi as (? & ? & -> & _). apply plus_word.
Qed.

Lemma length_hash_blocks n H d : length H = 8%nat -> length (hash_blocks n H d) = 8%nat.
Proof. revert H d. induction n as [|n IH]; intros H d E; [done|]. by apply IH, length_next_hash. Qed.

Lemma length_sha256 msg : length (sha256 msg) = 32%nat.
Proof.
  unfold sha256. set (ws := hash_blocks _ _ _).
  assert (length ws = 8%nat) as Hl by (apply length_hash_blocks, H0_words).
  assert (forall ws, length (concat (map word_octets ws)) = (4 * length ws)%nat) as ->.
  { clear. intros ws. induction ws as [|w ws IH]; [done|]. cbn [map concat]. rewrite length_app, IH. cbn. lia. }
  by rewrite Hl.
Qed.

(** The test vector of the standard's appendix. *)
Example sha256_abc :
  sha256 [97; 98; 99] =
  [0xba; 0x78; 0x16; 0xbf; 0x8f; 0x01; 0xcf; 0xea; 0x41; 0x41; 0x40; 0xde; 0x5d; 0xae; 0x22; 0x23;
   0xb0; 0x03; 0x61; 0xa3; 0x96; 0x17; 0x7a; 0x9c; 0xb4; 0x10; 0xff; 0x61; 0xf2; 0x00; 0x15; 0xad].
Proof. vm_compute. reflexivity. Qed.
