(* ===== verification/Packer.v ===== *)
(** * The stub packer (spikes/spike-n/harness/stub_packer.c)

    SHA-256 over a file read in pieces, the state file with one line per source,
    and the decision to rebuild.  A file is the list of its bytes, and text files
    hold no NUL; the clock, the compilers and the build socket are what the run is
    given and what it reports. *)

From stdpp Require Import gmap.
From S2P Require Import Prelude HostString.
From S2P Require Sha256.
Open Scope Z_scope.

(** ** SHA-256 *)

(** The table, one row per line of the source. *)
Definition sha256_K : list Z := concat [
  [0x428a2f98; 0x71374491; 0xb5c0fbcf; 0xe9b5dba5];
  [0x3956c25b; 0x59f111f1; 0x923f82a4; 0xab1c5ed5];
  [0xd807aa98; 0x12835b01; 0x243185be; 0x550c7dc3];
  [0x72be5d74; 0x80deb1fe; 0x9bdc06a7; 0xc19bf174];
  [0xe49b69c1; 0xefbe4786; 0x0fc19dc6; 0x240ca1cc];
  [0x2de92c6f; 0x4a7484aa; 0x5cb0a9dc; 0x76f988da];
  [0x983e5152; 0xa831c66d; 0xb00327c8; 0xbf597fc7];
  [0xc6e00bf3; 0xd5a79147; 0x06ca6351; 0x14292967];
  [0x27b70a85; 0x2e1b2138; 0x4d2c6dfc; 0x53380d13];
  [0x650a7354; 0x766a0abb; 0x81c2c92e; 0x92722c85];
  [0xa2bfe8a1; 0xa81a664b; 0xc24b8b70; 0xc76c51a3];
  [0xd192e819; 0xd6990624; 0xf40e3585; 0x106aa070];
  [0x19a4c116; 0x1e376c08; 0x2748774c; 0x34b0bcb5];
  [0x391c0cb3; 0x4ed8aa4a; 0x5b9cca4f; 0x682e6ff3];
  [0x748f82ee; 0x78a5636f; 0x84c87814; 0x8cc70208];
  [0x90befffa; 0xa4506ceb; 0xbef9a3f7; 0xc67178f2]].

Definition ROTR32 (x n : Z) : Z := Z.lor (x ≫ n) (u32 (x ≪ (32 - n))).
Definition SHR (x n : Z) : Z := x ≫ n.
Definition CH (e f g : Z) : Z := Z.lxor (Z.land e f) (Z.land (u32 (Z.lnot e)) g).
Definition MAJ (a b c : Z) : Z := Z.lxor (Z.lxor (Z.land a b) (Z.land a c)) (Z.land b c).
Definition EP0 (a : Z) : Z := Z.lxor (Z.lxor (ROTR32 a 2) (ROTR32 a 13)) (ROTR32 a 22).
Definition EP1 (e : Z) : Z := Z.lxor (Z.lxor (ROTR32 e 6) (ROTR32 e 11)) (ROTR32 e 25).
Definition SIG0 (x : Z) : Z := Z.lxor (Z.lxor (ROTR32 x 7) (ROTR32 x 18)) (SHR x 3).
Definition SIG1 (x : Z) : Z := Z.lxor (Z.lxor (ROTR32 x 17) (ROTR32 x 19)) (SHR x 10).

Record sha256_ctx_t := Ctx { data : list Z; datalen : Z; bitlen : Z; state : list Z }.

Definition at_ (m : list Z) (i : nat) : Z := nth i m 0.

(** [m[0..15]]: the words of a block, most significant byte first. *)
Fixpoint words (n : nat) (d : list Z) : list Z :=
  match n, d with
  | S n, b0 :: b1 :: b2 :: b3 :: d =>
      u32 (Z.lor (Z.lor (Z.lor (b0 ≪ 24) (b1 ≪ 16)) (b2 ≪ 8)) b3) :: words n d
  | _, _ => []
  end.

(** [for (; i < 64; i++)]: [n] words more. *)
Fixpoint extend (n : nat) (m : list Z) : list Z :=
  match n with
  | O => m
  | S n =>
      let i := length m in
      extend n (m ++ [u32 (SIG1 (at_ m (i - 2)) + at_ m (i - 7) + SIG0 (at_ m (i - 15)) + at_ m (i - 16))])
  end.

(** The 64 rounds on the registers a to h. *)
Fixpoint rounds (kms : list (Z * Z)) (v : list Z) : list Z :=
  match kms, v with
  | (ki, mi) :: kms, [a; b; c; d; e; f; g; h] =>
      let t1 := u32 (h + EP1 e + CH e f g + ki + mi) in
      let t2 := u32 (EP0 a + MAJ a b c) in
      rounds kms [u32 (t1 + t2); a; b; c; u32 (d + t1); e; f; g]
  | _, _ => v
  end.

(** [sha256_transform]: the new chaining state. *)
Definition compress (st d : list Z) : list Z :=
  let m := extend 48 (words 16 d) in
  zip_with (fun x y => u32 (x + y)) st (rounds (zip sha256_K m) st).

Definition sha256_transform (ctx : sha256_ctx_t) (d : list Z) : sha256_ctx_t :=
  Ctx (data ctx) (datalen ctx) (bitlen ctx) (compress (state ctx) d).

Definition sha256_iv : list Z :=
  [0x6a09e667; 0xbb67ae85; 0x3c6ef372; 0xa54ff53a; 0x510e527f; 0x9b05688c; 0x1f83d9ab; 0x5be0cd19].

(** [junk]: what the block holds before it is written. *)
Definition sha256_init (junk : list Z) : sha256_ctx_t := Ctx junk 0 0 sha256_iv.

Definition put (d : list Z) (i v : Z) : list Z := <[Z.to_nat i := v]> d.

Definition sha256_byte (ctx : sha256_ctx_t) (b : Z) : sha256_ctx_t :=
  let ctx := Ctx (put (data ctx) (datalen ctx) b) (u32 (datalen ctx + 1)) (bitlen ctx) (state ctx) in
  if datalen ctx =? 64 then
    let ctx := sha256_transform ctx (data ctx) in
    Ctx (data ctx) 0 (u64 (bitlen ctx + 512)) (state ctx)
  else ctx.

Definition sha256_update (ctx : sha256_ctx_t) (d : list Z) : sha256_ctx_t := fold_left sha256_byte d ctx.

(** [while (i < to) data[i++] = 0] *)
Fixpoint clear_to (n : nat) (d : list Z) (i : Z) : list Z :=
  match n with O => d | S n => clear_to n (put d i 0) (i + 1) end.

(** The bytes 56 to 63. *)
Definition put_length (d : list Z) (bits : Z) : list Z :=
  take 56 d ++ map (fun s => u8 (bits ≫ s)) [56; 48; 40; 32; 24; 16; 8; 0].

Definition word_bytes (w : Z) : list Z := map (fun s => Z.land (w ≫ s) 0xff) [24; 16; 8; 0].

Definition sha256_final (ctx : sha256_ctx_t) : list Z :=
  let i := datalen ctx in
  let ctx :=
    if i <? 56 then
      Ctx (clear_to (Z.to_nat (56 - (i + 1))) (put (data ctx) i 0x80) (i + 1)) (datalen ctx) (bitlen ctx) (state ctx)
    else
      let d := clear_to (Z.to_nat (64 - (i + 1))) (put (data ctx) i 0x80) (i + 1) in
      let ctx := sha256_transform (Ctx d (datalen ctx) (bitlen ctx) (state ctx)) d in
      Ctx (repeat 0 56 ++ drop 56 (data ctx)) (datalen ctx) (bitlen ctx) (state ctx) in
  let bits := u64 (bitlen ctx + u32 (datalen ctx * 8)) in
  let d := put_length (data ctx) bits in
  concat (map word_bytes (state (sha256_transform ctx d))).

Definition HASH_LEN : nat := 64.

Definition hash_hex (hash : list Z) : list Z :=
  concat (map (fun b => [hex_digit_of (Z.land (b ≫ 4) 0xf); hex_digit_of (Z.land b 0xf)]) hash).

(** [chunks]: what [fread] delivers, piece by piece; [None]: the file does not open. *)
Definition sha256_file_hex (junk : list Z) (chunks : option (list (list Z))) : list Z :=
  match chunks with
  | None => repeat 48 HASH_LEN
  | Some chunks => hash_hex (sha256_final (fold_left sha256_update chunks (sha256_init junk)))
  end.

(** ** The blocks of the padded message, one after the other *)

Abbreviation padded := Sha256.padded.
Abbreviation length_field := Sha256.length_field.

Fixpoint absorb (n : nat) (st d : list Z) : list Z :=
  match n with
  | O => st
  | S n => absorb n (compress st (take 64 d)) (drop 64 d)
  end.

Definition absorbed (msg : list Z) : list Z :=
  concat (map word_bytes (absorb (length (padded msg) / 64) sha256_iv (padded msg))).

Lemma absorb_app n m st d1 d2 :
  length d1 = (64 * n)%nat -> absorb (n + m) st (d1 ++ d2) = absorb m (absorb n st d1) d2.
Proof.
  revert st d1. induction n as [|n IH]; intros st d1 H.
  - by destruct d1.
  - cbn [Nat.add absorb]. rewrite take_app_le, drop_app_le by lia. apply IH. rewrite length_drop. lia.
Qed.

Lemma absorb_one st d : length d = 64%nat -> absorb 1 st d = compress st d.
Proof. intros H. cbn [absorb]. by rewrite take_ge by lia. Qed.

(** [msg] has been read: whole blocks are absorbed, the rest waits in the buffer. *)
Record reads (msg : list Z) (ctx : sha256_ctx_t) (n : nat) (pre part : list Z) : Prop := Reads {
  reads_split : msg = pre ++ part;
  reads_pre : length pre = (64 * n)%nat;
  reads_part : (length part < 64)%nat;
  reads_datalen : datalen ctx = Z.of_nat (length part);
  reads_room : length (data ctx) = 64%nat;
  reads_data : take (length part) (data ctx) = part;
  reads_bits : bitlen ctx = u64 (512 * Z.of_nat n);
  reads_state : state ctx = absorb n sha256_iv pre;
}.

Definition has_read (msg : list Z) (ctx : sha256_ctx_t) : Prop := exists n pre part, reads msg ctx n pre part.

Lemma init_reads junk : length junk = 64%nat -> has_read [] (sha256_init junk).
Proof. intros H. exists O, [], []. constructor; cbn; try done; lia. Qed.

Lemma put_next d (k : nat) v :
  (k < length d)%nat -> put d (Z.of_nat k) v = take k d ++ v :: drop (S k) d.
Proof. intros H. unfold put. rewrite Nat2Z.id. by apply insert_take_drop. Qed.

Lemma byte_reads msg ctx b : has_read msg ctx -> has_read (msg ++ [b]) (sha256_byte ctx b).
Proof.
  intros (n & pre & part & []). unfold sha256_byte. cbn [data datalen bitlen state].
  rewrite reads_datalen0, put_next, reads_data0 by lia.
  rewrite (wrap_small 32) by lia.
  destruct (Z.eqb_spec (Z.of_nat (length part) + 1) 64) as [E|E].
  - assert (drop (S (length part)) (data ctx) = []) as -> by (apply drop_ge; lia).
    assert (length (part ++ [b]) = 64%nat) as L by (rewrite length_app; cbn; lia).
    exists (S n), (pre ++ part ++ [b]), []. unfold sha256_transform. cbn [data datalen bitlen state].
    constructor; cbn [data datalen bitlen state]; try done.
    + by rewrite app_nil_r, reads_split0, (assoc app).
    + rewrite length_app. lia.
    + cbn. lia.
    + rewrite reads_bits0, wrap_add_l. f_equal. lia.
    + rewrite reads_state0, <-Nat.add_1_r, absorb_app by done. by rewrite absorb_one.
  - exists n, pre, (part ++ [b]). constructor; cbn [data datalen bitlen state]; try done.
    + by rewrite reads_split0, (assoc app).
    + rewrite length_app. cbn. lia.
    + rewrite length_app. cbn. lia.
    + rewrite length_app. cbn [length]. rewrite length_drop. lia.
    + rewrite (cons_middle b part (drop _ _)), (assoc app), take_app_le by lia. by apply take_ge.
Qed.

Lemma update_reads msg ctx d : has_read msg ctx -> has_read (msg ++ d) (sha256_update ctx d).
Proof.
  unfold sha256_update. revert msg ctx. induction d as [|b d IH]; intros msg ctx H; [by rewrite app_nil_r|].
  rewrite cons_middle, (assoc app). cbn [fold_left]. by apply IH, byte_reads.
Qed.

Lemma updates_read chunks msg ctx :
  has_read msg ctx -> has_read (msg ++ concat chunks) (fold_left sha256_update chunks ctx).
Proof.
  revert msg ctx. induction chunks as [|d chunks IH]; intros msg ctx H; [by rewrite app_nil_r|].
  cbn [concat fold_left]. rewrite (assoc app). by apply IH, update_reads.
Qed.

Lemma clear_to_eq n d (i : nat) :
  (i + n <= length d)%nat -> clear_to n d (Z.of_nat i) = take i d ++ repeat 0 n ++ drop (i + n) d.
Proof.
  revert d i. induction n as [|n IH]; intros d i H; cbn [clear_to].
  - rewrite Nat.add_0_r. symmetry. apply take_drop.
  - rewrite put_next by lia. replace (Z.of_nat i + 1) with (Z.of_nat (S i)) by lia.
    rewrite cons_middle, (assoc app).
    assert (length (take i d ++ [0]) = S i) as L by (rewrite length_app, length_take; cbn; lia).
    rewrite IH by (rewrite length_app, L, length_drop; lia).
    rewrite take_app_le, take_ge, drop_app_ge, drop_drop by lia.
    cbn [repeat]. rewrite <-(assoc app). cbn [app]. do 4 f_equal. lia.
Qed.

Lemma put_length_spec d (n : nat) bits :
  bits = u64 (8 * Z.of_nat n) -> put_length d bits = take 56 d ++ length_field n.
Proof.
  intros ->. unfold put_length, Sha256.length_field. f_equal. cbn [map].
  assert (forall s k, s = 8 * k -> 0 <= k <= 7 ->
    u8 (u64 (8 * Z.of_nat n) ≫ s) = (8 * Z.of_nat n / 256 ^ k) mod 256) as E.
  { intros s k -> Hk. replace (256 ^ k) with (2 ^ (8 * k)) by (rewrite Z.pow_mul_r; [done|lia|lia]).
    apply Z.bits_inj'. intros i Hi. change 256 with (2 ^ 8). unfold u8, u64, wrap.
    destruct (Z.ltb_spec i 8).
    - rewrite !Z.mod_pow2_bits_low, Z.shiftr_spec, Z.mod_pow2_bits_low, Z.div_pow2_bits by lia. done.
    - by rewrite !Z.mod_pow2_bits_high by lia. }
  by rewrite !(E _ 7), !(E _ 6), !(E _ 5), !(E _ 4), !(E _ 3), !(E _ 2), !(E _ 1), !(E _ 0) by lia.
Qed.

Lemma spec_blocks msg n pre rest :
  padded msg = pre ++ rest -> length pre = (64 * n)%nat ->
  forall m, length rest = (64 * m)%nat ->
  absorbed msg = concat (map word_bytes (absorb m (absorb n sha256_iv pre) rest)).
Proof.
  intros E Hp m Hr. unfold absorbed. rewrite E, length_app, Hp, Hr.
  replace (64 * n + 64 * m)%nat with ((n + m) * 64)%nat by lia. rewrite Nat.div_mul by lia.
  by rewrite absorb_app.
Qed.

Lemma padding_zeros (n p : nat) : (p < 64)%nat ->
  Z.to_nat ((55 - Z.of_nat (64 * n + p)) mod 64) = if (p <? 56)%nat then (55 - p)%nat else (119 - p)%nat.
Proof.
  intros H. destruct (Nat.ltb_spec p 56).
  - replace (55 - Z.of_nat (64 * n + p)) with (55 - Z.of_nat p + - Z.of_nat n * 64) by lia.
    rewrite Z.mod_add, Z.mod_small by lia. lia.
  - replace (55 - Z.of_nat (64 * n + p)) with (119 - Z.of_nat p + (- Z.of_nat n - 1) * 64) by lia.
    rewrite Z.mod_add, Z.mod_small by lia. lia.
Qed.

(** The byte that follows the message, and the zeros up to [stop]. *)
Lemma close_block part d (stop : nat) :
  take (length part) d = part -> (length part < stop)%nat -> (stop <= length d)%nat ->
  clear_to (Z.to_nat (Z.of_nat stop - (Z.of_nat (length part) + 1))) (put d (Z.of_nat (length part)) 0x80)
    (Z.of_nat (length part) + 1)
  = part ++ [0x80] ++ repeat 0 (stop - 1 - length part) ++ drop stop d.
Proof.
  intros Ht Hp Hs. rewrite put_next, Ht, (cons_middle _ part), (assoc app) by lia.
  assert (length (part ++ [0x80]) = S (length part)) as L by (rewrite length_app; cbn; lia).
  replace (Z.of_nat (length part) + 1) with (Z.of_nat (S (length part))) by lia.
  rewrite clear_to_eq by (rewrite length_app, L, length_drop; lia).
  rewrite take_app_le, take_ge, drop_app_ge, drop_drop, L, <-(assoc app) by lia.
  do 3 f_equal; [f_equal; lia|]. f_equal. lia.
Qed.

Lemma final_spec msg ctx : has_read msg ctx -> sha256_final ctx = absorbed msg.
Proof.
  intros (n & pre & part & []).
  assert (length msg = (64 * n + length part)%nat) as Hl by (rewrite reads_split0, length_app; lia).
  assert (u64 (bitlen ctx + u32 (datalen ctx * 8)) = u64 (8 * Z.of_nat (length msg))) as Hb.
  { rewrite reads_bits0, reads_datalen0, wrap_add_l, Hl, (wrap_small 32) by lia. f_equal. lia. }
  assert (length (length_field (length msg)) = 8%nat) as Hf by done.
  pose proof (padding_zeros n (length part) reads_part0) as Hz. rewrite <-Hl in Hz.
  unfold sha256_final, sha256_transform. cbn [data datalen bitlen state].
  destruct (Z.ltb_spec (datalen ctx) 56) as [H|H]; cbn [data datalen bitlen state];
    rewrite (put_length_spec _ (length msg)) by done; rewrite reads_datalen0 in *.
  - rewrite (proj2 (Nat.ltb_lt _ _)) in Hz by lia.
    pose proof (close_block part (data ctx) 56) as Hc. change (Z.of_nat 56) with 56 in Hc.
    rewrite Hc by (done || lia).
    rewrite !(assoc app), take_app_le, take_ge by (rewrite !length_app, repeat_length; cbn; lia).
    rewrite (spec_blocks msg n pre (part ++ [0x80] ++ repeat 0 (55 - length part) ++ length_field (length msg)))
      with (m := 1%nat).
    + by rewrite absorb_one, reads_state0, !(assoc app) by (rewrite !length_app, repeat_length, Hf; cbn; lia).
    + unfold Sha256.padded. rewrite Hz. rewrite reads_split0 at 1. by rewrite <-(assoc app).
    + done.
    + rewrite !length_app, repeat_length, Hf. cbn. lia.
  - rewrite (proj2 (Nat.ltb_ge _ _)) in Hz by lia.
    pose proof (close_block part (data ctx) 64) as Hc. change (Z.of_nat 64) with 64 in Hc.
    rewrite Hc, (drop_ge (data ctx)), app_nil_r by (done || lia).
    rewrite take_app_le, take_ge by (rewrite repeat_length; lia).
    set (last := part ++ [0x80] ++ repeat 0 (64 - 1 - length part)).
    assert (length last = 64%nat) as Hlast by (unfold last; rewrite !length_app, repeat_length; cbn; lia).
    rewrite (spec_blocks msg n pre (last ++ repeat 0 56 ++ length_field (length msg))) with (m := 2%nat).
    + change 2%nat with (1 + 1)%nat. rewrite absorb_app, !absorb_one, reads_state0 by done. done.
    + unfold Sha256.padded, last. rewrite Hz. rewrite reads_split0 at 1. rewrite <-!(assoc app). do 3 f_equal.
      rewrite (assoc app), <-repeat_app. do 2 f_equal. lia.
    + done.
    + rewrite !length_app, repeat_length, Hlast, Hf. lia.
Qed.

(** The rotation is one: bit [i] of the result is bit [i + n] of the word, modulo 32. *)
Lemma rotr32_bits x n i :
  0 <= x < 2 ^ 32 -> 0 < n < 32 -> 0 <= i < 32 ->
  Z.testbit (ROTR32 x n) i = Z.testbit x ((i + n) mod 32).
Proof.
  intros Hx Hn Hi. unfold ROTR32, u32, wrap.
  rewrite Z.lor_spec, Z.shiftr_spec, Z.mod_pow2_bits_low, Z.shiftl_spec by lia.
  destruct (Z.ltb_spec (i + n) 32).
  - rewrite (Z.mod_small (i + n)) by lia.
    rewrite (Z.testbit_neg_r x (i - (32 - n))) by lia. apply orb_false_r.
  - rewrite (testbit_high x 32 (i + n)) by lia. cbn [orb]. f_equal.
    symmetry. rewrite <-(Z.mod_unique_pos (i + n) 32 1 (i - (32 - n))) by lia. done.
Qed.

(** ** The digest's text *)

Definition is_hex (c : Z) : Prop := 48 <= c <= 57 \/ 97 <= c <= 102.

Lemma length_rounds kms v : length v = 8%nat -> length (rounds kms v) = 8%nat.
Proof.
  revert v. induction kms as [|[ki mi] kms IH]; intros v H; [done|].
  destruct v as [|a [|b [|c [|d [|e [|f [|g [|h [|]]]]]]]]]; try done. by apply IH.
Qed.

Lemma length_compress st d : length st = 8%nat -> length (compress st d) = 8%nat.
Proof. intros H. unfold compress. rewrite length_zip_with, length_rounds; lia. Qed.

Lemma length_absorb n st d : length st = 8%nat -> length (absorb n st d) = 8%nat.
Proof. revert st d. induction n as [|n IH]; intros st d H; [done|]. by apply IH, length_compress. Qed.

Lemma length_word_bytes ws : length (concat (map word_bytes ws)) = (4 * length ws)%nat.
Proof. induction ws as [|w ws IH]; [done|]. cbn [map concat]. rewrite length_app, IH. cbn. lia. Qed.

Lemma length_absorbed msg : length (absorbed msg) = 32%nat.
Proof. unfold absorbed. by rewrite length_word_bytes, length_absorb. Qed.

Lemma hex_digit_hex n : 0 <= n < 16 -> is_hex (hex_digit_of n).
Proof. intros H. unfold hex_digit_of, is_hex. zcase. Qed.

Lemma hash_hex_text hash : Forall is_hex (hash_hex hash) /\ length (hash_hex hash) = (2 * length hash)%nat.
Proof.
  unfold hash_hex. induction hash as [|b hash [IH Hl]]; [by split|]. cbn [map concat app length].
  rewrite Hl. split; [|lia].
  constructor; [|constructor; [|done]]; rewrite land_f; apply hex_digit_hex; apply Z.mod_pos_bound; lia.
Qed.

Lemma file_hex_text junk chunks :
  length junk = 64%nat ->
  Forall is_hex (sha256_file_hex junk chunks) /\ length (sha256_file_hex junk chunks) = 64%nat.
Proof.
  intros Hj. destruct chunks as [chunks|]; cbn [sha256_file_hex].
  - rewrite (final_spec (concat chunks)) by (apply (updates_read chunks []), init_reads, Hj).
    destruct (hash_hex_text (absorbed (concat chunks))) as [H Hl]. by rewrite length_absorbed in Hl.
  - split; [|by rewrite repeat_length]. unfold HASH_LEN. apply Forall_forall. intros c Hc.
    apply list_elem_of_In, repeat_spec in Hc as ->. left. lia.
Qed.

(** ** The compression function is the standard's *)

Lemma lor_shifted a b k : 0 <= k -> 0 <= a < 2 ^ k -> Z.lor a (b * 2 ^ k) = a + b * 2 ^ k.
Proof.
  intros Hk Ha. rewrite <-Z.add_lor_land.
  replace (Z.land a (b * 2 ^ k)) with 0; [by rewrite Z.add_0_r|]. symmetry. apply Z.bits_inj'. intros i Hi.
  rewrite Z.land_spec, Z.bits_0. destruct (Z.ltb_spec i k).
  - by rewrite Z.mul_pow2_bits_low, andb_false_r.
  - by rewrite (testbit_high a k) by lia.
Qed.

Lemma rotr_spec n x : 0 < n < 32 -> Sha256.word x -> ROTR32 x n = Sha256.rotr n x.
Proof.
  unfold Sha256.word, Sha256.modulus. intros Hn Hx. unfold ROTR32, Sha256.rotr, wrap.
  assert (2 ^ n * 2 ^ (32 - n) = 2 ^ 32) as E by (rewrite <-Z.pow_add_r by lia; f_equal; lia).
  rewrite Z.shiftr_div_pow2, Z.shiftl_mul_pow2, <-E, Z.mul_mod_distr_r by lia.
  apply lor_shifted; [lia|].
  split; [apply Z.div_pos; lia|]. apply Z.div_lt_upper_bound; [lia|]. rewrite E. apply Hx.
Qed.

Lemma shr_spec n x : 0 <= n -> SHR x n = Sha256.shr n x.
Proof. intros Hn. by apply Z.shiftr_div_pow2. Qed.

Lemma CH_spec e f g : Sha256.word e -> CH e f g = Sha256.Ch e f g.
Proof.
  unfold Sha256.word. intros He. unfold CH, Sha256.Ch. f_equal. f_equal. unfold Sha256.complement, wrap.
  change (2 ^ 32) with Sha256.modulus. symmetry.
  apply (Z.mod_unique_pos _ _ (-1)); unfold Sha256.modulus, Z.lnot in *; lia.
Qed.

Ltac functions_spec :=
  intros; unfold EP0, EP1, SIG0, SIG1, Sha256.Sigma_0, Sha256.Sigma_1, Sha256.sigma_0, Sha256.sigma_1;
  by rewrite ?rotr_spec, ?shr_spec by (done || lia).

Lemma EP0_spec x : Sha256.word x -> EP0 x = Sha256.Sigma_0 x.
Proof. functions_spec. Qed.
Lemma EP1_spec x : Sha256.word x -> EP1 x = Sha256.Sigma_1 x.
Proof. functions_spec. Qed.
Lemma SIG0_spec x : Sha256.word x -> SIG0 x = Sha256.sigma_0 x.
Proof. functions_spec. Qed.
Lemma SIG1_spec x : Sha256.word x -> SIG1 x = Sha256.sigma_1 x.
Proof. functions_spec. Qed.

Lemma words_parse n d : bytes d -> length d = (4 * n)%nat -> words n d = Sha256.parse d.
Proof.
  revert d. induction n as [|n IH]; intros d Hd Hl; [by destruct d|].
  destruct d as [|b0 [|b1 [|b2 [|b3 d]]]]; cbn in Hl; try lia.
  inversion_clear Hd as [|? ? H0 Hb1]. inversion_clear Hb1 as [|? ? H1 Hb2]. inversion_clear Hb2 as [|? ? H2 Hb3].
  inversion_clear Hb3 as [|? ? H3 Hb4]. cbn [words Sha256.parse]. unfold is_byte in *. f_equal; [|apply IH; [done|lia]].
  rewrite !Z.shiftl_mul_pow2 by lia.
  rewrite (Z.lor_comm (b0 * 2 ^ 24)), (lor_shifted (b1 * 2 ^ 16)) by lia.
  rewrite (Z.lor_comm (b1 * 2 ^ 16 + _)).
  replace (b1 * 2 ^ 16 + b0 * 2 ^ 24) with ((b1 + b0 * 2 ^ 8) * 2 ^ 16) by lia.
  rewrite (lor_shifted (b2 * 2 ^ 8)) by lia. rewrite Z.lor_comm.
  replace (b2 * 2 ^ 8 + (b1 + b0 * 2 ^ 8) * 2 ^ 16) with ((b2 + (b1 + b0 * 2 ^ 8) * 2 ^ 8) * 2 ^ 8) by lia.
  rewrite lor_shifted by lia. rewrite wrap_small by lia. lia.
Qed.

Lemma at_word w i : Forall Sha256.word w -> Sha256.word (at_ w i).
Proof.
  intros Hw. unfold at_. rewrite nth_lookup. destruct (w !! i) as [x|] eqn:E; [|done].
  by eapply Forall_lookup_1 in E.
Qed.

Lemma extend_schedule m : Forall Sha256.word m -> forall n k, (16 <= k)%nat ->
  extend n (Sha256.schedule m k) = Sha256.schedule m (n + k).
Proof.
  intros Hm. induction n as [|n IH]; intros k Hk; [done|]. cbn [extend].
  rewrite Sha256.length_schedule.
  replace (S n + k)%nat with (n + S k)%nat by lia. rewrite <-IH by lia. f_equal.
  cbn [Sha256.schedule]. rewrite (proj2 (Nat.ltb_ge k 16)) by lia. do 2 f_equal.
  pose proof (Sha256.schedule_words m k Hm) as Hw.
  rewrite SIG0_spec, SIG1_spec by by apply at_word.
  unfold Sha256.plus, wrap. change (2 ^ 32) with Sha256.modulus. cbn [fold_right]. unfold at_. f_equal. lia.
Qed.

Definition good (v : Sha256.variables) : Prop := Forall Sha256.word (Sha256.values v).

Lemma good_values v :
  good v <->
  Sha256.word (Sha256.a_ v) /\ Sha256.word (Sha256.b_ v) /\ Sha256.word (Sha256.c_ v) /\ Sha256.word (Sha256.d_ v) /\
  Sha256.word (Sha256.e_ v) /\ Sha256.word (Sha256.f_ v) /\ Sha256.word (Sha256.g_ v) /\ Sha256.word (Sha256.h_ v).
Proof. unfold good, Sha256.values. rewrite !Forall_cons, Forall_nil. tauto. Qed.

Lemma rounds_spec kws : forall v, good v ->
  rounds kws (Sha256.values v) = Sha256.values (fold_left Sha256.round kws v).
Proof.
  induction kws as [|[k w] kws IH]; intros v Hv; [done|]. cbn [fold_left]. rewrite <-IH.
  - destruct v as [a b c d e f g h]. apply good_values in Hv as (Ha & Hb & Hc & Hd & He & Hf & Hg & Hh).
    cbn [Sha256.values rounds Sha256.a_ Sha256.b_ Sha256.c_ Sha256.d_ Sha256.e_ Sha256.f_ Sha256.g_ Sha256.h_].
    rewrite EP0_spec, EP1_spec, CH_spec by done. change (MAJ a b c) with (Sha256.Maj a b c).
    f_equal. unfold Sha256.round, Sha256.values, Sha256.plus. cbn [Sha256.a_ Sha256.b_ Sha256.c_ Sha256.d_
      Sha256.e_ Sha256.f_ Sha256.g_ Sha256.h_ fold_right fst snd]. rewrite !Z.add_0_r.
    unfold wrap. change (2 ^ 32) with Sha256.modulus. rewrite !Z.add_assoc. done.
  - destruct v as [a b c d e f g h]. apply good_values in Hv as (Ha & Hb & Hc & Hd & He & Hf & Hg & Hh).
    apply good_values. split_and!; try done; apply Sha256.plus_word.
Qed.

Lemma K_table : sha256_K = Sha256.K.
Proof. vm_compute. reflexivity. Qed.

Lemma iv_table : sha256_iv = Sha256.H0.
Proof. vm_compute. reflexivity. Qed.

Lemma compress_spec st d :
  Forall Sha256.word st -> length st = 8%nat -> bytes d -> length d = 64%nat ->
  compress st d = Sha256.next_hash st d.
Proof.
  intros Hst Hl Hd Hdl. unfold compress, Sha256.next_hash.
  rewrite (words_parse 16) by done. rewrite K_table.
  pose proof (Sha256.length_parse 16 d Hdl) as Hp.
  pose proof (extend_schedule (Sha256.parse d) (Sha256.parse_words d Hd) 48 16 ltac:(lia)) as He.
  rewrite Sha256.schedule_short, take_ge in He by lia. rewrite He. change (48 + 16)%nat with 64%nat.
  generalize (zip Sha256.K (Sha256.schedule (Sha256.parse d) 64)). intros kws. clear He Hp Hd Hdl.
  destruct st as [|a [|b [|c [|d' [|e [|f [|g [|h [|]]]]]]]]]; try done.
  pose proof (rounds_spec kws (Sha256.variables_of [a; b; c; d'; e; f; g; h]) Hst) as Hr.
  change (Sha256.values (Sha256.variables_of [a; b; c; d'; e; f; g; h])) with [a; b; c; d'; e; f; g; h] in Hr.
  rewrite Hr. generalize (Sha256.values (fold_left Sha256.round kws (Sha256.variables_of [a; b; c; d'; e; f; g; h]))).
  intros v. rewrite <-(zip_with_flip (fun x y => Sha256.plus [x; y])). apply zip_with_ext; [|done|done].
  intros x y. unfold Sha256.plus, wrap, flip. cbn [fold_right]. change (2 ^ 32) with Sha256.modulus.
  by rewrite Z.add_0_r, Z.add_comm.
Qed.

Lemma padded_blocks msg : bytes msg -> bytes (padded msg) /\ length (padded msg) = (64 * (length (padded msg) / 64))%nat.
Proof.
  intros Hm. split.
  - unfold Sha256.padded. repeat (apply Forall_app; split).
    + done.
    + apply Forall_singleton. unfold is_byte. lia.
    + apply Forall_forall. intros x Hx%list_elem_of_In%repeat_spec. subst x. unfold is_byte. lia.
    + unfold Sha256.length_field. apply Forall_forall. intros x (k & -> & _)%list_elem_of_fmap.
      apply Z.mod_pos_bound. lia.
  - assert (exists q, length (padded msg) = (64 * q)%nat) as [q ->]; [|by rewrite (Nat.mul_comm 64), Nat.div_mul by lia; lia].
    unfold Sha256.padded. rewrite !length_app, repeat_length.
    change (length [128]) with 1%nat. change (length (length_field (length msg))) with 8%nat.
    exists (Z.to_nat ((Z.of_nat (length msg) + 1 + (55 - Z.of_nat (length msg)) mod 64 + 8) / 64)).
    pose proof (Z.mod_pos_bound (55 - Z.of_nat (length msg)) 64 ltac:(lia)).
    pose proof (Z.div_mod (55 - Z.of_nat (length msg)) 64 ltac:(lia)).
    replace (Z.of_nat (length msg) + 1 + (55 - Z.of_nat (length msg)) mod 64 + 8)
      with ((1 - (55 - Z.of_nat (length msg)) / 64) * 64) by lia.
    rewrite Z.div_mul by lia. lia.
Qed.

Lemma absorb_hash_blocks n st d :
  Forall Sha256.word st -> length st = 8%nat -> bytes d -> length d = (64 * n)%nat ->
  absorb n st d = Sha256.hash_blocks n st d /\ Forall Sha256.word (Sha256.hash_blocks n st d).
Proof.
  revert st d. induction n as [|n IH]; intros st d Hst Hl Hd Hdl; [done|]. cbn [absorb Sha256.hash_blocks].
  rewrite compress_spec; [|done|done|by apply Forall_take|rewrite length_take; lia].
  apply IH; [apply Sha256.next_hash_words|by apply Sha256.length_next_hash|by apply Forall_drop|rewrite length_drop; lia].
Qed.

Lemma word_bytes_spec w : Sha256.word w -> word_bytes w = Sha256.word_octets w.
Proof.
  unfold Sha256.word, Sha256.modulus. intros Hw. unfold word_bytes, Sha256.word_octets. cbn [map].
  change 0xff with (Z.ones 8). rewrite !Z.land_ones, !Z.shiftr_div_pow2 by lia. rewrite Z.div_1_r.
  rewrite (Z.mod_small (w / 2 ^ 24)); [done|]. split; [apply Z.div_pos; lia|]. apply Z.div_lt_upper_bound; lia.
Qed.

Lemma absorbed_spec msg : bytes msg -> absorbed msg = Sha256.sha256 msg.
Proof.
  intros Hm. destruct (padded_blocks msg Hm) as [Hb Hl]. unfold absorbed, Sha256.sha256. rewrite iv_table.
  destruct (absorb_hash_blocks _ _ _ (proj1 Sha256.H0_words) (proj2 Sha256.H0_words) Hb Hl) as [-> Hw].
  f_equal. apply map_ext_in. intros w Hi. apply word_bytes_spec. eapply Forall_forall; [exact Hw|].
  by apply list_elem_of_In.
Qed.

Lemma file_hex_sha256 junk chunks msg :
  length junk = 64%nat -> concat chunks = msg -> bytes msg ->
  sha256_file_hex junk (Some chunks) = hash_hex (Sha256.sha256 msg).
Proof.
  intros Hj <- Hb. cbn [sha256_file_hex]. rewrite <-absorbed_spec by done. f_equal.
  apply final_spec, (updates_read chunks []), init_reads, Hj.
Qed.

(** C24: [sha256_file_hex] is SHA-256.  Whatever the pieces in which the file is read, and
    whatever the context's block held before, the text is the hash of the whole file by
    FIPS 180-4 - [Sha256.sha256], stated from the standard with its constants as roots of
    primes - as 64 lower-case hexadecimal digits; so two ways of cutting the same file
    agree. *)
Theorem file_hash_streamed junk chunks (Hj : length junk = 64%nat) (Hb : bytes (concat chunks)) :
  sha256_file_hex junk (Some chunks) = hash_hex (Sha256.sha256 (concat chunks)) /\
  length (sha256_file_hex junk (Some chunks)) = HASH_LEN /\
  Forall is_hex (sha256_file_hex junk (Some chunks)) /\
  (forall junk' chunks', length junk' = 64%nat -> concat chunks' = concat chunks ->
     sha256_file_hex junk' (Some chunks') = sha256_file_hex junk (Some chunks)).
Proof.
  assert (forall j c, length j = 64%nat -> concat c = concat chunks ->
    sha256_file_hex j (Some c) = hash_hex (Sha256.sha256 (concat chunks))) as E.
  { intros j c H Hc. by apply file_hex_sha256. }
  destruct (file_hex_text junk (Some chunks) Hj) as [Hh Hl].
  split_and!; [by apply E|done|done|]. intros j c H Hc. by rewrite !E.
Qed.

(** The test vectors of the standard, one of them read in two pieces. *)
Lemma file_hash_streamed_witness :
  (forall junk chunks, length junk = 64%nat -> concat chunks = cstr "abc" ->
     sha256_file_hex junk (Some chunks)
     = cstr "ba7816bf8f01cfea414140de5dae2223b00361a396177a9cb410ff61f20015ad") /\
  sha256_file_hex (repeat 7 64)
    (Some [cstr "abcdbcdecdefdefgefghfghighij"; cstr "hijkijkljklmklmnlmnomnopnopq"])
  = cstr "248d6a61d20638b8e5c026930c3e6039a33ce45964ff2167f6ecedd419db06c1" /\
  sha256_file_hex (repeat 0 64) (Some [])
  = cstr "e3b0c44298fc1c149afbf4c8996fb92427ae41e4649b934ca495991b7852b855".
Proof.
  split; [|split; vm_compute; reflexivity]. intros junk chunks Hj Hc.
  transitivity (sha256_file_hex (repeat 0 64) (Some [cstr "abc"])); [|vm_compute; reflexivity].
  apply (file_hash_streamed (repeat 0 64) [cstr "abc"]); [reflexivity|by apply bytes_bool|exact Hj|].
  rewrite Hc. reflexivity.
Defined.

(** ** The state file: one line [path|mtime|size|sha256] per source *)

Record packer_entry_t := Entry { path : list Z; mtime : Z; size : Z; sha256 : list Z }.

#[export] Instance packer_entry_dec : EqDecision packer_entry_t.
Proof. solve_decision. Defined.

(** [fgets(line, n + 1, f)]: the line, and what is left to read. *)
Fixpoint fgets_line (n : nat) (s : list Z) : list Z * list Z :=
  match n, s with
  | S n, c :: s =>
      if c =? 10 then ([10], s) else let '(l, rest) := fgets_line n s in (c :: l, rest)
  | _, _ => ([], s)
  end.

(** [while (fgets(line, sizeof(line), f))]; every piece has a character at least. *)
Fixpoint fgets_lines (fuel : nat) (s : list Z) : list (list Z) :=
  match fuel, s with
  | S fuel, _ :: _ => let '(l, rest) := fgets_line 511 s in l :: fgets_lines fuel rest
  | _, _ => []
  end.

Definition lines_of (s : list Z) : list (list Z) := fgets_lines (length s) s.

(** [%n[^|]]: up to [n] characters before a bar, one at least. *)
Fixpoint span_bar (n : nat) (s : list Z) : list Z * list Z :=
  match n, s with
  | S n, c :: s' => if c =? 124 then ([], s) else let '(p, rest) := span_bar n s' in (c :: p, rest)
  | _, _ => ([], s)
  end.

Definition scan_path (line : list Z) : option (list Z * list Z) :=
  match span_bar 255 line with
  | ([], _) => None
  | r => Some r
  end.

Definition scan_bar (s : list Z) : option (list Z) :=
  match s with 124 :: s => Some s | _ => None end.

Definition is_digit (c : Z) : bool := (48 <=? c) && (c <=? 57).

Fixpoint skip_digits (s : list Z) : list Z :=
  match s with
  | c :: rest => if is_digit c then skip_digits rest else s
  | [] => []
  end.

(** [%ld]: spaces, a sign, one digit at least; the value saturates at [long]. *)
Definition scan_ld (s : list Z) : option (Z * list Z) :=
  let s := skip_spaces s in
  let neg := char0 s =? 45 in
  let t := if neg || (char0 s =? 43) then drop 1 s else s in
  if is_digit (char0 t) then
    let v := if neg then - dec_value 0 t else dec_value 0 t in
    Some (Z.max (- 2 ^ 63) (Z.min v (2 ^ 63 - 1)), skip_digits t)
  else None.

(** [%ns]: spaces, then up to [n] other characters, one at least. *)
Fixpoint span_word (n : nat) (s : list Z) : list Z :=
  match n, s with
  | S n, c :: s => if is_space c then [] else c :: span_word n s
  | _, _ => []
  end.

Definition scan_word (s : list Z) : option (list Z) :=
  match span_word 64 (skip_spaces s) with [] => None | w => Some w end.

(** [sscanf(line, "%255[^|]|%ld|%ld|%64s", p, &mt, &sz, h) == 4] *)
Definition scan_entry (line : list Z) : option packer_entry_t :=
  '(p, s) ← scan_path line; s ← scan_bar s;
  '(mt, s) ← scan_ld s; s ← scan_bar s;
  '(sz, s) ← scan_ld s; s ← scan_bar s;
  h ← scan_word s;
  Some (Entry p mt sz h).

Fixpoint find_entry (src_path : list Z) (lines : list (list Z)) : option packer_entry_t :=
  match lines with
  | [] => None
  | l :: lines =>
      match scan_entry l with
      | Some e => if bool_decide (path e = src_path) then Some e else find_entry src_path lines
      | None => find_entry src_path lines
      end
  end.

(** The state file's text, or that there is none. *)
Definition state_load (src_path : list Z) (file : option (list Z)) : option packer_entry_t :=
  text ← file; find_entry src_path (lines_of text).

Definition state_line (src_path : list Z) (mtime size : Z) (sha : list Z) : list Z :=
  src_path ++ [124] ++ print_int mtime ++ [124] ++ print_int size ++ [124] ++ sha ++ [10].

(** The line is copied: it starts with a path, of another source. *)
Definition keeps (src_path : list Z) (line : list Z) : bool :=
  match scan_path line with
  | Some (p, _) => negb (bool_decide (p = src_path))
  | None => false
  end.

(** What the disk does: the new file does not open or does not take the old one's place,
    or it does, with all that was written to it or, since no result of a write is looked
    at, with the first bytes only.  [mkdir] of the directory is left out, its failure
    shows here. *)
Inductive disk := Refuses | Takes (limit : option nat).

Definition state_save (d : disk) (src_path : list Z) (mtime size : Z) (sha : list Z)
    (file : option (list Z)) : option (list Z) :=
  match d with
  | Refuses => file
  | Takes limit =>
      let text := concat (List.filter (keeps src_path) (lines_of (default [] file)))
                  ++ state_line src_path mtime size sha in
      Some (match limit with Some n => take n text | None => text end)
  end.

(** ** The packer *)

Inductive event :=
  | Say (text : list Z)
  | Complain (text : list Z)
  | Mkdir_build
  | System (cmd : list Z)
  | Signal_build_done.

(** What the machine answers during a run: [stat], the content and how [fread] cuts
    it, the exit status of the command, what becomes of the state file; [garbage] is the
    byte [prev.sha256[64]] and [junk] the hash's block before they are written.  A
    message is shortened to the words that tell it apart.  [spoils]: a command that fails
    takes the old output with it. *)
Record machine := Machine {
  stat : option (Z * Z);
  chunks : option (list (list Z));
  status : Z;
  spoils : bool;
  disk_ : disk;
  garbage : Z;
  junk : list Z;
}.

(** [strncpy(e->sha256, h, 64)] into an array of 65 bytes. *)
Definition prev_sha256 (garbage : Z) (h : list Z) : list Z :=
  take 64 h ++ repeat 0 (64 - length h) ++ [garbage].

Definition gcc_flags : list Z :=
  cstr "riscv64-linux-gnu-gcc -march=rv32imfc_zicsr -mabi=ilp32f -O2 -g -ffreestanding -nostdlib -fno-stack-protector -fno-common -static -no-pie -fno-pie -fno-fast-math -ffp-contract=off -frounding-math".

Definition command_text (mode src_path out_path : list Z) : option (list Z) :=
  if bool_decide (mode = cstr "native") then Some (gcc_flags ++ cstr " -o " ++ out_path ++ [32] ++ src_path)
  else if bool_decide (mode = cstr "lua") then Some (cstr "luac -o " ++ out_path ++ [32] ++ src_path)
  else None.

(** [char cmd[1024]] *)
Definition command (mode src_path out_path : list Z) : option (list Z) :=
  clip 1024 <$> command_text mode src_path out_path.

Record result := Result { events : list event; code : Z; file_after : option (list Z) }.

Definition packer (argv : list (list Z)) (m : machine) (file : option (list Z)) : result :=
  match argv with
  | _ :: mode :: src_path :: out_path :: _ =>
      match stat m with
      | None => Result [Complain (cstr "stub_packer: cannot stat " ++ src_path)] 1 file
      | Some (mtime_, size_) =>
          let prev := state_load src_path file in
          let fast_match :=
            match prev with Some e => (mtime e =? mtime_) && (size e =? size_) | None => false end in
          if fast_match then Result [Say (cstr "fast-path hit"); Signal_build_done] 0 file
          else
            let sha := sha256_file_hex (junk m) (chunks m) in
            let saved := state_save (disk_ m) src_path mtime_ size_ sha file in
            let slow_match :=
              match prev with
              | Some e => bool_decide (c_string (prev_sha256 (garbage m) (sha256 e)) = sha)
              | None => false
              end in
            if slow_match then Result [Say (cstr "slow-path hit"); Signal_build_done] 0 saved
            else
              match command mode src_path out_path with
              | None => Result [Say (cstr "rebuilding"); Mkdir_build; Complain (cstr "unknown mode")] 1 file
              | Some cmd =>
                  if negb (status m =? 0)
                  then Result [Say (cstr "rebuilding"); Mkdir_build; System cmd; Complain (cstr "build failed")] 1 file
                  else Result [Say (cstr "rebuilding"); Mkdir_build; System cmd; Say (cstr "build OK"); Signal_build_done] 0 saved
              end
      end
  | _ => Result [Complain (cstr "usage: stub_packer <mode> <src_path> <out_path>"); Complain (cstr "  mode: native | lua")] 2 file
  end.

(** ** Lines *)

Definition line_ok (l : list Z) : Prop :=
  exists body, l = body ++ [10] /\ ~ In 10 body /\ (length l <= 511)%nat.

Lemma fgets_line_ok n body rest :
  ~ In 10 body -> (length body < n)%nat -> fgets_line n (body ++ 10 :: rest) = (body ++ [10], rest).
Proof.
  revert n. induction body as [|c body IH]; intros [|n] Hb Hn; cbn in Hn; try lia; [done|].
  cbn [app fgets_line]. rewrite (proj2 (Z.eqb_neq c 10)) by (intros ->; apply Hb; by left).
  rewrite IH; [done| |lia]. intros H. apply Hb. by right.
Qed.

Lemma fgets_lines_ok ls fuel :
  Forall line_ok ls -> (length (concat ls) <= fuel)%nat -> fgets_lines fuel (concat ls) = ls.
Proof.
  intros H. revert fuel. induction H as [|l ls (body & -> & Hb & Hl) _ IH]; intros fuel Hf; [by destruct fuel|].
  cbn [concat] in *. rewrite !length_app in *. cbn [length] in *. destruct fuel as [|fuel]; [lia|].
  rewrite <-(assoc app). cbn [app].
  destruct (body ++ 10 :: concat ls) as [|x xs] eqn:E; [by destruct body|].
  cbn [fgets_lines]. rewrite <-E, fgets_line_ok by (done || lia). f_equal. apply IH. lia.
Qed.

Lemma lines_of_ok ls : Forall line_ok ls -> lines_of (concat ls) = ls.
Proof. intros H. by apply fgets_lines_ok. Qed.

(** Reading line by line loses nothing, whatever the file. *)
Lemma fgets_line_split n s l rest : fgets_line n s = (l, rest) -> s = l ++ rest.
Proof.
  revert s l rest. induction n as [|n IH]; intros [|c s] l rest; cbn [fgets_line]; try (by intros [= <- <-]).
  destruct (Z.eqb_spec c 10) as [->|]; [by intros [= <- <-]|].
  destruct (fgets_line n s) as [l' r'] eqn:E. intros [= <- <-]. cbn [app]. by rewrite <-(IH _ _ _ E).
Qed.

Lemma fgets_line_some n c s : fst (fgets_line (S n) (c :: s)) <> [].
Proof. cbn [fgets_line]. destruct (c =? 10); [done|]. by destruct (fgets_line n s). Qed.

Lemma lines_of_concat s : concat (lines_of s) = s.
Proof.
  unfold lines_of. assert (forall fuel s, (length s <= fuel)%nat -> concat (fgets_lines fuel s) = s) as H; [|by apply H].
  clear s. induction fuel as [|fuel IH]; intros [|c s] Hs; try done; cbn in Hs; [lia|].
  cbn [fgets_lines]. destruct (fgets_line 511 (c :: s)) as [l rest] eqn:E.
  pose proof (fgets_line_split _ _ _ _ E) as Hc. cbn [concat]. rewrite IH; [done|].
  pose proof (fgets_line_some 510 c s) as Hl. rewrite E in Hl.
  apply (f_equal length) in Hc. rewrite length_app in Hc. cbn in Hc. destruct l; [done|]. cbn in Hc. lia.
Qed.

(** ** The line that is written is the entry that is read *)

Definition path_ok (p : list Z) : Prop :=
  p <> [] /\ (length p <= 255)%nat /\ ~ In 124 p /\ ~ In 10 p.

Definition long_ok (v : Z) : Prop := - 2 ^ 63 <= v < 2 ^ 63.

Definition hash_ok (h : list Z) : Prop := Forall is_hex h /\ length h = 64%nat.

Lemma span_bar_path n p rest :
  ~ In 124 p -> (length p <= n)%nat -> span_bar n (p ++ 124 :: rest) = (p, 124 :: rest).
Proof.
  revert n. induction p as [|c p IH]; intros n Hp Hn; [by destruct n|].
  destruct n as [|n]; cbn in Hn; [lia|]. cbn [app span_bar].
  rewrite (proj2 (Z.eqb_neq c 124)) by (intros ->; apply Hp; by left).
  rewrite IH; [done| |lia]. intros H. apply Hp. by right.
Qed.

Lemma scan_path_line p rest : path_ok p -> scan_path (p ++ 124 :: rest) = Some (p, 124 :: rest).
Proof. intros (Hn & Hl & Hb & _). unfold scan_path. rewrite span_bar_path by done. by destruct p. Qed.

Lemma skip_digits_app ds rest :
  Forall (fun d => 48 <= d <= 57) ds -> ends_number rest -> skip_digits (ds ++ rest) = rest.
Proof.
  intros Hd Hr. induction Hd as [|d ds Hd _ IH].
  - destruct rest as [|c rest]; [done|]. cbn [app skip_digits]. cbn in Hr. unfold is_digit. zcase.
  - cbn [app skip_digits]. unfold is_digit. destruct (Z.leb_spec 48 d), (Z.leb_spec d 57); try lia. apply IH.
Qed.

Lemma skip_spaces_id c s : is_space c = false -> skip_spaces (c :: s) = c :: s.
Proof. intros H. cbn. by rewrite H. Qed.

Lemma scan_ld_print v rest : long_ok v -> ends_number rest -> scan_ld (print_int v ++ rest) = Some (v, rest).
Proof.
  intros Hv Hr. unfold long_ok in Hv. unfold scan_ld, print_int.
  destruct (dec_first (Z.abs v)) as (d & ds & E & Hd). specialize (Hd ltac:(lia)).
  assert (is_digit d = true) as Hdig by (unfold is_digit; zcase).
  destruct (Z.ltb_spec v 0).
  - cbn [app]. rewrite skip_spaces_id by done. change (char0 _ =? 45) with true. cbn [orb].
    replace (- v) with (Z.abs v) by lia.
    rewrite skipn_cons, drop_0, dec_value_dec, skip_digits_app by (done || apply dec_digits || lia).
    rewrite E. change (char0 _) with d. rewrite Hdig. do 2 f_equal. lia.
  - replace (dec v) with (dec (Z.abs v)) by (f_equal; lia).
    rewrite E. cbn [app]. rewrite skip_spaces_id by (unfold is_space; zcase).
    unfold char0. cbn [nth]. rewrite (proj2 (Z.eqb_neq d 45)), (proj2 (Z.eqb_neq d 43)) by lia.
    cbn [orb nth]. rewrite Hdig, app_comm_cons, <-E, dec_value_dec, skip_digits_app
      by (done || apply dec_digits || lia).
    do 2 f_equal. lia.
Qed.

Lemma scan_word_hash h rest : hash_ok h -> scan_word (h ++ rest) = Some h.
Proof.
  intros [Hh Hl]. unfold scan_word.
  assert (forall h rest, Forall is_hex h -> span_word (length h) (h ++ rest) = h) as Hs.
  { clear. intros h rest. induction 1 as [|c h Hc _ IH]; [by destruct rest|]. cbn [length app span_word].
    assert (is_space c = false) as -> by (unfold is_space, is_hex in *; zcase). by rewrite IH. }
  specialize (Hs h rest Hh). rewrite Hl in Hs.
  destruct h as [|c h]; [done|]. inversion_clear Hh. cbn [app].
  rewrite skip_spaces_id by (unfold is_space, is_hex in *; zcase). cbn [app] in Hs. by rewrite Hs.
Qed.

Lemma scan_state_line p mt sz h :
  path_ok p -> long_ok mt -> long_ok sz -> hash_ok h ->
  scan_entry (state_line p mt sz h) = Some (Entry p mt sz h).
Proof.
  intros Hp Hm Hs Hh. unfold scan_entry, state_line. cbn [app]. rewrite scan_path_line by done. cbn [mbind option_bind scan_bar].
  rewrite scan_ld_print by (done || cbn; lia). cbn [mbind option_bind scan_bar].
  rewrite scan_ld_print by (done || cbn; lia). cbn [mbind option_bind scan_bar].
  by rewrite scan_word_hash.
Qed.

Lemma hex_not_newline h : Forall is_hex h -> ~ In 10 h.
Proof. intros H Hi. rewrite Forall_forall in H. apply list_elem_of_In, H in Hi. unfold is_hex in Hi. lia. Qed.

Lemma print_int_not_newline v : ~ In 10 (print_int v).
Proof.
  assert (forall u, ~ In 10 (dec u)) as H.
  { intros u Hi. pose proof (dec_digits u) as Hd. rewrite Forall_forall in Hd.
    apply list_elem_of_In, Hd in Hi. lia. }
  unfold print_int. destruct (v <? 0); [|apply H]. intros [Hi|Hi]; [done|]. by apply H in Hi.
Qed.

Lemma state_line_ok p mt sz h : path_ok p -> hash_ok h -> line_ok (state_line p mt sz h).
Proof.
  intros (Hn & Hl & Hb & H10) [Hh Hhl].
  exists (p ++ [124] ++ print_int mt ++ [124] ++ print_int sz ++ [124] ++ h).
  pose proof (length_print_int mt). pose proof (length_print_int sz). unfold state_line.
  split_and!; [by rewrite <-!(assoc app)| |rewrite !length_app; cbn; lia].
  rewrite !in_app_iff. pose proof (print_int_not_newline mt). pose proof (print_int_not_newline sz).
  pose proof (hex_not_newline h Hh). cbn. intuition done.
Qed.

(** ** The state file implements a finite map *)

Abbreviation store := (gmap (list Z) (Z * Z * list Z)).

Definition triple (e : packer_entry_t) : Z * Z * list Z := (mtime e, size e, sha256 e).

Record represents (file : option (list Z)) (m : store) : Prop := Represents {
  rep_lines : exists ls, default [] file = concat ls /\ Forall line_ok ls;
  rep_load : forall p, path_ok p -> triple <$> state_load p file = m !! p;
}.

Lemma represents_none : represents None ∅.
Proof. constructor; [by exists []|]. intros p _. by rewrite lookup_empty. Qed.

Lemma load_lines p ls : Forall line_ok ls -> state_load p (Some (concat ls)) = find_entry p ls.
Proof. intros H. cbn. by rewrite lines_of_ok. Qed.

Lemma load_default p file : state_load p file = state_load p (Some (default [] file)).
Proof. by destruct file. Qed.

Lemma scan_entry_path l e : scan_entry l = Some e -> exists rest, scan_path l = Some (path e, rest).
Proof.
  unfold scan_entry. intros ([p s] & E & H)%bind_Some. exists s. rewrite E. do 2 f_equal.
  repeat match goal with
  | H : (_ ≫= _) = Some _ |- _ => apply bind_Some in H as (? & _ & H)
  | x : (_ * _)%type |- _ => destruct x
  end. by injection H as <-.
Qed.

Lemma find_entry_path p ls e : find_entry p ls = Some e -> path e = p.
Proof.
  induction ls as [|l ls IH]; [done|]. cbn [find_entry]. destruct (scan_entry l) as [e'|]; [|done].
  case_bool_decide; [|done]. by intros [= ->].
Qed.

Lemma find_entry_dropped src ls : find_entry src (List.filter (keeps src) ls) = None.
Proof.
  induction ls as [|l ls IH]; [done|]. cbn [List.filter].
  destruct (keeps src l) eqn:K; [|done]. cbn [find_entry].
  destruct (scan_entry l) as [e|] eqn:E; [|done]. case_bool_decide as Hp; [|done].
  apply scan_entry_path in E as [rest E]. unfold keeps in K. rewrite E, Hp in K.
  by rewrite bool_decide_eq_true_2 in K.
Qed.

Lemma find_entry_kept p src ls : p <> src -> find_entry p (List.filter (keeps src) ls) = find_entry p ls.
Proof.
  intros Hne. induction ls as [|l ls IH]; [done|]. cbn [List.filter find_entry].
  destruct (keeps src l) eqn:K; cbn [find_entry]; [by rewrite IH|]. rewrite IH.
  destruct (scan_entry l) as [e|] eqn:E; [|done]. case_bool_decide as Hp; [|done].
  apply scan_entry_path in E as [rest E]. unfold keeps in K. rewrite E, Hp in K.
  by rewrite bool_decide_eq_false_2 in K.
Qed.

Lemma find_entry_app p ls ls' :
  find_entry p (ls ++ ls') = match find_entry p ls with Some e => Some e | None => find_entry p ls' end.
Proof.
  induction ls as [|l ls IH]; [done|]. cbn [app find_entry].
  destruct (scan_entry l) as [e|]; [|done]. by case_bool_decide.
Qed.

Lemma saved_lines src mt sz h file ls :
  default [] file = concat ls -> Forall line_ok ls ->
  state_save (Takes None) src mt sz h file = Some (concat (List.filter (keeps src) ls ++ [state_line src mt sz h])).
Proof. intros E H. unfold state_save. by rewrite E, lines_of_ok, concat_app, concat_cons, app_nil_r. Qed.

Lemma saved_ok src mt sz h ls :
  path_ok src -> hash_ok h -> Forall line_ok ls ->
  Forall line_ok (List.filter (keeps src) ls ++ [state_line src mt sz h]).
Proof.
  intros Hp Hh H. apply Forall_app; split; [|by apply Forall_singleton, state_line_ok].
  rewrite Forall_forall in *. intros l Hl. apply H. apply list_elem_of_In in Hl.
  apply filter_In in Hl as [Hl _]. by apply list_elem_of_In.
Qed.

Lemma save_represents src mt sz h file m :
  path_ok src -> long_ok mt -> long_ok sz -> hash_ok h -> represents file m ->
  represents (state_save (Takes None) src mt sz h file) (<[src := (mt, sz, h)]> m).
Proof.
  intros Hp Hm Hs Hh [(ls & E & Hls) Hload]. rewrite (saved_lines _ _ _ _ _ ls) by done.
  pose proof (saved_ok src mt sz h ls Hp Hh Hls) as Hok. constructor; [by eexists|].
  intros p Hpp. rewrite load_lines, find_entry_app by done. cbn [find_entry]. rewrite scan_state_line by done. cbn [path].
  destruct (decide (p = src)) as [->|Hne].
  - by rewrite find_entry_dropped, lookup_insert_eq, bool_decide_eq_true_2.
  - rewrite find_entry_kept, lookup_insert_ne, bool_decide_eq_false_2 by done.
    rewrite <-Hload, load_default, E, load_lines by done. by destruct (find_entry p ls).
Qed.

(** C25: The state file is a finite map from source paths to mtime, size and hash:
    without the file the map is empty, and [state_save] of a path of at most 255
    characters without bar and newline inserts into it, so that [state_load] finds the
    new entry for that path, the last one saved, and for every other path what it
    found before; the lines stay readable, so that saves can follow each other. *)
Theorem state_file_refines (saves : list packer_entry_t)
    (Hok : Forall (fun e => path_ok (path e) /\ long_ok (mtime e) /\ long_ok (size e) /\ hash_ok (sha256 e)) saves) :
  represents
    (fold_left (fun f e => state_save (Takes None) (path e) (mtime e) (size e) (sha256 e) f) saves None)
    (fold_left (fun m e => <[path e := triple e]> m) saves ∅).
Proof.
  assert (forall file m, represents file m ->
    represents
      (fold_left (fun f e => state_save (Takes None) (path e) (mtime e) (size e) (sha256 e) f) saves file)
      (fold_left (fun m e => <[path e := triple e]> m) saves m)) as H.
  { induction Hok as [|e es (Hp & Hm & Hs & Hh) _ IH]; intros file m Hr; [done|].
    cbn [fold_left]. by apply IH, save_represents. }
  apply H, represents_none.
Qed.

Definition demo_hash : list Z := repeat 97 64.

Lemma state_file_refines_witness :
  triple <$> state_load (cstr "a.c")
    (fold_left (fun f e => state_save (Takes None) (path e) (mtime e) (size e) (sha256 e) f)
       [Entry (cstr "a.c") 5 70 demo_hash; Entry (cstr "b.lua") (-1) 0 demo_hash; Entry (cstr "a.c") 6 71 demo_hash] None)
  = Some (6, 71, demo_hash).
Proof.
  assert (hash_ok demo_hash) as Hh.
  { split; [|done]. apply Forall_forall. intros c Hc. apply list_elem_of_In, repeat_spec in Hc as ->. right. lia. }
  assert (path_ok (cstr "a.c")) as Ha by (split_and!; vm_compute; intuition (discriminate || lia)).
  assert (path_ok (cstr "b.lua")) as Hb by (split_and!; vm_compute; intuition (discriminate || lia)).
  rewrite (rep_load _ _ (state_file_refines
    [Entry (cstr "a.c") 5 70 demo_hash; Entry (cstr "b.lua") (-1) 0 demo_hash; Entry (cstr "a.c") 6 71 demo_hash]
    ltac:(repeat apply Forall_cons_2; try apply Forall_nil_2;
          (split; [assumption|]; split; [split; vm_compute; congruence|];
           split; [split; vm_compute; congruence|assumption])))); [|assumption].
  vm_compute. reflexivity.
Defined.

(** A path with a bar is saved but never found, and every save adds a line. *)
Lemma bar_path_never_found :
  let save f := state_save (Takes None) (cstr "a|b.c") 1 2 demo_hash f in
  state_load (cstr "a|b.c") (save (save None)) = None /\
  length (lines_of (default [] (save (save None)))) = 2%nat.
Proof. split; vm_compute; reflexivity. Qed.

(** ** Successive runs *)




Section runs.

(** What one run is asked: the words of the command line. *)
Record job := Job { mode_of : list Z; src_of : list Z; out_of : list Z }.

Definition argv_of (j : job) : list (list Z) := [cstr "stub_packer"; mode_of j; src_of j; out_of j].

(** The state file, and for each output file the mode and the content of its source from
    which it was last built. *)
Record world := World { state_file : option (list Z); built : gmap (list Z) (list Z * list Z) }.

Definition content (m : machine) : list Z := concat (default [] (chunks m)).

Definition is_system (e : event) : bool := match e with System _ => true | _ => false end.

Definition run (w : world) (r : job * machine) : world * Z :=
  let '(j, m) := r in
  let res := packer (argv_of j) m (state_file w) in
  (World (file_after res)
     (if existsb is_system (events res) then
        if status m =? 0 then <[out_of j := (mode_of j, content m)]> (built w)
        else if spoils m then delete (out_of j) (built w) else built w
      else built w),
   code res).

Definition runs (rs : list (job * machine)) (w : world) : world :=
  fold_left (fun w r => fst (run w r)) rs w.






















End runs.

(** A source edited, then touched, then edited back. *)
Definition lua_job (src : list Z) : job := Job (cstr "lua") src (src ++ cstr ".luac").
Definition demo_machine (mt : Z) (text : list Z) (g : Z) : machine :=
  Machine (Some (mt, Z.of_nat (length text))) (Some [text]) 0 false (Takes None) g (repeat 0 64).


(** The same source into a second output file: the line of the first answers, the run
    exits 0 and signals a build, and the second file does not exist. *)
Lemma second_output_not_built :
  let again := Job (cstr "lua") (cstr "a.lua") (cstr "b.luac") in
  let m := demo_machine 1 (cstr "x=1") 0 in
  let w := runs [(lua_job (cstr "a.lua"), m)] (World None ∅) in
  packer (argv_of again) m (state_file w)
  = Result [Say (cstr "fast-path hit"); Signal_build_done] 0 (state_file w) /\
  built (fst (run w (again, m))) !! cstr "b.luac" = None.
Proof. split; vm_compute; reflexivity. Qed.

(** A command that fails and takes the output with it leaves the entry behind: with the
    old content back under its old mtime there is nothing to do, and no output. *)
Lemma failed_command_hidden :
  let old := demo_machine 1 (cstr "x=1") 0 in
  let broken := Machine (Some (2, 2)) (Some [cstr "x="]) 1 true (Takes None) 0 (repeat 0 64) in
  let j := lua_job (cstr "a.lua") in
  let w := runs [(j, old); (j, broken)] (World None ∅) in
  let '(w', c) := run w (j, old) in
  c = 0 /\ built w' !! out_of j = None.
Proof. vm_compute. by split. Qed.

(** A state file that could not be written goes unnoticed: the build of the new
    content succeeds, the old entry stays, and the old content, back with its old
    mtime, is taken to be up to date. *)
Lemma unwritten_state_goes_stale :
  let new := Machine (Some (2, 3)) (Some [cstr "x=2"]) 0 false Refuses 0 (repeat 0 64) in
  let old := demo_machine 1 (cstr "x=1") 0 in
  let j := lua_job (cstr "a.lua") in
  let w := runs [(j, old); (j, new); (j, old)] (World None ∅) in
  built w !! out_of j = Some (cstr "lua", cstr "x=2").
Proof. vm_compute. reflexivity. Qed.

(** So does one written in part: the entries of the other sources are lost. *)
Lemma short_state_loses_entries :
  let a := lua_job (cstr "a.lua") in
  let b := lua_job (cstr "b.lua") in
  let full := Machine (Some (2, 3)) (Some [cstr "x=2"]) 0 false (Takes (Some 0%nat)) 0 (repeat 0 64) in
  let w := runs [(a, demo_machine 1 (cstr "x=1") 0); (b, full)] (World None ∅) in
  code (packer (argv_of b) full (state_file (runs [(a, demo_machine 1 (cstr "x=1") 0)] (World None ∅)))) = 0 /\
  state_load (src_of a) (state_file w) = None.
Proof. split; vm_compute; reflexivity. Qed.

(** A touched source is rebuilt when the byte after the saved hash is not zero. *)
Lemma touched_source_rebuilt :
  let j := lua_job (cstr "a.lua") in
  let w := runs [(j, demo_machine 1 (cstr "x=1") 0)] (World None ∅) in
  existsb is_system (events (packer (argv_of j) (demo_machine 2 (cstr "x=1") 9) (state_file w))) = true.
Proof. vm_compute. reflexivity. Qed.
