(* ===== verification/Console.v ===== *)
(** * The native console (spikes/spike-p/lib/console_spike_p.c) and its forerunner
    (spikes/spike-o/lib/libconsole_stub_ext.c)

    The library a Rust cart is linked against: the state store, the save file
    written and read in pieces through system calls, the digest lines, and the main
    loop that starts a cart afresh or from the save file.  A cart is a program over
    the calls it may make; the alloc cart of spike-p/cart/src/lib_alloc.rs is one.
    The host behind the system calls is a parameter. *)

From S2P Require Import Prelude Determinism.
Open Scope Z_scope.

(** ** The state store *)

Definition STATE_SLOTS : Z := 256.

Definition state_index (slot field : Z) : Z := u32 (Z.land slot 0x0f * 16 + Z.land field 0x0f).

Definition blyt32_state_get_u32 (st : list Z) (slot field : Z) : Z :=
  let idx := state_index slot field in
  if STATE_SLOTS <=? idx then 0 else nth (Z.to_nat idx) st 0.

Definition blyt32_state_set_u32 (st : list Z) (slot field val : Z) : list Z :=
  let idx := state_index slot field in
  if idx <? STATE_SLOTS then <[Z.to_nat idx := val]> st else st.

(** ** Digest lines *)

(** [buf[i]] from the last place down: [for (int i = 7; i >= 0; i--)]. *)
Fixpoint hex_loop (n : nat) (v : Z) (acc : list Z) : list Z :=
  match n with
  | O => acc
  | S n => hex_loop n (v ≫ 4) (hex_digit_of (Z.land v 0xf) :: acc)
  end.

Definition write_hex8 (v : Z) : list Z := hex_loop 8 v [].

(** [while (v) { buf[--i] = ...; v /= 10; }] in an array that holds [i] digits more;
    [None]: a write below the array. *)
Fixpoint uint_loop (i : nat) (v : Z) (acc : list Z) : option (list Z) :=
  if v =? 0 then Some acc
  else match i with
       | O => None
       | S i => uint_loop i (v / 10) ((48 + v mod 10) :: acc)
       end.

Definition write_uint (v : Z) : option (list Z) := if v =? 0 then Some [48] else uint_loop 9 v [].

Definition blyt_emit_digest (frame hi lo : Z) : option (list Z) :=
  f ← write_uint frame;
  Some (cstr "DIGEST " ++ f ++ [32] ++ write_hex8 hi ++ write_hex8 lo ++ [10]).

(** ** The save file *)

(** [save_file_t]: the frame and the whole store. *)
Definition save_image (frame : Z) (st : list Z) : list Z := le_bytes 4 frame ++ concat (map (le_bytes 4) st).

Definition SAVE_SIZE : nat := 1028.

Fixpoint words_of (n : nat) (bs : list Z) : list Z :=
  match n with
  | O => []
  | S n => le_val (take 4 bs) :: words_of n (drop 4 bs)
  end.

(** The system calls on the save file: [open] for reading and for writing, [read]
    with the bytes it stored, [write], [close]. *)
Record host (W : Type) := Host {
  sys_open_read : W -> W * Z;
  sys_open_write : W -> W * Z;
  sys_read : Z -> Z -> W -> W * Z * list Z;
  sys_write : Z -> list Z -> W -> W * Z;
  sys_close : Z -> W -> W;
}.
Arguments Host {W}. Arguments sys_open_read {W}. Arguments sys_open_write {W}.
Arguments sys_read {W}. Arguments sys_write {W}. Arguments sys_close {W}.

Section save_file.
Context {W : Type} (h : host W).

(** [while (total < cap)]: at most 512 bytes a call; [None]: out of fuel. *)
Fixpoint read_loop (fuel : nat) (w : W) (fd : Z) (dst : list Z) : option (W * list Z) :=
  match fuel with
  | O => None
  | S fuel =>
      if (length dst <? SAVE_SIZE)%nat then
        let want := Z.min (Z.of_nat (SAVE_SIZE - length dst)) 512 in
        let '(w, n, bs) := sys_read h fd want w in
        if n <=? 0 then Some (w, dst) else read_loop fuel w fd (dst ++ take (Z.to_nat n) bs)
      else Some (w, dst)
  end.

(** 0, or 1 and what the struct holds. *)
Definition read_save (w : W) : option (W * option (Z * list Z)) :=
  let '(w, fd) := sys_open_read h w in
  if fd <? 0 then Some (w, None)
  else
    '(w, dst) ← read_loop (S SAVE_SIZE) w fd [];
    let w := sys_close h fd w in
    Some (w, if (length dst =? SAVE_SIZE)%nat
             then Some (le_val (take 4 dst), words_of 256 (drop 4 dst)) else None).

(** [rest]: what is not written yet. *)
Fixpoint write_loop (fuel : nat) (w : W) (fd : Z) (rest : list Z) : option (W * list Z) :=
  match fuel with
  | O => None
  | S fuel =>
      match rest with
      | [] => Some (w, [])
      | _ =>
          let '(w, n) := sys_write h fd (take 512 rest) w in
          if n <=? 0 then Some (w, rest) else write_loop fuel w fd (drop (Z.to_nat n) rest)
      end
  end.

Definition write_save (w : W) (frame : Z) (st : list Z) : option (W * bool) :=
  let '(w, fd) := sys_open_write h w in
  if fd <? 0 then Some (w, false)
  else
    '(w, rest) ← write_loop (S SAVE_SIZE) w fd (save_image frame st);
    Some (sys_close h fd w, bool_decide (rest = [])).
End save_file.

(** ** Carts and the main loop *)

(** What a cart asks of the console, and the end of the process. *)
Inductive prog (A : Type) : Type :=
  | Ret (a : A)
  | Get (slot field : Z) (k : Z -> prog A)
  | Put (slot field val : Z) (k : prog A)
  | Save (frame : Z) (k : prog A)
  | Digest (frame hi lo : Z) (k : prog A)
  | Print (text : list Z) (k : prog A)
  | Exit
  | Panic.
Arguments Ret {A}. Arguments Get {A}. Arguments Put {A}. Arguments Save {A}.
Arguments Digest {A}. Arguments Print {A}. Arguments Exit {A}. Arguments Panic {A}.

Inductive logged := Digest_line (text : list Z) | Text (text : list Z).

Inductive result (A : Type) := Done (a : A) | Exited | Undefined.
Arguments Done {A}. Arguments Exited {A}. Arguments Undefined {A}.

(** A cart's globals at the start, and its entry points, each of which may be missing. *)
Record cart := Cart {
  mem : Type;
  globals : mem;
  fc_cart_init : option (mem -> prog mem);
  fc_cart_update : option (mem -> prog mem);
  fc_cart_draw : option (mem -> prog mem);
  fc_cart_on_load : option (mem -> prog mem);
}.

Section console.
Context {W : Type} (h : host W).

Record console := Console { state_store : list Z; world : W; log : list logged }.

(** The calls as the console answers them; [blyt_test_save_now] ignores how the save
    ends. *)
Fixpoint run {A} (p : prog A) (c : console) : console * result A :=
  match p with
  | Ret a => (c, Done a)
  | Get slot field k => run (k (blyt32_state_get_u32 (state_store c) slot field)) c
  | Put slot field val k =>
      run k (Console (blyt32_state_set_u32 (state_store c) slot field val) (world c) (log c))
  | Save frame k =>
      match write_save h (world c) frame (state_store c) with
      | Some (w, _) => run k (Console (state_store c) w (log c))
      | None => (c, Undefined)
      end
  | Digest frame hi lo k =>
      match blyt_emit_digest frame hi lo with
      | Some line => run k (Console (state_store c) (world c) (log c ++ [Digest_line line]))
      | None => (c, Undefined)
      end
  | Print text k => run k (Console (state_store c) (world c) (log c ++ [Text text]))
  | Exit => (c, Exited)
  | Panic => (c, Undefined)
  end.

(** [if (f) f();] *)
Definition call {M} (f : option (M -> prog M)) (m : M) (c : console) : console * result M :=
  match f with Some f => run (f m) c | None => (c, Done m) end.

Definition bind {A B} (r : console * result A) (k : A -> console -> console * result B) : console * result B :=
  match r with
  | (c, Done a) => k a c
  | (c, Exited) => (c, Exited)
  | (c, Undefined) => (c, Undefined)
  end.

(** The first [n] rounds of [for (;;)]. *)
Fixpoint frames (g : cart) (n : nat) (m : mem g) (c : console) : console * result (mem g) :=
  match n with
  | O => (c, Done m)
  | S n => bind (bind (call (fc_cart_update g) m c) (call (fc_cart_draw g))) (frames g n)
  end.

Definition fc_console_main (g : cart) (n : nat) (c : console) : console * result (mem g) :=
  match read_save h (world c) with
  | None => (c, Undefined)
  | Some (w, Some (_, st)) =>
      bind (call (fc_cart_on_load g) (globals g) (Console st w (log c))) (frames g n)
  | Some (w, None) =>
      bind (call (fc_cart_init g) (globals g) (Console (state_store c) w (log c))) (frames g n)
  end.
End console.
Arguments Console {W}. Arguments state_store {W}. Arguments world {W}. Arguments log {W}.

(** ** The alloc cart (spikes/spike-p/cart/src/lib_alloc.rs) *)

Module Alloc.
(** The four globals on the heap. *)
Record heap := Heap {
  resource_lookup : option (list Z);
  state_vec : option (list Z);
  arc_counter : option Z;
  grow_vec : option (list Z);
}.

Definition SLOT : Z := 0.
Definition S_CTR : Z := 0x0001.
Definition S_ARC_INNER : Z := 0x0002.
Definition SAVE_AT_S_CTR : Z := 5.
Definition NFRAMES : Z := 30.

Definition words_bytes (ws : list Z) : list Z := concat (map (le_bytes 4) ws).

Definition fnv1a64 (ws : list Z) : Z * Z :=
  let h := fnv1a_64 (words_bytes ws) in (u32 (h ≫ 32), u32 h).

(** [if new_s_ctr % 4 == 0 && gv.len() < 32 { gv.push(new_s_ctr) }] *)
Definition grow (gv : list Z) (n : Z) : list Z :=
  if (n mod 4 =? 0) && (length gv <? 32)%nat then gv ++ [n] else gv.

(** [for new_s_ctr in 1..=s_ctr] *)
Definition replay (s_ctr : Z) : list Z := fold_left grow (map Z.of_nat (seq 1 (Z.to_nat s_ctr))) [].

Definition lookup : list Z := repeat 0x12345678 16.

Definition on_load (m : heap) : prog heap :=
  Get SLOT S_CTR (fun s_ctr =>
  Get SLOT S_ARC_INNER (fun s_arc_inner =>
  Ret (Heap (match resource_lookup m with Some rl => Some rl | None => Some lookup end)
            (Some (repeat s_ctr (Z.to_nat (s_ctr mod 16 + 1))))
            (Some s_arc_inner)
            (Some (replay s_ctr))))).

Definition init (m : heap) : prog heap :=
  on_load (Heap (Some lookup) (state_vec m) (arc_counter m) (grow_vec m)).

Definition len_first (v : option (list Z)) : Z * Z :=
  match v with Some v => (Z.of_nat (length v), nth 0 v 0) | None => (0, 0) end.

Definition len_sum (v : option (list Z)) : Z * Z :=
  match v with Some v => (Z.of_nat (length v), fold_left (fun a x => u32 (a + x)) v 0) | None => (0, 0) end.

(** From the counters on: the lines of the frame, and the end after the last. *)
Definition emit (m : heap) (s_ctr new_s_ctr : Z) : prog heap :=
  match resource_lookup m, state_vec m with
  | None, _ | Some [], _ | _, Some [] => Panic
  | Some rl, _ =>
      let '(sv_len, sv0) := len_first (state_vec m) in
      let '(gv_len, gv_sum) := len_sum (grow_vec m) in
      Get SLOT S_ARC_INNER (fun arc_inner =>
      Print (cstr "STATE_VEC ") (Print (dec sv_len) (Print [32] (Print (dec sv0) (Print [10] (
      let '(hi, lo) := fnv1a64 [new_s_ctr; Z.of_nat (length rl); nth 0 rl 0; arc_inner; gv_len; gv_sum] in
      Digest s_ctr hi lo (if NFRAMES <=? new_s_ctr then Exit else Ret m)))))))
  end.

Definition step (m : heap) (s_ctr : Z) : prog heap :=
  let new_s_ctr := u32 (s_ctr + 1) in
  Put SLOT S_CTR new_s_ctr (
  match arc_counter m with
  | None => Panic
  | Some v =>
      let new_arc_inner := u32 (v + 1) in
      Put SLOT S_ARC_INNER new_arc_inner (
      let gv := match grow_vec m with Some gv => Some (grow gv new_s_ctr) | None => None end in
      emit (Heap (resource_lookup m) (state_vec m) (Some new_arc_inner) gv) s_ctr new_s_ctr)
  end).

Definition update (m : heap) : prog heap :=
  Get SLOT S_CTR (fun s_ctr =>
  if s_ctr =? SAVE_AT_S_CTR then Save s_ctr (step m s_ctr) else step m s_ctr).

Definition alloc : cart :=
  Cart heap (Heap None None None None) (Some init) (Some update) (Some (fun m => Ret m)) (Some on_load).
End Alloc.

(** ** The store and the lines *)

Lemma state_index_range slot field : 0 <= state_index slot field < STATE_SLOTS.
Proof.
  unfold state_index, STATE_SLOTS. change 0x0f with (Z.ones 4). rewrite !Z.land_ones by lia.
  pose proof (Z.mod_pos_bound slot (2 ^ 4) ltac:(lia)). pose proof (Z.mod_pos_bound field (2 ^ 4) ltac:(lia)).
  rewrite wrap_small by (change (2 ^ 4) with 16 in *; lia). change (2 ^ 4) with 16 in *. lia.
Qed.

(** Reading what was written; slots and fields count modulo 16, so two of them share a
    word exactly when both agree in their low four bits. *)
Lemma state_get_set st slot field val slot' field' :
  length st = 256%nat ->
  blyt32_state_get_u32 (blyt32_state_set_u32 st slot field val) slot' field' =
  if (slot mod 16 =? slot' mod 16) && (field mod 16 =? field' mod 16) then val
  else blyt32_state_get_u32 st slot' field'.
Proof.
  intros Hl. unfold blyt32_state_get_u32, blyt32_state_set_u32.
  pose proof (state_index_range slot field) as Hi. pose proof (state_index_range slot' field') as Hi'.
  unfold STATE_SLOTS in *.
  rewrite (proj2 (Z.leb_gt _ _)), (proj2 (Z.ltb_lt _ _)) by lia.
  assert (state_index slot field = state_index slot' field' <->
    slot mod 16 = slot' mod 16 /\ field mod 16 = field' mod 16) as Heq.
  { unfold state_index. change 0x0f with (Z.ones 4). rewrite !Z.land_ones by lia. change (2 ^ 4) with 16.
    pose proof (Z.mod_pos_bound slot 16 ltac:(lia)). pose proof (Z.mod_pos_bound field 16 ltac:(lia)).
    pose proof (Z.mod_pos_bound slot' 16 ltac:(lia)). pose proof (Z.mod_pos_bound field' 16 ltac:(lia)).
    rewrite !(wrap_small 32) by lia. lia. }
  destruct (decide (state_index slot field = state_index slot' field')) as [E|E].
  - destruct (proj1 Heq E) as [-> ->]. rewrite !Z.eqb_refl. cbn [andb]. rewrite E, nth_lookup.
    by rewrite list_lookup_insert_eq by lia.
  - assert ((slot mod 16 =? slot' mod 16) && (field mod 16 =? field' mod 16) = false) as ->.
    { apply andb_false_iff. destruct (Z.eqb_spec (slot mod 16) (slot' mod 16)); [right|by left].
      apply Z.eqb_neq. intros Hf. apply E, Heq. by split. }
    rewrite !nth_lookup, list_lookup_insert_ne by lia. done.
Qed.

Lemma length_state_set st slot field val : length (blyt32_state_set_u32 st slot field val) = length st.
Proof. unfold blyt32_state_set_u32. destruct (_ <? _); [apply length_insert|done]. Qed.

(** The forerunner of the comment: sixteen slots apart is the same word. *)
Lemma slots_alias st val : length st = 256%nat ->
  blyt32_state_get_u32 (blyt32_state_set_u32 st 16 1 val) 0 1 = val.
Proof. intros H. by rewrite state_get_set. Qed.

(** A frame number of ten digits runs below the array. *)
Lemma write_uint_underflows : write_uint 1000000000 = None /\ write_uint 999999999 = Some (cstr "999999999").
Proof. split; vm_compute; reflexivity. Qed.

(** ** The host and its file *)

(** What the system calls do to the save file: opening for writing empties it, a write
    appends a prefix of the bytes, a read delivers the bytes at the position; each
    may fail or stop short. *)
Class HostLaws {W} (h : host W) (file : W -> option (list Z)) (pos : W -> nat) : Prop := {
  host_open_write w : forall w' fd, sys_open_write h w = (w', fd) ->
    (fd < 0 /\ file w' = file w) \/ (0 <= fd /\ file w' = Some []);
  host_write fd bs w c : file w = Some c -> forall w' n, sys_write h fd bs w = (w', n) ->
    n <= Z.of_nat (length bs) /\ file w' = Some (c ++ take (Z.to_nat n) bs);
  host_open_read w : forall w' fd, sys_open_read h w = (w', fd) ->
    file w' = file w /\ (0 <= fd -> is_Some (file w) /\ pos w' = 0%nat);
  host_read fd want w c : file w = Some c -> forall w' n bs, sys_read h fd want w = (w', n, bs) ->
    file w' = file w /\
    (0 < n -> n <= want /\ take (Z.to_nat n) bs = slice (pos w) (Z.to_nat n) c /\
              Z.of_nat (pos w) + n <= Z.of_nat (length c) /\ pos w' = (pos w + Z.to_nat n)%nat);
  host_close fd w : file (sys_close h fd w) = file w;
}.

Section host.
Context {W : Type} (h : host W) (file : W -> option (list Z)) (pos : W -> nat) {laws : HostLaws h file pos}.

Lemma length_words st : length (concat (map (le_bytes 4) st)) = (4 * length st)%nat.
Proof. induction st as [|x st IH]; [done|]. cbn [map concat]. rewrite length_app, IH, length_le_bytes. cbn [length]. lia. Qed.

Lemma length_image frame st : length st = 256%nat -> length (save_image frame st) = SAVE_SIZE.
Proof. intros H. unfold save_image, SAVE_SIZE. rewrite length_app, length_words, length_le_bytes, H. done. Qed.

Definition word32 (x : Z) : Prop := 0 <= x < 2 ^ 32.

Lemma words_of_words st rest : Forall word32 st -> words_of (length st) (concat (map (le_bytes 4) st) ++ rest) = st.
Proof.
  induction 1 as [|x st Hx _ IH]; [done|]. cbn [map concat length words_of]. rewrite <-(assoc app).
  rewrite take_app_le, take_ge by (rewrite length_le_bytes; lia).
  rewrite drop_app_ge, length_le_bytes by (rewrite length_le_bytes; lia).
  rewrite le_val_le_bytes by exact Hx. by rewrite Nat.sub_diag, drop_0, IH.
Qed.

(** The write loop ends, and leaves a prefix in the file. *)
Lemma write_loop_ends fuel w fd rest :
  (length rest < fuel)%nat -> exists w' rest', write_loop h fuel w fd rest = Some (w', rest').
Proof.
  revert w rest. induction fuel as [|fuel IH]; intros w rest Hf; [lia|]. cbn [write_loop].
  destruct rest as [|b rest]; [by eauto|]. destruct (sys_write h fd _ w) as [w' n].
  destruct (Z.leb_spec n 0); [by eauto|]. apply IH. rewrite length_drop. cbn [length] in *. lia.
Qed.

Lemma write_loop_prefix fuel w fd rest c w' rest' :
  file w = Some c -> write_loop h fuel w fd rest = Some (w', rest') ->
  exists d, rest = d ++ rest' /\ file w' = Some (c ++ d).
Proof.
  revert w rest c. induction fuel as [|fuel IH]; intros w rest c Hc; cbn [write_loop]; [done|].
  destruct rest as [|b rest]; [intros [= <- <-]; exists []; split; [done|by rewrite app_nil_r]|].
  destruct (sys_write h fd _ w) as [w1 n] eqn:E.
  destruct (host_write _ _ _ _ Hc _ _ E) as [Hn Hf]. rewrite take_take in Hf.
  assert (Nat.min (Z.to_nat n) 512 = Z.to_nat n) as Hmin by (rewrite length_take in Hn; lia). rewrite Hmin in Hf.
  destruct (Z.leb_spec n 0).
  - intros [= <- <-]. exists []. split; [done|]. replace (Z.to_nat n) with 0%nat in Hf by lia. rewrite take_0 in Hf. done.
  - intros H1. destruct (IH _ _ _ Hf H1) as (d & Ed & Hd). exists (take (Z.to_nat n) (b :: rest) ++ d).
    rewrite <-(assoc app), <-Ed, take_drop, (assoc app). done.
Qed.

Lemma write_save_spec w frame st :
  length st = 256%nat ->
  exists w' ok, write_save h w frame st = Some (w', ok) /\
    ((ok = false /\ file w' = file w) \/
     (exists n, file w' = Some (take n (save_image frame st)) /\ (ok = true <-> (SAVE_SIZE <= n)%nat))).
Proof.
  intros Hl. unfold write_save. destruct (sys_open_write h w) as [w1 fd] eqn:E.
  destruct (host_open_write w _ _ E) as [[Hfd Hf]|[Hfd Hf]].
  { rewrite (proj2 (Z.ltb_lt _ _)) by done. do 2 eexists. split; [done|]. by left. }
  rewrite (proj2 (Z.ltb_ge _ _)) by done.
  destruct (write_loop_ends (S SAVE_SIZE) w1 fd (save_image frame st)) as (w2 & rest & Ew).
  { rewrite length_image by done. lia. }
  rewrite Ew. cbn [mbind option_bind]. do 2 eexists. split; [done|]. right.
  destruct (write_loop_prefix _ _ _ _ _ _ _ Hf Ew) as (d & Ed & Hd). cbn [app] in Hd.
  exists (length d). rewrite host_close, Hd, Ed, take_app_le, take_ge by lia. split; [done|].
  pose proof (length_image frame st Hl) as Hi. rewrite Ed, length_app in Hi. rewrite bool_decide_eq_true.
  destruct rest; cbn [length] in Hi; split; intros; try done; lia.
Qed.

Lemma read_loop_slice fuel w fd dst c w' dst' :
  file w = Some c -> pos w = length dst -> dst = take (length dst) c -> (length dst <= SAVE_SIZE)%nat ->
  read_loop h fuel w fd dst = Some (w', dst') ->
  file w' = file w /\ dst' = take (length dst') c /\ (length dst' <= SAVE_SIZE)%nat.
Proof.
  revert w dst. induction fuel as [|fuel IH]; intros w dst Hc Hp Hd Hl; cbn [read_loop]; [done|].
  destruct (Nat.ltb_spec (length dst) SAVE_SIZE); [|by intros [= <- <-]].
  cbn zeta. destruct (sys_read h fd _ w) as [[w1 n] bs] eqn:E.
  destruct (host_read _ _ _ _ Hc _ _ _ E) as [Hf Hr].
  destruct (Z.leb_spec n 0); [by intros [= <- <-]|].
  destruct (Hr ltac:(lia)) as (Hn & Hb & Hlen & Hpos). rewrite Hp in *.
  assert (length (take (Z.to_nat n) bs) = Z.to_nat n) as Hlb by (rewrite Hb, length_slice; lia).
  intros H1. rewrite <-Hf. apply (IH w1 (dst ++ take (Z.to_nat n) bs)); try done.
  - by rewrite Hf.
  - rewrite length_app, Hlb, Hpos. lia.
  - rewrite length_app, Hlb, Hb. unfold slice. rewrite take_drop_commute, Hd at 1.
    rewrite <-(take_drop (length dst) (take (length dst + Z.to_nat n) c)) at 2.
    by rewrite take_take, Nat.min_l by lia.
  - rewrite length_app, Hlb. lia.
Qed.

Lemma read_loop_ends fuel w fd dst c :
  file w = Some c -> pos w = length dst -> (SAVE_SIZE - length dst < fuel)%nat ->
  exists w' dst', read_loop h fuel w fd dst = Some (w', dst').
Proof.
  revert w dst. induction fuel as [|fuel IH]; intros w dst Hc Hp Hf; [lia|]. cbn [read_loop].
  destruct (Nat.ltb_spec (length dst) SAVE_SIZE); [|by eauto].
  cbn zeta. destruct (sys_read h fd _ w) as [[w1 n] bs] eqn:E.
  destruct (host_read _ _ _ _ Hc _ _ _ E) as [Hf1 Hr].
  destruct (Z.leb_spec n 0); [by eauto|].
  destruct (Hr ltac:(lia)) as (Hn & Hb & Hlen & Hpos).
  assert (length (take (Z.to_nat n) bs) = Z.to_nat n) as Hlb by (rewrite Hb, length_slice; lia).
  apply IH; [congruence|rewrite length_app; lia|rewrite length_app; lia].
Qed.

(** A start reads the whole of a long enough file, or nothing. *)
Lemma read_save_spec w :
  exists w' r, read_save h w = Some (w', r) /\ file w' = file w /\
    forall frame st, r = Some (frame, st) ->
      exists c, file w = Some c /\ (SAVE_SIZE <= length c)%nat /\
                frame = le_val (take 4 c) /\ st = words_of 256 (drop 4 (take SAVE_SIZE c)).
Proof.
  unfold read_save. destruct (sys_open_read h w) as [w1 fd] eqn:E.
  destruct (host_open_read w _ _ E) as [Hf Ho].
  destruct (Z.ltb_spec fd 0); [by exists w1, None|]. destruct (Ho ltac:(done)) as [[c Hc] Hp].
  assert (file w1 = Some c) as Hc1 by congruence.
  destruct (read_loop_ends (S SAVE_SIZE) w1 fd [] c) as (w2 & dst & Er); [congruence|done|change (length []) with 0%nat; lia|].
  rewrite Er. cbn [mbind option_bind].
  destruct (read_loop_slice (S SAVE_SIZE) w1 fd [] c _ _ Hc1 Hp eq_refl (Nat.le_0_l _) Er) as (Hf2 & Hd & Hl).
  do 2 eexists. split; [done|]. split; [by rewrite host_close, Hf2|].
  intros frame st. destruct (Nat.eqb_spec (length dst) SAVE_SIZE) as [Hs|]; [|done].
  intros Hx. apply (inj Some), pair_eq in Hx as [<- <-].
  exists c. rewrite Hs in Hd. subst dst. rewrite length_take in Hs.
  split_and!; [done|lia| |done]. by rewrite take_take, Nat.min_l by (unfold SAVE_SIZE; lia).
Qed.

Lemma image_read frame st c :
  length st = 256%nat -> Forall word32 st -> word32 frame -> c = save_image frame st ->
  le_val (take 4 c) = frame /\ words_of 256 (drop 4 (take SAVE_SIZE c)) = st.
Proof.
  intros Hl Hw Hf ->. rewrite (take_ge _ SAVE_SIZE) by (rewrite length_image; done).
  unfold save_image. rewrite take_app_le, take_ge by (rewrite length_le_bytes; lia).
  rewrite drop_app_ge, length_le_bytes by (rewrite length_le_bytes; lia). cbn [Nat.sub]. rewrite drop_0.
  split; [by apply le_val_le_bytes|].
  rewrite <-(app_nil_r (concat _)), <-Hl. by apply words_of_words.
Qed.
End host.

(** ** A cart without its host *)

(** The store, the log and the outcome do not depend on how saves end. *)
Fixpoint pure {A} (p : prog A) (st : list Z) : list Z * list logged * result A :=
  match p with
  | Ret a => (st, [], Done a)
  | Get slot field k => pure (k (blyt32_state_get_u32 st slot field)) st
  | Put slot field val k => pure k (blyt32_state_set_u32 st slot field val)
  | Save _ k => pure k st
  | Digest frame hi lo k =>
      match blyt_emit_digest frame hi lo with
      | Some line => let '(st, l, r) := pure k st in (st, Digest_line line :: l, r)
      | None => (st, [], Undefined)
      end
  | Print text k => let '(st, l, r) := pure k st in (st, Text text :: l, r)
  | Exit => (st, [], Exited)
  | Panic => (st, [], Undefined)
  end.

Definition pcall {M} (f : option (M -> prog M)) (m : M) (st : list Z) : list Z * list logged * result M :=
  match f with Some f => pure (f m) st | None => (st, [], Done m) end.

Definition pbind {A B} (x : list Z * list logged * result A) (k : A -> list Z -> list Z * list logged * result B)
  : list Z * list logged * result B :=
  match x with
  | (st, l, Done a) => let '(st, l', r) := k a st in (st, l ++ l', r)
  | (st, l, Exited) => (st, l, Exited)
  | (st, l, Undefined) => (st, l, Undefined)
  end.

Definition pframe (g : cart) (m : mem g) (st : list Z) : list Z * list logged * result (mem g) :=
  pbind (pcall (fc_cart_update g) m st) (pcall (fc_cart_draw g)).

Definition digests (l : list logged) : list (list Z) :=
  omap (fun e => match e with Digest_line t => Some t | Text _ => None end) l.

Lemma digests_app l l' : digests (l ++ l') = digests l ++ digests l'.
Proof. apply omap_app. Qed.

Definition zeros : list Z := repeat 0 256.

(** What a cart promises for its saves to work: [inv] ties its memory to the store so
    closely that two memories with the same store give the same digests, and
    [on_load] brings it about from the store alone. *)
Class Resumable (g : cart) (inv : list Z -> mem g -> Prop) : Prop := {
  res_store st m : inv st m -> length st = 256%nat /\ Forall word32 st;
  res_start : let '(st, _, r) := pcall (fc_cart_init g) (globals g) zeros in exists m, r = Done m /\ inv st m;
  res_load st m : inv st m ->
    exists l m', pcall (fc_cart_on_load g) (globals g) st = (st, l, Done m') /\ digests l = [] /\ inv st m';
  res_frame st m m' : inv st m -> inv st m' ->
    let '(s, l, r) := pframe g m st in
    let '(s', l', r') := pframe g m' st in
    s' = s /\ digests l' = digests l /\
    match r, r' with
    | Done a, Done a' => inv s a /\ inv s a'
    | Exited, Exited => True
    | _, _ => False
    end;
}.

Section resume.
Context {W : Type} (h : host W) (file : W -> option (list Z)) (pos : W -> nat) {laws : HostLaws h file pos}.

(** The console [c] went on to store [x], log [l] and outcome [r]. *)
Definition went {A} (c : @console W) (run : @console W * result A) (x : list Z * list logged * result A) : Prop :=
  let '(st, l, r) := x in
  exists w, run = (Console st w (log c ++ l), r) /\ length st = 256%nat.

Lemma run_pure {A} (p : prog A) (c : @console W) :
  length (state_store c) = 256%nat -> went c (run h p c) (pure p (state_store c)).
Proof.
  revert c. induction p as [a|s f k IH|s f v k IH|f k IH|f hi lo k IH|t k IH| |]; intros c Hl; cbn [run pure].
  - exists (world c). destruct c. cbn. by rewrite app_nil_r.
  - by apply IH.
  - apply (IH (Console (blyt32_state_set_u32 (state_store c) s f v) (world c) (log c))).
    exact (eq_trans (length_state_set _ _ _ _) Hl).
  - destruct (write_save_spec h file pos (world c) f (state_store c) Hl) as (w & ok & -> & _).
    apply (IH (Console _ w (log c)) Hl).
  - destruct (blyt_emit_digest f hi lo) as [line|].
    + specialize (IH (Console (state_store c) (world c) (log c ++ [Digest_line line])) Hl).
      cbn [state_store] in IH. destruct (pure k (state_store c)) as [[st l] r]. destruct IH as (w & E & Hs).
      exists w. rewrite E. cbn [log]. by rewrite <-(assoc app).
    + exists (world c). destruct c. cbn. by rewrite app_nil_r.
  - specialize (IH (Console (state_store c) (world c) (log c ++ [Text t])) Hl).
    cbn [state_store] in IH. destruct (pure k (state_store c)) as [[st l] r]. destruct IH as (w & E & Hs).
    exists w. rewrite E. cbn [log]. by rewrite <-(assoc app).
  - exists (world c). destruct c. cbn. by rewrite app_nil_r.
  - exists (world c). destruct c. cbn. by rewrite app_nil_r.
Qed.

Lemma call_pure {M} (f : option (M -> prog M)) m (c : @console W) :
  length (state_store c) = 256%nat -> went c (call h f m c) (pcall f m (state_store c)).
Proof.
  intros Hl. destruct f as [f|]; [by apply run_pure|].
  exists (world c). destruct c. cbn. by rewrite app_nil_r.
Qed.

Lemma bind_pure {A B} (c : @console W) x p (k : A -> @console W -> @console W * result B) pk :
  went c x p ->
  (forall a c', length (state_store c') = 256%nat -> went c' (k a c') (pk a (state_store c'))) ->
  went c (bind x k) (pbind p pk).
Proof.
  destruct p as [[st l] [a| |]]; intros (w & -> & Hs) Hk; cbn [bind pbind]; [|by exists w|by exists w].
  specialize (Hk a (Console st w (log c ++ l)) Hs). cbn [state_store] in Hk.
  destruct (pk a st) as [[st' l'] r]. destruct Hk as (w' & -> & Hs'). exists w'. cbn [log].
  by rewrite <-(assoc app).
Qed.

Lemma frame_pure g m (c : @console W) :
  length (state_store c) = 256%nat ->
  went c (bind (call h (fc_cart_update g) m c) (call h (fc_cart_draw g))) (pframe g m (state_store c)).
Proof. intros Hl. apply bind_pure; [by apply call_pure|]. intros a c' H. by apply call_pure. Qed.

Context {g : cart} {inv : list Z -> mem g -> Prop} {res : Resumable g inv}.

(** Two consoles with the same store, whose carts are in step. *)
Lemma frames_in_step k m m' (c c' : @console W) :
  state_store c' = state_store c -> inv (state_store c) m -> inv (state_store c) m' ->
  let '(c1, r1) := frames h g k m c in
  let '(c2, r2) := frames h g k m' c' in
  exists l l', log c1 = log c ++ l /\ log c2 = log c' ++ l' /\ digests l = digests l' /\
    state_store c2 = state_store c1 /\
    match r1, r2 with
    | Done a, Done a' => inv (state_store c1) a /\ inv (state_store c1) a'
    | Exited, Exited => True
    | _, _ => False
    end.
Proof.
  revert m m' c c'. induction k as [|k IH]; intros m m' c c' Es Hm Hm'; cbn [frames].
  { exists [], []. by rewrite !app_nil_r. }
  destruct (res_store _ _ Hm) as [Hl _].
  pose proof (frame_pure g m c Hl) as H1. pose proof (frame_pure g m' c' ltac:(by rewrite Es)) as H2.
  pose proof (res_frame _ _ _ Hm Hm') as Hf. rewrite Es in H2.
  destruct (pframe g m (state_store c)) as [[s l] r], (pframe g m' (state_store c)) as [[s' l'] r'].
  destruct H1 as (w1 & -> & _), H2 as (w2 & -> & _), Hf as (-> & Hd & Hr).
  destruct r as [a| |], r' as [a'| |]; try done; cbn [bind]; [|by exists l, l'].
  destruct Hr as [Ha Ha'].
  specialize (IH a a' (Console s w1 (log c ++ l)) (Console s w2 (log c' ++ l')) eq_refl Ha Ha').
  destruct (frames h g k a _) as [c1 r1], (frames h g k a' _) as [c2 r2].
  destruct IH as (l1 & l2 & E1 & E2 & Hdd & Hss & Hrr). exists (l ++ l1), (l' ++ l2).
  rewrite E1, E2, !digests_app, Hd, Hdd. cbn [log]. by rewrite !(assoc app).
Qed.

Lemma main_fresh n w0 : file w0 = None ->
  let '(c, r) := fc_console_main h g n (Console zeros w0 []) in
  match r with Done m => inv (state_store c) m | Exited => True | Undefined => False end.
Proof.
  intros Hf. unfold fc_console_main. cbn [world].
  destruct (read_save_spec h file pos w0) as (w & [[f st]|] & -> & _ & Hr).
  { destruct (Hr f st eq_refl) as (c & Hc & _). congruence. }
  pose proof (call_pure (fc_cart_init g) (globals g) (Console zeros w []) eq_refl) as H1.
  cbn [state_store log] in *. pose proof res_start as Hs.
  destruct (pcall (fc_cart_init g) (globals g) zeros) as [[st l] r].
  destruct H1 as (w1 & -> & _), Hs as (m & -> & Hm). cbn [bind].
  pose proof (frames_in_step n m m (Console st w1 ([] ++ l)) (Console st w1 ([] ++ l)) eq_refl Hm Hm) as H.
  destruct (frames h g n m _) as [c r]. destruct H as (_ & _ & _ & _ & _ & _ & Hr').
  destruct r; by try destruct Hr'.
Qed.

(** C12: A cart that keeps its promise goes on from the save file as if nothing had
    happened: if a fresh start has run [n] frames and the save file holds the frame
    number and the store of that moment, then a new process that can read the file
    emits, over any number of further frames, exactly the digest lines the first
    process goes on to emit, ends with the same store, and exits in the same
    frame; on the way nothing is undefined. *)
Theorem console_resumes n w0 c1 m frame w2 k
    (Hfresh : file w0 = None)
    (Hrun : fc_console_main h g n (Console zeros w0 []) = (c1, Done m))
    (Hframe : word32 frame)
    (Hfile : file w2 = Some (save_image frame (state_store c1)))
    (Hread : exists w3 x, read_save h w2 = Some (w3, Some x)) :
  let '(cs, rs) := frames h g k m c1 in
  let '(cl, rl) := fc_console_main h g k (Console zeros w2 []) in
  digests (log cs) = digests (log c1) ++ digests (log cl) /\
  state_store cl = state_store cs /\
  match rs, rl with Done _, Done _ => True | Exited, Exited => True | _, _ => False end.
Proof.
  pose proof (main_fresh n w0 Hfresh) as Hm. rewrite Hrun in Hm.
  destruct (res_store _ _ Hm) as [Hl Hw]. unfold fc_console_main. cbn [world log].
  destruct Hread as (w3 & [f st] & Hread).
  destruct (read_save_spec h file pos w2) as (w & r & E & _ & Hr). rewrite Hread in *. injection E as <- <-.
  destruct (Hr f st eq_refl) as (c & Hc & _ & -> & ->). rewrite Hfile in Hc. injection Hc as Hc.
  destruct (image_read frame (state_store c1) c Hl Hw Hframe (eq_sym Hc)) as [_ ->].
  destruct (res_load _ _ Hm) as (l & m' & Hload & Hd & Hm').
  pose proof (call_pure (fc_cart_on_load g) (globals g) (Console (state_store c1) w3 []) Hl) as H1.
  cbn [state_store log] in H1. rewrite Hload in H1. destruct H1 as (w4 & -> & _). cbn [bind].
  pose proof (frames_in_step k m m' c1 (Console (state_store c1) w4 ([] ++ l)) eq_refl Hm Hm') as H.
  destruct (frames h g k m c1) as [cs rs], (frames h g k m' _) as [cl rl].
  destruct H as (a & b & Ea & Eb & Hab & Hs & Hrr). cbn [log app] in Eb.
  rewrite Ea, Eb, !digests_app, Hd, Hab. split_and!; [done|done|]. by destruct rs, rl.
Qed.

(** C35: A save is all or nothing for the next start: whatever the system calls do -
    fail, stop short, deliver single bytes - the next process either restores
    exactly the frame and store that were saved, or starts afresh, or, when the
    file could not be opened for writing, finds the file as it was before; a save
    reported as complete leaves the whole image. *)
Theorem save_all_or_nothing w frame st w' ok w2
    (Hl : length st = 256%nat) (Hw : Forall word32 st) (Hf : word32 frame)
    (Hsave : write_save h w frame st = Some (w', ok)) (Hnext : file w2 = file w') :
  (ok = true -> file w' = Some (save_image frame st)) /\
  ((ok = false /\ file w' = file w) \/
   exists w3 r, read_save h w2 = Some (w3, r) /\ (r = None \/ r = Some (frame, st))).
Proof.
  destruct (write_save_spec h file pos w frame st Hl) as (w1 & ok1 & E & H).
  rewrite Hsave in E. injection E as <- <-. destruct H as [[-> Hs]|(n & Hn & Hok)].
  { split; [done|]. by left. }
  split. { intros E. rewrite Hn, take_ge; [done|]. rewrite length_image by done. by apply Hok. }
  right. destruct (read_save_spec h file pos w2) as (w3 & r & Er & _ & Hr). exists w3, r. split; [done|].
  destruct r as [[f s]|]; [right|by left]. destruct (Hr f s eq_refl) as (c & Hc & Hlen & -> & ->).
  rewrite Hnext, Hn in Hc. injection Hc as <-. rewrite length_take, length_image in Hlen by done.
  rewrite (take_ge _ n) by (rewrite length_image; [lia|done]).
  destruct (image_read frame st _ Hl Hw Hf eq_refl) as [-> ->]. done.
Qed.
End resume.

(** ** The alloc cart keeps the promise *)

Module AllocProof.
Import Alloc.

Definition ctr (st : list Z) : Z := nth 1 st 0.
Definition inner (st : list Z) : Z := nth 2 st 0.

Record in_step (st : list Z) (m : heap) : Prop := InStep {
  step_length : length st = 256%nat;
  step_words : Forall word32 st;
  step_ctr : 0 <= ctr st < NFRAMES;
  step_lookup : resource_lookup m = Some lookup;
  step_arc : arc_counter m = Some (inner st);
  step_grow : grow_vec m = Some (replay (ctr st));
  step_vec : exists a v, state_vec m = Some (a :: v);
}.

Definition next (st : list Z) : list Z := <[2%nat := u32 (inner st + 1)]> (<[1%nat := ctr st + 1]> st).

Definition line (st : list Z) : list Z :=
  let '(gv_len, gv_sum) := len_sum (Some (replay (ctr st + 1))) in
  let '(hi, lo) := fnv1a64 [ctr st + 1; 16; 0x12345678; inner (next st); gv_len; gv_sum] in
  default [] (blyt_emit_digest (ctr st) hi lo).

Lemma get_ctr st : blyt32_state_get_u32 st SLOT S_CTR = ctr st.
Proof. done. Qed.
Lemma get_inner st : blyt32_state_get_u32 st SLOT S_ARC_INNER = inner st.
Proof. done. Qed.
Lemma put_ctr st v : blyt32_state_set_u32 st SLOT S_CTR v = <[1%nat := v]> st.
Proof. done. Qed.
Lemma put_inner st v : blyt32_state_set_u32 st SLOT S_ARC_INNER v = <[2%nat := v]> st.
Proof. done. Qed.

Lemma ctr_next st : length st = 256%nat -> ctr (next st) = ctr st + 1.
Proof.
  intros Hl. unfold ctr, next. rewrite nth_lookup, list_lookup_insert_ne, list_lookup_insert_eq by (done || lia). done.
Qed.

Lemma inner_next st : length st = 256%nat -> inner (next st) = u32 (inner st + 1).
Proof.
  intros Hl. unfold inner at 1, next. rewrite nth_lookup, list_lookup_insert_eq; [done|].
  rewrite length_insert. lia.
Qed.

Lemma words_next st : length st = 256%nat -> Forall word32 st -> 0 <= ctr st < NFRAMES -> Forall word32 (next st).
Proof.
  intros Hl Hw Hc. unfold next. unfold NFRAMES in Hc.
  apply Forall_insert; [apply Forall_insert; [done|unfold word32; lia]|]. apply wrap_range. lia.
Qed.

(** [on_load]'s replay is what the updates have pushed. *)
Lemma replay_next c : 0 <= c -> replay (c + 1) = grow (replay c) (c + 1).
Proof.
  intros Hc. unfold replay. replace (Z.to_nat (c + 1)) with (S (Z.to_nat c)) by lia.
  rewrite seq_S, map_app, fold_left_app. cbn [map fold_left]. do 2 f_equal. lia.
Qed.

Lemma digit_count v : 0 <= v < NFRAMES -> is_Some (write_uint v).
Proof.
  unfold NFRAMES. intros Hv. assert (exists n : nat, (n < 30)%nat /\ v = Z.of_nat n) as (n & Hn & ->).
  { exists (Z.to_nat v). lia. }
  do 30 (destruct n as [|n]; [vm_compute; eauto|]). lia.
Qed.

(** A frame: the store, the digest line and the memory are those of the store. *)
Lemma update_pure st m : in_step st m ->
  exists texts, digests texts = [] /\
  pure (update m) st =
    (next st, texts ++ [Digest_line (line st)],
     if NFRAMES <=? ctr st + 1 then Exited
     else Done (Heap (Some lookup) (state_vec m) (Some (inner (next st))) (Some (replay (ctr st + 1))))).
Proof.
  intros []. destruct step_vec0 as (a & v & Hv). pose proof step_ctr0 as Hc. unfold NFRAMES in Hc.
  assert (pure (update m) st = pure (step m (ctr st)) st) as ->.
  { unfold update. cbn [pure]. rewrite get_ctr. by destruct (_ =? _). }
  unfold step. rewrite (wrap_small 32) by lia. cbn [pure]. rewrite step_arc0, put_ctr. cbn [pure]. rewrite put_inner.
  fold (next st). unfold emit. cbn [resource_lookup state_vec grow_vec].
  rewrite step_lookup0, step_grow0, Hv, <-replay_next by lia. unfold lookup at 1. cbn [repeat].
  change (0x12345678 :: _) with lookup.
  unfold line. cbn [len_first]. destruct (len_sum _) as [gv_len gv_sum]. cbn [pure]. rewrite get_inner.
  change (Z.of_nat (length lookup)) with 16. change (nth 0 lookup 0) with 0x12345678.
  rewrite (inner_next st) by done. destruct (fnv1a64 _) as [hi lo]. cbn [pure].
  destruct (digit_count (ctr st) step_ctr0) as [f Hf]. unfold blyt_emit_digest. rewrite Hf.
  cbn [mbind option_bind default].
  eexists [Text _; Text _; Text _; Text _; Text _]. split; [done|].
  by destruct (NFRAMES <=? ctr st + 1).
Qed.
End AllocProof.

#[export] Instance alloc_resumable : Resumable Alloc.alloc AllocProof.in_step.
Proof.
  split.
  - by intros st m [].
  - assert (pcall (fc_cart_init Alloc.alloc) (globals Alloc.alloc) zeros
      = (zeros, [], Done (Alloc.Heap (Some Alloc.lookup) (Some [0]) (Some 0) (Some [])))) as -> by (vm_compute; reflexivity).
    eexists. split; [reflexivity|]. constructor; cbn [Alloc.resource_lookup Alloc.arc_counter Alloc.grow_vec Alloc.state_vec].
    1,3-6: by vm_compute.
    + apply Forall_forall. intros x Hx. apply list_elem_of_In, repeat_spec in Hx as ->. unfold word32. lia.
    + by eexists _, _.
  - intros st m []. exists [], (Alloc.Heap (Some Alloc.lookup) (Some (repeat (AllocProof.ctr st) (Z.to_nat (AllocProof.ctr st mod 16 + 1))))
      (Some (AllocProof.inner st)) (Some (Alloc.replay (AllocProof.ctr st)))).
    split; [reflexivity|]. split; [reflexivity|].
    constructor; cbn [Alloc.resource_lookup Alloc.arc_counter Alloc.grow_vec Alloc.state_vec]; try assumption.
    1-3: reflexivity.
    pose proof (Z.mod_pos_bound (AllocProof.ctr st) 16 ltac:(lia)).
    replace (Z.to_nat (AllocProof.ctr st mod 16 + 1)) with (S (Z.to_nat (AllocProof.ctr st mod 16))) by lia.
    by eexists _, _.
  - intros st m m' Hm Hm'. 
    assert (forall m, pframe Alloc.alloc m st = pbind (pure (Alloc.update m) st) (fun a st => pure (Ret a) st)) as Hp
      by reflexivity.
    rewrite !Hp. clear Hp.
    destruct (AllocProof.update_pure st m Hm) as (t & Ht & ->), (AllocProof.update_pure st m' Hm') as (t' & Ht' & ->).
    assert (digests (t' ++ [Digest_line (AllocProof.line st)]) = digests (t ++ [Digest_line (AllocProof.line st)])) as Hd
      by by rewrite !digests_app, Ht, Ht'.
    destruct Hm as [Hl Hw Hc _ _ _ Hv], Hm' as [_ _ _ _ _ _ Hv'].
    destruct (Z.leb_spec Alloc.NFRAMES (AllocProof.ctr st + 1)); cbn [pbind pure]; [by rewrite ?app_nil_r|].
    rewrite !app_nil_r. split; [done|]. split; [done|].
    assert (forall v, (exists a w, v = Some (a :: w)) ->
      AllocProof.in_step (AllocProof.next st)
        (Alloc.Heap (Some Alloc.lookup) v (Some (AllocProof.inner (AllocProof.next st))) (Some (Alloc.replay (AllocProof.ctr st + 1))))) as Hn.
    { intros v Hvv. constructor; cbn [Alloc.resource_lookup Alloc.arc_counter Alloc.grow_vec Alloc.state_vec].
      - unfold AllocProof.next. by rewrite !length_insert.
      - by apply AllocProof.words_next.
      - rewrite AllocProof.ctr_next by done. lia.
      - reflexivity.
      - reflexivity.
      - by rewrite AllocProof.ctr_next.
      - exact Hvv. }
    split; by apply Hn.
Qed.

(** ** A host whose calls stop short *)

(** The file, the position, and how many bytes a call may move. *)
Record toy := Toy { toy_file : option (list Z); toy_pos : nat; toy_step : nat }.

Definition toy_host : host toy :=
  Host
    (fun w => match toy_file w with None => (w, -1) | Some c => (Toy (Some c) 0 (toy_step w), 3) end)
    (fun w => (Toy (Some []) 0 (toy_step w), 3))
    (fun fd want w =>
       let bs := take (Nat.min (toy_step w) (Z.to_nat want)) (drop (toy_pos w) (default [] (toy_file w))) in
       (Toy (toy_file w) (toy_pos w + length bs) (toy_step w), Z.of_nat (length bs), bs))
    (fun fd bs w =>
       let bs := take (toy_step w) bs in
       (Toy (option_map (fun c => c ++ bs) (toy_file w)) (toy_pos w) (toy_step w), Z.of_nat (length bs)))
    (fun fd w => w).

#[export] Instance toy_laws : HostLaws toy_host toy_file toy_pos.
Proof.
  split.
  - intros w w' fd [= <- <-]. by right.
  - intros fd bs w c Hc w' n [= <- <-]. cbn [toy_file]. rewrite Hc, length_take. cbn [option_map].
    split; [lia|]. rewrite Nat2Z.id. do 2 f_equal.
    destruct (Nat.le_ge_cases (toy_step w) (length bs)); [by rewrite Nat.min_l|].
    by rewrite Nat.min_r, !take_ge by lia.
  - intros w w' fd. cbn [sys_open_read toy_host]. destruct (toy_file w) as [c|] eqn:E; intros [= <- <-]; cbn [toy_file toy_pos].
    + split; [done|]. intros _. by split.
    + split; [done|]. lia.
  - intros fd want w c Hc w' n bs [= <- <- <-]. cbn [toy_file toy_pos]. split; [done|]. rewrite Hc.
    change (default [] (Some c)) with c. rewrite length_take, length_drop, Nat2Z.id. intros Hn. split_and!; [lia| |lia|done].
    unfold slice. rewrite take_take. f_equal. lia.
  - done.
Qed.

Definition fresh_toy : toy := Toy None 0 100.

(** The alloc cart saves in its sixth frame. *)
Lemma console_resumes_witness :
  let main := fc_console_main toy_host Alloc.alloc in
  let c1 := fst (main 5%nat (Console zeros fresh_toy [])) in
  let saved := world (fst (main 6%nat (Console zeros fresh_toy []))) in
  digests (log (fst (main 30%nat (Console zeros fresh_toy []))))
  = digests (log c1) ++ digests (log (fst (main 30%nat (Console zeros saved [])))) /\
  length (digests (log (fst (main 30%nat (Console zeros saved []))))) = 25%nat.
Proof.
  cbn zeta. set (saved := world (fst (fc_console_main toy_host Alloc.alloc 6%nat (Console zeros fresh_toy [])))).
  destruct (fc_console_main toy_host Alloc.alloc 5%nat (Console zeros fresh_toy [])) as [c1 r1] eqn:E.
  assert (exists m, r1 = Done m /\ (let '(cs, _) := frames toy_host Alloc.alloc 30%nat m c1 in
            log cs = log (fst (fc_console_main toy_host Alloc.alloc 30%nat (Console zeros fresh_toy [])))) /\
          toy_file saved = Some (save_image 5 (state_store c1))) as (m & -> & Hlog & Hf).
  { vm_compute in E. injection E as <- <-. eexists. split; [reflexivity|]. split; vm_compute; reflexivity. }
  pose proof (console_resumes toy_host toy_file toy_pos (g := Alloc.alloc) 5 fresh_toy c1 m 5 saved 30
    eq_refl E ltac:(split; vm_compute; congruence) Hf ltac:(vm_compute; eauto)) as H.
  destruct (frames toy_host Alloc.alloc 30 m c1) as [cs rs].
  destruct (fc_console_main toy_host Alloc.alloc 30 (Console zeros saved [])) as [cl rl] eqn:El.
  cbn [fst]. rewrite <-Hlog. split; [exact (proj1 H)|].
  change cl with (fst (cl, rl)). rewrite <-El. vm_compute. reflexivity.
Defined.

Lemma save_all_or_nothing_witness :
  exists w' ok w3 r, write_save toy_host fresh_toy 7 zeros = Some (w', ok) /\
    read_save toy_host w' = Some (w3, r) /\ (r = None \/ r = Some (7, zeros)).
Proof.
  destruct (write_save toy_host fresh_toy 7 zeros) as [[w' ok]|] eqn:E; [|vm_compute in E; discriminate E].
  pose proof (save_all_or_nothing toy_host toy_file toy_pos fresh_toy 7 zeros w' ok w' eq_refl
    ltac:(apply Forall_forall; intros x Hx; apply list_elem_of_In, repeat_spec in Hx; subst x; split; vm_compute; congruence)
    ltac:(split; vm_compute; congruence) E eq_refl) as [_ [[-> _]|(w3 & r & Hr & Hx)]].
  - vm_compute in E. discriminate E.
  - exists w', ok, w3, r. split; [reflexivity|]. split; [exact Hr|exact Hx].
Defined.

(** ** The forerunner (spike o): every call echoes its arguments *)

Module Stub.
Definition blyt32_image_load (resource : Z) : list Z * Z :=
  (cstr "IMAGE_LOAD res=" ++ write_hex8 resource ++ [10], resource).

Definition blyt32_image_blit (image x y flags : Z) : option (list Z) :=
  xs ← write_uint (u32 x);
  ys ← write_uint (u32 y);
  Some (cstr "IMAGE_BLIT img=" ++ write_hex8 image ++ cstr " x=" ++ xs ++ cstr " y=" ++ ys ++
        cstr " fl=" ++ write_hex8 flags ++ [10]).

Definition blyt32_audio_sfx_play (resource : Z) : list Z * Z :=
  (cstr "SFX_PLAY res=" ++ write_hex8 resource ++ [10], resource).

(** [bits]: the float as it arrives in its register. *)
Definition blyt32_audio_sfx_set_volume (voice bits : Z) : list Z :=
  cstr "SET_VOL voice=" ++ write_hex8 voice ++ cstr " vol=" ++ write_hex8 bits ++ [10].

Definition stub_index (slot field : Z) : Z := u32 (Z.land slot 0xff * 16 + Z.land field 0xff).

(** [None]: outside of the 256 words. *)
Definition state_get_u32 (st : list Z) (slot field : Z) : option Z := st !! Z.to_nat (stub_index slot field).

Definition state_set_u32 (st : list Z) (slot field val : Z) : option (list Z) :=
  if stub_index slot field <? 256 then Some (<[Z.to_nat (stub_index slot field) := val]> st) else None.

(** [h ^= (v >> (i * 8)) & 0xff; h *= prime], four times. *)
Definition hash_word (h v : Z) : Z :=
  fold_left (fun h i => u64 (Z.lxor h (Z.land (v ≫ (i * 8)) 0xff) * 0x00000100000001b3)) [0; 1; 2; 3] h.

Definition frame_state_emit_digest_simple (frame val : Z) : option (list Z) :=
  let h := hash_word (hash_word 0xcbf29ce484222325 frame) val in
  f ← write_uint frame;
  Some (cstr "DIGEST " ++ f ++ [32] ++ write_hex8 (u32 (h ≫ 32)) ++ write_hex8 (u32 (Z.land h 0xffffffff)) ++ [10]).

Definition NFRAMES : nat := 30.

(** The cart's functions, which are called without asking whether they are there. *)
Fixpoint rounds {S} (update draw : option (S -> S * list Z)) (n : nat) (s : S) (out : list Z) : option (S * list Z) :=
  match n with
  | O => Some (s, out)
  | Datatypes.S n =>
      update' ← update;
      let '(s, o1) := update' s in
      draw' ← draw;
      let '(s, o2) := draw' s in
      rounds update draw n s (out ++ o1 ++ o2)
  end.

Definition fc_console_main {S} (init update draw : option (S -> S * list Z)) (s : S) : option (S * list Z) :=
  init' ← init;
  let '(s, o) := init' s in
  '(s, out) ← rounds update draw NFRAMES s o;
  Some (s, out ++ cstr "OK" ++ [10]).

Lemma hash_word_fnv h v : hash_word h v = fold_left fnv1a_step (le_bytes 4 v) h.
Proof.
  unfold hash_word. cbn [fold_left le_bytes]. unfold fnv1a_step.
  assert (forall i, 0 <= i -> Z.land (v ≫ (i * 8)) 0xff = (v / 256 ^ i) mod 256) as E.
  { intros i Hi. change 0xff with (Z.ones 8). rewrite Z.land_ones, Z.shiftr_div_pow2 by lia. do 2 f_equal.
    rewrite (Z.mul_comm i), Z.pow_mul_r by lia. done. }
  rewrite !E by lia. rewrite !Z.div_div by lia. by rewrite Z.pow_0_r, Z.div_1_r.
Qed.

Lemma low_word h : u32 (Z.land h 0xffffffff) = u32 h.
Proof.
  assert (0xffffffff = Z.ones 32) as -> by reflexivity.
  rewrite Z.land_ones by lia. apply wrap_wrap. lia.
Qed.

(** The digest is that of the two words' bytes, lowest first. *)
Lemma simple_digest frame val :
  frame_state_emit_digest_simple frame val =
  let h := fnv1a_64 (le_bytes 4 frame ++ le_bytes 4 val) in
  blyt_emit_digest frame (u32 (h ≫ 32)) (u32 h).
Proof.
  unfold frame_state_emit_digest_simple, blyt_emit_digest, fnv1a_64.
  rewrite fold_left_app, <-!hash_word_fnv. unfold FNV1A_64_OFFSET.
  generalize (hash_word (hash_word 0xcbf29ce484222325 frame) val) as h. intros h. cbn zeta. by rewrite low_word.
Qed.

(** Sixteen fields a slot, 256 words in all: slot 16 lies behind the array, and a field
    of 16 or more in the next slot. *)
Lemma stub_out_of_range st : length st = 256%nat ->
  state_get_u32 st 16 0 = None /\ state_set_u32 st 16 0 1 = None /\ state_get_u32 st 0 16 = state_get_u32 st 1 0.
Proof. intros H. unfold state_get_u32. split; [by apply lookup_ge_None_2; rewrite H|]. by split. Qed.
End Stub.
