(* ===== verification/Hybrid.v ===== *)
(** * The hybrid Lua host (spikes/spike-q/cases/wasm_trampoline/libconsolelua_wasm_hybrid.c)

    A Rust cart exports functions to Lua: [blyt_hybrid_init] finds the [.lua_exports]
    section of the cart's ELF file, resolves each export's address in the symbol
    table, and puts a table of trampolines per module where [require] finds it; a
    trampoline passes its Lua arguments to the emulated function and pushes the
    result.  The file is a list of bytes, a read outside of it undefined ([None]);
    the emulator, Lua's argument conversions and the loaders in [_PRELOAD] are
    parameters. *)

From stdpp Require Import gmap.
From S2P Require Import Prelude HostString.
Open Scope Z_scope.

Definition EXPORT_MODULE_LEN : nat := 32.
Definition EXPORT_NAME_LEN : nat := 32.
Definition EXPORT_ENTRY_SIZE : Z := 80.
Definition ARG_TYPE_END : Z := 0.
Definition ARG_TYPE_F32 : Z := 2.
Definition MAX_TRAMPOLINES : nat := 32.

(** ** The ELF file *)

(** A field of [n] bytes at an offset. *)
Definition field (d : list Z) (off : Z) (n : nat) : option Z :=
  if (0 <=? off) && (off + Z.of_nat n <=? Z.of_nat (length d))
  then Some (le_val (slice (Z.to_nat off) n d)) else None.

(** [strcmp(d + off, s) == 0]; the comparison stops at the first difference. *)
Fixpoint strcmp_at (s : list Z) (d : list Z) : option bool :=
  match d with
  | [] => None
  | c :: d =>
      match s with
      | [] => Some (c =? 0)
      | a :: s => if c =? a then strcmp_at s d else Some false
      end
  end.

Definition from (d : list Z) (off : Z) : list Z := drop (Z.to_nat off) d.

Definition SHT_SYMTAB : Z := 2.
Definition STT_FUNC : Z := 2.
Definition EHDR_SIZE : Z := 52.
Definition SHDR_SIZE : Z := 40.
Definition SYM_SIZE : Z := 16.

Definition e_shoff (d : list Z) : option Z := field d 32 4.
Definition e_shnum (d : list Z) : option Z := field d 48 2.
Definition e_shstrndx (d : list Z) : option Z := field d 50 2.

(** [shdrs[i].name] and so on: the word at [off] of header [i]. *)
Definition sh (d : list Z) (i off : Z) : option Z :=
  shoff ← e_shoff d; field d (shoff + SHDR_SIZE * i + off) 4.
Definition sh_name (d : list Z) (i : Z) := sh d i 0.
Definition sh_type (d : list Z) (i : Z) := sh d i 4.
Definition sh_offset (d : list Z) (i : Z) := sh d i 16.
Definition sh_size (d : list Z) (i : Z) := sh d i 20.
Definition sh_link (d : list Z) (i : Z) := sh d i 24.
Definition sh_entsize (d : list Z) (i : Z) := sh d i 36.

(** From header [i] on, [n] headers. *)
Fixpoint find_from (d secname : list Z) (shstr : Z) (n : nat) (i : Z) : option (option (Z * Z)) :=
  match n with
  | O => Some None
  | S n =>
      name ← sh_name d i;
      eq ← strcmp_at secname (from d (shstr + name));
      if (eq : bool) then size ← sh_size d i; off ← sh_offset d i; Some (Some (off, size))
      else find_from d secname shstr n (i + 1)
  end.

(** The section's offset and size, or that there is none. *)
Definition elf_find_section (d secname : list Z) : option (option (Z * Z)) :=
  if Z.of_nat (length d) <? EHDR_SIZE then Some None
  else
    shoff ← e_shoff d; shnum ← e_shnum d; shstrndx ← e_shstrndx d;
    if (shoff =? 0) || (shnum <=? shstrndx) then Some None
    else
      shstr ← sh_offset d shstrndx;
      find_from d secname shstr (Z.to_nat shnum) 0.

(** The symbols [si], [si + 1], ... of a table: the value of the first function of that
    name. *)
Fixpoint find_symbol (d symname : list Z) (strtab table ent : Z) (n : nat) (si : Z) : option (option Z) :=
  match n with
  | O => Some None
  | S n =>
      let sym := table + u32 (si * ent) in
      value ← field d (sym + 4) 4;
      if value =? 0 then find_symbol d symname strtab table ent n (si + 1)
      else
        info ← field d (sym + 12) 1;
        if negb (Z.land info 0xf =? STT_FUNC) then find_symbol d symname strtab table ent n (si + 1)
        else
          name ← field d sym 4;
          eq ← strcmp_at symname (from d (strtab + name));
          if (eq : bool) then Some (Some value) else find_symbol d symname strtab table ent n (si + 1)
  end.

Fixpoint symbol_tables (d symname : list Z) (n : nat) (i : Z) : option Z :=
  match n with
  | O => Some 0
  | S n =>
      type ← sh_type d i;
      if negb (type =? SHT_SYMTAB) then symbol_tables d symname n (i + 1)
      else
        link ← sh_link d i;
        strtab ← sh_offset d link;
        entsize ← sh_entsize d i;
        let ent := if entsize =? 0 then SYM_SIZE else entsize in
        size ← sh_size d i;
        table ← sh_offset d i;
        found ← find_symbol d symname strtab table ent (Z.to_nat (size / ent)) 0;
        match found with
        | Some value => Some value
        | None => symbol_tables d symname n (i + 1)
        end
  end.

Definition elf_sym_addr (d symname : list Z) : option Z :=
  if Z.of_nat (length d) <? EHDR_SIZE then Some 0
  else shnum ← e_shnum d; symbol_tables d symname (Z.to_nat shnum) 0.

(** ** The trampoline table *)

Record trampoline_t := Trampoline {
  module : list Z;
  name : list Z;
  sym_addr : Z;
  arg_types : list Z;
  ret_type : Z;
}.

(** The C string that starts in an array and goes on behind it when the array has no
    NUL. *)
Definition text_at (d : list Z) (off : Z) : list Z := c_string (from d off).

(** [strncpy(tr->module, e->module, 31)] into a zeroed array. *)
Definition strncpy31 (d : list Z) (off : Z) : list Z := c_string (slice (Z.to_nat off) 31 d).

(** The entries from [sec] on, [n] at most; [tramps] are the trampolines so far. *)
Fixpoint register_exports (d : list Z) (n : nat) (e : Z) (tramps : list trampoline_t)
  : option (list trampoline_t) :=
  match n with
  | O => Some tramps
  | S n =>
      if negb (length tramps <? MAX_TRAMPOLINES)%nat then Some tramps
      else
        addr ← field d (e + 64) 4;
        first ← field d e 1;
        if (addr =? 0) && (first =? 0) then Some tramps
        else if addr =? 0 then register_exports d n (e + EXPORT_ENTRY_SIZE) tramps
        else
          resolved ← elf_sym_addr d (text_at d (e + 32));
          _ ← field d (e + 72) 1;
          let a := if resolved =? 0 then addr else resolved in
          let t := Trampoline (strncpy31 d e) (strncpy31 d (e + 32)) a
                     (slice (Z.to_nat (e + 68)) 4 d) (nth (Z.to_nat (e + 72)) d 0) in
          register_exports d n (e + EXPORT_ENTRY_SIZE) (tramps ++ [t])
  end.

(** ** Lua's side *)

(** A function pointer of [s_tramp_fns]: sixteen are there, the others are NULL. *)
Definition s_tramp_fns (j : nat) : option nat := if (j <? 16)%nat then Some j else None.

Abbreviation table := (gmap (list Z) (option nat)).

(** What [_LOADED] holds under a name. *)
Inductive loaded_value := Library | Exports (t : table) | Value (v : Z).
Abbreviation loaded := (gmap (list Z) loaded_value).

(** The trampolines from number [j] on whose module is [mod_], into the table [t]; the
    rest begins with another module. *)
Fixpoint fill (mod_ : list Z) (j : nat) (tramps : list trampoline_t) (t : table)
  : table * nat * list trampoline_t :=
  match tramps with
  | tr :: rest =>
      if bool_decide (module tr = mod_) then fill mod_ (S j) rest (<[name tr := s_tramp_fns j]> t)
      else (t, j, tramps)
  | [] => (t, j, [])
  end.

(** The loop over the modules; a run of one module has a trampoline at least. *)
Fixpoint register_modules (fuel : nat) (j : nat) (tramps : list trampoline_t) (l : loaded) : option loaded :=
  match tramps with
  | [] => Some l
  | tr :: rest =>
      match fuel with
      | O => None
      | S fuel =>
          let '(t, j', rest) := fill (module tr) (S j) rest (<[name tr := s_tramp_fns j]> ∅) in
          register_modules fuel j' rest (<[module tr := Exports t]> l)
      end
  end.

(** What the initialisation says, and the tables it leaves. *)
Inductive init_result :=
  | Failed (message : list Z)
  | Ready (tramps : list trampoline_t) (l : loaded).

(** [elf]: the file, if it opens and reads in full ([Some (Some d)]); [rv]: the machine
    was created. *)
Definition blyt_hybrid_init (elf : option (option (list Z))) (rv : bool) (l : loaded) : option init_result :=
  match elf with
  | None => Some (Failed (cstr "FAIL: blyt_hybrid_init: cannot open /rust_cart.elf" ++ [10]))
  | Some None => Some (Failed (cstr "FAIL: blyt_hybrid_init: short read" ++ [10]))
  | Some (Some d) =>
      if negb rv then Some (Failed (cstr "FAIL: blyt_hybrid_init: rv_create failed" ++ [10]))
      else
        sec ← elf_find_section d (cstr ".lua_exports");
        match sec with
        | None => Some (Failed (cstr "FAIL: blyt_hybrid_init: .lua_exports section not found" ++ [10]))
        | Some (off, size) =>
            tramps ← register_exports d (Z.to_nat (size / EXPORT_ENTRY_SIZE)) off [];
            l ← register_modules (length tramps) 0 tramps l;
            Some (Ready tramps l)
        end
  end.

(** [(int32_t)f]: truncation; undefined outside of the range. *)
Definition truncate_f32 (bits : Z) : option Z :=
  let e := Z.land (bits ≫ 23) 0xff in
  let m := Z.lor (Z.land bits 0x7fffff) 0x800000 in
  let v := if e <? 127 then 0 else if e <? 150 then m ≫ (150 - e) else m ≪ (e - 150) in
  let v := if Z.testbit bits 31 then - v else v in
  if (e =? 0xff) || (v <? - 2 ^ 31) || (2 ^ 31 <=? v) then None else Some v.

Section calls.
(** The emulator: [rv32emu_call_fn] on its machine [M] with the typed arguments; the
    stack's arguments as [lua_tointeger] and as the bits of [(float)lua_tonumber]. *)
Context {M : Type} (rv32emu_call_fn : M -> Z -> list (bool * Z) -> bool -> M * Z).

(** [nargs] arguments so far. *)
Fixpoint marshal (types : list Z) (i : nat) (to_integer to_float : nat -> Z) : list (bool * Z) :=
  match types with
  | [] => []
  | t :: types =>
      if t =? ARG_TYPE_END then []
      else
        (if t =? ARG_TYPE_F32 then (true, to_float (S i)) else (false, u32 (to_integer (S i)))) ::
        marshal types (S i) to_integer to_float
  end.

(** The integer the trampoline pushes. *)
Definition trampoline_call (tramps : list trampoline_t) (tidx : nat) (to_integer to_float : nat -> Z) (m : M)
  : option (M * Z) :=
  tr ← tramps !! tidx;
  let ret_is_float := ret_type tr =? ARG_TYPE_F32 in
  let '(m, ret) := rv32emu_call_fn m (sym_addr tr) (marshal (arg_types tr) 0 to_integer to_float) ret_is_float in
  v ← if ret_is_float then truncate_f32 ret else Some (i32 ret);
  Some (m, v).

(** [loader]: the function under a name in [_PRELOAD] and what it returns, nil perhaps. *)
Definition l_require (loader : list Z -> option (option loaded_value)) (modname : list Z) (l : loaded)
  : loaded * (loaded_value + list Z) :=
  match l !! modname with
  | Some v => (l, inl v)
  | None =>
      match loader modname with
      | None => (l, inr (cstr "module '" ++ modname ++ cstr "' not found"))
      | Some v =>
          let v := default (Value 1) v in
          (<[modname := v]> l, inl v)
      end
  end.
End calls.

(** ** Filling the module tables *)

Fixpoint insert_all (j : nat) (run : list trampoline_t) (t : table) : table :=
  match run with
  | [] => t
  | tr :: run => insert_all (S j) run (<[name tr := s_tramp_fns j]> t)
  end.

Lemma insert_all_other j run t n : n ∉ map name run -> insert_all j run t !! n = t !! n.
Proof.
  revert j t. induction run as [|tr run IH]; intros j t Hn; [done|]. cbn [insert_all].
  cbn [map] in Hn. apply not_elem_of_cons in Hn as [Hne Hn]. rewrite IH by done.
  by rewrite lookup_insert_ne.
Qed.

Lemma insert_all_in j run t k tr :
  NoDup (map name run) -> run !! k = Some tr -> insert_all j run t !! name tr = Some (s_tramp_fns (j + k)).
Proof.
  revert j t k. induction run as [|tr' run IH]; intros j t k Hd Hk; [done|]. cbn [map] in Hd.
  apply NoDup_cons in Hd as [Hn Hd]. cbn [insert_all]. destruct k as [|k]; cbn in Hk.
  - injection Hk as ->. by rewrite insert_all_other, lookup_insert_eq, Nat.add_0_r.
  - rewrite (IH _ _ _ Hd Hk). do 2 f_equal. lia.
Qed.

Definition starts_other (m : list Z) (rest : list trampoline_t) : Prop :=
  match rest with [] => True | tr :: _ => module tr <> m end.

Lemma fill_run m j run rest t :
  Forall (fun tr => module tr = m) run -> starts_other m rest ->
  fill m j (run ++ rest) t = (insert_all j run t, (j + length run)%nat, rest).
Proof.
  intros Hr Ho. revert j t. induction Hr as [|tr run Hm _ IH]; intros j t.
  - cbn [app length insert_all]. rewrite Nat.add_0_r. destruct rest as [|tr rest]; [done|].
    cbn [fill]. cbn in Ho. by rewrite bool_decide_eq_false_2.
  - cbn [app fill length insert_all]. rewrite bool_decide_eq_true_2, IH by done. do 2 f_equal. lia.
Qed.

(** The exports of every module stand together, under different names. *)
Record grouped (gs : list (list Z * list trampoline_t)) : Prop := Grouped {
  groups_run : Forall (fun g => snd g <> [] /\ Forall (fun tr => module tr = fst g) (snd g) /\
                                NoDup (map name (snd g))) gs;
  groups_once : NoDup (map fst gs);
}.

Lemma grouped_cons g gs : grouped (g :: gs) ->
  (snd g <> [] /\ Forall (fun tr => module tr = fst g) (snd g) /\ NoDup (map name (snd g))) /\
  fst g ∉ map fst gs /\ grouped gs.
Proof.
  intros [H1 H2]. inversion_clear H1. cbn [map] in H2. apply NoDup_cons in H2 as [? ?]. split; [done|]. split; [done|]. by constructor.
Qed.

Lemma next_starts_other m gs :
  grouped gs -> m ∉ map fst gs -> starts_other m (concat (map snd gs)).
Proof.
  destruct gs as [|g gs]; [done|]. intros ((Hne & Hall & _) & _)%grouped_cons Hm. cbn [map concat].
  destruct (snd g) as [|tr run]; [done|]. cbn. inversion_clear Hall. cbn [map] in Hm.
  apply not_elem_of_cons in Hm as [Hm _]. congruence.
Qed.

Lemma register_modules_spec gs fuel j l :
  grouped gs -> (length (concat (map snd gs)) <= fuel)%nat ->
  exists l', register_modules fuel j (concat (map snd gs)) l = Some l' /\
    (forall m, m ∉ map fst gs -> l' !! m = l !! m) /\
    forall g pre post, gs = pre ++ g :: post ->
      l' !! fst g = Some (Exports (insert_all (j + length (concat (map snd pre))) (snd g) ∅)).
Proof.
  revert fuel j l. induction gs as [|g gs IH]; intros fuel j l Hg Hf.
  { cbn [map concat]. exists l. destruct fuel; (split; [done|]; split; [done|]; by intros g [|? ?] post). }
  destruct (grouped_cons _ _ Hg) as ((Hne & Hall & Hnd) & Hm & Hgs).
  pose proof (next_starts_other _ _ Hgs Hm) as Ho. cbn [map concat] in *.
  destruct (snd g) as [|tr run] eqn:Eg; [done|]. inversion_clear Hall as [|? ? Htr Hrun].
  cbn [app length] in *. destruct fuel as [|fuel]; [lia|]. cbn [register_modules].
  rewrite Htr, (fill_run (fst g)) by done.
  rewrite length_app in Hf.
  destruct (IH fuel (S j + length run)%nat (<[fst g := Exports (insert_all (S j) run (<[name tr := s_tramp_fns j]> ∅))]> l) Hgs ltac:(lia))
    as (l' & -> & Hother & Hin).
  exists l'. split; [done|]. split.
  - intros m [Hmg Hmgs]%not_elem_of_cons. rewrite Hother by done. by rewrite lookup_insert_ne.
  - intros g' pre post E. destruct pre as [|g0 pre]; cbn [app] in E; injection E as E1 E2.
    + subst g'. rewrite Hother by done. rewrite lookup_insert_eq, Eg. cbn [map concat length]. by rewrite Nat.add_0_r.
    + subst g0. rewrite (Hin g' pre post E2). cbn [map concat]. rewrite Eg, length_app. cbn [length]. do 3 f_equal. lia.
Qed.

(** ** Reading the entries *)

(** An export as the cart's toolchain lays it out; [pad] are the bytes nobody reads. *)
Record export := Export {
  x_module : list Z; x_name : list Z; x_addr : Z; x_args : list Z; x_ret : Z; x_pad : list Z;
}.

Definition array32 (s : list Z) : list Z := s ++ repeat 0 (32 - length s).

Definition encode (x : export) : list Z :=
  array32 (x_module x) ++ array32 (x_name x) ++ le_bytes 4 (x_addr x) ++ x_args x ++ [x_ret x] ++ x_pad x.

Record export_ok (x : export) : Prop := ExportOk {
  ok_module : cstring (x_module x) /\ (length (x_module x) <= 31)%nat;
  ok_name : cstring (x_name x) /\ (length (x_name x) <= 31)%nat;
  ok_addr : 0 < x_addr x < 2 ^ 32;
  ok_args : length (x_args x) = 4%nat;
  ok_pad : length (x_pad x) = 7%nat;
}.

Lemma length_array32 s : (length s <= 32)%nat -> length (array32 s) = 32%nat.
Proof. intros H. unfold array32. rewrite length_app, repeat_length. lia. Qed.

Lemma length_encode x : export_ok x -> length (encode x) = 80%nat.
Proof.
  intros []. unfold encode. rewrite !length_app, !length_array32, length_le_bytes by lia. cbn [length]. lia.
Qed.

Lemma c_string_array s rest : cstring s -> (length s < 32)%nat -> c_string (array32 s ++ rest) = s.
Proof.
  intros Hs Hl. unfold array32. replace (32 - length s)%nat with (S (31 - length s)) by lia.
  rewrite <-(assoc app). cbn [repeat app].
  clear Hl. generalize (repeat 0 (31 - length s) ++ rest) as r. intros r.
  induction Hs as [|c s Hc _ IH]; [done|]. cbn [app c_string]. by rewrite (proj2 (Z.eqb_neq _ _) Hc), IH.
Qed.

Lemma c_string_zeros s n : cstring s -> c_string (s ++ repeat 0 n) = s.
Proof.
  induction 1 as [|c s Hc _ IH]; [by destruct n|]. cbn [app c_string].
  by rewrite (proj2 (Z.eqb_neq _ _) Hc), IH.
Qed.

Lemma take_zeros a b : take a (repeat 0 b) = repeat 0 (Nat.min a b).
Proof. revert b. induction a as [|a IH]; intros [|b]; cbn; [done..|]. by rewrite IH. Qed.

Lemma c_string_take s : cstring s -> (length s <= 31)%nat -> c_string (take 31 (array32 s)) = s.
Proof. intros Hs Hl. unfold array32. rewrite take_app_ge, take_zeros by lia. by apply c_string_zeros. Qed.

Lemma slice_mid {A} (pre mid post : list A) : slice (length pre) (length mid) (pre ++ mid ++ post) = mid.
Proof. rewrite <-(Nat.add_0_r (length pre)), slice_app_r. by apply slice_app_l. Qed.

Lemma field_mid pre bs post off n :
  off = Z.of_nat (length pre) -> length bs = n -> field (pre ++ bs ++ post) off n = Some (le_val bs).
Proof.
  intros -> <-. unfold field. rewrite !length_app, (proj2 (Z.leb_le _ _)), (proj2 (Z.leb_le _ _)) by lia.
  cbn [andb]. by rewrite Nat2Z.id, slice_mid.
Qed.

Definition resolve (res : export -> Z) (x : export) : trampoline_t :=
  Trampoline (x_module x) (x_name x) (if res x =? 0 then x_addr x else res x) (x_args x) (x_ret x).

Section entry.
Context (d pre post : list Z) (x : export) (ok : export_ok x) (Hd : d = pre ++ encode x ++ post).

Let e := Z.of_nat (length pre).

(** The pieces of an entry, each as the middle of the file. *)
Lemma entry_pieces :
  field d e 1 <> None /\ field d (e + 64) 4 = Some (x_addr x) /\ field d (e + 72) 1 <> None /\
  strncpy31 d e = x_module x /\ strncpy31 d (e + 32) = x_name x /\ text_at d (e + 32) = x_name x /\
  slice (Z.to_nat (e + 68)) 4 d = x_args x /\ nth (Z.to_nat (e + 72)) d 0 = x_ret x.
Proof.
  destruct ok as [[Hm Hml] [Hn Hnl] Ha Hargs Hpad]. subst e.
  pose proof (length_array32 (x_module x) ltac:(lia)) as L1. pose proof (length_array32 (x_name x) ltac:(lia)) as L2.
  set (am := array32 (x_module x)) in *. set (an := array32 (x_name x)) in *.
  assert (exists m0 am', am = m0 :: am') as (m0 & am' & Em) by (destruct am; [done|eauto]).
  assert (E1 : d = pre ++ am ++ (an ++ le_bytes 4 (x_addr x) ++ x_args x ++ [x_ret x] ++ x_pad x ++ post)).
  { rewrite Hd. unfold encode. fold am an. by rewrite <-!(assoc app). }
  assert (E2 : d = (pre ++ am) ++ an ++ (le_bytes 4 (x_addr x) ++ x_args x ++ [x_ret x] ++ x_pad x ++ post))
    by (rewrite E1; by rewrite <-!(assoc app)).
  assert (E3 : d = (pre ++ am ++ an) ++ le_bytes 4 (x_addr x) ++ (x_args x ++ [x_ret x] ++ x_pad x ++ post))
    by (rewrite E1; by rewrite <-!(assoc app)).
  assert (E4 : d = (pre ++ am ++ an ++ le_bytes 4 (x_addr x)) ++ x_args x ++ ([x_ret x] ++ x_pad x ++ post))
    by (rewrite E1; by rewrite <-!(assoc app)).
  assert (E5 : d = (pre ++ am ++ an ++ le_bytes 4 (x_addr x) ++ x_args x) ++ [x_ret x] ++ (x_pad x ++ post))
    by (rewrite E1; by rewrite <-!(assoc app)).
  split_and!.
  - rewrite E1, Em. change (m0 :: am') with ([m0] ++ am'). rewrite <-(assoc app [m0]).
    by rewrite (field_mid pre [m0] _ _ 1).
  - rewrite E3, (field_mid _ (le_bytes 4 (x_addr x))) by (rewrite ?length_app, ?length_le_bytes; lia).
    f_equal. apply le_val_le_bytes. change (8 * Z.of_nat 4) with 32. lia.
  - rewrite E5, (field_mid _ [x_ret x]) by (rewrite ?length_app, ?length_le_bytes; cbn; lia). done.
  - unfold strncpy31, slice. rewrite Nat2Z.id, E1, drop_app_length.
    rewrite take_app_le by lia. by apply c_string_take.
  - unfold strncpy31, slice. replace (Z.to_nat (Z.of_nat (length pre) + 32)) with (length (pre ++ am)) by (rewrite length_app; lia).
    rewrite E2, drop_app_length, take_app_le by lia. by apply c_string_take.
  - unfold text_at, from. replace (Z.to_nat (Z.of_nat (length pre) + 32)) with (length (pre ++ am)) by (rewrite length_app; lia).
    rewrite E2, drop_app_length. apply c_string_array; [done|lia].
  - replace (Z.to_nat (Z.of_nat (length pre) + 68)) with (length (pre ++ am ++ an ++ le_bytes 4 (x_addr x)))
      by (rewrite !length_app, length_le_bytes; lia).
    rewrite E4. pose proof (slice_mid (pre ++ am ++ an ++ le_bytes 4 (x_addr x)) (x_args x) ([x_ret x] ++ x_pad x ++ post)) as H.
    by rewrite Hargs in H.
  - replace (Z.to_nat (Z.of_nat (length pre) + 72)) with (length (pre ++ am ++ an ++ le_bytes 4 (x_addr x) ++ x_args x))
      by (rewrite !length_app, length_le_bytes; lia).
    rewrite E5, app_nth2, Nat.sub_diag by lia. done.
Qed.

Lemma entry_step n tramps r :
  (length tramps < MAX_TRAMPOLINES)%nat -> elf_sym_addr d (x_name x) = Some r ->
  register_exports d (S n) e tramps =
  register_exports d n (e + EXPORT_ENTRY_SIZE) (tramps ++ [resolve (fun _ => r) x]).
Proof.
  intros Hl Hr. destruct entry_pieces as (H1 & H2 & H3 & H4 & H5 & H6 & H7 & H8).
  destruct ok as [_ _ Ha _ _]. cbn [register_exports].
  rewrite (proj2 (Nat.ltb_lt _ _) Hl). cbn [negb]. rewrite H2, H6, Hr. cbn [mbind option_bind].
  destruct (field d e 1); [|done]. cbn [mbind option_bind]. rewrite (proj2 (Z.eqb_neq _ _)) by lia. cbn [andb].
  destruct (field d (e + 72) 1); [|done]. cbn [mbind option_bind]. by rewrite H4, H5, H7, H8.
Qed.
End entry.

(** A section of well-formed entries is read back, with the addresses resolved. *)
Lemma register_exports_reads res d : forall xs pre post tramps,
  d = pre ++ concat (map encode xs) ++ post -> Forall export_ok xs ->
  (forall x, In x xs -> elf_sym_addr d (x_name x) = Some (res x)) ->
  (length tramps + length xs <= MAX_TRAMPOLINES)%nat ->
  register_exports d (length xs) (Z.of_nat (length pre)) tramps = Some (tramps ++ map (resolve res) xs).
Proof.
  induction xs as [|x xs IH]; intros pre post tramps Hd Hok Hres Hl.
  { cbn [length register_exports map]. by rewrite app_nil_r. }
  inversion_clear Hok as [|? ? Hx Hxs]. cbn [map concat length] in *. rewrite <-(assoc app) in Hd.
  rewrite (entry_step d pre _ x Hx Hd _ _ (res x)) by (try apply Hres; try (by left); lia).
  replace (Z.of_nat (length pre) + EXPORT_ENTRY_SIZE) with (Z.of_nat (length (pre ++ encode x)))
    by (rewrite length_app, length_encode by done; unfold EXPORT_ENTRY_SIZE; lia).
  rewrite (IH (pre ++ encode x) post).
  - rewrite <-(assoc app). done.
  - by rewrite Hd, <-!(assoc app).
  - done.
  - intros y Hy. apply Hres. by right.
  - rewrite length_app. cbn [length]. lia.
Qed.

(** A symbol table within the file: every section header can be read, and for a symbol
    table every symbol, whose name ends before the file does. *)
Definition symbol_in (d : list Z) (strtab sym : Z) : Prop :=
  exists value info name, field d (sym + 4) 4 = Some value /\ field d (sym + 12) 1 = Some info /\
    field d sym 4 = Some name /\ In 0 (from d (strtab + name)).

Record table_in (d : list Z) (i link strtab ent size table : Z) : Prop := TableIn {
  in_link : sh_link d i = Some link;
  in_strtab : sh_offset d link = Some strtab;
  in_entsize : sh_entsize d i = Some ent;
  in_size : sh_size d i = Some size;
  in_table : sh_offset d i = Some table;
  in_symbols : let ent := if ent =? 0 then SYM_SIZE else ent in
    forall si, 0 <= si < size / ent -> symbol_in d strtab (table + u32 (si * ent));
}.

Definition symbols_in (d : list Z) : Prop :=
  exists shnum, e_shnum d = Some shnum /\ forall i, 0 <= i < shnum ->
    exists type, sh_type d i = Some type /\
      (type = SHT_SYMTAB -> exists link strtab ent size table, table_in d i link strtab ent size table).

Lemma strcmp_at_defined s d : cstring s -> In 0 d -> is_Some (strcmp_at s d).
Proof.
  intros Hs. revert d. induction Hs as [|a s Ha _ IH]; intros [|c d] Hd; try done. cbn [strcmp_at].
  destruct (Z.eqb_spec c a) as [->|]; [|done]. apply IH. by destruct Hd.
Qed.

Lemma find_symbol_defined d s strtab table ent n si :
  cstring s -> (forall k, si <= k < si + Z.of_nat n -> symbol_in d strtab (table + u32 (k * ent))) ->
  is_Some (find_symbol d s strtab table ent n si).
Proof.
  intros Hs. revert si. induction n as [|n IH]; intros si H; [done|]. cbn [find_symbol].
  destruct (H si ltac:(lia)) as (value & info & name & -> & -> & -> & Hz). cbn [mbind option_bind].
  destruct (strcmp_at_defined s _ Hs Hz) as [b ->]. cbn [mbind option_bind].
  assert (is_Some (find_symbol d s strtab table ent n (si + 1))) by (apply IH; intros; apply H; lia).
  destruct (value =? 0); [done|]. destruct (negb _); [done|]. by destruct b.
Qed.

Lemma symbol_tables_defined d s n : cstring s -> forall i,
  (forall j, i <= j < i + Z.of_nat n -> exists type, sh_type d j = Some type /\
     (type = SHT_SYMTAB -> exists link strtab ent size table, table_in d j link strtab ent size table)) ->
  is_Some (symbol_tables d s n i).
Proof.
  intros Hs. induction n as [|n IH]; intros i H; [done|]. cbn [symbol_tables].
  destruct (H i ltac:(lia)) as (type & -> & Ht). cbn [mbind option_bind].
  assert (is_Some (symbol_tables d s n (i + 1))) by (apply IH; intros; apply H; lia).
  destruct (Z.eqb_spec type SHT_SYMTAB) as [E|]; [|done]. cbn [negb].
  destruct (Ht E) as (link & strtab & ent & size & table & [E1 E2 E3 E4 E5 Hsy]).
  rewrite E1. cbn [mbind option_bind]. rewrite E2, E3, E4, E5. cbn [mbind option_bind].
  destruct (find_symbol_defined d s strtab table (if ent =? 0 then SYM_SIZE else ent)
    (Z.to_nat (size / (if ent =? 0 then SYM_SIZE else ent))) 0 Hs) as [found ->].
  { intros k Hk. apply Hsy. lia. }
  cbn [mbind option_bind]. by destruct found.
Qed.

(** Every name can be looked up. *)
Lemma elf_sym_addr_defined d s : symbols_in d -> cstring s -> is_Some (elf_sym_addr d s).
Proof.
  intros (shnum & E & H) Hs. unfold elf_sym_addr. destruct (_ <? _); [done|]. rewrite E. cbn [mbind option_bind].
  apply symbol_tables_defined; [done|]. intros j Hj. apply H. lia.
Qed.

(** The address of an export's symbol; zero when there is none. *)
Definition sym_of (d : list Z) (x : export) : Z := default 0 (elf_sym_addr d (x_name x)).

(** The section that is found is the first of that name. *)
Lemma find_from_first d secname shstr n i off size :
  find_from d secname shstr n i = Some (Some (off, size)) ->
  exists k : nat, (k < n)%nat /\ sh_offset d (i + Z.of_nat k) = Some off /\ sh_size d (i + Z.of_nat k) = Some size /\
    forall j : nat, (j <= k)%nat -> exists nm, sh_name d (i + Z.of_nat j) = Some nm /\
      strcmp_at secname (from d (shstr + nm)) = Some (j =? k)%nat.
Proof.
  revert i. induction n as [|n IH]; intros i; cbn [find_from]; [done|].
  intros (nm & Hn & (eq & He & H)%bind_Some)%bind_Some. destruct eq.
  - apply bind_Some in H as (sz & Hs & (o & Ho & [= <- <-])%bind_Some). exists O. rewrite Z.add_0_r.
    split_and!; [lia|done|done|]. intros j Hj. assert (j = O) as -> by lia. rewrite Z.add_0_r. by exists nm.
  - destruct (IH _ H) as (k & Hk & Ho & Hs & Hall). exists (S k).
    replace (i + Z.of_nat (S k)) with (i + 1 + Z.of_nat k) by lia. split_and!; [lia|done|done|].
    intros [|j] Hj; [rewrite Z.add_0_r; by exists nm|].
    replace (i + Z.of_nat (S j)) with (i + 1 + Z.of_nat j) by lia. apply Hall. lia.
Qed.

(** ** Calls *)

(** The argument types up to the end mark. *)
Fixpoint declared (types : list Z) : list Z :=
  match types with
  | t :: types => if t =? ARG_TYPE_END then [] else t :: declared types
  | [] => []
  end.

Definition argument (to_integer to_float : nat -> Z) (i : nat) (t : Z) : bool * Z :=
  if t =? ARG_TYPE_F32 then (true, to_float (S i)) else (false, u32 (to_integer (S i))).

Lemma marshal_declared types i to_integer to_float :
  marshal types i to_integer to_float = imap (fun k => argument to_integer to_float (i + k)) (declared types).
Proof.
  revert i. induction types as [|t types IH]; intros i; [done|]. cbn [marshal declared].
  destruct (t =? ARG_TYPE_END); [done|]. cbn [imap]. rewrite IH. unfold argument at 2. rewrite Nat.add_0_r. f_equal.
  apply imap_ext. intros k x _. cbn [compose]. by replace (S i + k)%nat with (i + S k)%nat by lia.
Qed.

Lemma lookup_groups (gs : list (list Z * list trampoline_t)) i tr :
  concat (map snd gs) !! i = Some tr ->
  exists g pre post k, gs = pre ++ g :: post /\ snd g !! k = Some tr /\ i = (length (concat (map snd pre)) + k)%nat.
Proof.
  revert i. induction gs as [|g gs IH]; intros i; cbn [map concat]; [done|].
  intros [H|[Hl H]]%lookup_app_Some.
  - exists g, [], gs, i. done.
  - destruct (IH _ H) as (g' & pre & post & k & -> & Hk & Hi). exists g', (g :: pre), post, k.
    split_and!; [done|done|]. cbn [map concat]. rewrite length_app. lia.
Qed.

Section hybrid.
Context {M : Type} (rv32emu_call_fn : M -> Z -> list (bool * Z) -> bool -> M * Z)
  (loader : list Z -> option (option loaded_value)).

(** C26: Every export of the cart is a Lua function under its module: if the file's
    [.lua_exports] section can be found and holds at most 16 well-formed entries, those of
    a module together and under different names, and the section headers, the symbol table
    and its names lie within the file ([symbols_in]), initialisation succeeds and reads
    nothing outside of the file; [require] of an entry's module then answers the module's
    table without a loader, the table has the entry's own trampoline under its name, and
    calling it calls the emulated function at the symbol's address (the entry's own when
    the symbol table has none) with one argument per declared type, floats as bits and
    integers as 32-bit words, and pushes the result as an integer - of a float result the
    whole part, where it is an integer's; modules the cart does not export are left
    alone. *)
Theorem exports_callable d pre xs post gs l
    (Hd : d = pre ++ concat (map encode xs) ++ post) (Hok : Forall export_ok xs)
    (Hsec : elf_find_section d (cstr ".lua_exports") = Some (Some (Z.of_nat (length pre), EXPORT_ENTRY_SIZE * Z.of_nat (length xs))))
    (Hsym : symbols_in d)
    (Hn : (length xs <= 16)%nat) (Hgs : map (resolve (sym_of d)) xs = concat (map snd gs)) (Hg : grouped gs) :
  exists l', blyt_hybrid_init (Some (Some d)) true l = Some (Ready (map (resolve (sym_of d)) xs) l') /\
    (forall m, m ∉ map x_module xs -> l' !! m = l !! m) /\
    forall i x, xs !! i = Some x ->
      (exists t, l_require loader (x_module x) l' = (l', inl (Exports t)) /\ t !! x_name x = Some (Some i)) /\
      forall to_integer to_float m,
        trampoline_call rv32emu_call_fn (map (resolve (sym_of d)) xs) i to_integer to_float m =
        let '(m', ret) := rv32emu_call_fn m (if sym_of d x =? 0 then x_addr x else sym_of d x)
                            (imap (argument to_integer to_float) (declared (x_args x)))
                            (x_ret x =? ARG_TYPE_F32) in
        v ← if x_ret x =? ARG_TYPE_F32 then truncate_f32 ret else Some (i32 ret);
        Some (m', v).
Proof.
  assert (forall x, In x xs -> elf_sym_addr d (x_name x) = Some (sym_of d x)) as Hres.
  { intros x Hx. rewrite Forall_forall in Hok. destruct (Hok x) as [_ [Hc _] _ _ _]; [by apply list_elem_of_In|].
    unfold sym_of. by destruct (elf_sym_addr_defined d (x_name x) Hsym Hc) as [a ->]. }
  destruct (register_modules_spec gs (length (map (resolve (sym_of d)) xs)) 0 l Hg) as (l' & Hl' & Hother & Hin).
  { by rewrite Hgs. }
  exists l'. split.
  { unfold blyt_hybrid_init. cbn [negb]. rewrite Hsec. cbn [mbind option_bind].
    replace (Z.to_nat (EXPORT_ENTRY_SIZE * Z.of_nat (length xs) / EXPORT_ENTRY_SIZE)) with (length xs)
      by (rewrite Z.mul_comm, Z.div_mul by done; lia).
    rewrite (register_exports_reads (sym_of d) d xs pre post []) by (try done; unfold MAX_TRAMPOLINES; cbn; lia).
    cbn [app mbind option_bind]. rewrite Hgs in *. by rewrite Hl'. }
  assert (forall m, m ∈ map fst gs -> m ∈ map x_module xs) as Hsub.
  { intros m Hm. apply list_elem_of_fmap in Hm as (g & -> & Hi). apply list_elem_of_split in Hi as (g1 & g2 & ->).
    destruct Hg as [Hr _]. apply Forall_app in Hr as [_ Hr]. inversion_clear Hr as [|? ? (Hne & Hall & _) _].
    destruct (snd g) as [|tr run] eqn:Eg; [done|]. inversion_clear Hall as [|? ? Htr _].
    assert (tr ∈ map (resolve (sym_of d)) xs) as Ht.
    { rewrite Hgs, map_app, concat_app. cbn [map concat]. rewrite Eg. apply elem_of_app. right. cbn [app]. by left. }
    apply list_elem_of_fmap in Ht as (x & -> & Hx). rewrite <-Htr. apply list_elem_of_fmap. by exists x. }
  split. { intros m Hm. apply Hother. intros Hi. by apply Hm, Hsub. }
  intros i x Hx.
  assert (map (resolve (sym_of d)) xs !! i = Some (resolve (sym_of d) x)) as Ht by (by rewrite list_lookup_fmap, Hx).
  pose proof (lookup_lt_Some _ _ _ Hx) as Hi. split.
  - rewrite Hgs in Ht. destruct (lookup_groups _ _ _ Ht) as (g & g1 & g2 & k & Eg & Hk & Ei).
    pose proof Hg as [Hr _]. rewrite Eg in Hr. apply Forall_app in Hr as [_ Hr].
    inversion_clear Hr as [|? ? (_ & Hall & Hnd) _].
    pose proof (Hin g g1 g2 Eg) as Hlook.
    rewrite Forall_lookup in Hall. pose proof (Hall _ _ Hk) as Hmod. cbn [module resolve] in Hmod.
    eexists. split; [unfold l_require; by rewrite Hmod, Hlook|].
    rewrite (insert_all_in _ _ _ k (resolve (sym_of d) x) Hnd Hk : _ !! x_name x = _), Nat.add_0_l, <-Ei.
    unfold s_tramp_fns. by rewrite (proj2 (Nat.ltb_lt _ _)) by lia.
  - intros to_integer to_float m. unfold trampoline_call. rewrite Ht. cbn [mbind option_bind resolve sym_addr arg_types ret_type].
    by rewrite marshal_declared.
Qed.
End hybrid.

(** ** A small cart *)

Definition demo_exports : list export :=
  [Export (cstr "mylib") (cstr "fast_add") 1 [1; 2; 0; 0] 1 (repeat 0 7);
   Export (cstr "mylib") (cstr "fast_mul") 4096 [2; 0; 0; 0] 2 (repeat 0 7)].

Definition demo_strings : list Z := [0] ++ cstr "fast_add" ++ [0].
Definition demo_names : list Z := [0] ++ cstr ".lua_exports" ++ [0].

Definition demo_header : list Z :=
  repeat 0 32 ++ le_bytes 4 268 ++ repeat 0 10 ++ le_bytes 2 40 ++ le_bytes 2 4 ++ le_bytes 2 3.
Definition demo_symbols : list Z :=
  repeat 0 16 ++ le_bytes 4 1 ++ le_bytes 4 74565 ++ le_bytes 4 8 ++ [18; 0] ++ le_bytes 2 1.
Definition section_header (nm type off size link ent : Z) : list Z :=
  concat (map (le_bytes 4) [nm; type; 0; 0; off; size; link; 0; 0; ent]).
Definition demo_rest : list Z :=
  demo_symbols ++ demo_strings ++ demo_names ++
  section_header 1 1 52 160 0 0 ++ section_header 0 2 212 32 2 16 ++ section_header 0 3 244 10 0 0 ++
  section_header 0 3 254 14 0 0.
Definition demo_elf : list Z := demo_header ++ concat (map encode demo_exports) ++ demo_rest.
Definition demo_emulator (calls : list (Z * list (bool * Z))) (addr : Z) (args : list (bool * Z)) (f : bool)
  : list (Z * list (bool * Z)) * Z := (calls ++ [(addr, args)], if f then 0x40490fdb else 7).

Lemma exports_callable_witness :
  exists l', blyt_hybrid_init (Some (Some demo_elf)) true ∅ = Some (Ready (map (resolve (sym_of demo_elf)) demo_exports) l') /\
    (exists t, l_require (fun _ => None) (cstr "mylib") l' = (l', inl (Exports t)) /\ t !! cstr "fast_mul" = Some (Some 1%nat)) /\
    trampoline_call demo_emulator (map (resolve (sym_of demo_elf)) demo_exports) 1 (fun _ => 0) (fun _ => 0x40000000) []
    = Some ([(4096, [(true, 0x40000000)])], 3).
Proof.
  destruct (exports_callable demo_emulator (fun _ => None) demo_elf demo_header demo_exports demo_rest
    [(cstr "mylib", map (resolve (sym_of demo_elf)) demo_exports)] ∅) as (l' & Hinit & _ & H).
  - reflexivity.
  - unfold demo_exports. repeat apply Forall_cons_2; [| |apply Forall_nil_2];
      (split; [split; [|vm_compute; lia]; vm_compute; repeat constructor; discriminate
              |split; [|vm_compute; lia]; vm_compute; repeat constructor; discriminate
              |split; vm_compute; congruence|reflexivity|reflexivity]).
  - vm_compute. reflexivity.
  - exists 4. split; [vm_compute; reflexivity|]. intros i Hi.
    assert (i = 0 \/ i = 1 \/ i = 2 \/ i = 3) as Hc by lia.
    destruct Hc as [->|[->|[->| ->]]]; (eexists; split; [vm_compute; reflexivity|]); intros E; try discriminate E.
    exists 2, 244, 16, 32, 212. split; [vm_compute; reflexivity..|]. intros ent si Hsi.
    assert (si = 0 \/ si = 1) as Hc by (change (32 / ent) with 2 in Hsi; lia).
    destruct Hc as [->| ->]; eexists _, _, _; (split; [vm_compute; reflexivity|]); (split; [vm_compute; reflexivity|]);
      (split; [vm_compute; reflexivity|]); vm_compute; auto 20.
  - vm_compute. lia.
  - reflexivity.
  - split; [|apply NoDup_singleton]. apply Forall_singleton. split; [discriminate|]. split.
    + repeat apply Forall_cons_2; [reflexivity|reflexivity|apply Forall_nil_2].
    + apply NoDup_cons. split; [vm_compute; intros Hx; apply list_elem_of_In in Hx; destruct Hx as [Hx|[]]; discriminate Hx|].
      apply NoDup_singleton.
  - exists l'. split; [exact Hinit|].
    destruct (H 1%nat (Export (cstr "mylib") (cstr "fast_mul") 4096 [2; 0; 0; 0] 2 (repeat 0 7)) eq_refl) as [Ht Hc].
    split; [exact Ht|]. rewrite Hc. vm_compute. reflexivity.
Defined.

(** The seventeenth export is a null pointer to Lua. *)
Lemma seventeenth_is_null tramps t j : NoDup (map name tramps) ->
  forall k tr, tramps !! k = Some tr -> (16 <= j + k)%nat -> insert_all j tramps t !! name tr = Some None.
Proof.
  intros Hd k tr Hk Hj. rewrite (insert_all_in _ _ _ _ _ Hd Hk). unfold s_tramp_fns.
  by rewrite (proj2 (Nat.ltb_ge _ _)) by lia.
Qed.

(** A module whose exports are apart keeps those of its last group only. *)
Lemma split_module_loses :
  let tr m n := Trampoline (cstr m) (cstr n) 1 [0; 0; 0; 0] 1 in
  register_modules 3 0 [tr "a" "f"; tr "b" "g"; tr "a" "h"] ∅
  = Some (<[cstr "a" := Exports {[cstr "h" := Some 2%nat]}]> (<[cstr "b" := Exports {[cstr "g" := Some 1%nat]}]>
      (<[cstr "a" := Exports {[cstr "f" := Some 0%nat]}]> ∅))).
Proof. reflexivity. Qed.

(** A float result outside of the integers' range, or not a number, is undefined. *)
Lemma large_float_undefined : truncate_f32 0x4f000000 = None /\ truncate_f32 0x7fc00000 = None /\ truncate_f32 0xcf000000 = Some (- 2 ^ 31).
Proof. split_and!; vm_compute; reflexivity. Qed.
