(* ===== verification/LuaEdit.v ===== *)
(** * The Lua edit bindings (spikes/spike-n/ports/rv32emu/lua_det_bindings_n.c)

    What spike n adds to the bindings of spike m: the cart's state region as a Lua
    table and back, one version of the struct at a time, and the hook Lua installs for
    failed hot reloads.  Lua's conversions are parameters; the fields of a table are
    those of a table without metamethods, and a call of the hook is its arguments. *)

From S2P Require Import Prelude SaveState TableFlatten HotReload Diagnostic.
Open Scope Z_scope.

(** [lua_tointeger] and [lua_tonumber] (a float's bits): 0 for what is not a number. *)
Record lua_conv := LuaConv { lua_tointeger : lua_value -> Z; lua_tonumber : lua_value -> Z }.

Class LuaConvLaws (api : lua_conv) : Prop := {
  tointeger_int z : lua_tointeger api (LInt z) = z;
  tonumber_float u : lua_tonumber api (LFloat u) = u;
}.

(** [lua_setfield] on the table under construction. *)
Definition setfield (nm : string) (v : lua_value) (t : lua_table) : lua_table := rawset t (cstr nm) v.

Section bindings.
Context (api : lua_conv).

(** [lua_getfield; if (!lua_isnil) field = ...; lua_pop] *)
Definition set_int (t : lua_table) (nm : string) (old : Z) : Z :=
  match rawget t (cstr nm) with LNil => old | v => i32 (lua_tointeger api v) end.

Definition set_num (t : lua_table) (nm : string) (old : Z) : Z :=
  match rawget t (cstr nm) with LNil => old | v => lua_tonumber api v end.

(** ** [console.get_cart_state], [console.set_cart_state]

    [luaL_checktype] raises unless the argument is a table ([None]). *)

Definition get_v0 (cs : LuaV0.lua_cart_state_t) : lua_table :=
  setfield "combo" (LInt (LuaV0.combo cs)) (setfield "step" (LInt (LuaV0.step cs))
    (setfield "score" (LInt (LuaV0.score cs)) [])).

Definition set_v0 (v : lua_value) (cs : LuaV0.lua_cart_state_t) : option LuaV0.lua_cart_state_t :=
  match v with
  | LTable t => Some (LuaV0.State (set_int t "score" (LuaV0.score cs)) (set_int t "step" (LuaV0.step cs))
                        (set_int t "combo" (LuaV0.combo cs)))
  | _ => None
  end.

Definition get_v2 (cs : LuaV2.lua_cart_state_t) : lua_table :=
  setfield "bonus" (LInt (LuaV2.bonus cs)) (setfield "combo" (LInt (LuaV2.combo cs))
    (setfield "step" (LInt (LuaV2.step cs)) (setfield "score" (LInt (LuaV2.score cs)) []))).

Definition set_v2 (v : lua_value) (cs : LuaV2.lua_cart_state_t) : option LuaV2.lua_cart_state_t :=
  match v with
  | LTable t => Some (LuaV2.State (set_int t "score" (LuaV2.score cs)) (set_int t "step" (LuaV2.step cs))
                        (set_int t "combo" (LuaV2.combo cs)) (set_int t "bonus" (LuaV2.bonus cs)))
  | _ => None
  end.

Definition get_v3 (cs : LuaV3.lua_cart_state_t) : lua_table :=
  setfield "combo" (LInt (LuaV3.combo cs)) (setfield "step" (LInt (LuaV3.step cs))
    (setfield "score" (LInt (LuaV3.score cs)) [])).

Definition set_v3 (v : lua_value) (cs : LuaV3.lua_cart_state_t) : option LuaV3.lua_cart_state_t :=
  match v with
  | LTable t => Some (LuaV3.State (set_int t "score" (LuaV3.score cs)) (set_int t "step" (LuaV3.step cs))
                        (set_int t "combo" (LuaV3.combo cs)))
  | _ => None
  end.

Definition get_v4 (cs : LuaV4.lua_cart_state_t) : lua_table :=
  setfield "combo_mult" (LFloat (LuaV4.combo_mult cs)) (setfield "step" (LInt (LuaV4.step cs))
    (setfield "score" (LInt (LuaV4.score cs)) [])).

Definition set_v4 (v : lua_value) (cs : LuaV4.lua_cart_state_t) : option LuaV4.lua_cart_state_t :=
  match v with
  | LTable t => Some (LuaV4.State (set_int t "score" (LuaV4.score cs)) (set_int t "step" (LuaV4.step cs))
                        (set_num t "combo_mult" (LuaV4.combo_mult cs)))
  | _ => None
  end.
End bindings.

(** ** The hook *)

(** [g_hook_ref]: the function behind the reference, [LUA_NOREF] before the first; the C
    hook is registered with the diagnostic at the same time. *)
Record hooks := Hooks { g_hook_ref : option Z; g_hook : bool }.

Definition LUA_TFUNCTION : Z := 6.

(** Which function value it is, [LOther] does not say; [id] does. *)
Definition l_set_on_hot_reload_failed (v : lua_value) (id : Z) (h : hooks) : option hooks :=
  match v with
  | LOther t => if t =? LUA_TFUNCTION then Some (Hooks (Some id) true) else None
  | _ => None
  end.

(** The call [fn(slot, reason)]; its error, if any, is dropped. *)
Definition c_hot_reload_hook (h : hooks) (slot : Z) (reason : list Z) : option (Z * list lua_value) :=
  match g_hook_ref h with
  | None => None
  | Some id => Some (id, [LInt slot; LStr reason])
  end.

(** A diagnostic is printed and handed to Lua. *)
Definition emit_to_lua (h : hooks) (diag : list Z) (slot : Z) (func_name : option (list Z)) (old_line : Z)
    (reason : hot_reload_reason_t) : list Z * option (Z * list lua_value) :=
  let '(out, fired) := hot_reload_diagnostic_emit (g_hook h) diag slot func_name old_line reason in
  (out, '(s, r) ← fired; c_hot_reload_hook h s r).

(** ** What a script can rely on *)

Definition int32 (z : Z) : Prop := - 2 ^ 31 <= z < 2 ^ 31.

Section laws.
Context (api : lua_conv) {laws : LuaConvLaws api}.

Lemma set_int_other t nm old : rawget t (cstr nm) = LNil -> set_int api t nm old = old.
Proof. intros H. unfold set_int. by rewrite H. Qed.

Lemma set_int_some t nm old z : rawget t (cstr nm) = LInt z -> int32 z -> set_int api t nm old = z.
Proof. intros H Hz. unfold set_int. rewrite H, tointeger_int. by apply signed_small. Qed.

(** What [get_cart_state] delivers, [set_cart_state] takes back over any state of the
    region, in every version. *)
Lemma cart_state_back_v0 cs cs' :
  int32 (LuaV0.score cs) -> int32 (LuaV0.step cs) -> int32 (LuaV0.combo cs) ->
  set_v0 api (LTable (get_v0 cs)) cs' = Some cs.
Proof.
  intros H1 H2 H3. destruct cs as [a b c]. cbn [LuaV0.score LuaV0.step LuaV0.combo] in *. unfold set_v0. do 2 f_equal;
    by apply set_int_some.
Qed.

Lemma cart_state_back_v2 cs cs' :
  int32 (LuaV2.score cs) -> int32 (LuaV2.step cs) -> int32 (LuaV2.combo cs) -> int32 (LuaV2.bonus cs) ->
  set_v2 api (LTable (get_v2 cs)) cs' = Some cs.
Proof.
  intros H1 H2 H3 H4. destruct cs as [a b c d]. cbn [LuaV2.score LuaV2.step LuaV2.combo LuaV2.bonus] in *. unfold set_v2.
  do 2 f_equal; by apply set_int_some.
Qed.

Lemma cart_state_back_v3 cs cs' :
  int32 (LuaV3.score cs) -> int32 (LuaV3.step cs) -> int32 (LuaV3.combo cs) ->
  set_v3 api (LTable (get_v3 cs)) cs' = Some cs.
Proof.
  intros H1 H2 H3. destruct cs as [a b c]. cbn [LuaV3.score LuaV3.step LuaV3.combo] in *. unfold set_v3.
  do 2 f_equal; by apply set_int_some.
Qed.

Lemma cart_state_back_v4 cs cs' :
  int32 (LuaV4.score cs) -> int32 (LuaV4.step cs) -> set_v4 api (LTable (get_v4 cs)) cs' = Some cs.
Proof.
  intros H1 H2. destruct cs as [a b u]. cbn [LuaV4.score LuaV4.step] in *. unfold set_v4.
  do 2 f_equal; [by apply set_int_some..|]. exact (tonumber_float u).
Qed.

(** A script of the version before runs on the struct of the version after the edit:
    fields it does not know keep their value. *)
Lemma old_table_keeps_bonus cs cs' :
  int32 (LuaV0.score cs) -> int32 (LuaV0.step cs) -> int32 (LuaV0.combo cs) ->
  set_v2 api (LTable (get_v0 cs)) cs' =
  Some (LuaV2.State (LuaV0.score cs) (LuaV0.step cs) (LuaV0.combo cs) (LuaV2.bonus cs')).
Proof.
  intros H1 H2 H3. destruct cs as [a b c]. cbn [LuaV0.score LuaV0.step LuaV0.combo] in *. unfold set_v2.
  do 2 f_equal; by apply set_int_some.
Qed.

(** After a function is installed, every diagnostic reaches the last one installed,
    with the slot and the text that was printed; before, none does. *)
Lemma hook_gets_diagnostic h id h' diag slot func_name old_line reason :
  l_set_on_hot_reload_failed (LOther LUA_TFUNCTION) id h = Some h' ->
  exists text, emit_to_lua h' diag slot func_name old_line reason
    = (printf_s (cstr "STDERR " ++ text), Some (id, [LInt slot; LStr text])).
Proof. intros [= <-]. eexists. reflexivity. Qed.

Lemma no_hook_no_call diag slot func_name old_line reason :
  (emit_to_lua (Hooks None false) diag slot func_name old_line reason).2 = None.
Proof. reflexivity. Qed.
End laws.

Definition plain_conv : lua_conv :=
  LuaConv (fun v => match v with LInt z => z | _ => 0 end) (fun v => match v with LFloat u => u | _ => 0 end).

#[export] Instance plain_conv_laws : LuaConvLaws plain_conv.
Proof. by split. Qed.
