(* ===== verification/Corruption.v ===== *)
(** * The corruption tests (spikes/spike-k/ports/rv32emu/corruption_tests.c)

    A program of the repository that saves a buffer, spoils it in five ways, and
    expects the load to refuse each and to accept the buffer itself.  It is linked
    with the registry of the Whetstone cart. *)

From S2P Require Import Prelude Float32 Determinism Tracked SaveState Regions Whetstone.
Import FrameStateRegion CartStateWhetstone.
Open Scope Z_scope.

(** What [make_buffer] makes of the two regions. *)
Definition test_fs : frame_state_t :=
  FrameState 7 0x1234567890abcdef 0xfeedfacecafef00d 0 0 0 0 (mobs frame_state_zero).

Definition test_cs : cart_state_whetstone_t :=
  CartState f32_one f32_minus_one f32_minus_one f32_minus_one
    [f32_one; f32_minus_one; f32_minus_one; f32_minus_one] f32_half f32_three_quarters.

(** The context, the globals, the buffer and its size. *)
Definition make_buffer (s : globals) : option (runtime globals * list Z * Z) :=
  let s := set_cs test_cs (set_fs test_fs s) in
  ctx ← save_state_init runtime_tracked_regions;
  save_state_save runtime_tracked_regions (ctx, s) (repeat 0 8192) 8192 7.

(** [copy_buf]: over what the last test left. *)
Definition copy_buf (g_buf : list Z) (g_size : Z) (scratch : list Z) : list Z :=
  write_at 0 (take (Z.to_nat g_size) g_buf) scratch.

(** [scratch[i] ^= v] and [scratch[i] = v]. *)
Definition xor_at (i : nat) (v : Z) (buf : list Z) : list Z := <[i := Z.lxor (nth i buf 0) v]> buf.
Definition set_at (i : nat) (v : Z) (buf : list Z) : list Z := <[i := v]> buf.

Definition line (verdict name what : string) : list Z :=
  cstr "CORRUPTION " ++ cstr verdict ++ cstr " — " ++ cstr name ++ cstr " " ++ cstr what ++ [10].

Section main.
Context (g_buf : list Z) (g_size : Z).

(** One test: the runtime, the scratch buffer, the lines and the failures so far. *)
Definition test_state : Type := runtime globals * list Z * list Z * Z.

(** A spoiled copy of [size] bytes, which the load should refuse. *)
Definition test_rejected (name : string) (spoil : list Z -> list Z) (size : Z) (x : test_state) : option test_state :=
  let '(rt, scratch, out, fails) := x in
  let scratch := spoil (copy_buf g_buf g_size scratch) in
  '(rt, ok) ← save_state_load runtime_tracked_regions rt scratch size;
  Some (if (ok : bool) then (rt, scratch, out ++ line "FAIL" name "accepted", fails + 1)
        else (rt, scratch, out ++ line "PASS" name "rejected", fails)).

(** The positive control. *)
Definition test_accepted (x : test_state) : option test_state :=
  let '(rt, scratch, out, fails) := x in
  let scratch := copy_buf g_buf g_size scratch in
  '(rt, ok) ← save_state_load runtime_tracked_regions rt scratch g_size;
  Some (if (ok : bool) then (rt, scratch, out ++ line "PASS" "clean buffer" "accepted", fails)
        else (rt, scratch, out ++ line "FAIL" "clean buffer" "rejected", fails + 1)).

Definition tests (rt : runtime globals) : option test_state :=
  x ← test_rejected "magic-byte mutation" (xor_at 0 0xff) g_size (rt, repeat 0 8192, [], 0);
  x ← test_rejected "version mismatch" (set_at 4 0x99) g_size x;
  x ← test_rejected "layout_hash mutation" (xor_at 8 0x01) g_size x;
  x ← test_rejected "truncation" id (u32 (g_size - 8)) x;
  x ← (let big := u32 (g_size + 1024) in
       test_rejected "total_size > buffer"
         (fun b => set_at 23 (u8 (big ≫ 24)) (set_at 22 (u8 (big ≫ 16)) (set_at 21 (u8 (big ≫ 8)) (set_at 20 (u8 big) b))))
         g_size x);
  test_accepted x.
End main.

(** The output and the exit status. *)
Definition main (s : globals) : option (list Z * Z) :=
  '(rt, g_buf, g_size) ← make_buffer s;
  '(_, _, out, fails) ← tests g_buf g_size rt;
  Some (if 0 <? fails
        then (out ++ cstr "CORRUPTION SUMMARY " ++ dec fails ++ cstr " failures" ++ [10], 1)
        else (out ++ cstr "CORRUPTION SUMMARY all passed" ++ [10], 0)).

(** The program passes, whatever the globals were before: each line is the one its
    harness wants. *)
Lemma corruption_tests_pass s :
  main s = Some (line "PASS" "magic-byte mutation" "rejected" ++ line "PASS" "version mismatch" "rejected" ++
                 line "PASS" "layout_hash mutation" "rejected" ++ line "PASS" "truncation" "rejected" ++
                 line "PASS" "total_size > buffer" "rejected" ++ line "PASS" "clean buffer" "accepted" ++
                 cstr "CORRUPTION SUMMARY all passed" ++ [10], 0).
Proof.
  assert (forall s, make_buffer s = make_buffer (Globals test_fs test_cs (rng s))) as E by done.
  unfold main. rewrite E. generalize (rng s) as r. clear. intros r. vm_compute. reflexivity.
Qed.
