(* ===== verification/EditDriver.v ===== *)
(** * The edit driver (spikes/spike-n/harness/edit_driver.c)

    A host program that reads a list of edits, asks the runtime over a socket to
    reload for each, and compares the answers with the expected outcomes.  The
    socket's answers and the measured times are what the run is given; the log file, or
    stderr in its place, is the text written to it. *)

From S2P Require Import Prelude HostString Packer.
Open Scope Z_scope.

(** ** One request *)

(** [read] byte by byte, up to 255 bytes or a newline: [fgets_line] on what arrives. *)
Definition response_of (arrives : list Z) : list Z := fst (fgets_line 255 arrives).

(** [atol]: as [strtol], which saturates. *)
Definition atol (s : list Z) : Z := match scan_ld s with Some (v, _) => v | None => 0 end.

(** [arrives]: what the socket delivers after the request, [None] when the request cannot be
    written.  The milliseconds, or -1; and the reason, empty unless the runtime gave
    one. *)
Definition send_reload (arrives : option (list Z)) : Z * list Z :=
  match arrives with
  | None => (-1, [])
  | Some bytes =>
      let resp := c_string (response_of bytes) in
      if starts (cstr "RELOADED ") resp then (atol (drop 9 resp), [])
      else if starts (cstr "FAILED ") resp then (-1, take 255 (drop 7 resp))
      else (-1, [])
  end.

(** ** The edits file *)

(** [while (len > 0 && (line[len-1] == '\n' || ...)) len--] *)
Fixpoint strip_front (s : list Z) : list Z :=
  match s with
  | c :: rest => if (c =? 10) || (c =? 13) then strip_front rest else s
  | [] => []
  end.

Definition strip_end (line : list Z) : list Z := rev (strip_front (rev line)).

(** [sscanf(line, "%31s %63s", edit_id, expected)], unless it finds less than two. *)
Definition scan_edit (line : list Z) : option (list Z * list Z) :=
  let s := skip_spaces line in
  let id := span_word 31 s in
  let expected := span_word 63 (skip_spaces (drop (length id) s)) in
  if (length id =? 0)%nat || (length expected =? 0)%nat then None else Some (id, expected).

(** The edit a line names, if the line is one. *)
Definition edit_of (line : list Z) : option (list Z * list Z) :=
  let line := strip_end line in
  if (length line =? 0)%nat || (char0 line =? 35) then None
  else
    match scan_edit line with
    | None => None
    | Some e =>
        if (char0 line =? 32) || (char0 line =? 9) then None
        else if starts (cstr "expect:") line then None
        else Some e
    end.

(** ** The run *)

(** What happens for an edit: whether the socket connects, what it delivers, how long it
    takes. *)
Record answer := Answer { connected : bool; delivered : option (list Z); total_ms : Z }.

Record tally := Tally { edit_num : Z; pass_count : Z; fail_count : Z; log : list Z }.

Definition nl : list Z := [10].

Definition passed (t : tally) (text : list Z) : tally :=
  Tally (edit_num t) (pass_count t + 1) (fail_count t) (log t ++ text).
Definition failed (t : tally) (text : list Z) : tally :=
  Tally (edit_num t) (pass_count t) (fail_count t + 1) (log t ++ text).

Definition latency_gate (edit_id : list Z) : Z := if char0 edit_id =? 108 then 500 else 3000.

Definition racy_edit (a : answer) (t : tally) : tally :=
  let t := Tally (edit_num t) (pass_count t) (fail_count t)
             (log t ++ cstr "  [racy] sending RELOAD before second file write" ++ nl) in
  let '(ms, _) := send_reload (delivered a) in
  if ms <? 0 then passed t (cstr "  [racy] runtime rejected mid-write RELOAD: PASS" ++ nl)
  else failed t (cstr "  [racy] runtime accepted mid-write RELOAD: FAIL (got " ++ print_int ms ++ cstr " ms)" ++ nl).

Definition plain_edit (edit_id expected : list Z) (a : answer) (t : tally) : tally :=
  let '(runtime_ms, reason) := send_reload (delivered a) in
  let is_fail_expected := starts (cstr "FAIL") expected in
  let got_fail := runtime_ms <? 0 in
  if is_fail_expected && got_fail then
    passed t (cstr "  outcome: FAIL-WITH-DIAGNOSTIC (expected)" ++ nl ++ cstr "  reason: " ++ reason ++
              cstr "  total_ms: " ++ print_int (total_ms a) ++ nl)
  else if negb is_fail_expected && negb got_fail then
    let text := cstr "  outcome: PASS" ++ nl ++ cstr "  runtime_ms: " ++ print_int runtime_ms ++
                cstr "  total_ms: " ++ print_int (total_ms a) ++ nl in
    let gate := latency_gate edit_id in
    if gate <? total_ms a then
      failed t (text ++ cstr "  LATENCY FAIL: " ++ print_int (total_ms a) ++ cstr " ms > " ++ print_int gate ++ cstr " ms gate" ++ nl)
    else passed t text
  else if is_fail_expected && negb got_fail then
    failed t (cstr "  outcome: UNEXPECTED PASS (expected FAIL) — FAIL" ++ nl)
  else
    failed t (cstr "  outcome: UNEXPECTED FAIL (expected PASS) — FAIL" ++ nl ++ cstr "  reason: " ++ reason).

Definition run_edit (racy : bool) (edit_id expected : list Z) (a : answer) (t : tally) : tally :=
  let t := Tally (edit_num t + 1) (pass_count t) (fail_count t)
             (log t ++ nl ++ cstr "--- edit " ++ edit_id ++ cstr " (expected: " ++ expected ++ cstr ") ---" ++ nl) in
  if negb (connected a) then failed t (cstr "FAIL: cannot connect to runtime socket" ++ nl)
  else if racy then racy_edit a t
  else plain_edit edit_id expected a t.

(** [answers n]: for the [n]th edit. *)
Fixpoint run_lines (racy : bool) (answers : nat -> answer) (lines : list (list Z)) (n : nat) (t : tally) : tally :=
  match lines with
  | [] => t
  | l :: lines =>
      match edit_of l with
      | None => run_lines racy answers lines n t
      | Some (edit_id, expected) =>
          run_lines racy answers lines (S n) (run_edit racy edit_id expected (answers n) t)
      end
  end.

(** The exit status, and what the log holds. *)
Definition edit_driver (argv : list (list Z)) (edits : option (list Z)) (answers : nat -> answer) : Z * list Z :=
  match argv with
  | _ :: cart :: edits_path :: rest =>
      let racy := match rest with r :: _ => bool_decide (r = cstr "--racy") | [] => false end in
      match edits with
      | None => (1, [])
      | Some text =>
          let t := run_lines racy answers (lines_of text) 0
            (Tally 0 0 0 (cstr "=== edit_driver: cart=" ++ cart ++ cstr " edits=" ++ edits_path ++ cstr " racy=" ++
                          print_int (Z.b2z racy) ++ cstr " ===" ++ nl)) in
          (if 0 <? fail_count t then 1 else 0,
           log t ++ nl ++ cstr "=== summary: " ++ print_int (pass_count t) ++ cstr " pass, " ++
           print_int (fail_count t) ++ cstr " fail, " ++ print_int (edit_num t) ++ cstr " total edits ===" ++ nl)
      end
  | _ => (2, [])
  end.

(** ** What the exit status means *)

(** The edit went as expected. *)
Definition as_expected (racy : bool) (e : list Z * list Z) (a : answer) : bool :=
  let '(edit_id, expected) := e in
  let ms := fst (send_reload (delivered a)) in
  connected a &&
  (if racy then ms <? 0
   else if starts (cstr "FAIL") expected then ms <? 0
   else (0 <=? ms) && (total_ms a <=? latency_gate edit_id)).

Definition edits_of (lines : list (list Z)) : list (list Z * list Z) := omap edit_of lines.

Definition count (b : bool) (l : list bool) : Z := Z.of_nat (length (List.filter (Bool.eqb b) l)).

Lemma run_edit_counts racy e a t :
  let t' := run_edit racy (fst e) (snd e) a t in
  edit_num t' = edit_num t + 1 /\
  pass_count t' = pass_count t + Z.b2z (as_expected racy e a) /\
  fail_count t' = fail_count t + Z.b2z (negb (as_expected racy e a)).
Proof.
  destruct e as [edit_id expected]. unfold as_expected, run_edit. cbn [fst snd].
  destruct (connected a); cbn [negb andb]; [|unfold failed; cbn [edit_num pass_count fail_count Z.b2z negb andb]; lia].
  destruct racy; unfold racy_edit, plain_edit; destruct (send_reload (delivered a)) as [ms reason]; cbn [fst].
  { destruct (ms <? 0); cbn; lia. }
  destruct (starts (cstr "FAIL") expected), (Z.ltb_spec ms 0), (Z.leb_spec 0 ms); try lia; cbn [andb negb];
    try (cbn; lia).
  destruct (Z.ltb_spec (latency_gate edit_id) (total_ms a)), (Z.leb_spec (total_ms a) (latency_gate edit_id));
    try lia; cbn; lia.
Qed.

(** Every edit is counted once, as a pass or as a failure, and the driver exits 0 exactly
    when all edits went as expected. *)
Lemma run_lines_counts racy answers lines : forall n t,
  let verdicts := imap (fun i e => as_expected racy e (answers (n + i)%nat)) (edits_of lines) in
  let t' := run_lines racy answers lines n t in
  edit_num t' = edit_num t + Z.of_nat (length verdicts) /\
  pass_count t' = pass_count t + count true verdicts /\
  fail_count t' = fail_count t + count false verdicts.
Proof.
  induction lines as [|l lines IH]; intros n t.
  { unfold count, edits_of. cbn. lia. }
  cbn [run_lines]. unfold edits_of in *. cbn [omap list_omap].
  destruct (edit_of l) as [[edit_id expected]|]; [|apply IH].
  pose proof (run_edit_counts racy (edit_id, expected) (answers n) t) as (H1 & H2 & H3). cbn [fst snd] in *.
  destruct (IH (S n) (run_edit racy edit_id expected (answers n) t)) as (I1 & I2 & I3).
  cbn zeta in *. rewrite I1, I2, I3, H1, H2, H3. cbn [imap]. rewrite Nat.add_0_r.
  assert (imap ((fun i e => as_expected racy e (answers (n + i)%nat)) ∘ S) (omap edit_of lines)
          = imap (fun i e => as_expected racy e (answers (S n + i)%nat)) (omap edit_of lines)) as ->.
  { apply imap_ext. intros i e _. cbn [compose]. by replace (n + S i)%nat with (S n + i)%nat by lia. }
  unfold count. cbn [length]. cbn [List.filter].
  destruct (as_expected racy (edit_id, expected) (answers n)); cbn [Bool.eqb Z.b2z negb length]; lia.
Qed.

Lemma edit_driver_verdict cart edits_path rest text answers :
  let racy := match rest with r :: _ => bool_decide (r = cstr "--racy") | [] => false end in
  fst (edit_driver (cstr "edit_driver" :: cart :: edits_path :: rest) (Some text) answers) = 0 <->
  forall i e, edits_of (lines_of text) !! i = Some e -> as_expected racy e (answers i) = true.
Proof.
  cbn zeta. set (racy := match rest with r :: _ => _ | [] => false end). unfold edit_driver. fold racy.
  match goal with |- context [run_lines racy answers ?l 0 ?t0] =>
    pose proof (run_lines_counts racy answers l 0 t0) as (_ & _ & H); set (t := run_lines racy answers l 0 t0) in * end.
  cbn [fail_count] in H. cbn [fst]. rewrite H. cbn [Nat.add].
  set (vs := imap _ _). unfold count.
  assert (Z.of_nat (length (List.filter (Bool.eqb false) vs)) = 0 <-> forall i v, vs !! i = Some v -> v = true) as Hz.
  { clearbody vs. clear. induction vs as [|v vs IH]; [by split|]. cbn [List.filter]. destruct v; cbn [Bool.eqb].
    - rewrite IH. split; [intros Hv [|i] v Hi; [by injection Hi as <-|by eapply Hv]|intros Hv i v Hi; by apply (Hv (S i))].
    - split; [cbn [length]; lia|]. intros Hv. specialize (Hv 0%nat false eq_refl). done. }
  destruct (Z.ltb_spec 0 (0 + Z.of_nat (length (List.filter (Bool.eqb false) vs)))) as [Hlt|Hge].
  - split; [done|]. intros Hall. exfalso.
    assert (Z.of_nat (length (List.filter (Bool.eqb false) vs)) = 0) as E; [|lia]. apply Hz. intros i v Hv.
    unfold vs in Hv. rewrite list_lookup_imap in Hv. apply fmap_Some in Hv as (e & He & ->). by apply Hall.
  - split; [|done]. intros _ i e He. assert (Z.of_nat (length (List.filter (Bool.eqb false) vs)) = 0) as E by lia.
    apply (proj1 Hz E i). unfold vs. by rewrite list_lookup_imap, He.
Qed.

(** A runtime that answers a negative time counts as one that failed. *)
Lemma negative_time_is_failure : fst (send_reload (Some (cstr "RELOADED -5" ++ [10]))) = -5.
Proof. vm_compute. reflexivity. Qed.
