(* ===== verification/Division.v ===== *)
(** * The guest's 64-bit division (spikes/spike-c/lib/lua_lib_runtime.c and
    spikes/spike-b/ports/rv32emu/softfloat-glue.c)

    A 32-bit guest divides 64-bit integers in software, under the names the compiler
    calls.  The Lua library has a shift-and-subtract routine that first scales the
    divisor, the emulator's ports a restoring division over all 64 bits. *)

From S2P Require Import Prelude.
Open Scope Z_scope.

Definition word64 (x : Z) : Prop := 0 <= x < 2 ^ 64.
Definition int64 (x : Z) : Prop := - 2 ^ 63 <= x < 2 ^ 63.
Definition INT64_MIN : Z := - 2 ^ 63.

(** ** lua_lib_runtime.c *)

(** [while ((d << 1) <= n && ((d << 1) >> 1) == d) { d <<= 1; shift++; }]; [None]: out of
    fuel. *)
Fixpoint scale (fuel : nat) (n d : Z) (shift : nat) : option (Z * nat) :=
  match fuel with
  | O => None
  | S fuel =>
      if (u64 (d ≪ 1) <=? n) && (u64 (d ≪ 1) ≫ 1 =? d)
      then scale fuel n (u64 (d ≪ 1)) (S shift) else Some (d, shift)
  end.

(** The body of the second loop at [shift], which the compiler counts down to -1; the
    rest, the divisor and the quotient. *)
Definition subtract (n d q : Z) (shift : nat) : Z * Z * Z :=
  let '(n, q) := if d <=? n then (u64 (n - d), Z.lor q (u64 (1 ≪ Z.of_nat shift))) else (n, q) in
  (n, d ≫ 1, q).

Fixpoint subtract_down (shift : nat) (n d q : Z) : Z * Z :=
  let '(n, d, q) := subtract n d q shift in
  match shift with O => (q, n) | S shift => subtract_down shift n d q end.

(** The quotient and the remainder. *)
Definition udivmoddi4 (n d : Z) : option (Z * Z) :=
  if d =? 0 then Some (0, 0)
  else if n <? d then Some (0, n)
  else '(d, shift) ← scale 65 n d 0; Some (subtract_down shift n d 0).

Definition __udivdi3 (a b : Z) : option Z := fst <$> udivmoddi4 a b.
Definition __umoddi3 (a b : Z) : option Z := snd <$> udivmoddi4 a b.

(** [a < 0 ? -(unsigned long long)a : (unsigned long long)a] *)
Definition magnitude (a : Z) : Z := if a <? 0 then u64 (- u64 a) else u64 a.

(** [neg ? -(long long)q : (long long)q]: undefined where the negation overflows. *)
Definition with_sign (neg : bool) (q : Z) : option Z :=
  if neg then (if i64 q =? INT64_MIN then None else Some (- i64 q)) else Some (i64 q).

Definition __divdi3 (a b : Z) : option Z :=
  let neg := xorb (a <? 0) (b <? 0) in
  '(q, _) ← udivmoddi4 (magnitude a) (magnitude b);
  with_sign neg q.

Definition __moddi3 (a b : Z) : option Z :=
  let neg := a <? 0 in
  '(_, r) ← udivmoddi4 (magnitude a) (magnitude b);
  with_sign neg r.

(** ** softfloat-glue.c *)

Module Glue.
(** [for (int i = 63; i >= 0; --i)]: [k] iterations are left. *)
Fixpoint restore (k : nat) (n d q r : Z) : Z :=
  match k with
  | O => q
  | S i =>
      let r := Z.lor (u64 (r ≪ 1)) (Z.land (n ≫ Z.of_nat i) 1) in
      let '(q, r) := if d <=? r then (Z.lor q (u64 (1 ≪ Z.of_nat i)), u64 (r - d)) else (q, r) in
      restore i n d q r
  end.

Definition __udivdi3 (n d : Z) : Z := restore 64 n d 0 0.
Definition __umoddi3 (n d : Z) : Z := u64 (n - u64 (__udivdi3 n d * d)).
End Glue.

(** ** Correctness *)

(** Bits of [b] below those of [q]. *)
Lemma lor_disjoint q m b : 0 <= m -> q mod 2 ^ m = 0 -> 0 <= b < 2 ^ m -> Z.lor q b = q + b.
Proof.
  intros Hm Hq Hb. rewrite <-Z.add_lor_land.
  assert (Z.land q b = 0) as ->; [|lia].
  apply Z.bits_inj'. intros i Hi. rewrite Z.land_spec, Z.bits_0.
  destruct (decide (i < m)).
  - rewrite <-(Z.mod_pow2_bits_low q m) by lia. by rewrite Hq, Z.bits_0.
  - rewrite (testbit_high b m) by lia. apply andb_false_r.
Qed.

Lemma mod_pow2_weaken q a b : 0 <= a <= b -> q mod 2 ^ b = 0 -> q mod 2 ^ a = 0.
Proof.
  intros Hab Hq. apply Z.mod_divide in Hq; [|lia]. apply Z.mod_divide; [lia|].
  etransitivity; [|done]. exists (2 ^ (b - a)). rewrite <-Z.pow_add_r by lia. f_equal. lia.
Qed.

Lemma u64_bit k : 0 <= k < 64 -> u64 (1 ≪ k) = 2 ^ k.
Proof.
  intros Hk. rewrite Z.shiftl_1_l. apply wrap_small. split; [lia|]. apply Z.pow_lt_mono_r; lia.
Qed.

Lemma pow_S k : 2 ^ Z.of_nat (S k) = 2 * 2 ^ Z.of_nat k.
Proof. by rewrite Nat2Z.inj_succ, Z.pow_succ_r by lia. Qed.

(** A quotient bit: setting it in [q] adds it, and keeps the bits below clear. *)
Lemma set_bit q k : (k < 64)%nat -> q mod 2 ^ Z.of_nat (S k) = 0 ->
  Z.lor q (u64 (1 ≪ Z.of_nat k)) = q + 2 ^ Z.of_nat k /\ (q + 2 ^ Z.of_nat k) mod 2 ^ Z.of_nat k = 0.
Proof.
  intros Hk Hq. split.
  - rewrite u64_bit by lia. apply (lor_disjoint _ (Z.of_nat (S k))); [lia|done|]. rewrite pow_S. lia.
  - apply (mod_pow2_weaken _ (Z.of_nat k)) in Hq; [|lia].
    rewrite <-(Z.mul_1_l (2 ^ Z.of_nat k)) at 1. by rewrite Z.mod_add by lia.
Qed.

Lemma land_1 x : Z.land x 1 = x mod 2.
Proof. change 1 with (Z.ones 1). by rewrite Z.land_ones, Z.pow_1_r. Qed.

Lemma half x : (2 * x) ≫ 1 = x.
Proof. rewrite Z.shiftr_div_pow2, Z.pow_1_r, Z.mul_comm by lia. by apply Z.div_mul. Qed.

(** The scaled divisor is the last multiple by a power of two that fits. *)
Lemma scale_spec n d : word64 n -> 0 < d -> forall fuel s,
  (65 <= fuel + s)%nat -> d * 2 ^ Z.of_nat s <= n ->
  exists k, scale fuel n (d * 2 ^ Z.of_nat s) s = Some (d * 2 ^ Z.of_nat k, k) /\
    d * 2 ^ Z.of_nat k <= n < d * 2 ^ Z.of_nat (S k) /\ (k < 64)%nat.
Proof.
  intros [Hn0 Hn] Hd. induction fuel as [|fuel IH]; intros s Hf Hs.
  { exfalso. assert (2 ^ 65 <= 2 ^ Z.of_nat s) by (apply Z.pow_le_mono_r; lia). nia. }
  cbn [scale]. rewrite Z.shiftl_mul_pow2, Z.pow_1_r by lia.
  replace (d * 2 ^ Z.of_nat s * 2) with (d * 2 ^ Z.of_nat (S s)) by (rewrite pow_S; lia).
  set (e := d * 2 ^ Z.of_nat (S s)). assert (e = 2 * (d * 2 ^ Z.of_nat s)) as He by (unfold e; rewrite pow_S; lia).
  assert (s < 64)%nat as Hs64.
  { destruct (decide (s < 64)%nat); [done|]. exfalso.
    assert (2 ^ 64 <= 2 ^ Z.of_nat s) by (apply Z.pow_le_mono_r; lia). nia. }
  destruct (Z.ltb_spec e (2 ^ 64)).
  - rewrite wrap_small by lia. replace (e ≫ 1) with (d * 2 ^ Z.of_nat s) by (by rewrite He, half).
    rewrite Z.eqb_refl, andb_true_r. destruct (Z.leb_spec e n).
    + apply IH; [lia|done].
    + exists s. split_and!; try done; lia.
  - assert (u64 e ≫ 1 =? d * 2 ^ Z.of_nat s = false) as ->.
    { apply Z.eqb_neq. pose proof (wrap_range 64 e ltac:(lia)). rewrite Z.shiftr_div_pow2, Z.pow_1_r by lia.
      assert (u64 e / 2 < 2 ^ 63) by (apply Z.div_lt_upper_bound; lia). lia. }
    rewrite andb_false_r. exists s. split_and!; try done; lia.
Qed.

Lemma subtract_down_spec d : 0 < d -> forall k n q,
  (k < 64)%nat -> word64 n -> n < d * 2 ^ Z.of_nat (S k) -> q mod 2 ^ Z.of_nat (S k) = 0 ->
  subtract_down k n (d * 2 ^ Z.of_nat k) q = (q + n / d, n mod d).
Proof.
  intros Hd. induction k as [|k IH]; intros n q Hk Hw Hn Hq.
  - cbn [subtract_down]. unfold subtract. destruct (set_bit q 0 Hk Hq) as [-> _].
    change (2 ^ Z.of_nat 0) with 1 in *. change (2 ^ Z.of_nat 1) with 2 in *.
    rewrite Z.mul_1_r. destruct (Z.leb_spec d n).
    + rewrite (wrap_small 64) by (unfold word64 in *; lia). rewrite (Z.div_unique n d 1 (n - d)) by lia.
      by rewrite (Z.mod_unique n d 1 (n - d)) by lia.
    + unfold word64 in *. by rewrite Z.div_small, Z.mod_small, Z.add_0_r by lia.
  - cbn [subtract_down]. unfold subtract. destruct (set_bit q (S k) Hk Hq) as [-> Hq'].
    assert ((d * 2 ^ Z.of_nat (S k)) ≫ 1 = d * 2 ^ Z.of_nat k) as Hhalf.
    { rewrite (pow_S k). replace (d * (2 * 2 ^ Z.of_nat k)) with (2 * (d * 2 ^ Z.of_nat k)) by lia. apply half. }
    rewrite Hhalf. unfold word64 in *. rewrite (pow_S (S k)) in Hn.
    destruct (Z.leb_spec (d * 2 ^ Z.of_nat (S k)) n).
    + rewrite (wrap_small 64) by lia. rewrite IH by (lia || done).
      replace (n - d * 2 ^ Z.of_nat (S k)) with (n + - 2 ^ Z.of_nat (S k) * d) by lia.
      rewrite Z.div_add, Z.mod_add by lia. f_equal. lia.
    + apply IH; [lia|done|done|]. apply (mod_pow2_weaken _ _ (Z.of_nat (S (S k)))); [lia|done].
Qed.

Lemma quot_rem a b q r : 0 <= r < b -> a = b * q + r -> a / b = q /\ a mod b = r.
Proof. intros Hr E. split; symmetry; [by apply (Z.div_unique_pos a b q r)|by apply (Z.mod_unique_pos a b q r)]. Qed.

(** The restoring loop, with the quotient bits of [n]'s upper part in [q] and its rest in
    [r]: the rest never outgrows 63 bits before it is shifted. *)
Lemma restore_spec n d : word64 n -> 0 < d -> forall k q,
  (k <= 64)%nat -> q mod 2 ^ Z.of_nat k = 0 -> q = n / 2 ^ Z.of_nat k / d * 2 ^ Z.of_nat k ->
  Glue.restore k n d q (n / 2 ^ Z.of_nat k mod d) = n / d.
Proof.
  intros [Hn0 Hn] Hd. induction k as [|k IH]; intros q Hk Hm Hq.
  - cbn [Glue.restore]. change (2 ^ Z.of_nat 0) with 1 in Hq. rewrite Hq, Z.div_1_r. lia.
  - cbn [Glue.restore]. set (p := 2 ^ Z.of_nat k) in *. assert (0 < p) as Hp by (unfold p; lia).
    rewrite (pow_S k) in Hq. fold p in Hq.
    rewrite (Z.shiftr_div_pow2 n), (pow_S k) by lia. fold p.
    rewrite land_1.
    assert (n / (2 * p) = n / p / 2) as Ehalf by (rewrite Z.mul_comm; by rewrite Z.div_div by lia).
    rewrite Ehalf in *. set (u := n / p) in *. assert (0 <= u) as Hu by (unfold u; apply Z.div_pos; lia).
    assert (u < 2 ^ 64) as Hu64. { unfold u. apply Z.div_lt_upper_bound; [lia|]. nia. }
    pose proof (Z.mod_pos_bound (u / 2) d Hd) as Hr. set (r := (u / 2) mod d) in *.
    assert (r < 2 ^ 63) as Hr63.
    { assert (0 <= u / 2 < 2 ^ 63) by (split; [apply Z.div_pos|apply Z.div_lt_upper_bound]; lia).
      assert (r <= u / 2) by (apply Z.mod_le; lia). lia. }
    rewrite Z.shiftl_mul_pow2, Z.pow_1_r, wrap_small by lia.
    pose proof (Z.mod_pos_bound u 2 ltac:(lia)) as Hb.
    rewrite (lor_disjoint _ 1) by (try rewrite Z.pow_1_r; try rewrite Z.mod_mul; lia).
    assert (u = d * (2 * (u / 2 / d)) + (r * 2 + u mod 2)) as Eu.
    { pose proof (Z.div_mod u 2 ltac:(lia)). pose proof (Z.div_mod (u / 2) d ltac:(lia)). fold r in H0. nia. }
    destruct (set_bit q k ltac:(lia) Hm) as [-> Hq']. fold p in Hq'|-*.
    destruct (Z.leb_spec d (r * 2 + u mod 2)).
    + assert (u / d = 2 * (u / 2 / d) + 1 /\ u mod d = r * 2 + u mod 2 - d) as [Eq Er].
      { by apply quot_rem; [lia|rewrite Eu at 1; ring]. }
      rewrite (wrap_small 64) by lia. rewrite <-Er. apply IH; [lia|done|]. fold p u. rewrite Eq, Hq. lia.
    + assert (u / d = 2 * (u / 2 / d) /\ u mod d = r * 2 + u mod 2) as [Eq Er].
      { by apply quot_rem; [lia|rewrite Eu at 1; ring]. }
      rewrite <-Er. apply IH; [lia| |fold p u; rewrite Eq, Hq; lia].
      apply (mod_pow2_weaken _ _ (Z.of_nat (S k))); [lia|done].
Qed.

Lemma udivmoddi4_spec n d : word64 n -> 0 < d -> udivmoddi4 n d = Some (n / d, n mod d).
Proof.
  intros Hn Hd. unfold udivmoddi4. destruct (Z.eqb_spec d 0); [lia|].
  unfold word64 in Hn. destruct (Z.ltb_spec n d); [by rewrite Z.div_small, Z.mod_small by lia|].
  destruct (scale_spec n d Hn Hd 65 0 ltac:(lia)) as (k & E & Hk & Hk64); [cbn; lia|].
  change (2 ^ Z.of_nat 0) with 1 in E. rewrite Z.mul_1_r in E. rewrite E. cbn [mbind option_bind].
  by rewrite subtract_down_spec by (try apply Zmod_0_l; lia || done).
Qed.

Lemma glue_spec n d : word64 n -> 0 < d -> Glue.__udivdi3 n d = n / d.
Proof.
  intros Hn Hd. unfold Glue.__udivdi3. assert (n / 2 ^ Z.of_nat 64 = 0) as E by (apply Z.div_small; exact Hn).
  pose proof (restore_spec n d Hn Hd 64 0 ltac:(lia)) as H. rewrite E, Z.div_0_l, Z.mod_0_l in H by lia. by apply H.
Qed.

Lemma magnitude_abs a : int64 a -> magnitude a = Z.abs a.
Proof.
  unfold int64, magnitude. intros Ha. destruct (Z.ltb_spec a 0); [|rewrite wrap_small; lia].
  assert (u64 a = a + 2 ^ 64) as ->.
  { unfold wrap. rewrite <-(Z.mod_add a 1) by lia. rewrite Z.mod_small; lia. }
  unfold wrap. rewrite <-(Z.mod_add _ 1) by lia. rewrite Z.mod_small; lia.
Qed.

Lemma with_sign_spec neg q : 0 <= q <= 2 ^ 63 ->
  with_sign neg q = if neg && (q =? 2 ^ 63) then None else Some (i64 (if neg then - q else q)).
Proof.
  intros Hq. unfold with_sign, INT64_MIN. destruct neg; cbn [andb]; [|done].
  destruct (Z.eqb_spec q (2 ^ 63)) as [->|]; [reflexivity|].
  rewrite !signed_small by lia. by destruct (Z.eqb_spec q (- 2 ^ 63)); [lia|].
Qed.

(** C30: Both routines divide: for all 64-bit words and every divisor but zero, the scaled
    loop of the Lua library ends and yields the quotient and the remainder, and the
    restoring loop of the ports yields the same two, although neither ever holds more
    than 64 bits. *)
Theorem division_exact n d (Hn : word64 n) (Hd : word64 d) (Hnz : d <> 0) :
  __udivdi3 n d = Some (n / d) /\ __umoddi3 n d = Some (n mod d) /\
  Glue.__udivdi3 n d = n / d /\ Glue.__umoddi3 n d = n mod d.
Proof.
  assert (0 < d) as Hpos by (unfold word64 in Hd; lia).
  assert (udivmoddi4 n d = Some (n / d, n mod d)) as E by exact (udivmoddi4_spec n d Hn Hpos).
  assert (Glue.__udivdi3 n d = n / d) as Eg by exact (glue_spec n d Hn Hpos).
  unfold __udivdi3, __umoddi3, Glue.__umoddi3. rewrite E, Eg. split_and!; [done..|].
  pose proof (Z.div_mod n d Hnz). pose proof (Z.mod_pos_bound n d Hpos). unfold word64 in *.
  replace (n / d * d) with (n - n mod d) by lia.
  assert (n mod d <= n) by (apply Z.mod_le; lia). rewrite (wrap_small 64 (n - n mod d)), wrap_small by lia. lia.
Qed.

(** The signed division truncates towards zero and the remainder takes the sign of the
    dividend, as C asks; the quotient that does not fit comes out as the smallest
    number, and the smallest number divided by one is undefined: the routine negates it. *)
Lemma signed_division_exact a b (Ha : int64 a) (Hb : int64 b) (Hnz : b <> 0) :
  __divdi3 a b = (if (a =? INT64_MIN) && (b =? 1) then None else Some (i64 (Z.quot a b))) /\
  __moddi3 a b = Some (Z.rem a b).
Proof.
  unfold __divdi3, __moddi3. rewrite !magnitude_abs by done.
  rewrite udivmoddi4_spec by (unfold word64, int64 in *; lia). cbn [mbind option_bind].
  rewrite Z.quot_div, Z.rem_mod by done. unfold int64, INT64_MIN in *.
  pose proof (Z.div_mod (Z.abs a) (Z.abs b) ltac:(lia)) as Hdm.
  pose proof (Z.mod_pos_bound (Z.abs a) (Z.abs b) ltac:(lia)) as Hr.
  assert (0 <= Z.abs a / Z.abs b <= Z.abs a) as Hq by (split; [apply Z.div_pos|apply Z.div_le_upper_bound]; nia).
  set (q := Z.abs a / Z.abs b) in *. set (r := Z.abs a mod Z.abs b) in *. split.
  - rewrite with_sign_spec by lia.
    assert (q = 2 ^ 63 -> a = - 2 ^ 63 /\ (b = 1 \/ b = -1)) as Hmin by (intros E; rewrite E in Hdm; nia).
    assert (a = - 2 ^ 63 -> b = 1 -> q = 2 ^ 63) as Hone by (intros -> ->; reflexivity).
    destruct (Z.eqb_spec a (- 2 ^ 63)), (Z.eqb_spec b 1); cbn [andb].
    + rewrite (Hone e e0). by subst.
    + destruct (xorb _ _ && (q =? 2 ^ 63)) eqn:E.
      * apply andb_true_iff in E as [Hx Eq]. apply Z.eqb_eq in Eq. destruct (Hmin Eq) as [_ [|Eb]]; [done|].
        subst. done.
      * f_equal. f_equal. destruct (Z.ltb_spec a 0), (Z.ltb_spec b 0); cbn [xorb]; nia.
    + destruct (Z.eqb_spec q (2 ^ 63)); [naive_solver|]. rewrite andb_false_r. f_equal. f_equal.
      destruct (Z.ltb_spec a 0), (Z.ltb_spec b 0); cbn [xorb]; nia.
    + destruct (Z.eqb_spec q (2 ^ 63)); [naive_solver|]. rewrite andb_false_r. f_equal. f_equal.
      destruct (Z.ltb_spec a 0), (Z.ltb_spec b 0); cbn [xorb]; nia.
  - rewrite with_sign_spec by lia. destruct (Z.eqb_spec r (2 ^ 63)); [lia|]. rewrite andb_false_r. f_equal.
    destruct (Z.ltb_spec a 0); rewrite signed_small by lia; nia.
Qed.

(** ** Where the routines end *)

(** A zero divisor: both return, with different answers. *)
Lemma division_by_zero n : word64 n ->
  udivmoddi4 n 0 = Some (0, 0) /\ Glue.__udivdi3 n 0 = 2 ^ 64 - 1 /\ Glue.__umoddi3 n 0 = n.
Proof.
  intros Hn. assert (Glue.__udivdi3 n 0 = 2 ^ 64 - 1) as E.
  { unfold Glue.__udivdi3. assert (forall k q r, (k <= 64)%nat -> word64 r -> q mod 2 ^ Z.of_nat k = 0 -> Glue.restore k n 0 q r = q + (2 ^ Z.of_nat k - 1)) as H.
    { induction k as [|k IH]; intros q r Hk Hr Hq; [cbn; lia|]. cbn [Glue.restore].
      set (x := Z.lor _ _). assert (word64 x) as Hx.
      { apply lor_range; [lia|by apply wrap_range|]. rewrite land_1. pose proof (Z.mod_pos_bound (n ≫ Z.of_nat k) 2). lia. }
      destruct (Z.leb_spec 0 x); [|unfold word64 in Hx; lia]. destruct (set_bit q k ltac:(lia) Hq) as [-> Hq'].
      rewrite IH; [rewrite pow_S; lia|lia|by apply wrap_range|done]. }
    rewrite H by (unfold word64; lia || done). reflexivity. }
  split_and!; [reflexivity|done|]. unfold Glue.__umoddi3. rewrite E, Z.mul_0_r.
  change (u64 0) with 0. rewrite Z.sub_0_r. by apply wrap_small.
Qed.

(** The smallest number divided by one. *)
Lemma divdi3_min_by_one : __divdi3 INT64_MIN 1 = None /\ __divdi3 INT64_MIN (-1) = Some INT64_MIN.
Proof. split; vm_compute; reflexivity. Qed.

Lemma division_exact_witness :
  let n := 0xfedcba9876543210 in let d := 0x8000000000000001 in
  word64 n /\ word64 d /\ d <> 0 /\
  __udivdi3 n d = Some 1 /\ __umoddi3 n d = Some (n - d) /\ Glue.__udivdi3 n d = 1 /\ Glue.__umoddi3 n d = n - d.
Proof.
  cbv zeta. assert (word64 0xfedcba9876543210) as Hn by (unfold word64; lia).
  assert (word64 0x8000000000000001) as Hd by (unfold word64; lia).
  split_and!; [done|done|done|..].
  - exact (proj1 (division_exact _ _ Hn Hd ltac:(done))).
  - exact (proj1 (proj2 (division_exact _ _ Hn Hd ltac:(done)))).
  - exact (proj1 (proj2 (proj2 (division_exact _ _ Hn Hd ltac:(done))))).
  - exact (proj2 (proj2 (proj2 (division_exact _ _ Hn Hd ltac:(done))))).
Defined.

Lemma signed_division_exact_witness :
  int64 (-7) /\ int64 2 /\ __divdi3 (-7) 2 = Some (-3) /\ __moddi3 (-7) 2 = Some (-1).
Proof.
  assert (int64 (-7)) as Ha by (unfold int64; lia). assert (int64 2) as Hb by (unfold int64; lia).
  split_and!; [done|done|exact (proj1 (signed_division_exact _ _ Ha Hb ltac:(done)))
    |exact (proj2 (signed_division_exact _ _ Ha Hb ltac:(done)))].
Defined.
