(* ===== verification/FMath.v ===== *)
(** * The guest's floats: conversion and rounding (spikes/spike-b/ports/rv32emu/lua_runtime.c)

    The rest of the C library behind a Lua cart: reading a number, rounding it, splitting
    it, and the small functions around them.  A [float] is its bits; every operation rounds
    on its own.  A [double] is kept by the guest only on the way through the float
    functions.  A conversion to [int] that does not fit is undefined. *)

From Stdlib Require Import SpecFloat.
From S2P Require Import Prelude Float32 Float64 FloatExact CString.
From S2P Require Whetstone.
Open Scope Z_scope.

(** ** Conversions *)

Definition to_int (z : Z) : option Z := if (- 2 ^ 31 <=? z) && (z <? 2 ^ 31) then Some z else None.

(** [(int)x]: towards zero. *)
Definition f32_to_i32 (u : Z) : option Z := M ← f32_fix u; to_int (Z.quot M UNIT).

Definition f32_div (a b : Z) : Z := f32_to_bits (SFdiv f32_prec f32_emax (f32_of_bits a) (f32_of_bits b)).
(** [a == b] *)
Definition f32_eq (a b : Z) : bool := SFeqb (f32_of_bits a) (f32_of_bits b).

(** 10.0, 0.1 and 2.0 *)
Definition f32_ten : Z := 0x41200000.
Definition f32_tenth : Z := 0x3dcccccd.
Definition f32_two : Z := 0x40000000.

(** ** Rounding *)

Definition floorf (x : Z) : option Z :=
  i ← f32_to_i32 x;
  i ← (if f32_lt x (f32_of_Z i) then to_int (i - 1) else Some i);
  Some (f32_of_Z i).

Definition ceilf (x : Z) : option Z :=
  i ← f32_to_i32 x;
  i ← (if f32_lt (f32_of_Z i) x then to_int (i + 1) else Some i);
  Some (f32_of_Z i).

Definition truncf (x : Z) : option Z := i ← f32_to_i32 x; Some (f32_of_Z i).

Definition fmodf (x y : Z) : option Z :=
  if f32_eq y f32_zero then Some f32_zero
  else q ← f32_to_i32 (f32_div x y); Some (f32_sub x (f32_mul (f32_of_Z q) y)).

(** What [*ip] receives, and the result. *)
Definition modff (x : Z) : option (Z * Z) := i ← truncf x; Some (i, f32_sub x i).

Definition ldexpf (x e : Z) : Z :=
  if 0 <? e then Nat.iter (Z.to_nat e) (fun x => f32_mul x f32_two) x
  else Nat.iter (Z.to_nat (- e)) (fun x => f32_mul x f32_half) x.

Definition scalbnf (x e : Z) : Z := ldexpf x e.

(** The result and [*e]. *)
Definition frexpf (x : Z) : Z * Z := (x, 0).

(** The functions on [double] go through [float]. *)
Definition through_float (f : Z -> option Z) (x : Z) : option Z := f64_of_f32 <$> f (f32_of_f64 x).
Definition floor : Z -> option Z := through_float floorf.
Definition ceil : Z -> option Z := through_float ceilf.
Definition trunc : Z -> option Z := through_float truncf.
Definition sqrt : Z -> option Z := through_float (fun x => Some (Whetstone.sqrtf x)).
Definition fmod (x y : Z) : option Z := f64_of_f32 <$> fmodf (f32_of_f64 x) (f32_of_f64 y).
Definition ldexp (x e : Z) : Z := f64_of_f32 (ldexpf (f32_of_f64 x) e).
Definition scalbn (x e : Z) : Z := ldexp x e.
Definition frexp (x : Z) : Z * Z := (x, 0).
Definition fabs (x : Z) : Z := Z.land x 0x7FFFFFFFFFFFFFFF.

(** ** Reading a number *)

Definition is_digit (c : Z) : bool := (48 <=? c) && (c <=? 57).

(** A digit of the integer part: ten times the value so far and the digit. *)
Fixpoint int_part (s : list Z) (v : Z) : Z * list Z :=
  match s with
  | c :: s' => if is_digit c then int_part s' (f32_add (f32_mul v f32_ten) (f32_of_Z (c - 48))) else (v, s)
  | [] => (v, [])
  end.

Fixpoint frac_part (s : list Z) (v scale : Z) : Z * list Z :=
  match s with
  | c :: s' =>
      if is_digit c then frac_part s' (f32_add v (f32_mul (f32_of_Z (c - 48)) scale)) (f32_mul scale f32_tenth)
      else (v, s)
  | [] => (v, [])
  end.

(** The exponent's digits; overflow wraps, as in [atoi]. *)
Fixpoint exp_digits (s : list Z) (e : Z) : Z * list Z :=
  match s with
  | c :: s' => if is_digit c then exp_digits s' (i32 (e * 10 + (c - 48))) else (e, s)
  | [] => (e, [])
  end.

(** [for (int i = 0; i < e; i++) f *= 10.0f;] *)
Definition power_of_ten (e : Z) : Z := Nat.iter (Z.to_nat e) (fun f => f32_mul f f32_ten) f32_one.

(** The part after a point, and the part after an [e]. *)
Definition point_part (v : Z) (s : list Z) : Z * list Z :=
  match s with c :: s' => if c =? 46 then frac_part s' v f32_tenth else (v, s) | [] => (v, []) end.

Definition exp_part (v : Z) (s : list Z) : Z * list Z :=
  match s with
  | c :: s' =>
      if (c =? 101) || (c =? 69) then
        let '(eneg, s') := sign s' in
        let '(e, s') := exp_digits s' 0 in
        let f := power_of_ten e in
        ((if eneg then f32_div v f else f32_mul v f), s')
      else (v, s)
  | [] => (v, [])
  end.

(** The value and [*end]. *)
Definition strtof (s : list Z) : Z * list Z :=
  let '(neg, s) := sign (skip_blanks s) in
  let '(v, s) := int_part s f32_zero in
  let '(v, s) := point_part v s in
  let '(v, s) := exp_part v s in
  ((if neg then Whetstone.f32_neg v else v), s).

Definition strtod (s : list Z) : Z * list Z := let '(v, rest) := strtof s in (f64_of_f32 v, rest).

(** ** The small functions *)

Definition atol (s : list Z) : Z := atoi s.
Definition labs (v : Z) : Z := abs v.
Definition strtoul (s : list Z) (base : Z) : Z * list Z := let '(v, rest) := strtol s base in (u32 v, rest).

(** The text [strerror] leaves in its buffer; undefined for the one number without a
    negation. *)
Definition strerror (e : Z) : option (list Z) :=
  if e =? - 2 ^ 31 then None
  else Some (cstr "errno=" ++ (if e <? 0 then [45] else []) ++ dec (Z.abs e)).

(** The clock is the parameter: nanoseconds from [now_ns]; [long] has 32 bits. *)
Definition clock (now_ns : Z) : Z := i32 (now_ns / 1000).
Definition time (now_ns : Z) : Z := i32 (now_ns / 1000000000).

Definition getenv (name : list Z) : option (list Z) := None.
Definition rand : Z := 0.

(** The stubs: 0.0, whatever the arguments. *)
Definition STUB1FF (x : Z) : Z := f32_zero.
Definition STUB1FD (x : Z) : Z := 0.
Definition STUB2FF (a b : Z) : Z := f32_zero.
Definition STUB2FD (a b : Z) : Z := 0.

(** ** Rounding is exact *)

Lemma to_int_in z : - 2 ^ 31 <= z < 2 ^ 31 -> to_int z = Some z.
Proof. intros H. unfold to_int. destruct (Z.leb_spec (- 2 ^ 31) z), (Z.ltb_spec z (2 ^ 31)); (done || lia). Qed.

Lemma representable_int n : Z.abs n < 2 ^ 24 -> representable (n * UNIT).
Proof. intros H. exists (Z.abs n), 149. unfold UNIT. rewrite Z.abs_mul. split_and!; [done|lia..]. Qed.

Lemma int_fix n : Z.abs n < 2 ^ 24 -> f32_fix (f32_of_Z n) = Some (n * UNIT).
Proof. intros H. by apply f32_of_Z_exact, representable_int. Qed.

(** The shape of a value: a large one is a whole number. *)
Lemma fix_shape x M : f32_fix x = Some M ->
  M = 0 \/ exists k N, Z.abs M = k * 2 ^ N /\ 0 < k < 2 ^ 24 /\ 0 <= N <= 253 /\ (149 <= N -> (UNIT | M)).
Proof.
  intros H. pose proof (f32_of_bits_valid x) as Hv. unfold f32_fix in H.
  destruct (f32_of_bits x) as [s|s| |s m e]; try done; cbn [sf_fix] in H; injection H as <-; [by left|right].
  destruct (bounded_range _ _ Hv) as (He & Hm & _). exists (Zpos m), (e + 149). split_and!; try lia.
  - rewrite Z.abs_mul, (Z.abs_eq (2 ^ _)) by (apply Z.pow_nonneg; lia). f_equal. destruct s; cbn [cond_Zopp]; lia.
  - intros HN. unfold UNIT. exists (cond_Zopp s (Zpos m) * 2 ^ e).
    rewrite <-Z.mul_assoc, <-Z.pow_add_r by lia. reflexivity.
Qed.

(** The whole part of a value in range, and what is left of it. *)
Lemma whole_part x M : f32_fix x = Some M -> Z.abs M < 2 ^ 31 * UNIT ->
  let i := Z.quot M UNIT in
  f32_to_i32 x = Some i /\ f32_fix (f32_of_Z i) = Some (i * UNIT) /\ representable (M - i * UNIT) /\
  (M = i * UNIT \/ Z.abs i < 2 ^ 23).
Proof.
  intros Hx Hr. cbv zeta. set (i := Z.quot M UNIT).
  assert (Z.abs i < 2 ^ 31) as Hi.
  { unfold i. rewrite <-Z.quot_abs, (Z.abs_eq UNIT) by done. rewrite Z.quot_div_nonneg by (unfold UNIT; lia). apply Z.div_lt_upper_bound; unfold UNIT in *; lia. }
  assert (f32_to_i32 x = Some i) as ->.
  { unfold f32_to_i32. rewrite Hx. cbn [mbind option_bind]. fold i. apply to_int_in. lia. }
  pose proof (Z.quot_rem M UNIT ltac:(done)) as Eqr. fold i in Eqr.
  destruct (fix_shape x M Hx) as [->|(k & N & EM & Hk & HN & Hdiv)].
  { split_and!; [done|by apply int_fix|by exists 0, 0|by left]. }
  destruct (decide (149 <= N)) as [HN'|HN'].
  - destruct (Hdiv HN') as [c Hc]. assert (i = c) as Ei by (unfold i; rewrite Hc; by apply Z.quot_mul).
    rewrite Ei, <-Hc in *. split_and!; [done| |rewrite Z.sub_diag; by exists 0, 0|by left].
    rewrite Hc. apply f32_of_Z_exact. rewrite <-Hc. exists k, N. split_and!; lia.
  - assert (Z.abs i < 2 ^ 23) as Hi23.
    { unfold i. rewrite <-Z.quot_abs, (Z.abs_eq UNIT) by done. rewrite Z.quot_div_nonneg by (unfold UNIT; lia).
      apply Z.div_lt_upper_bound; [done|]. rewrite EM. change (UNIT * 2 ^ 23) with (2 ^ 24 * 2 ^ 148).
      apply Z.lt_le_trans with (2 ^ 24 * 2 ^ N); [apply Z.mul_lt_mono_pos_r; lia|].
      apply Z.mul_le_mono_nonneg_l; [lia|]. apply Z.pow_le_mono_r; lia. }
    split_and!; [done|apply int_fix; lia| |by right].
    replace (M - i * UNIT) with (Z.rem M UNIT) by lia.
    assert (Z.abs (Z.rem M UNIT) = Z.rem (Z.abs M) UNIT) as Er by (rewrite <-Z.rem_abs by done; by rewrite (Z.abs_eq UNIT)).
    exists (k mod 2 ^ (149 - N)), N. rewrite Er, EM. rewrite Z.rem_mod_nonneg by (unfold UNIT; lia).
    assert (UNIT = 2 ^ (149 - N) * 2 ^ N) as -> by (rewrite <-Z.pow_add_r by lia; unfold UNIT; f_equal; lia).
    rewrite Z.mul_mod_distr_r by lia. split_and!; [done| | |lia..].
    + apply Z.mod_pos_bound. lia.
    + apply Z.le_lt_trans with k; [apply Z.mod_le; lia|lia].
Qed.

Lemma int_lt x M i : f32_fix x = Some M -> f32_fix (f32_of_Z i) = Some (i * UNIT) ->
  f32_lt x (f32_of_Z i) = (M <? i * UNIT) /\ f32_lt (f32_of_Z i) x = (i * UNIT <? M).
Proof. intros H1 H2. by split; apply f32_lt_fix. Qed.

(** Floor, ceiling and truncation are exact for every float below 2^31 in magnitude,
    as the comment above them says: the result is defined and is the float of the next
    integer below, above and towards zero; [modff] splits such a number into its whole
    and its fractional part without an error. *)
Theorem rounding_exact x M (Hx : f32_fix x = Some M) (Hr : Z.abs M < 2 ^ 31 * UNIT) :
  (exists v, floorf x = Some v /\ f32_fix v = Some (M / UNIT * UNIT)) /\
  (exists v, ceilf x = Some v /\ f32_fix v = Some (- (- M / UNIT) * UNIT)) /\
  (exists v, truncf x = Some v /\ f32_fix v = Some (Z.quot M UNIT * UNIT)) /\
  (exists ip fp, modff x = Some (ip, fp) /\ f32_fix ip = Some (Z.quot M UNIT * UNIT) /\ f32_fix fp = Some (Z.rem M UNIT)).
Proof.
  destruct (whole_part x M Hx Hr) as (Hi & Hf & Hrep & Hcase). set (i := Z.quot M UNIT) in *.
  destruct (int_lt x M i Hx Hf) as [Hlt Hgt].
  pose proof (Z.quot_rem M UNIT ltac:(done)) as Eqr. fold i in Eqr.
  pose proof (Z.rem_bound_abs M UNIT ltac:(done)) as Hrem. change (Z.abs UNIT) with UNIT in Hrem.
  assert (0 < UNIT) as Hu by done.
  split_and!.
  - unfold floorf. rewrite Hi. cbn [mbind option_bind]. rewrite Hlt. destruct (Z.ltb_spec M (i * UNIT)).
    + rewrite to_int_in by (destruct Hcase; lia). cbn [mbind option_bind]. eexists. split; [done|].
      rewrite int_fix by (destruct Hcase; lia). do 2 f_equal. apply (Z.div_unique_pos M UNIT _ (Z.rem M UNIT + UNIT)); lia.
    + cbn [mbind option_bind]. eexists. split; [done|]. rewrite Hf. do 2 f_equal.
      apply (Z.div_unique_pos M UNIT _ (Z.rem M UNIT)); lia.
  - unfold ceilf. rewrite Hi. cbn [mbind option_bind]. rewrite Hgt. destruct (Z.ltb_spec (i * UNIT) M).
    + rewrite to_int_in by (destruct Hcase; lia). cbn [mbind option_bind]. eexists. split; [done|].
      rewrite int_fix by (destruct Hcase; lia). do 2 f_equal.
      rewrite <-(Z.div_unique_pos (- M) UNIT (- (i + 1)) (UNIT - Z.rem M UNIT)); lia.
    + cbn [mbind option_bind]. eexists. split; [done|]. rewrite Hf. do 2 f_equal.
      rewrite <-(Z.div_unique_pos (- M) UNIT (- i) (- Z.rem M UNIT)); lia.
  - unfold truncf. rewrite Hi. eexists. split; [done|exact Hf].
  - unfold modff, truncf. rewrite Hi. cbn [mbind option_bind]. eexists _, _. split; [done|].
    split; [done|]. replace (Z.rem M UNIT) with (M - i * UNIT) by lia. by apply f32_sub_exact.
Qed.

(** ** Reading is exact *)

Lemma f32_mul_int a b x y : f32_fix a = Some (x * UNIT) -> f32_fix b = Some (y * UNIT) ->
  0 <= x -> 0 <= y -> x * y < 2 ^ 24 -> f32_fix (f32_mul a b) = Some (x * y * UNIT).
Proof.
  intros Ha Hb Hx Hy Hxy. apply fix_valid in Ha, Hb. apply to_bits_fix.
  apply (SFmul_exact _ _ (x * UNIT) (y * UNIT)); [done|done|ring|apply representable_int; lia|].
  assert (forall f s m e z, is_float f (z * UNIT) -> f = S754_finite s m e -> -23 <= e /\ 2 ^ 23 <= Zpos m) as Hbig.
  { intros f s m e z [Hv Hf] ->. destruct (bounded_range _ _ Hv) as (He & Hm & Hn). cbn [sf_fix] in Hf. injection Hf as Hf.
    assert (UNIT <= Zpos m * 2 ^ (e + 149)) as Hu.
    { assert (Z.abs (cond_Zopp s (Zpos m) * 2 ^ (e + 149)) = Zpos m * 2 ^ (e + 149)) as <-.
      { rewrite Z.abs_mul, (Z.abs_eq (2 ^ _)) by (apply Z.pow_nonneg; lia). f_equal. destruct s; cbn [cond_Zopp]; lia. }
      rewrite Hf, Z.abs_mul, (Z.abs_eq UNIT) by done. assert (z <> 0) as Hz.
      { intros ->. pose proof (Z.pow_pos_nonneg 2 (e + 149)). destruct s; cbn [cond_Zopp] in Hf; nia. }
      assert (0 < UNIT) by done. nia. }
    assert (2 ^ 149 < 2 ^ (24 + (e + 149))) as A.
    { apply Z.le_lt_trans with (Zpos m * 2 ^ (e + 149)); [exact Hu|]. rewrite (Z.pow_add_r 2 24) by lia.
      apply Z.mul_lt_mono_pos_r; [apply Z.pow_pos_nonneg|]; lia. }
    apply Z.pow_lt_mono_r_iff in A; [|lia..]. split; [lia|]. apply Hn. lia. }
  intros s m e s' m' e' Ef Eg. destruct (Hbig _ _ _ _ _ Ha Ef) as [He Hm], (Hbig _ _ _ _ _ Hb Eg) as [He' Hm'].
  split; [lia|]. destruct (digits2_spec (m * m')) as [_ D].
  assert (2 ^ 46 < 2 ^ Zpos (digits2_pos (m * m'))) as A.
  { apply Z.le_lt_trans with (Zpos (m * m')); [|done]. rewrite Pos2Z.inj_mul. change (2 ^ 46) with (2 ^ 23 * 2 ^ 23).
    apply Z.mul_le_mono_nonneg; lia. }
  apply Z.pow_lt_mono_r_iff in A; [|lia..]. unfold fexp, emin, f32_prec, f32_emax. lia.
Qed.

Lemma f32_mul_zero a b y : f32_fix a = Some 0 -> f32_fix b = Some y -> f32_fix (f32_mul a b) = Some 0.
Proof.
  intros Ha Hb. apply fix_valid in Ha, Hb. apply to_bits_fix.
  apply (SFmul_exact _ _ 0 y); [done|done|ring|apply (representable_int 0); lia|].
  intros s m e s' m' e' Ef _. destruct Ha as [Hv Hf]. rewrite Ef in Hv, Hf.
  destruct (bounded_range _ _ Hv) as (He & _). cbn [sf_fix] in Hf. injection Hf as Hf.
  pose proof (Z.pow_pos_nonneg 2 (e + 149)). destruct s; cbn [cond_Zopp] in Hf; nia.
Qed.

(** The number a string of digits writes, behind [v]. *)
Definition decimal (v : Z) (ds : list Z) : Z := fold_left (fun v c => v * 10 + (c - 48)) ds v.

Definition digits (ds : list Z) : Prop := Forall (fun c => is_digit c = true) ds.

(** What follows is not a digit. *)
Definition stops (rest : list Z) : Prop := match rest with c :: _ => is_digit c = false | [] => True end.

Lemma is_digit_range c : is_digit c = true -> 48 <= c <= 57.
Proof. unfold is_digit. lia. Qed.

Lemma decimal_grows ds : forall v, digits ds -> 0 <= v -> v <= decimal v ds.
Proof.
  induction ds as [|c ds IH]; intros v Hds Hv; [cbn; lia|]. inversion_clear Hds. apply is_digit_range in H.
  cbn [decimal fold_left]. specialize (IH (v * 10 + (c - 48)) H0 ltac:(lia)). unfold decimal in IH. lia.
Qed.

Lemma int_part_exact ds : forall rest v V, digits ds -> stops rest -> f32_fix v = Some (V * UNIT) -> 0 <= V ->
  decimal V ds < 2 ^ 24 ->
  exists v', int_part (ds ++ rest) v = (v', rest) /\ f32_fix v' = Some (decimal V ds * UNIT).
Proof.
  induction ds as [|c ds IH]; intros rest v V Hds Hr Hv HV Hd.
  { exists v. split; [|done]. destruct rest as [|c rest]; [done|]. cbn in Hr |- *. by rewrite Hr. }
  inversion_clear Hds as [|? ? Hc Hds']. cbn [app int_part]. rewrite Hc. apply is_digit_range in Hc.
  pose proof (decimal_grows ds (V * 10 + (c - 48)) Hds' ltac:(lia)) as Hg. change (decimal V (c :: ds)) with (decimal (V * 10 + (c - 48)) ds) in *.
  apply IH; [done|done| |lia|done].
  replace ((V * 10 + (c - 48)) * UNIT) with (V * 10 * UNIT + (c - 48) * UNIT) by ring.
  apply f32_add_exact; [apply f32_mul_int; (done || lia)|apply int_fix; lia|].
  rewrite <-Z.mul_add_distr_r. apply representable_int. lia.
Qed.

Lemma exp_digits_exact ds : forall rest e, digits ds -> stops rest -> 0 <= e -> decimal e ds < 2 ^ 31 ->
  exp_digits (ds ++ rest) e = (decimal e ds, rest).
Proof.
  induction ds as [|c ds IH]; intros rest e Hds Hr He Hd.
  { destruct rest as [|c rest]; [done|]. cbn in Hr |- *. by rewrite Hr. }
  inversion_clear Hds as [|? ? Hc Hds']. cbn [app exp_digits]. rewrite Hc. apply is_digit_range in Hc.
  pose proof (decimal_grows ds (e * 10 + (c - 48)) Hds' ltac:(lia)) as Hg. change (decimal e (c :: ds)) with (decimal (e * 10 + (c - 48)) ds) in *.
  rewrite signed_small by lia. apply IH; (done || lia).
Qed.

Lemma power_of_ten_exact e : 0 <= e <= 7 -> f32_fix (power_of_ten e) = Some (10 ^ e * UNIT).
Proof.
  intros He. assert (e = 0 \/ e = 1 \/ e = 2 \/ e = 3 \/ e = 4 \/ e = 5 \/ e = 6 \/ e = 7) as Hc by lia.
  repeat destruct Hc as [->|Hc]; try subst e; vm_compute; reflexivity.
Qed.

(** Up to 10^38 there is no overflow. *)
Lemma power_of_ten_finite e : 0 <= e <= 38 -> exists p, f32_fix (power_of_ten e) = Some p.
Proof.
  intros He. assert (forallb (fun k => bool_decide (is_Some (f32_fix (power_of_ten (Z.of_nat k))))) (seq 0 39) = true) as H
    by (vm_compute; reflexivity).
  rewrite forallb_forall in H. specialize (H (Z.to_nat e) ltac:(apply in_seq; lia)).
  rewrite Z2Nat.id in H by lia. by apply bool_decide_eq_true in H.
Qed.

(** A value below 2^24 times a power of ten: the power is at most 10^7, or the value is zero. *)
Lemma times_power_exact v d e : f32_fix v = Some (d * UNIT) -> 0 <= d -> 0 <= e <= 38 -> d * 10 ^ e < 2 ^ 24 ->
  f32_fix (f32_mul v (power_of_ten e)) = Some (d * 10 ^ e * UNIT).
Proof.
  intros Hv Hd He Hs. destruct (decide (d = 0)) as [->|Hne].
  { destruct (power_of_ten_finite e He) as [p Hp]. by eapply f32_mul_zero. }
  assert (e <= 7) by (destruct (Z.le_gt_cases e 7) as [|Hgt]; [done|]; pose proof (Z.pow_le_mono_r 10 8 e); nia).
  apply f32_mul_int; [done|apply power_of_ten_exact; lia|lia|apply Z.pow_nonneg; lia|done].
Qed.

(** The sign that may stand before digits; [true] is a minus. *)
Definition sign_text (sg : option bool) : list Z :=
  match sg with Some true => [45] | Some false => [43] | None => [] end.

Lemma sign_skip sg (s : list Z) : match s with c :: _ => c <> 45 /\ c <> 43 | [] => True end ->
  sign (sign_text sg ++ s) = (default false sg, s).
Proof.
  intros H. destruct sg as [[]|]; [done|done|]. destruct s as [|c s]; [done|]. cbn. destruct H.
  by destruct (Z.eqb_spec c 45), (Z.eqb_spec c 43).
Qed.

Lemma skip_blanks_app bl s : Forall (fun c => c = 32 \/ c = 9) bl ->
  match s with c :: _ => c <> 32 /\ c <> 9 | [] => True end -> skip_blanks (bl ++ s) = s.
Proof.
  intros Hb Hs. induction Hb as [|c bl Hc _ IH]; cbn [app skip_blanks].
  - destruct s as [|c s]; [done|]. destruct Hs. cbn. by destruct (Z.eqb_spec c 32), (Z.eqb_spec c 9).
  - by destruct Hc as [-> | ->].
Qed.

Lemma f32_neg_fix u x : f32_fix u = Some x -> f32_fix (Whetstone.f32_neg u) = Some (- x).
Proof.
  unfold f32_fix, Whetstone.f32_neg. intros H.
  assert (f32_of_bits (Z.lxor u 0x80000000) = SFopp (f32_of_bits u)) as ->.
  { assert (forall n, 0 <= n -> Z.testbit (Z.lxor u 0x80000000) n = xorb (Z.testbit u n) (n =? 31)) as Hbit.
    { intros n Hn. rewrite Z.lxor_spec. f_equal. change 0x80000000 with (2 ^ 31). rewrite Z.pow2_bits_eqb by lia. apply Z.eqb_sym. }
    unfold f32_of_bits. rewrite Hbit by lia. rewrite xorb_true_r.
    assert (Z.land (Z.lxor u 0x80000000 ≫ 23) 0xff = Z.land (u ≫ 23) 0xff) as ->.
    { apply Z.bits_inj'. intros n Hn. rewrite !Z.land_spec, !Z.shiftr_spec, Hbit by lia. change 0xff with (Z.ones 8).
      destruct (decide (n < 8)).
      - destruct (Z.eqb_spec (n + 23) 31); [lia|]. by rewrite xorb_false_r.
      - rewrite Z.ones_spec_high by lia. by rewrite !andb_false_r. }
    assert (Z.land (Z.lxor u 0x80000000) 0x7fffff = Z.land u 0x7fffff) as ->.
    { apply Z.bits_inj'. intros n Hn. rewrite !Z.land_spec, Hbit by lia. change 0x7fffff with (Z.ones 23).
      destruct (decide (n < 23)).
      - destruct (Z.eqb_spec n 31); [lia|]. by rewrite xorb_false_r.
      - rewrite Z.ones_spec_high by lia. by rewrite !andb_false_r. }
    destruct (_ =? 0xff); [by destruct (_ =? 0)|]. destruct (_ =? 0); [by destruct (Z.land u 0x7fffff)|].
    by destruct (Z.land u 0x7fffff + 0x800000). }
  destruct (f32_of_bits u) as [s|s| |s m e]; try done; cbn [sf_fix SFopp] in *; injection H as <-.
  - done.
  - f_equal. destruct s; cbn [negb cond_Zopp]; ring.
Qed.

(** A literal: blanks, a sign, digits; perhaps an exponent: a capital [E] or a small one, a
    plus or none, digits. *)
Record power := Power { capital : bool; plus_ : bool; power_digits : list Z }.
Record literal := Literal { blanks : list Z; sign_ : option bool; mantissa : list Z; exponent : option power }.

Definition exponent_text (p : option power) : list Z :=
  match p with
  | Some p => (if capital p then 69 else 101) :: sign_text (if plus_ p then Some false else None) ++ power_digits p
  | None => []
  end.

Definition literal_text (l : literal) : list Z :=
  blanks l ++ sign_text (sign_ l) ++ mantissa l ++ exponent_text (exponent l).

Definition literal_exponent (l : literal) : Z :=
  match exponent l with Some p => decimal 0 (power_digits p) | None => 0 end.
Definition literal_value (l : literal) : Z :=
  (if default false (sign_ l) then -1 else 1) * (decimal 0 (mantissa l) * 10 ^ literal_exponent l).

Record literal_ok (l : literal) (rest : list Z) : Prop := LiteralOk {
  ok_blanks : Forall (fun c => c = 32 \/ c = 9) (blanks l);
  ok_mantissa : digits (mantissa l) /\ mantissa l <> [];
  ok_exponent : match exponent l with Some p => digits (power_digits p) /\ power_digits p <> [] | None => True end;
  ok_small : literal_exponent l <= 38;
  ok_rest : match rest with c :: _ => is_digit c = false /\ c <> 46 /\ c <> 101 /\ c <> 69 | [] => True end;
  ok_size : Z.abs (literal_value l) < 2 ^ 24;
}.

Lemma exponent_head p rest :
  match rest with c :: _ => is_digit c = false /\ c <> 46 /\ c <> 101 /\ c <> 69 | [] => True end ->
  match exponent_text p ++ rest with c :: _ => is_digit c = false /\ c <> 46 | [] => True end.
Proof.
  intros H. destruct p as [p|]; cbn [exponent_text app]; [by destruct (capital p)|].
  destruct rest; [done|]. destruct H as (? & ? & _). done.
Qed.

(** The exponent of a literal, read behind the float [v] of [d]. *)
Lemma exp_part_exact v d p rest :
  f32_fix v = Some (d * UNIT) -> 0 <= d ->
  match p with Some p => digits (power_digits p) /\ power_digits p <> [] | None => True end ->
  let e := match p with Some p => decimal 0 (power_digits p) | None => 0 end in
  e <= 38 -> d * 10 ^ e < 2 ^ 24 ->
  match rest with c :: _ => is_digit c = false /\ c <> 46 /\ c <> 101 /\ c <> 69 | [] => True end ->
  exists w, exp_part v (exponent_text p ++ rest) = (w, rest) /\ f32_fix w = Some (d * 10 ^ e * UNIT).
Proof.
  intros Hv Hd Hp e He Hs Hrest. destruct p as [[cap plus es]|]; cbn [power_digits] in *.
  - destruct Hp as [Hes Hne]. cbn [exponent_text capital plus_ power_digits app]. unfold exp_part.
    assert (forall c, c = 101 \/ c = 69 -> (c =? 101) || (c =? 69) = true) as Hc by (intros c [-> | ->]; done).
    rewrite Hc by (destruct cap; auto). rewrite <-app_assoc.
    assert (match es ++ rest with c :: _ => c <> 45 /\ c <> 43 | [] => True end) as Hh.
    { destruct es as [|c es]; [done|]. inversion_clear Hes as [|? ? Hc0 _]. apply is_digit_range in Hc0. cbn. lia. }
    rewrite sign_skip by exact Hh. replace (default false (if plus then Some false else None)) with false by by destruct plus.
    pose proof (decimal_grows _ 0 Hes ltac:(lia)) as He0.
    rewrite exp_digits_exact; [|done| |lia|fold e; lia]. 2: { destruct rest; [done|]. apply Hrest. }
    eexists. split; [done|]. by apply times_power_exact.
  - exists v. split; [|by rewrite Hv, Z.mul_1_r]. cbn [exponent_text app]. unfold exp_part. destruct rest as [|c rest]; [done|].
    destruct Hrest as (_ & _ & H1 & H2). by destruct (Z.eqb_spec c 101), (Z.eqb_spec c 69).
Qed.

(** C31: [strtof] reads whole numbers without an error: for blanks, a sign or none, decimal
    digits without a decimal point, and perhaps an exponent - [e] or [E], a plus or no sign
    before it, digits of value at most 38 - when the value stays below 2^24 and no further
    digit, point or exponent letter follows, the result is the float of exactly that value,
    although the loops multiply and add in single precision, and [*end] points behind the
    literal.  From exponent 39 on the power of ten overflows ([strtof_overflows]);
    fractions and negative exponents are not covered. *)
Theorem strtof_exact l rest (Hok : literal_ok l rest) :
  exists v, strtof (literal_text l ++ rest) = (v, rest) /\ f32_fix v = Some (literal_value l * UNIT).
Proof.
  destruct Hok as [Hbl [Hm Hne] He Hmax Hrest Hsize].
  destruct l as [bl sg ds p]. unfold literal_text, literal_value, literal_exponent in *. cbn [blanks sign_ mantissa exponent] in *.
  pose proof (decimal_grows ds 0 Hm ltac:(lia)) as Hd0.
  set (E := match p with Some p => decimal 0 (power_digits p) | None => 0 end) in *.
  assert (0 <= E) as HE0 by (unfold E; destruct p as [p|]; [apply (decimal_grows _ 0); [apply He|]|]; lia).
  assert (0 < 10 ^ E) as Hpow by (apply Z.pow_pos_nonneg; lia).
  assert (decimal 0 ds * 10 ^ E < 2 ^ 24) as Hsmall by (destruct (default false sg); lia).
  destruct ds as [|d0 ds0]; [done|]. set (ds := d0 :: ds0) in *.
  assert (is_digit d0 = true) as Hd0' by (by inversion_clear Hm). apply is_digit_range in Hd0'.
  unfold strtof. rewrite <-!app_assoc. rewrite skip_blanks_app by (try done; destruct sg as [[]|]; cbn; lia).
  rewrite sign_skip by (cbn; lia). pose proof (exponent_head p rest Hrest) as Ht.
  destruct (int_part_exact ds (exponent_text p ++ rest) f32_zero 0 Hm) as (v & -> & Hv).
  { destruct (exponent_text p ++ rest); [done|apply Ht]. }
  { reflexivity. } { lia. } { nia. }
  assert (point_part v (exponent_text p ++ rest) = (v, exponent_text p ++ rest)) as ->.
  { destruct (exponent_text p ++ rest) as [|c t]; [done|]. cbn. by destruct (Z.eqb_spec c 46) as [->|]; [destruct Ht|]. }
  destruct (exp_part_exact v (decimal 0 ds) p rest Hv Hd0 He Hmax Hsmall Hrest) as (w & -> & Hw). fold E in Hw.
  eexists. split; [done|]. destruct (default false sg).
  - rewrite (f32_neg_fix _ _ Hw). f_equal. ring.
  - rewrite Hw. f_equal. ring.
Qed.

(** ** Where the functions fall short *)

(** [fmodf] rounds the quotient before it takes its whole part: 1.0 modulo 0.1 is 0, not
    the 0.1 short of one unit that is left of 1.0. *)
Lemma fmodf_rounds_up : fmodf f32_one f32_tenth = Some f32_zero /\
  f32_fix f32_one = Some UNIT /\
  exists y, f32_fix f32_tenth = Some y /\ UNIT mod y <> 0 /\ UNIT / y = 9.
Proof. split_and!; [vm_compute; reflexivity|reflexivity|]. eexists. split; [reflexivity|]. split; [vm_compute; lia|vm_compute; reflexivity]. Qed.

(** A zero with an exponent the power of ten overflows for is not a number, and a small
    number with one is zero. *)
Lemma strtof_overflows :
  strtof (cstr "0e39") = (CANONICAL_QNAN_BITS, []) /\ strtof (cstr "1e-39") = (f32_zero, []) /\
  f32_fix 0x000ae398 = Some (2 ^ 149 / 10 ^ 39 + 1).
Proof. split_and!; vm_compute; reflexivity. Qed.

(** Numbers from 2^31 up, infinities and NaNs have no defined floor. *)
Lemma large_floor_undefined : floorf 0x4f000000 = None /\ floorf 0x7f800000 = None /\ floorf CANONICAL_QNAN_BITS = None.
Proof. split_and!; vm_compute; reflexivity. Qed.

(** The clock of a cart wraps after 2^31 microseconds. *)
Lemma clock_wraps : clock (2 ^ 31 * 1000) = - 2 ^ 31.
Proof. reflexivity. Qed.

(** -1.5: down to -2, up to -1. *)
Lemma rounding_exact_witness :
  let M := - (3 * 2 ^ 148) in
  f32_fix 0xbfc00000 = Some M /\ Z.abs M < 2 ^ 31 * UNIT /\
  (exists v, floorf 0xbfc00000 = Some v /\ f32_fix v = Some (-2 * UNIT)) /\
  (exists v, ceilf 0xbfc00000 = Some v /\ f32_fix v = Some (-1 * UNIT)).
Proof.
  cbv zeta. assert (f32_fix 0xbfc00000 = Some (- (3 * 2 ^ 148))) as Hx by (vm_compute; reflexivity).
  assert (Z.abs (- (3 * 2 ^ 148)) < 2 ^ 31 * UNIT) as Hr by (vm_compute; reflexivity).
  split_and!; [exact Hx|exact Hr|exact (proj1 (rounding_exact _ _ Hx Hr))|exact (proj1 (proj2 (rounding_exact _ _ Hx Hr)))].
Defined.

Definition demo_literal : literal := Literal [32] (Some true) (cstr "125") (Some (Power true true (cstr "03"))).

Definition zero_literal : literal := Literal [] None (cstr "0") (Some (Power false false (cstr "38"))).

Lemma strtof_exact_witness :
  literal_ok demo_literal (cstr ")") /\ literal_text demo_literal = cstr " -125E+03" /\
  (exists v, strtof (cstr " -125E+03)") = (v, cstr ")") /\ f32_fix v = Some (-125000 * UNIT)) /\
  literal_ok zero_literal [] /\ exists v, strtof (cstr "0e38") = (v, []) /\ f32_fix v = Some 0.
Proof.
  assert (literal_ok demo_literal (cstr ")")) as Hok.
  { split.
    - apply Forall_singleton. by left.
    - split; [repeat constructor|done].
    - split; [repeat constructor|done].
    - vm_compute. done.
    - vm_compute. repeat split; discriminate.
    - vm_compute. reflexivity. }
  assert (literal_ok zero_literal []) as Hz.
  { split; [apply Forall_nil_2|split; [repeat constructor|done]|split; [repeat constructor|done]| | |]; vm_compute; done. }
  split_and!; [exact Hok|reflexivity|exact (strtof_exact demo_literal (cstr ")") Hok)|exact Hz|].
  exact (strtof_exact zero_literal [] Hz).
Defined.
