(* ===== verification/RawTests.v ===== *)
(** * The seccomp raw tests as programs (spikes/spike-s/seccomp_raw_test_s.c,
    spikes/spike-r/seccomp_raw_test.c, and the probes they execute)

    A test forks a child, which installs filters and makes a call or executes a probe;
    the parent reads the exit status.  A process is the tree of its system calls; the
    kernel answers each by the filters of [Seccomp], and its loader says with which
    architecture an executed file runs.  The texts the tests print are left out. *)

From S2P Require Import Prelude Seccomp.
From S2P Require Launcher.
Import Launcher (Exited, Signaled, Stopped, SIGSYS).
Open Scope Z_scope.

(** ** Processes *)

(** [Sys nr arg]: a system call and the size it is about; its continuation gets the
    kernel's result, a negative error number or more. *)
Inductive prog :=
  | Exit (rc : Z)
  | Sys (nr arg : Z) (k : Z -> prog)
  | Install (p : list sock_filter) (k : Z -> prog)
  | Exec (path : string) (argv : list string) (k : Z -> prog).

Definition SYS_openat : Z := 56.
Definition SYS_write : Z := 64.
Definition SYS_exit_group : Z := 94.
Definition SYS_uname : Z := 160.
Definition SYS_prctl : Z := 167.
Definition SYS_socket : Z := 198.
Definition SYS_execve : Z := 221.
Definition SYS_mprotect : Z := 226.
Definition SYS_seccomp : Z := 277.

Section programs.
(** The call the C library prints a message with. *)
Context (print_nr : Z).

(** [perror], [fprintf(stderr, ...)] *)
Definition message (p : prog) : prog := Sys print_nr 0 (fun _ => p).

(** ** The probes *)

Section probes.
(** The calls of the C library before [main]. *)
Context (startup : list Z).

Definition starting (p : prog) : prog := fold_right (fun nr p => Sys nr 0 (fun _ => p)) p startup.

Definition probe_write (ret : Z -> prog) : prog :=
  Sys SYS_write 2 (fun rc => if rc =? 2 then ret 0 else message (ret 1)).
Definition probe_open (ret : Z -> prog) : prog :=
  Sys SYS_openat 0 (fun fd => message (ret (if 0 <=? fd then 0 else 1))).
Definition probe_socket (ret : Z -> prog) : prog :=
  Sys SYS_socket 0 (fun s => message (ret (if 0 <=? s then 0 else 1))).
Definition probe_execve (ret : Z -> prog) : prog :=
  Exec "/bin/sh" ["/bin/sh"%string] (fun rc => message (ret (if rc =? 0 then 0 else 1))).
Definition probe_mprotect_exec (ret : Z -> prog) : prog :=
  Sys SYS_mprotect 4096 (fun rc => message (ret (if rc =? 0 then 0 else 1))).
Definition probe_uname (ret : Z -> prog) : prog :=
  Sys SYS_uname 0 (fun rc => message (ret (if rc =? 0 then 0 else 1))).

(** The table, and the search in it. *)
Definition probes_s : list (string * ((Z -> prog) -> prog)) :=
  [("write", probe_write); ("socket", probe_socket); ("execve", probe_execve);
   ("mprotect-exec", probe_mprotect_exec); ("uname", probe_uname)]%string.

Definition probes_h : list (string * ((Z -> prog) -> prog)) :=
  [("open", probe_open); ("socket", probe_socket); ("execve", probe_execve);
   ("mprotect-exec", probe_mprotect_exec); ("uname", probe_uname)]%string.

Fixpoint find_probe (name : string) (l : list (string * ((Z -> prog) -> prog))) : option ((Z -> prog) -> prog) :=
  match l with
  | [] => None
  | (n, fn) :: l => if bool_decide (name = n) then Some fn else find_probe name l
  end.

(** adversary_s.c, statically linked. *)
Definition adversary_s (argv : list string) : prog :=
  starting
    match argv with
    | [_; name] => match find_probe name probes_s with Some fn => fn Exit | None => message (Exit 2) end
    | _ => message (Exit 2)
    end.

(** spike-h/adversary.c, which says so when it survives. *)
Definition adversary_h (argv : list string) : prog :=
  starting
    match argv with
    | [_; name] =>
        match find_probe name probes_h with
        | Some fn => fn (fun rc => message (Exit rc))
        | None => message (Exit 2)
        end
    | _ => message (Exit 2)
    end.
End probes.

(** ** The children of the tests *)

(** [seccomp_install_filter] for each filter in turn. *)
Fixpoint install_filters (fs : list (list sock_filter)) (rest : prog) : prog :=
  match fs with
  | [] => rest
  | f :: fs => Install f (fun r => if r =? 0 then install_filters fs rest else message (Exit 127))
  end.

(** The child of [run_ilp32_probe] and of [run_probe]; the two differ in the code that
    reports a failed [execv]. *)
Definition probe_child (not_executed : Z) (path probe : string) (fs : list (list sock_filter)) : prog :=
  Sys SYS_prctl 38 (fun r =>
    if r =? 0 then install_filters fs (Exec path [path; probe] (fun _ => message (Exit not_executed)))
    else message (Exit 127)).

(** The children that make the call themselves. *)
Definition inline_child (filt : list sock_filter) (nr : Z) (result : Z -> Z) : prog :=
  Sys SYS_prctl 38 (fun r =>
    if r =? 0 then Install filt (fun r => if r =? 0 then Sys nr 0 (fun rc => Exit (result rc)) else message (Exit 127))
    else Exit 127).

Definition lp64_probe_write (filt : list sock_filter) : prog :=
  inline_child filt SYS_write (fun rc => if 0 <=? rc then 0 else 1).
Definition lp64_probe_socket (filt : list sock_filter) : prog :=
  inline_child filt SYS_socket (fun rc => if 0 <=? rc then 0 else 1).
(** Test A of spike r. *)
Definition unified_probe_write (filt : list sock_filter) : prog :=
  inline_child filt SYS_write (fun rc => if rc =? 0 then 0 else 1).
End programs.

(** ** The kernel *)

Definition ENOEXEC : Z := 8.

Section kernel.
Context (run : list sock_filter -> nat -> Z -> Z -> Z -> option Z) (combine : list Z -> Z).
(** The result of a permitted call, and the file's architecture and program. *)
Context (os : Z -> Z -> Z) (loader : string -> list string -> option (Z * prog)).

Definition action (pr : process) (nr : Z) : Z := combine (map (answer run pr nr) (filters pr)).

(** What becomes of a call: the program goes on with a result, or is killed. *)
Definition decide_call (pr : process) (nr : Z) (allowed : option Launcher.status)
    (failed : Z -> option Launcher.status) : option Launcher.status :=
  let a := action pr nr in
  if a =? SECCOMP_RET_ALLOW then allowed
  else if a =? SECCOMP_RET_KILL_PROCESS then Some (Signaled SIGSYS)
  else if Z.land a 0xffff0000 =? SECCOMP_RET_ERRNO then failed (- Z.land a 0xffff)
  else None.

(** [next]: the process behind an execve. *)
Fixpoint live (next : prog -> process -> option Launcher.status) (p : prog) (pr : process) : option Launcher.status :=
  match p with
  | Exit rc => decide_call pr SYS_exit_group (Some (Exited (u8 rc))) (fun _ => None)
  | Sys nr arg k => decide_call pr nr (live next (k (os nr arg)) pr) (fun r => live next (k r) pr)
  | Install f k =>
      decide_call pr SYS_seccomp
        (let r := os SYS_seccomp (Z.of_nat (length f)) in
         live next (k r) (if r =? 0 then Process (p_arch pr) (f :: filters pr) else pr))
        (fun r => live next (k r) pr)
  | Exec path argv k =>
      decide_call pr SYS_execve
        (match loader path argv with
         | Some (arch, p) => next p (Process arch (filters pr))
         | None => live next (k (- ENOEXEC)) pr
         end)
        (fun r => live next (k r) pr)
  end.

(** [execs]: how often a process may execute another file. *)
Fixpoint run_process (execs : nat) (p : prog) (pr : process) : option Launcher.status :=
  live match execs with O => fun _ _ => None | S execs => run_process execs end p pr.

(** ** The tests *)

(** [run_ilp32_probe], [run_probe]: what the parent makes of the status; [forked]: there
    is a child. *)
Definition probe_rc (s : Launcher.status) : Z :=
  match s with
  | Exited rc => rc
  | Signaled sig => if sig =? SIGSYS then 159 else 128 + sig
  | Stopped => -1
  end.

(** [run_lp64_probe_write], [run_lp64_probe_socket] *)
Definition lp64_rc (s : Launcher.status) : Z :=
  match s with
  | Exited rc => rc
  | Signaled sig => if sig =? SIGSYS then 159 else -1
  | Stopped => -1
  end.

Definition LP64 : process := Process AUDIT_ARCH_RISCV64 [].

Definition child (forked : bool) (rc : Launcher.status -> Z) (p : prog) : option Z :=
  if forked then rc <$> run_process 2 p LP64 else Some (-1).

Inductive verdict := PASS | FAIL | SKIP | INFO.
Definition expect (expected rc : Z) : verdict := if rc =? expected then PASS else FAIL.

Definition test_count (v : verdict) (l : list verdict) : Z :=
  Z.of_nat (length (List.filter (fun w => match v, w with PASS, PASS | FAIL, FAIL => true | _, _ => false end) l)).

Context (print_nr : Z) (forked : nat -> bool).

(** Test G, which only informs. *)
Definition test_g (adv : string) : option verdict :=
  match build_riscv32_write_errno_filter 8 with
  | Program f =>
      rc ← child (forked 6) probe_rc (probe_child print_nr 126 adv "write" [f]);
      Some (if rc =? 1 then PASS else if rc =? 0 then INFO else if rc =? 126 then SKIP else INFO)
  | Refused => Some SKIP
  | Overrun => None
  end.

(** The verdicts of the tests A to G, and the exit status. *)
Definition main_s (argv : list string) : option (list verdict * Z) :=
  match argv with
  | [_; adv] =>
      match build_test_dispatch_filter SECCOMP_MAX_INSNS, build_riscv64_only_allowall 8 with
      | Program dispatch, Program rv64only =>
          a ← child (forked 0) lp64_rc (lp64_probe_write print_nr dispatch);
          b ← child (forked 1) lp64_rc (lp64_probe_socket print_nr dispatch);
          c ← child (forked 2) probe_rc (probe_child print_nr 126 adv "write" [dispatch]);
          d ← child (forked 3) probe_rc (probe_child print_nr 126 adv "socket" [dispatch]);
          e ← child (forked 4) probe_rc (probe_child print_nr 126 adv "execve" [dispatch]);
          f ← child (forked 5) probe_rc (probe_child print_nr 126 adv "write" [rv64only]);
          g ← test_g adv;
          let verdicts := [expect 0 a; expect 159 b; expect 0 c; expect 159 d; expect 159 e; expect 159 f; g] in
          Some (verdicts, if test_count FAIL verdicts =? 0 then 0 else 1)
      | Overrun, _ | _, Overrun => None
      | _, _ => Some ([], 1)
      end
  | _ => Some ([], 2)
  end.

(** Spike r: a child killed by another signal counts as 127 in test A. *)
Definition unified_rc (s : Launcher.status) : Z :=
  match s with
  | Exited rc => rc
  | Signaled sig => if sig =? SIGSYS then 159 else 127
  | Stopped => 127
  end.

Definition main_r (argv : list string) : option (list verdict * Z) :=
  match argv with
  | [_; adversary] =>
      match build_unified_filter SECCOMP_MAX_INSNS seccomp_unified_nrs with
      | Program f_unified =>
          if negb (forked 0) then Some ([], 1)
          else
            a ← child true unified_rc (unified_probe_write print_nr f_unified);
            b ← child (forked 1) probe_rc (probe_child print_nr 127 adversary "socket" [f_unified]);
            c ← child (forked 2) probe_rc (probe_child print_nr 127 adversary "uname" [build_phase1; build_phase2]);
            let verdicts := [expect 0 a; expect 159 b; expect 159 c] in
            Some (verdicts, if (test_count PASS verdicts =? 3) && (test_count FAIL verdicts =? 0) then 0 else 1)
      | Refused => Some ([], 1)
      | Overrun => None
      end
  | _ => Some ([], 2)
  end.
End kernel.

#[global] Arguments decide_call : simpl never.

(** ** What the filters answer *)

(** No milder than ALLOW, which is what a process without filters gets. *)
Definition is_answer (a : Z) : Prop := 0 <= a < 2 ^ 32 /\ i32 a <= i32 SECCOMP_RET_ALLOW.

Lemma answers_are : is_answer SECCOMP_RET_ALLOW /\ is_answer SECCOMP_RET_KILL_PROCESS /\ is_answer (Z.lor SECCOMP_RET_ERRNO 42).
Proof. unfold is_answer. split_and!; vm_compute; (discriminate || reflexivity). Qed.

(** The kernel and its calls: one filter's answer counts as it is, and the calls of the
    children succeed where they are permitted. *)
Class Calls (combine : list Z -> Z) (os : Z -> Z -> Z) : Prop := {
  combine_one a : is_answer a -> combine [a] = a;
  os_prctl : os SYS_prctl 38 = 0;
  os_seccomp n : 0 < n <= 4096 -> os SYS_seccomp n = 0;
  os_write n : 0 <= n -> os SYS_write n = n;
}.

Definition dispatch : list sock_filter := arch_dispatch test_rv64_nrs test_rv32_nrs.

Definition rv64only : list sock_filter :=
  [FS LD_ABS SDAT_ARCH; FJ JEQ_K AUDIT_ARCH_RISCV64 1 0; FS RET_K SECCOMP_RET_KILL_PROCESS; FS RET_K SECCOMP_RET_ALLOW].

Definition errno_filt : list sock_filter :=
  [FS LD_ABS SDAT_ARCH; FJ JEQ_K AUDIT_ARCH_RISCV32 0 3; FS LD_ABS SDAT_NR; FJ JEQ_K 64 0 1;
   FS RET_K (Z.lor SECCOMP_RET_ERRNO 42); FS RET_K SECCOMP_RET_ALLOW].

Definition unified : list sock_filter := single AUDIT_ARCH_RISCV64 seccomp_unified_nrs SECCOMP_RET_KILL_PROCESS.

Lemma test_filters_built :
  build_test_dispatch_filter SECCOMP_MAX_INSNS = Program dispatch /\ build_riscv64_only_allowall 8 = Program rv64only /\
  build_riscv32_write_errno_filter 8 = Program errno_filt /\
  build_unified_filter SECCOMP_MAX_INSNS seccomp_unified_nrs = Program unified.
Proof. split_and!; vm_compute; reflexivity. Qed.

Section tests.
Context (run : list sock_filter -> nat -> Z -> Z -> Z -> option Z) {bpf : Bpf run}.
Context (combine : list Z -> Z) {precedence : Precedence combine} (os : Z -> Z -> Z) {laws : Calls combine os}.

Lemma answer_dispatch arch fs nr :
  answer run (Process arch fs) nr dispatch =
    if arch =? AUDIT_ARCH_RISCV64 then if listed nr test_rv64_nrs then SECCOMP_RET_ALLOW else SECCOMP_RET_KILL_PROCESS
    else if arch =? AUDIT_ARCH_RISCV32 then if listed nr test_rv32_nrs then SECCOMP_RET_ALLOW else SECCOMP_RET_KILL_PROCESS
    else SECCOMP_RET_KILL_PROCESS.
Proof.
  unfold answer, dispatch. cbn [p_arch]. rewrite (run_arch_dispatch run); [reflexivity| | |vm_compute; discriminate].
  - unfold numbers, test_rv64_nrs. repeat (apply Forall_cons_2; [lia|]). apply Forall_nil_2.
  - unfold numbers, test_rv32_nrs. repeat (apply Forall_cons_2; [lia|]). apply Forall_nil_2.
Qed.

Lemma answer_rv64only arch fs nr :
  answer run (Process arch fs) nr rv64only =
    if arch =? AUDIT_ARCH_RISCV64 then SECCOMP_RET_ALLOW else SECCOMP_RET_KILL_PROCESS.
Proof.
  unfold answer. cbn [p_arch]. rewrite (bpf_load_arch _ 0) by reflexivity.
  rewrite (run_jump run _ 1 _ _ _ AUDIT_ARCH_RISCV64 1 0) by (reflexivity || (by vm_compute) || lia).
  destruct (arch =? AUDIT_ARCH_RISCV64).
  - change (2 + Z.to_nat 1)%nat with 3%nat. by rewrite (run_return run _ 3 _ _ _ SECCOMP_RET_ALLOW).
  - change (2 + Z.to_nat 0)%nat with 2%nat. by rewrite (run_return run _ 2 _ _ _ SECCOMP_RET_KILL_PROCESS).
Qed.

Lemma answer_errno arch fs nr :
  answer run (Process arch fs) nr errno_filt =
    if (arch =? AUDIT_ARCH_RISCV32) && (nr =? 64) then Z.lor SECCOMP_RET_ERRNO 42 else SECCOMP_RET_ALLOW.
Proof.
  unfold answer. cbn [p_arch]. rewrite (bpf_load_arch _ 0) by reflexivity.
  rewrite (run_jump run _ 1 _ _ _ AUDIT_ARCH_RISCV32 0 3) by (reflexivity || (by vm_compute) || lia).
  destruct (arch =? AUDIT_ARCH_RISCV32); cbn [andb].
  - change (2 + Z.to_nat 0)%nat with 2%nat. rewrite (bpf_load_nr _ 2) by reflexivity.
    rewrite (run_jump run _ 3 _ _ _ 64 0 1) by (reflexivity || (by vm_compute) || lia).
    destruct (nr =? 64).
    + change (4 + Z.to_nat 0)%nat with 4%nat. by rewrite (run_return run _ 4 _ _ _ (Z.lor SECCOMP_RET_ERRNO 42)).
    + change (4 + Z.to_nat 1)%nat with 5%nat. by rewrite (run_return run _ 5 _ _ _ SECCOMP_RET_ALLOW).
  - change (2 + Z.to_nat 3)%nat with 5%nat. by rewrite (run_return run _ 5 _ _ _ SECCOMP_RET_ALLOW).
Qed.

Lemma answer_unified fs nr :
  answer run (Process AUDIT_ARCH_RISCV64 fs) nr unified =
    if listed nr seccomp_unified_nrs then SECCOMP_RET_ALLOW else SECCOMP_RET_KILL_PROCESS.
Proof.
  unfold answer, unified. cbn [p_arch]. rewrite (run_single run); [rewrite Z.eqb_refl; reflexivity| |vm_compute; split; (discriminate || reflexivity)|vm_compute; split; (discriminate || reflexivity)].
  unfold numbers, seccomp_unified_nrs. repeat (apply Forall_cons_2; [lia|]). apply Forall_nil_2.
Qed.

Lemma answer_phases pr nr :
  answer run pr nr build_phase1 = (if nr =? 160 then SECCOMP_RET_KILL_PROCESS else SECCOMP_RET_ALLOW) /\
  answer run pr nr build_phase2 = SECCOMP_RET_ALLOW.
Proof.
  unfold answer. split.
  - rewrite (bpf_load_nr _ 0) by reflexivity. rewrite (run_jump run _ 1 _ _ _ 160 0 1) by (reflexivity || (by vm_compute) || lia).
    destruct (nr =? 160).
    + change (2 + Z.to_nat 0)%nat with 2%nat. by rewrite (run_return run _ 2 _ _ _ SECCOMP_RET_KILL_PROCESS).
    + change (2 + Z.to_nat 1)%nat with 3%nat. by rewrite (run_return run _ 3 _ _ _ SECCOMP_RET_ALLOW).
  - by rewrite (run_return run _ 0 _ _ _ SECCOMP_RET_ALLOW).
Qed.

Local Abbreviation action := (action run combine).

Lemma action_none arch nr : action (Process arch []) nr = SECCOMP_RET_ALLOW.
Proof. unfold RawTests.action. cbn [filters map]. by apply combine_allow. Qed.

Lemma action_one arch f nr a : answer run (Process arch [f]) nr f = a -> is_answer a -> action (Process arch [f]) nr = a.
Proof. intros E Ha. unfold RawTests.action. cbn [filters map]. rewrite E. by apply combine_one. Qed.

(** ** Programs under filters *)

Context (loader : string -> list string -> option (Z * prog)) (print_nr : Z).
Local Abbreviation live := (live run combine os loader).
Local Abbreviation child := (child run combine os loader).

Lemma decide_allow pr nr allowed failed : action pr nr = SECCOMP_RET_ALLOW ->
  decide_call run combine pr nr allowed failed = allowed.
Proof. intros E. unfold decide_call. by rewrite E. Qed.

Lemma decide_kill pr nr allowed failed : action pr nr = SECCOMP_RET_KILL_PROCESS ->
  decide_call run combine pr nr allowed failed = Some (Signaled SIGSYS).
Proof. intros E. unfold decide_call. by rewrite E. Qed.

Lemma decide_errno pr nr allowed failed : action pr nr = Z.lor SECCOMP_RET_ERRNO 42 ->
  decide_call run combine pr nr allowed failed = failed (-42).
Proof. intros E. unfold decide_call. by rewrite E. Qed.

(** The start of the C library, as far as it is let. *)
Lemma starting_allowed next startup p pr : Forall (fun nr => action pr nr = SECCOMP_RET_ALLOW) startup ->
  live next (starting startup p) pr = live next p pr.
Proof. intros H. induction H as [|nr st Hn _ IH]; [done|]. cbn. by rewrite decide_allow. Qed.

Lemma starting_killed next nr startup p pr : action pr nr = SECCOMP_RET_KILL_PROCESS ->
  live next (starting (nr :: startup) p) pr = Some (Signaled SIGSYS).
Proof. intros H. cbn. by rewrite decide_kill. Qed.

(** A child with one filter that lets it execute the probe becomes the probe. *)
Lemma probe_child_runs code path probe f arch p :
  (length f <= 4096)%nat -> f <> [] -> action (Process AUDIT_ARCH_RISCV64 [f]) SYS_execve = SECCOMP_RET_ALLOW ->
  loader path [path; probe] = Some (arch, p) ->
  run_process run combine os loader 2 (probe_child print_nr code path probe [f]) LP64 =
  run_process run combine os loader 1 p (Process arch [f]).
Proof.
  intros Hl Hne Ha Hp. unfold probe_child, LP64. cbn [run_process]. cbn [RawTests.live].
  rewrite decide_allow by apply action_none. rewrite os_prctl. cbn [Z.eqb install_filters RawTests.live].
  rewrite decide_allow by apply action_none. rewrite os_seccomp by (destruct f; [done|cbn [length] in *; lia]).
  cbn [Z.eqb RawTests.live p_arch filters]. rewrite decide_allow by done. by rewrite Hp.
Qed.

(** A child that makes a call itself. *)
Lemma inline_child_runs f nr result st :
  (length f <= 4096)%nat -> f <> [] ->
  decide_call run combine (Process AUDIT_ARCH_RISCV64 [f]) nr
    (decide_call run combine (Process AUDIT_ARCH_RISCV64 [f]) SYS_exit_group (Some (Exited (u8 (result (os nr 0))))) (fun _ => None))
    (fun r => decide_call run combine (Process AUDIT_ARCH_RISCV64 [f]) SYS_exit_group (Some (Exited (u8 (result r)))) (fun _ => None)) = st ->
  run_process run combine os loader 2 (inline_child print_nr f nr result) LP64 = st.
Proof.
  intros Hl Hne Hst. unfold inline_child, LP64. cbn [run_process]. cbn [RawTests.live].
  rewrite decide_allow by apply action_none. rewrite os_prctl. cbn [Z.eqb RawTests.live].
  rewrite decide_allow by apply action_none. rewrite os_seccomp by (destruct f; [done|cbn [length] in *; lia]).
  cbn [Z.eqb RawTests.live p_arch filters]. exact Hst.
Qed.

(** What the probes do under one filter. *)
Section probe.
Context (startup : list Z) (f : list sock_filter) (arch : Z) (path : string).
Local Abbreviation pr := (Process arch [f]).
Local Abbreviation result probe := (run_process run combine os loader 1 (adversary_s print_nr startup [path; probe]) pr).

Lemma probe_killed_at_start nr st probe : startup = nr :: st -> action pr nr = SECCOMP_RET_KILL_PROCESS ->
  result probe = Some (Signaled SIGSYS).
Proof. intros -> H. unfold adversary_s. cbn [run_process]. by apply starting_killed. Qed.

Context (Hstart : Forall (fun nr => action pr nr = SECCOMP_RET_ALLOW) startup).

Lemma write_runs : action pr SYS_write = SECCOMP_RET_ALLOW -> action pr SYS_exit_group = SECCOMP_RET_ALLOW ->
  result "write" = Some (Exited 0).
Proof.
  intros H1 H2. unfold adversary_s. cbn [run_process]. rewrite starting_allowed by done.
  change (find_probe "write" (probes_s print_nr)) with (Some (probe_write print_nr)).
  cbn. rewrite decide_allow by done. rewrite os_write by lia. cbn. by rewrite decide_allow.
Qed.

Lemma write_refused : action pr SYS_write = Z.lor SECCOMP_RET_ERRNO 42 ->
  (forall nr, nr <> SYS_write -> action pr nr = SECCOMP_RET_ALLOW) -> result "write" = Some (Exited 1).
Proof.
  intros H1 H2. unfold adversary_s. cbn [run_process]. rewrite starting_allowed by done.
  change (find_probe "write" (probes_s print_nr)) with (Some (probe_write print_nr)).
  cbn. rewrite decide_errno by done. cbn. destruct (Z.eq_dec print_nr SYS_write) as [->|Hn].
  - rewrite decide_errno by done. cbn. by rewrite decide_allow by (by apply H2).
  - rewrite decide_allow by (by apply H2). cbn. by rewrite decide_allow by (by apply H2).
Qed.

Lemma probe_killed probe nr : In (probe, nr) [("write", SYS_write); ("socket", SYS_socket); ("execve", SYS_execve)]%string ->
  action pr nr = SECCOMP_RET_KILL_PROCESS -> result probe = Some (Signaled SIGSYS).
Proof.
  intros Hin H. unfold adversary_s. cbn [run_process]. rewrite starting_allowed by done.
  destruct Hin as [[= <- <-]|[[= <- <-]|[[= <- <-]|[]]]].
  - change (find_probe "write" (probes_s print_nr)) with (Some (probe_write print_nr)). cbn. by rewrite decide_kill.
  - change (find_probe "socket" (probes_s print_nr)) with (Some (probe_socket print_nr)). cbn. by rewrite decide_kill.
  - change (find_probe "execve" (probes_s print_nr)) with (Some (probe_execve print_nr)). cbn. by rewrite decide_kill.
Qed.
End probe.

(** Where the file cannot be executed, the child says so and leaves. *)
Lemma probe_child_not_executed path probe f : print_nr = SYS_write ->
  (length f <= 4096)%nat -> f <> [] ->
  (forall nr, In nr [SYS_execve; SYS_write; SYS_exit_group] -> action (Process AUDIT_ARCH_RISCV64 [f]) nr = SECCOMP_RET_ALLOW) ->
  loader path [path; probe] = None ->
  run_process run combine os loader 2 (probe_child print_nr 126 path probe [f]) LP64 = Some (Exited 126).
Proof.
  intros Hw Hl Hne Ha Hp. unfold probe_child, LP64. cbn [run_process]. cbn [RawTests.live].
  rewrite decide_allow by apply action_none. rewrite os_prctl. cbn [Z.eqb install_filters RawTests.live].
  rewrite decide_allow by apply action_none. rewrite os_seccomp by (destruct f; [done|cbn [length] in *; lia]).
  cbn [Z.eqb RawTests.live p_arch filters]. rewrite decide_allow by (apply Ha; by left). rewrite Hp.
  unfold message. cbn [RawTests.live]. rewrite Hw. rewrite decide_allow by (apply Ha; right; by left).
  cbn [RawTests.live]. by rewrite decide_allow by (apply Ha; do 2 right; by left).
Qed.

Lemma dispatch_size : (length dispatch <= 4096)%nat /\ dispatch <> [].
Proof. split; [apply Nat.leb_le; reflexivity|done]. Qed.

(** The calls of a process under the filters of the tests. *)
Lemma dispatch_action arch nr : arch = AUDIT_ARCH_RISCV64 \/ arch = AUDIT_ARCH_RISCV32 ->
  action (Process arch [dispatch]) nr =
  if listed nr (if arch =? AUDIT_ARCH_RISCV64 then test_rv64_nrs else test_rv32_nrs) then SECCOMP_RET_ALLOW else SECCOMP_RET_KILL_PROCESS.
Proof.
  intros H. apply action_one; [rewrite answer_dispatch; destruct H as [-> | ->]; reflexivity|].
  destruct answers_are as (? & ? & _). by destruct (listed _ _).
Qed.

Lemma rv64only_action arch nr :
  action (Process arch [rv64only]) nr = if arch =? AUDIT_ARCH_RISCV64 then SECCOMP_RET_ALLOW else SECCOMP_RET_KILL_PROCESS.
Proof. destruct answers_are as (? & ? & _). apply action_one; [apply answer_rv64only|by destruct (_ =? _)]. Qed.

Lemma errno_action arch nr :
  action (Process arch [errno_filt]) nr =
  if (arch =? AUDIT_ARCH_RISCV32) && (nr =? 64) then Z.lor SECCOMP_RET_ERRNO 42 else SECCOMP_RET_ALLOW.
Proof. destruct answers_are as (? & _ & ?). apply action_one; [apply answer_errno|]. by destruct (_ && _). Qed.

Context (forked : nat -> bool) (adv : string).
Local Abbreviation main_s := (main_s run combine os loader print_nr forked).
Local Abbreviation runs p := (run_process run combine os loader 2 p LP64).

(** The verdicts from the statuses. *)
Lemma main_s_verdicts prog0 c d e f g : (forall i, forked i = true) ->
  runs (probe_child print_nr 126 adv "write" [dispatch]) = Some c ->
  runs (probe_child print_nr 126 adv "socket" [dispatch]) = Some d ->
  runs (probe_child print_nr 126 adv "execve" [dispatch]) = Some e ->
  runs (probe_child print_nr 126 adv "write" [rv64only]) = Some f ->
  runs (probe_child print_nr 126 adv "write" [errno_filt]) = Some g ->
  let rc := probe_rc g in
  let verdicts := [PASS; PASS; expect 0 (probe_rc c); expect 159 (probe_rc d); expect 159 (probe_rc e); expect 159 (probe_rc f);
    if rc =? 1 then PASS else if rc =? 0 then INFO else if rc =? 126 then SKIP else INFO] in
  main_s [prog0; adv] = Some (verdicts, if test_count FAIL verdicts =? 0 then 0 else 1).
Proof.
  intros Hfork Hc Hd He Hf Hg. cbv zeta. destruct test_filters_built as (B1 & B2 & B3 & _).
  unfold RawTests.main_s, test_g. rewrite B1, B2, B3. unfold RawTests.child. rewrite !Hfork, Hc, Hd, He, Hf, Hg.
  destruct dispatch_size as [Hl Hne]. unfold lp64_probe_write, lp64_probe_socket.
  rewrite (inline_child_runs dispatch SYS_write _ (Some (Exited 0)) Hl Hne).
  2: { rewrite !decide_allow by (rewrite dispatch_action by (by left); reflexivity). by rewrite os_write by lia. }
  rewrite (inline_child_runs dispatch SYS_socket _ (Some (Signaled SIGSYS)) Hl Hne).
  2: { by rewrite decide_kill by (rewrite dispatch_action by (by left); reflexivity). }
  reflexivity.
Qed.

(** The runs of the probes, from the answers to their calls. *)
Lemma probe_under f arch probe st : (length f <= 4096)%nat -> f <> [] ->
  action (Process AUDIT_ARCH_RISCV64 [f]) SYS_execve = SECCOMP_RET_ALLOW ->
  (forall probe, loader adv [adv; probe] = Some (arch, adversary_s print_nr [96] [adv; probe])) ->
  run_process run combine os loader 1 (adversary_s print_nr [96] [adv; probe]) (Process arch [f]) = st ->
  runs (probe_child print_nr 126 adv probe [f]) = st.
Proof.
  intros Hl Hne Ha Hload <-. by eapply probe_child_runs.
Qed.

(** C29: The raw test of spike s tells the kernels apart.  On a kernel whose loader runs
    the probe as a RISCV32 process all seven tests pass and it exits 0; where the probe
    runs under an emulator and counts as RISCV64, tests C and F fail, G reports it, and it
    exits 1; where the file cannot be executed at all, C to F fail, G is skipped, and it
    exits 1.  The filters are those the builders write, the probe starts with the one
    call the test expects. *)
Theorem raw_test_exact prog0 arch (Hfork : forall i, forked i = true)
    (Hload : forall probe, loader adv [adv; probe] =
      a ← arch; Some (a, adversary_s print_nr [96] [adv; probe])) :
  (arch = Some AUDIT_ARCH_RISCV32 -> main_s [prog0; adv] = Some (repeat PASS 7, 0)) /\
  (arch = Some AUDIT_ARCH_RISCV64 -> main_s [prog0; adv] = Some ([PASS; PASS; FAIL; PASS; PASS; FAIL; INFO], 1)) /\
  (arch = None -> print_nr = SYS_write -> main_s [prog0; adv] = Some ([PASS; PASS; FAIL; FAIL; FAIL; FAIL; SKIP], 1)).
Proof.
  destruct dispatch_size as [Hl Hne].
  assert (forall nr, In nr [SYS_execve; SYS_write; SYS_exit_group] -> action (Process AUDIT_ARCH_RISCV64 [dispatch]) nr = SECCOMP_RET_ALLOW) as Hd64.
  { intros nr Hin. rewrite dispatch_action by by left. by destruct Hin as [<-|[<-|[<-|[]]]]. }
  assert (forall nr, action (Process AUDIT_ARCH_RISCV64 [rv64only]) nr = SECCOMP_RET_ALLOW) as Ho64 by (intros; by rewrite rv64only_action).
  assert (forall nr, action (Process AUDIT_ARCH_RISCV64 [errno_filt]) nr = SECCOMP_RET_ALLOW) as He64 by (intros; by rewrite errno_action).
  assert ((length rv64only <= 4096)%nat /\ (length errno_filt <= 4096)%nat) as [Hl1 Hl2] by (split; cbn; lia).
  split_and!; intros ->; cbn [mbind option_bind] in Hload.
  - rewrite (main_s_verdicts prog0 (Exited 0) (Signaled SIGSYS) (Signaled SIGSYS) (Signaled SIGSYS) (Exited 1)); try done.
    + eapply probe_under; try done; [by apply Hd64; left|].
      apply write_runs; [|by rewrite dispatch_action by by right..]. apply Forall_singleton. by rewrite dispatch_action by by right.
    + eapply probe_under; try done; [by apply Hd64; left|]. eapply (probe_killed [96]) with (nr := SYS_socket);
        [|right; by left|by rewrite dispatch_action by by right]. apply Forall_singleton. by rewrite dispatch_action by by right.
    + eapply probe_under; try done; [by apply Hd64; left|]. eapply (probe_killed [96]) with (nr := SYS_execve);
        [|do 2 right; by left|by rewrite dispatch_action by by right]. apply Forall_singleton. by rewrite dispatch_action by by right.
    + eapply probe_under; try done. by eapply probe_killed_at_start; [done|rewrite rv64only_action].
    + eapply probe_under; try done. apply write_refused; [|by rewrite errno_action|].
      * apply Forall_singleton. by rewrite errno_action.
      * intros nr Hnr. rewrite errno_action. unfold SYS_write in Hnr. destruct (Z.eqb_spec nr 64); [done|]. by rewrite andb_false_r.
  - rewrite (main_s_verdicts prog0 (Signaled SIGSYS) (Signaled SIGSYS) (Signaled SIGSYS) (Exited 0) (Exited 0)); try done.
    1-3: eapply probe_under; try done; [by apply Hd64; left|]; by eapply probe_killed_at_start; [done|rewrite dispatch_action by by left].
    + eapply probe_under; try done. apply write_runs; [|done..]. by apply Forall_singleton.
    + eapply probe_under; try done. apply write_runs; [|done..]. by apply Forall_singleton.
  - intros Hw. rewrite (main_s_verdicts prog0 (Exited 126) (Exited 126) (Exited 126) (Exited 126) (Exited 126)); try done.
    all: apply probe_child_not_executed; done.
Qed.

(** The test of spike r: a probe that is killed before it gets to its call counts as well. *)
Lemma starting_dies next startup p pr :
  (forall nr, action pr nr = SECCOMP_RET_ALLOW \/ action pr nr = SECCOMP_RET_KILL_PROCESS) ->
  live next p pr = Some (Signaled SIGSYS) -> live next (starting startup p) pr = Some (Signaled SIGSYS).
Proof.
  intros H Hp. induction startup as [|nr st IH]; [done|]. cbn.
  destruct (H nr); [by rewrite decide_allow|by rewrite decide_kill].
Qed.

Lemma unified_action nr :
  action (Process AUDIT_ARCH_RISCV64 [unified]) nr =
  if listed nr seccomp_unified_nrs then SECCOMP_RET_ALLOW else SECCOMP_RET_KILL_PROCESS.
Proof. destruct answers_are as (? & ? & _). apply action_one; [apply answer_unified|]. by destruct (listed _ _). Qed.

Lemma phase1_action nr :
  action (Process AUDIT_ARCH_RISCV64 [build_phase1]) nr = if nr =? 160 then SECCOMP_RET_KILL_PROCESS else SECCOMP_RET_ALLOW.
Proof. destruct answers_are as (? & ? & _). apply action_one; [apply answer_phases|]. by destruct (_ =? _). Qed.

Lemma phases_action nr :
  action (Process AUDIT_ARCH_RISCV64 [build_phase2; build_phase1]) nr = if nr =? 160 then SECCOMP_RET_KILL_PROCESS else SECCOMP_RET_ALLOW.
Proof.
  unfold RawTests.action. cbn [filters map]. destruct (answer_phases (Process AUDIT_ARCH_RISCV64 [build_phase2; build_phase1]) nr) as [-> ->].
  destruct (nr =? 160); [apply combine_kill; right; by left|apply combine_allow; by repeat constructor].
Qed.

Lemma raw_test_r_passes prog0 startup : (forall i, forked i = true) ->
  (forall probe, loader adv [adv; probe] = Some (AUDIT_ARCH_RISCV64, adversary_h print_nr startup [adv; probe])) ->
  main_r run combine os loader print_nr forked [prog0; adv] = Some (repeat PASS 3, 0).
Proof.
  intros Hfork Hload. destruct test_filters_built as (_ & _ & _ & B). unfold main_r. rewrite B, !Hfork. cbn [negb].
  assert ((length unified <= 4096)%nat /\ unified <> []) as [Hl Hne] by (split; [apply Nat.leb_le; reflexivity|done]).
  unfold RawTests.child, unified_probe_write.
  rewrite (inline_child_runs unified SYS_write _ (Some (Exited 0)) Hl Hne).
  2: { rewrite !decide_allow by (rewrite unified_action; reflexivity). by rewrite os_write by lia. }
  assert (runs (probe_child print_nr 127 adv "socket" [unified]) = Some (Signaled SIGSYS)) as ->.
  { rewrite (probe_child_runs _ _ _ _ AUDIT_ARCH_RISCV64 (adversary_h print_nr startup [adv; "socket"%string])) by (done || by rewrite unified_action).
    unfold adversary_h. cbn [run_process]. apply starting_dies.
    - intros nr. rewrite unified_action. destruct (listed _ _); [by left|by right].
    - change (find_probe "socket" (probes_h print_nr)) with (Some (probe_socket print_nr)). cbn.
      by rewrite decide_kill by (rewrite unified_action; reflexivity). }
  assert (runs (probe_child print_nr 127 adv "uname" [build_phase1; build_phase2]) = Some (Signaled SIGSYS)) as ->; [|reflexivity].
  unfold probe_child, LP64. cbn [run_process]. cbn [RawTests.live].
  rewrite decide_allow by apply action_none. rewrite os_prctl. cbn [Z.eqb install_filters RawTests.live].
  rewrite decide_allow by apply action_none. rewrite os_seccomp by (cbn; lia). cbn [Z.eqb RawTests.live p_arch filters].
  rewrite decide_allow by by rewrite phase1_action. rewrite os_seccomp by (cbn; lia). cbn [Z.eqb RawTests.live p_arch filters].
  rewrite decide_allow by by rewrite phases_action. rewrite Hload.
  unfold adversary_h. apply starting_dies.
  - intros nr. rewrite phases_action. destruct (_ =? _); [by right|by left].
  - change (find_probe "uname" (probes_h print_nr)) with (Some (probe_uname print_nr)). cbn.
    by rewrite decide_kill by by rewrite phases_action.
Qed.
End tests.

(** ** A kernel with an ILP32 loader *)

Definition plain_os (nr arg : Z) : Z := if nr =? SYS_write then arg else 0.

#[export] Instance plain_calls : Calls most_severe plain_os.
Proof.
  split; [|done|done|done]. intros a [Ha Hs]. unfold most_severe. cbn [fold_left]. rewrite (wrap_small 32) by done.
  destruct (Z.ltb_spec (i32 a) (i32 SECCOMP_RET_ALLOW)); [done|].
  rewrite <-(wrap_signed_small 32 a) by lia. by replace (i32 a) with (i32 SECCOMP_RET_ALLOW) by lia.
Qed.

Definition ilp32_loader (path : string) (argv : list string) : option (Z * prog) :=
  Some (AUDIT_ARCH_RISCV32, adversary_s 66 [96] argv).

Lemma raw_test_exact_witness :
  main_s bpf_run most_severe plain_os ilp32_loader 66 (fun _ => true) ["raw_test"; "adversary"]%string = Some (repeat PASS 7, 0).
Proof.
  exact (proj1 (raw_test_exact bpf_run most_severe plain_os ilp32_loader 66 (fun _ => true) "adversary" "raw_test"
    (Some AUDIT_ARCH_RISCV32) (fun _ => eq_refl) (fun _ => eq_refl)) eq_refl).
Defined.

(** The same run, computed. *)
Lemma raw_test_computes :
  main_s bpf_run most_severe plain_os ilp32_loader 66 (fun _ => true) ["raw_test"; "adversary"]%string = Some (repeat PASS 7, 0).
Proof. vm_compute. reflexivity. Qed.

(** A probe whose message needs another call than the filter allows is killed where it
    only fails: test D passes although no socket was asked for. *)
Lemma failed_exec_counts_as_kill :
  run_process bpf_run most_severe plain_os (fun _ _ => None) 2 (probe_child 66 126 "adversary" "socket" [dispatch]) LP64 =
  Some (Signaled SIGSYS).
Proof. vm_compute. reflexivity. Qed.
