(* ===== verification/LuaHost.v ===== *)
(** * The hosts of a Lua cart (spikes/spike-j/lib/libconsolelua_rv32.c,
    spikes/spike-j/host/dap_lua_host.c, spikes/spike-i/lib/libconsolelua_rv32.c and
    libconsole_rv32.c)

    The layer that makes a Lua state, loads the cart's chunk and calls its functions tic
    by tic, with the master hook installed and rearmed.  Lua is a parameter: a chunk or a
    function runs as a machine that comes by hook events, one after the other, and goes on
    with what the hook did there.  The pause loop the hook may enter is another parameter,
    which gives the configuration and the clock back. *)

From S2P Require Import Prelude HostString MasterHook.
Open Scope Z_scope.

(** ** Running Lua code under the hook *)

(** What [lua_pcall] runs: the loaded chunk, or a global function. *)
Inductive target := Chunk | Function (fn : list Z).

Section lua.
Context {S L T : Type}.

Record event := Event { at_ : L; kind : hook_event; activation_ : activation }.

(** A thread of Lua ends, with its error's text if it fails, or comes by an event and goes
    on with what the hook did: [None], or the message of the error the hook raised, which
    the cart's code may catch. *)
Inductive progress := Finished (s : S) (err : option (list Z)) | Hooked (ev : event) (resume : option (list Z) -> T).

(** Lua and the cart's code in it. *)
Record lua := Lua {
  lua_stack : L -> list activation;
  (** [lua_newstate]; [luaL_requiref], the globals, the cart's own modules. *)
  newstate : option S;
  configure_sandbox : S -> S;
  (** [luaL_loadbuffer] with the chunk's name: the state with the chunk, or an error. *)
  loadbuffer : list Z -> list Z -> S -> option S;
  is_function : S -> list Z -> bool;
  start : S -> target -> T;
  step : T -> progress;
}.

Context (vm : lua) (dap : dap_link L).
(** [fc_dap_pause_loop], which returns when the debugger lets go. *)
Context (pause : hook_config_t -> list Z -> hook_config_t * list Z).
(** How many events a call may come by. *)
Context (fuel : nat).

(** The hook on each event its mask selects.  [None]: the events or the clock's readings
    are used up. *)
Fixpoint run_hooked (n : nat) (hook : option (Z * Z)) (t : T) (c : hook_config_t) (clock : list Z)
  : option (S * option (list Z) * hook_config_t * list Z) :=
  match n with
  | O => None
  | Datatypes.S n =>
      match step vm t with
      | Finished s err => Some (s, err, c, clock)
      | Hooked ev resume =>
          if selects hook (kind ev) then
            match fc_consolelua_master_hook (lua_stack vm) dap c clock (at_ ev) (kind ev) (activation_ ev) with
            | Returned c clock => run_hooked n hook (resume None) c clock
            | Raised msg c clock => run_hooked n hook (resume (Some msg)) c clock
            | Pausing c clock => let '(c, clock) := pause c clock in run_hooked n hook (resume None) c clock
            | NoReading => None
            end
          else run_hooked n hook (resume None) c clock
      end
  end.

(** A Lua state: the hook is part of it, and the sandbox gives the code no way to change
    it; [lua_top] counts the values the host has left on its stack. *)
Record lua_State := State { body : S; lua_hook : option (Z * Z); lua_top : nat }.

Definition set_body (s : S) (l : lua_State) : lua_State := State s (lua_hook l) (lua_top l).
Definition push (l : lua_State) : lua_State := State (body l) (lua_hook l) (Datatypes.S (lua_top l)).
Definition lua_pop (l : lua_State) : lua_State := State (body l) (lua_hook l) (pred (lua_top l)).

(** [lua_pcall(L, 0, 0, 0)] of a function on top of the stack: a failure leaves the
    error's text in its place. *)
Definition lua_pcall (l : lua_State) (t : target) (c : hook_config_t) (clock : list Z)
  : option (lua_State * option (list Z) * hook_config_t * list Z) :=
  '(s, err, c, clock) ← run_hooked fuel (lua_hook l) (start vm (body l) t) c clock;
  let l := set_body s l in
  Some (match err with Some _ => l | None => lua_pop l end, err, c, clock).

(** ** libconsolelua_rv32.c *)

(** The variants of the build; [None] in place of one is spike i, without a hook. *)
Inductive variant := MASTER_OFF | MASTER_BUDGET | MASTER_BUDGET_DAP_IDLE | MASTER_THROTTLE | MASTER_ALL.

Definition set_flags (budget throttle dapf : bool) (budget_ns_ delay : Z) (c : hook_config_t) : hook_config_t :=
  Config budget throttle dapf budget_ns_ (budget_tic_start_ns c) (throttle_start_ns c) (throttle_target_ns c) delay
    (dap_step_mode c) (dap_step_base_depth c) (dap_pending_pause c).

Definition apply_master_config (v : variant) (c : hook_config_t) : hook_config_t :=
  match v with
  | MASTER_OFF => set_flags false false false 16667000 0 c
  | MASTER_BUDGET => set_flags true false false 16667000 0 c
  | MASTER_BUDGET_DAP_IDLE => set_flags true false true 16667000 0 c
  | MASTER_THROTTLE => set_flags false true false 16667000 0 c
  | MASTER_ALL => set_flags true true true 16667000 0 c
  end.

(** The globals of the library, the clock, and what is printed. *)
Record host := Host {
  s_bytecode : list Z;
  s_L : option lua_State;
  cfg : hook_config_t;
  clock_ : list Z;
  printed : list Z;
}.

Definition set_L (l : option lua_State) (h : host) : host := Host (s_bytecode h) l (cfg h) (clock_ h) (printed h).
Definition set_cfg (c : hook_config_t) (clock : list Z) (h : host) : host := Host (s_bytecode h) (s_L h) c clock (printed h).
Definition fc_console_print (s : list Z) (h : host) : host := Host (s_bytecode h) (s_L h) (cfg h) (clock_ h) (printed h ++ s).

(** No bytecode is the empty one. *)
Definition fc_consolelua_set_bytecode (data : list Z) (h : host) : host :=
  Host data (s_L h) (cfg h) (clock_ h) (printed h).

Definition zero_config : hook_config_t := Config false false false 0 0 0 0 0 DAP_STEP_NONE 0 false.
Definition fresh (clock : list Z) : host := Host [] None zero_config clock [].

Section library.
Context (v : option variant).

(** Spike i calls its chunk "cart", spike j "@cart". *)
Definition chunk_name : list Z := match v with Some _ => cstr "@cart" | None => cstr "cart" end.

Definition pcall (t : target) (l : lua_State) (h : host) : option (host * option (list Z)) :=
  '(l, msg, c, clock) ← lua_pcall l t (cfg h) (clock_ h);
  Some (set_cfg c clock (set_L (Some l) h), msg).

Definition ensure_state (h : host) : option host :=
  match s_L h with
  | Some _ => Some h
  | None =>
      match newstate vm with
      | None => Some (fc_console_print (cstr "FAIL: lua_newstate" ++ [10]) h)
      | Some s =>
          let s := configure_sandbox vm s in
          let h := match v with Some v => set_cfg (apply_master_config v (cfg h)) (clock_ h) h | None => h end in
          let hook := match v with Some _ => fc_consolelua_master_hook_install (cfg h) | None => None end in
          let l := State s hook 0 in
          match s_bytecode h with
          | [] => Some (set_L (Some l) h)
          | code =>
              match loadbuffer vm code chunk_name s with
              | None => Some (fc_console_print (cstr "FAIL: luaL_loadbuffer" ++ [10]) (set_L (Some (push l)) h))
              | Some s =>
                  '(h, msg) ← pcall Chunk (push (set_body s l)) h;
                  Some (match msg with
                        | Some _ => fc_console_print (cstr "FAIL: lua pcall chunk" ++ [10]) h
                        | None => h
                        end)
              end
          end
      end
  end.

(** The common part of the three entry points. *)
Definition call_function (fn : list Z) (h : host) : option host :=
  match s_L h with
  | None => Some h
  | Some l =>
      h ← (match v with
           | Some _ => '(c, clock) ← fc_consolelua_master_hook_rearm (cfg h) (clock_ h); Some (set_cfg c clock h)
           | None => Some h
           end);
      let l := push l in
      if is_function vm (body l) fn then '(h, _) ← pcall (Function fn) l h; Some h
      else Some (set_L (Some (lua_pop l)) h)
  end.

Definition fc_cart_init (h : host) : option host := h ← ensure_state h; call_function (cstr "init") h.
Definition fc_cart_update (h : host) : option host := call_function (cstr "update") h.
Definition fc_cart_draw (h : host) : option host := call_function (cstr "draw") h.

Definition fc_consolelua_synthetic_reload (new_bytecode : list Z) (h : host) : option host :=
  ensure_state (fc_consolelua_set_bytecode new_bytecode (set_L None h)).

(** libconsole_rv32.c: ten frames. *)
Fixpoint tics (n : nat) (h : host) : option host :=
  match n with
  | O => Some h
  | Datatypes.S n => h ← fc_cart_update h; h ← fc_cart_draw h; tics n h
  end.

Definition fc_console_main (bytecode : list Z) (h : host) : option host :=
  h ← fc_cart_init (fc_consolelua_set_bytecode bytecode h);
  h ← tics 10 h;
  Some (fc_console_print (cstr "OK" ++ [10]) h).
End library.
End lua.
Arguments event : clear implicits.
Arguments progress : clear implicits.
Arguments lua : clear implicits.
Arguments lua_State : clear implicits.
Arguments host : clear implicits.

(** ** What the hook leaves alone *)

Section laws.
Context {S L T : Type} (vm : lua S L T) (dap : dap_link L).
Context (pause : hook_config_t -> list Z -> hook_config_t * list Z) (fuel : nat).

(** What is configured, and not what happens. *)
Definition settings (c : hook_config_t) : bool * bool * bool * Z :=
  (budget_enabled c, throttle_enabled c, dap_enabled c, budget_ns c).

(** The debugger's loop changes the stepping, and nothing of the settings. *)
Definition settings_kept : Prop := forall c clock, settings (fst (pause c clock)) = settings c.

Lemma install_settings c c' :
  settings c = settings c' -> fc_consolelua_master_hook_install c = fc_consolelua_master_hook_install c'.
Proof. unfold settings, fc_consolelua_master_hook_install. by intros [= -> -> -> _]. Qed.

Lemma dap_dispatch_settings c l e ar :
  settings (fst (dap_dispatch (lua_stack vm) dap c l e ar)) = settings c.
Proof. unfold dap_dispatch. repeat case_match; done. Qed.

Lemma throttle_step_settings c clock c' rest :
  throttle_step c clock = Some (c', rest) -> settings c' = settings c.
Proof.
  unfold throttle_step. intros H. repeat (case_match || simplify_option_eq); done.
Qed.

Definition result_settings (r : hook_result) : option (bool * bool * bool * Z) :=
  match r with
  | Returned c _ | Raised _ c _ | Pausing c _ => Some (settings c)
  | NoReading => None
  end.

Lemma master_hook_settings c clock l e ar s :
  result_settings (fc_consolelua_master_hook (lua_stack vm) dap c clock l e ar) = Some s -> s = settings c.
Proof.
  assert (forall clock,
    result_settings
      match (if throttle_enabled c && is_line e then throttle_step c clock else Some (c, clock)) with
      | None => NoReading
      | Some (c, clock) =>
          if dap_enabled c then
            let '(c, pause) := dap_dispatch (lua_stack vm) dap c l e ar in
            if pause then Pausing c clock else Returned c clock
          else Returned c clock
      end = Some s -> s = settings c) as Hrest.
  { intros clk. destruct (if throttle_enabled c && is_line e then _ else _) as [[c1 clk1]|] eqn:E; [|done].
    assert (settings c1 = settings c) as Hc1.
    { destruct (throttle_enabled c && is_line e); [by eapply throttle_step_settings|by simplify_eq]. }
    rewrite <- Hc1. pose proof (dap_dispatch_settings c1 l e ar) as Hd.
    destruct (dap_enabled c1); [|by intros [= <-]].
    destruct (dap_dispatch _ _ _ _ _ _) as [c2 p]. cbn in Hd. rewrite <- Hd. destruct p; by intros [= <-]. }
  unfold fc_consolelua_master_hook, budget_check.
  destruct (budget_enabled c && _); [|apply Hrest].
  destruct clock as [|now clock]; [done|]. destruct (budget_ns c <? _); [by intros [= <-]|apply Hrest].
Qed.

Lemma run_hooked_settings n hook t c clock s err c' rest :
  settings_kept ->
  run_hooked vm dap pause n hook t c clock = Some (s, err, c', rest) -> settings c' = settings c.
Proof.
  intros Hp. revert t c clock. induction n as [|n IH]; intros t c clock; [done|]. cbn [run_hooked].
  destruct (step vm t) as [s' err'|ev resume]; [by intros [= _ _ <- _]|].
  destruct (selects hook (kind ev)); [|apply IH].
  pose proof (master_hook_settings c clock (at_ ev) (kind ev) (activation_ ev)) as Hs.
  destruct (fc_consolelua_master_hook _ _ _ _ _ _ _) as [c1 clk|msg c1 clk|c1 clk|]; try done;
    specialize (Hs _ eq_refl); rewrite <- ?Hs; try apply IH.
  rewrite <- (Hp c1 clk). destruct (pause c1 clk) as [c2 clk2]. apply IH.
Qed.

Lemma rearm_settings c clock c' rest :
  fc_consolelua_master_hook_rearm c clock = Some (c', rest) -> settings c' = settings c.
Proof. unfold fc_consolelua_master_hook_rearm. intros H. repeat (case_match || simplify_option_eq); done. Qed.
End laws.

(** ** Any order of calls *)

Inductive entry :=
  | SetBytecode (data : list Z) | Init | Update | Draw | Reload (data : list Z).

Section correctness.
Context {S L T : Type} (vm : lua S L T) (dap : dap_link L).
Context (pause : hook_config_t -> list Z -> hook_config_t * list Z) (fuel : nat) (v : option variant).

Definition enter (e : entry) : host S -> option (host S) :=
  match e with
  | SetBytecode data => fun h => Some (fc_consolelua_set_bytecode data h)
  | Init => fc_cart_init vm dap pause fuel v
  | Update => fc_cart_update vm dap pause fuel v
  | Draw => fc_cart_draw vm dap pause fuel v
  | Reload data => fc_consolelua_synthetic_reload vm dap pause fuel v data
  end.

Fixpoint entries (es : list entry) (h : host S) : option (host S) :=
  match es with [] => Some h | e :: es => h ← enter e h; entries es h end.

(** A live state has the hook of its variant, and the variant is what is configured. *)
Definition hooked (h : host S) : Prop :=
  match s_L h with
  | None => True
  | Some l =>
      match v with
      | Some v =>
          lua_hook l = fc_consolelua_master_hook_install (cfg h) /\
          settings (cfg h) = settings (apply_master_config v zero_config)
      | None => lua_hook l = None
      end
  end.

Lemma apply_master_config_settings w c :
  settings (apply_master_config w c) = settings (apply_master_config w zero_config).
Proof. by destruct w. Qed.

Lemma hooked_print s h : hooked h -> hooked (fc_console_print s h).
Proof. done. Qed.

(** Same hook, same settings. *)
Lemma hooked_step l h h' l' :
  s_L h = Some l -> hooked h -> s_L h' = Some l' -> lua_hook l' = lua_hook l ->
  settings (cfg h') = settings (cfg h) -> hooked h'.
Proof.
  unfold hooked. intros -> H -> -> Hs. destruct v as [w|]; [|done].
  destruct H as [H1 H2]. by rewrite Hs, H1, (install_settings _ _ Hs).
Qed.

Lemma hooked_set_L l l' h :
  s_L h = Some l -> hooked h -> lua_hook l' = lua_hook l -> hooked (set_L (Some l') h).
Proof. intros. by eapply hooked_step. Qed.

Lemma pcall_hooked t l h h' msg :
  settings_kept pause -> hooked (set_L (Some l) h) ->
  pcall vm dap pause fuel t l h = Some (h', msg) -> hooked h'.
Proof.
  unfold pcall, lua_pcall. intros Hp Hh E.
  destruct (run_hooked _ _ _ _ _ _ _ _) as [[[[s err] c] clk]|] eqn:Er; [|done].
  cbn in E. injection E as <- <-. apply run_hooked_settings in Er; [|done].
  eapply (hooked_step l (set_L (Some l) h)); try done. by destruct err.
Qed.

Lemma ensure_state_hooked h h' :
  settings_kept pause -> hooked h -> ensure_state vm dap pause fuel v h = Some h' -> hooked h'.
Proof.
  unfold ensure_state. intros Hp Hh E. destruct (s_L h); [by simplify_eq|].
  destruct (newstate vm) as [s|]; [|by simplify_eq; apply hooked_print].
  revert E. set (h1 := match v with Some w => _ | None => h end).
  set (hook := match v with Some _ => _ | None => None end).
  assert (forall s n, hooked (set_L (Some (State (configure_sandbox vm s) hook n)) h1)) as H1.
  { intros s1 n. unfold hooked, hook, h1. cbn. destruct v as [w|]; [|done]. cbn.
    split; [done|apply apply_master_config_settings]. }
  assert (forall l, lua_hook l = hook -> hooked (set_L (Some l) h1)) as H2.
  { intros l Hl. eapply (hooked_step _ (set_L (Some (State (configure_sandbox vm s) hook 0)) h1)); done. }
  destruct (s_bytecode h1) as [|b code]; [intros [= <-]; by apply H2|].
  destruct (loadbuffer _ _ _ _) as [s'|]; [|intros [= <-]; by apply hooked_print, H2].
  destruct (pcall _ _ _ _ _ _ _) as [[h2 msg]|] eqn:Ep; [|done].
  apply pcall_hooked in Ep; [|done|by apply H2]. destruct msg; by intros [= <-].
Qed.

Lemma call_function_hooked fn h h' :
  settings_kept pause -> hooked h -> call_function vm dap pause fuel v fn h = Some h' -> hooked h'.
Proof.
  unfold call_function. intros Hp Hh E. destruct (s_L h) as [l|] eqn:El; [|by simplify_eq].
  destruct (match v with Some _ => _ | None => _ end) as [h1|] eqn:Er; [|done]. cbn in E.
  assert (s_L h1 = Some l /\ hooked h1) as [El1 Hh1].
  { destruct v eqn:Ev; [|by simplify_eq]. destruct (fc_consolelua_master_hook_rearm _ _) as [[c clk]|] eqn:Ea; [|done].
    cbn in Er. injection Er as <-. split; [done|]. eapply hooked_step; try done. by eapply rearm_settings. }
  destruct (is_function _ _ _).
  - destruct (pcall _ _ _ _ _ _ _) as [[h2 msg]|] eqn:Ep; [|done]. cbn in E. injection E as <-.
    apply pcall_hooked in Ep; [done..|]. by eapply hooked_set_L.
  - injection E as <-. by eapply hooked_set_L.
Qed.

Lemma enter_hooked e h h' : settings_kept pause -> hooked h -> enter e h = Some h' -> hooked h'.
Proof.
  intros Hp Hh. destruct e as [data| | | |data]; cbn [enter].
  - by intros [= <-].
  - unfold fc_cart_init. destruct (ensure_state _ _ _ _ _ _) as [h1|] eqn:E; [|done]. cbn.
    apply call_function_hooked; [done|]. by eapply ensure_state_hooked.
  - by apply call_function_hooked.
  - by apply call_function_hooked.
  - unfold fc_consolelua_synthetic_reload. by apply ensure_state_hooked.
Qed.

(** C28: The hook is always on.  Whatever calls the console makes of the library and in
    whatever order, tics before [init], reloads in the middle, chunks and functions that
    fail, and whatever the cart's code and the debugger do meanwhile: a live Lua state has
    the master hook installed with the mask of the configuration in force, which is the
    one the library was built for; in spike i, which has no hook, none. *)
Theorem hook_installed es clock h :
  settings_kept pause -> entries es (fresh clock) = Some h -> hooked h.
Proof.
  intros Hp. assert (hooked (@fresh S clock)) as Hf by done. revert Hf. generalize (@fresh S clock).
  induction es as [|e es IH]; intros h0 H0; cbn [entries]; [by intros [= <-]|].
  destruct (enter e h0) as [h1|] eqn:E; [|done]. cbn. apply IH. by eapply enter_hooked.
Qed.
End correctness.

(** ** The budget of a tic *)

Section budget.
Context {S L T : Type} (vm : lua S L T) (dap : dap_link L).
Context (pause : hook_config_t -> list Z -> hook_config_t * list Z).

(** Code that never ends of itself: it comes by one count event after the other, and
    catches no error. *)
Definition runaway (P : T -> Prop) : Prop :=
  forall t, P t ->
  exists ev resume, step vm t = Hooked ev resume /\ kind ev = LUA_HOOKCOUNT /\ P (resume None) /\
    forall msg, exists s, step vm (resume (Some msg)) = Finished s (Some msg).

Definition late (start now : Z) : Prop := 16667000 < u64 (now - start).

Lemma run_runaway P c t pre now rest n :
  runaway P -> settings c = settings (apply_master_config MASTER_BUDGET zero_config) -> P t ->
  Forall (fun u => ~ late (budget_tic_start_ns c) u) pre -> late (budget_tic_start_ns c) now ->
  (length pre + 2 <= n)%nat ->
  exists s, run_hooked vm dap pause n (fc_consolelua_master_hook_install c) t c (pre ++ now :: rest) =
    Some (s, Some (cstr "budget exceeded"), c, rest).
Proof.
  unfold late. intros HP Hs. injection Hs as Hb Ht Hd Hns.
  assert (selects (fc_consolelua_master_hook_install c) LUA_HOOKCOUNT = true) as Hsel.
  { unfold fc_consolelua_master_hook_install. by rewrite Hb, Ht, Hd. }
  revert t n. induction pre as [|u pre IH]; intros t n Ht' Hpre Hnow Hn;
    (destruct n as [|n]; [cbn in Hn; lia|]); cbn [run_hooked app];
    destruct (HP t Ht') as (ev & resume & -> & -> & Hnext & Herr); rewrite Hsel, budget_raises, Hns by done.
  - rewrite (proj2 (Z.ltb_lt _ _)) by done. destruct n as [|n]; [cbn in Hn; lia|]. cbn [run_hooked].
    destruct (Herr (cstr "budget exceeded")) as [s ->]. by exists s.
  - inversion_clear Hpre as [|? ? Hu Hpre']. rewrite (proj2 (Z.ltb_ge _ _)) by lia.
    apply IH; try done. cbn in Hn. lia.
Qed.

(** C27: A tic that never ends and catches no error is ended, in the library built with
    MASTER_BUDGET.  Whatever the tics before it used up, a cart's function that runs away,
    one count event after the other, without a [pcall] around it that would catch the
    error ([runaway]; [caught_budget_error] shows a cart that does), is stopped at the
    first count event more than 16.667 ms after the start of its own call, with all events
    before it let through, and the call returns: the state lives on with its hook, the
    budget's start is this call's, the clock is just past the late reading, and the
    error's text is what is left on the stack. *)
Theorem tic_budget P fuel fn h l t0 pre now rest :
  runaway P -> hooked (Some MASTER_BUDGET) h -> s_L h = Some l -> is_function vm (body l) fn = true ->
  P (start vm (body l) (Function fn)) -> clock_ h = t0 :: pre ++ now :: rest ->
  Forall (fun u => ~ late t0 u) pre -> late t0 now -> (length pre + 2 <= fuel)%nat ->
  exists s, call_function vm dap pause fuel (Some MASTER_BUDGET) fn h =
    Some (Host (s_bytecode h) (Some (State s (lua_hook l) (Datatypes.S (lua_top l))))
      (set_budget_start t0 (cfg h)) rest (printed h)).
Proof.
  intros HP Hh El Hf Hrun Hclock Hpre Hnow Hfuel. unfold hooked in Hh. rewrite El in Hh. destruct Hh as [Hhook Hs].
  unfold call_function. rewrite El. unfold fc_consolelua_master_hook_rearm.
  injection Hs as Hb Ht Hd Hns. rewrite Hb, Hclock. cbn [mbind option_bind].
  change (throttle_enabled (set_budget_start t0 (cfg h))) with (throttle_enabled (cfg h)). rewrite Ht.
  cbn [mbind option_bind body push]. rewrite Hf. unfold pcall, lua_pcall. cbn [lua_hook push body cfg clock_ set_cfg].
  rewrite Hhook, <- (install_settings (set_budget_start t0 (cfg h)) (cfg h)) by done.
  destruct (run_runaway P (set_budget_start t0 (cfg h)) (start vm (body l) (Function fn)) pre now rest fuel) as [s ->];
    try done. { unfold settings. cbn. by rewrite Hb, Ht, Hd, Hns. }
  cbn. exists s. unfold set_body. cbn [lua_hook push]. by rewrite Hhook.
Qed.
End budget.

(** ** At concrete carts *)

(** A cart whose chunk ends after [n] count events and whose functions never do. *)
Definition spinning (n : nat) : lua unit unit (option nat * option (list Z)) :=
  Lua (fun _ => []) (Some tt) (fun s => s) (fun _ _ s => Some s) (fun _ _ => true)
    (fun _ t => (match t with Chunk => Some n | Function _ => None end, None))
    (fun t => match t with
              | (_, Some msg) => Finished tt (Some msg)
              | (Some O, None) => Finished tt None
              | (Some (Datatypes.S n), None) =>
                  Hooked (Event tt LUA_HOOKCOUNT (Activation None None None 1 [])) (fun m => (Some n, m))
              | (None, None) =>
                  Hooked (Event tt LUA_HOOKCOUNT (Activation None None None 1 [])) (fun m => (None, m))
              end).

Definition no_debugger : dap_link unit := Link None false.
Definition go_on (c : hook_config_t) (clock : list Z) : hook_config_t * list Z := (c, clock).

Lemma hook_installed_witness :
  settings_kept go_on /\
  exists h, entries (spinning 0) no_debugger go_on 5 (Some MASTER_BUDGET)
      [Update; SetBytecode [1]; Init; Update; Reload [2]; Draw] (fresh [1; 20000000; 5; 6; 30000000; 9; 40000000]) = Some h /\
    is_Some (s_L h) /\ hooked (Some MASTER_BUDGET) h.
Proof.
  split; [done|]. eexists. split; [vm_compute; reflexivity|]. split; [by eexists|].
  apply (hook_installed (spinning 0) no_debugger go_on 5 (Some MASTER_BUDGET)
    [Update; SetBytecode [1]; Init; Update; Reload [2]; Draw] [1; 20000000; 5; 6; 30000000; 9; 40000000]);
    [intros c clock; reflexivity|vm_compute; reflexivity].
Defined.

Definition live_host : host unit :=
  Host [1] (Some (State tt (Some (8, 1000)) 0)) (apply_master_config MASTER_BUDGET zero_config) [100; 200; 300; 16667101; 7] [].

Lemma tic_budget_witness :
  exists s, call_function (spinning 0) no_debugger go_on 4 (Some MASTER_BUDGET) (cstr "update") live_host =
    Some (Host [1] (Some (State s (Some (8, 1000)) 1)) (set_budget_start 100 (cfg live_host)) [7] []).
Proof.
  apply (tic_budget (spinning 0) no_debugger go_on (fun t => t = (None, None)) 4 (cstr "update") live_host
    (State tt (Some (8, 1000)) 0) 100 [200; 300] 16667101 [7]); try done.
  - intros t ->. eexists _, _. split; [reflexivity|]. split; [done|]. split; [done|]. intros msg. by eexists.
  - repeat constructor; unfold late; vm_compute; done.
Defined.

(** The sandbox leaves [pcall] to the cart: one that catches the budget's error and spins
    on, here without doing anything else, is interrupted at every later event and goes on;
    no number of events sees its tic end. *)
Definition catching : lua unit unit unit :=
  Lua (fun _ => []) (Some tt) (fun s => s) (fun _ _ s => Some s) (fun _ _ => true) (fun _ _ => tt)
    (fun _ => Hooked (Event tt LUA_HOOKCOUNT (Activation None None None 1 [])) (fun _ => tt)).

Lemma caught_budget_error dap pause fuel h : s_L h <> None ->
  call_function catching dap pause fuel (Some MASTER_BUDGET) (cstr "update") h = None.
Proof.
  intros Hl. unfold call_function. destruct (s_L h) as [l|] eqn:El; [|done].
  destruct (fc_consolelua_master_hook_rearm _ _) as [[c clk]|]; [|done]. cbn [mbind option_bind is_function catching].
  unfold pcall, lua_pcall. cbn [start catching set_cfg cfg clock_]. cbn [s_L push lua_hook body].
  assert (forall n hook c clock, run_hooked catching dap pause n hook tt c clock = None) as H.
  { induction n as [|n IH]; intros hook c0 clock; [done|]. cbn [run_hooked step catching].
    destruct (selects _ _); [|done]. destruct (fc_consolelua_master_hook _ _ _ _ _ _ _); try done. by destruct (pause _ _). }
  by rewrite H.
Qed.

(** Every failing call leaves its error's text on the stack: after the console's ten
    frames of a cart that never returns, one more value than the 20 places Lua promises. *)
Lemma error_texts_pile_up :
  exists h l, fc_console_main (spinning 0) no_debugger go_on 9 (Some MASTER_BUDGET) [1]
      (fresh (concat (repeat [0; 20000000] 21))) = Some h /\ s_L h = Some l /\ lua_top l = 21%nat.
Proof. eexists _, _. split; [vm_compute; reflexivity|]. split; reflexivity. Qed.

(** The chunk runs before the first rearm: its budget counts from the clock's zero, so
    that a chunk long enough for one count event is stopped there. *)
Lemma chunk_without_budget :
  exists h, ensure_state (spinning 1) no_debugger go_on 9 (Some MASTER_BUDGET)
      (fc_consolelua_set_bytecode [1] (fresh [20000000])) = Some h /\
    printed h = cstr "FAIL: lua pcall chunk" ++ [10].
Proof. eexists. split; vm_compute; reflexivity. Qed.

(** ** dap_lua_host.c *)

Module DapHost.
Record options := Options { port : Z; wait_for_client : bool; s_source_path : list Z }.

Definition default_options : options := Options 5678 false (cstr "@cart").

(** [argv[2..]]; an option that wants a value is ignored at the end of the line. *)
Fixpoint parse_options (argv : list (list Z)) (o : options) : options :=
  match argv with
  | [] => o
  | a :: argv' =>
      match argv' with
      | x :: rest =>
          if bool_decide (a = cstr "--port") then parse_options rest (Options (atoi x) (wait_for_client o) (s_source_path o))
          else if bool_decide (a = cstr "--wait") then parse_options argv' (Options (port o) true (s_source_path o))
          else if bool_decide (a = cstr "--source")
            then parse_options rest (Options (port o) (wait_for_client o) (clip 1024 (cstr "@" ++ x)))
          else parse_options argv' o
      | [] => if bool_decide (a = cstr "--wait") then Options (port o) true (s_source_path o) else o
      end
  end.

Section dap_host.
Context {S L T : Type} (vm : lua S L T) (dap : dap_link L).
Context (pause : hook_config_t -> list Z -> hook_config_t * list Z) (fuel : nat) (source_path : list Z).

Definition apply_default_config : hook_config_t -> hook_config_t := set_flags true false true 16667000 0.

(** Here [printed] is the standard error stream. *)
Definition complain (what text : list Z) (h : host S) : host S :=
  fc_console_print (what ++ cstr ": " ++ text ++ [10]) h.

(** [lua_tostring(L, -1)] of the message [luaL_loadbuffer] left. *)
Context (load_error : list Z -> list Z).

Definition run_chunk (data : list Z) (l : lua_State S) (h : host S) : option (host S * Z) :=
  match loadbuffer vm data source_path (body l) with
  | None => Some (complain (cstr "loadbuffer") (load_error data) (set_L (Some (push l)) h), 1)
  | Some s =>
      '(h, msg) ← pcall vm dap pause fuel Chunk (push (set_body s l)) h;
      Some (match msg with Some m => (complain (cstr "pcall chunk") m h, 1) | None => (h, 0) end)
  end.

Definition build_state (h : host S) : option (host S * Z) :=
  match newstate vm with
  | None => Some (set_L None h, 1)
  | Some s =>
      let s := configure_sandbox vm s in
      let h := set_cfg (apply_default_config (cfg h)) (clock_ h) h in
      let l := State s (fc_consolelua_master_hook_install (cfg h)) 0 in
      run_chunk (s_bytecode h) l (set_L (Some l) h)
  end.

(** A call without a state is undefined ([lua_getglobal] of [NULL]). *)
Definition rearm_then_call (fn : list Z) (h : host S) : option (host S) :=
  '(c, clock) ← fc_consolelua_master_hook_rearm (cfg h) (clock_ h);
  let h := set_cfg c clock h in
  l ← s_L h;
  if is_function vm (body l) fn then
    '(h, msg) ← pcall vm dap pause fuel (Function fn) (push l) h;
    match msg with
    | Some m => Some (complain fn m (set_L (lua_pop <$> s_L h) h))
    | None => Some h
    end
  else Some (set_L (Some (lua_pop (push l))) h).

(** [bytecode] is a copy, [None] when [malloc] fails. *)
Definition fc_consolelua_synthetic_reload (bytecode : option (list Z)) (h : host S) : option (host S) :=
  let h := set_L None h in
  match bytecode with
  | None => Some h
  | Some data => '(h, _) ← build_state (Host data (s_L h) (cfg h) (clock_ h) (printed h)); Some h
  end.

Fixpoint frames (n : nat) (h : host S) : option (host S) :=
  match n with
  | O => Some h
  | Datatypes.S n => h ← rearm_then_call (cstr "update") h; h ← rearm_then_call (cstr "draw") h; frames n h
  end.

(** From [build_state] to the end: the exit status, and whether "OK" is printed. *)
Definition main_loop (h : host S) : option (host S * Z * bool) :=
  '(h, rc) ← build_state h;
  if rc =? 0 then
    h ← rearm_then_call (cstr "init") h;
    h ← frames 10 h;
    Some (h, 0, true)
  else Some (h, 1, false).

(** ** The host keeps its state and its stack *)

(** A live state with the default configuration's hook and nothing left on its stack. *)
Definition ready (h : host S) : Prop :=
  exists l, s_L h = Some l /\ lua_hook l = fc_consolelua_master_hook_install (apply_default_config zero_config) /\
    lua_top l = 0%nat /\ settings (cfg h) = settings (apply_default_config zero_config).

Lemma pcall_ready t l h h' msg :
  settings_kept pause -> settings (cfg h) = settings (apply_default_config zero_config) ->
  pcall vm dap pause fuel t l h = Some (h', msg) ->
  settings (cfg h') = settings (apply_default_config zero_config) /\
  exists l', s_L h' = Some l' /\ lua_hook l' = lua_hook l /\
    lua_top l' = match msg with Some _ => lua_top l | None => pred (lua_top l) end.
Proof.
  intros Hp Hs. unfold pcall, lua_pcall.
  destruct (run_hooked _ _ _ _ _ _ _ _) as [[[[s err] c] clk]|] eqn:Er; [|done].
  cbn. intros [= <- <-]. apply run_hooked_settings in Er; [|done]. split; [cbn; by rewrite Er|].
  eexists. split; [done|]. by destruct err.
Qed.

Lemma rearm_then_call_ready fn h h' :
  settings_kept pause -> ready h -> rearm_then_call fn h = Some h' -> ready h'.
Proof.
  intros Hp (l & El & Hl & Ht & Hs). unfold rearm_then_call.
  destruct (fc_consolelua_master_hook_rearm _ _) as [[c clk]|] eqn:Er; [|done].
  apply rearm_settings in Er. cbn [mbind option_bind s_L set_cfg]. rewrite El. cbn [mbind option_bind].
  destruct (is_function _ _ _).
  - destruct (pcall _ _ _ _ _ _ _) as [[h1 msg]|] eqn:Ep; [|done]. cbn.
    apply pcall_ready in Ep as (Hs1 & l1 & El1 & Hl1 & Ht1); [|done|by cbn; rewrite Er].
    cbn in Hl1, Ht1. destruct msg; intros [= <-].
    + exists (lua_pop l1). cbn. rewrite El1, Hl1, Ht1. cbn. by rewrite Ht.
    + exists l1. by rewrite El1, Hl1, Ht1.
  - intros [= <-]. exists (lua_pop (push l)). cbn. by rewrite Er.
Qed.

Lemma build_state_ready h h' :
  settings_kept pause -> build_state h = Some (h', 0) -> ready h'.
Proof.
  intros Hp. unfold build_state, run_chunk. destruct (newstate vm) as [s|]; [|done].
  cbn [body]. destruct (loadbuffer _ _ _ _) as [s'|]; [|done].
  destruct (pcall _ _ _ _ _ _ _) as [[h1 msg]|] eqn:Ep; [|done].
  apply pcall_ready in Ep as (Hs1 & l1 & El1 & Hl1 & Ht1); [|done|done].
  destruct msg; [done|]. cbn. intros [= <-]. by exists l1.
Qed.

Lemma frames_ready n h h' : settings_kept pause -> ready h -> frames n h = Some h' -> ready h'.
Proof.
  intros Hp. revert h. induction n as [|n IH]; intros h Hh; cbn [frames]; [by intros [= <-]|].
  destruct (rearm_then_call (cstr "update") h) as [h1|] eqn:E1; [|done]. cbn [mbind option_bind].
  destruct (rearm_then_call (cstr "draw") h1) as [h2|] eqn:E2; [|done]. cbn [mbind option_bind].
  apply IH. eapply rearm_then_call_ready, E2; [done|]. by eapply rearm_then_call_ready, E1.
Qed.

(** The host's main loop ends with status 0 and "OK" exactly when the chunk ran through,
    whatever the cart's functions did; the state is then as ready as at the start, no
    error's text left on its stack. *)
Lemma main_loop_ready h h' rc ok :
  settings_kept pause -> main_loop h = Some (h', rc, ok) ->
  (ok = true /\ rc = 0 /\ ready h') \/ (ok = false /\ rc = 1).
Proof.
  intros Hp. unfold main_loop. destruct (build_state h) as [[h1 rc1]|] eqn:Eb; [|done]. cbn [mbind option_bind].
  destruct (Z.eqb_spec rc1 0) as [->|]; [|intros [= <- <- <-]; by right].
  destruct (rearm_then_call _ h1) as [h2|] eqn:E1; [|done]. cbn [mbind option_bind].
  destruct (frames 10 h2) as [h3|] eqn:E2; [|done]. cbn. intros [= <- <- <-]. left.
  do 2 (split; [done|]). eapply frames_ready, E2; [done|]. eapply rearm_then_call_ready, E1; [done|].
  by eapply build_state_ready.
Qed.

(** A reload whose copy or state cannot be made leaves no state for the next call. *)
Lemma reload_without_state h fn :
  exists h', fc_consolelua_synthetic_reload None h = Some h' /\ rearm_then_call fn h' = None.
Proof.
  eexists. split; [done|]. unfold rearm_then_call.
  by destruct (fc_consolelua_master_hook_rearm _ _) as [[c clk]|].
Qed.
End dap_host.

Example options_parsed :
  parse_options [cstr "--source"; cstr "a.lua"; cstr "--wait"; cstr "--port"] default_options =
  Options 5678 true (cstr "@a.lua").
Proof. reflexivity. Qed.
End DapHost.
