(* ===== verification/DetHost.v ===== *)
(** * The determinism hosts (spikes/spike-f/det_host.c and spike-d's
    spikes/spike-d/ports/rv32emu/lua_det_bindings.c, lua_det_cart.c)

    Spike f runs the Lua workloads of spike d in a browser and compares the digests.  Its
    host repeats the generator, the digest, the bindings and even the guest's [strtof] in
    its own words; here both programs are modelled as they are written, and the test
    criterion of the spike is a theorem.  A script is the tree of its calls of the console;
    that Lua computes alike on both sides is a hypothesis of the comparison. *)

From S2P Require Import Prelude Layout Float32 Determinism CString Tracked SaveState TableFlatten Replay LuaCarts FMath HostString.
From S2P Require Whetstone.
Open Scope Z_scope.

(** ** Scripts *)

(** A script ends, with the message of an error nobody caught, or calls a function of the
    console and goes on with its results, or with the error it raised, which it may
    catch. *)
Inductive script :=
  | Finish (err : option (list Z))
  | CallConsole (name : string) (args : list lua_value) (k : option (list lua_value) -> script).

(** The globals of the bindings. *)
Record globals := Globals { g_fs : frame_state_t; g_rng : pcg32_t }.

Definition set_g_fs (v : frame_state_t) (s : globals) : globals := Globals v (g_rng s).
Definition set_g_rng (v : pcg32_t) (s : globals) : globals := Globals (g_fs s) v.

Definition binding : Type := list lua_value -> LuaM globals (list lua_value).

(** [luaL_setfuncs] *)
Fixpoint find_function (name : string) (reg : list (string * binding)) : option binding :=
  match reg with
  | [] => None
  | (n, f) :: reg => if bool_decide (name = n) then Some f else find_function name reg
  end.

(** The globals, what is printed, and the error the script ends with. *)
Fixpoint run_script (reg : list (string * binding)) (p : script) (s : globals) : globals * list Z * option (list Z) :=
  match p with
  | Finish err => (s, [], err)
  | CallConsole name args k =>
      match find_function name reg with
      | None => run_script reg (k None) s
      | Some f =>
          let '(s, out, r) := f args s in
          let '(s, out', err) := run_script reg (k r) s in
          (s, out ++ out', err)
      end
  end.

(** What both programs start from. *)
Definition globals_bss : globals := Globals frame_state_zero (Pcg32 0 0).

(** [g_fs.accum_*] *)
Definition set_accum_sin (v : Z) (s : frame_state_t) : frame_state_t :=
  FrameState (frame s) (rng_state s) (rng_inc s) v (accum_cos s) (accum_sqrt s) (accum_misc s) (mobs s).
Definition set_accum_cos (v : Z) (s : frame_state_t) : frame_state_t :=
  FrameState (frame s) (rng_state s) (rng_inc s) (accum_sin s) v (accum_sqrt s) (accum_misc s) (mobs s).
Definition set_accum_sqrt (v : Z) (s : frame_state_t) : frame_state_t :=
  FrameState (frame s) (rng_state s) (rng_inc s) (accum_sin s) (accum_cos s) v (accum_misc s) (mobs s).
Definition set_mobs (v : list frame_state_mob) (s : frame_state_t) : frame_state_t :=
  FrameState (frame s) (rng_state s) (rng_inc s) (accum_sin s) (accum_cos s) (accum_sqrt s) (accum_misc s) v.

(** [m->x = ...] and its siblings, with [m = &g_fs.mobs[idx]]. *)
Definition set_mob_field (idx : Z) (f : frame_state_mob -> frame_state_mob) (s : globals) : globals :=
  set_g_fs (set_mobs (alter f (Z.to_nat idx) (mobs (g_fs s))) (g_fs s)) s.

(** The bodies the two files share word for word. *)
Section shared.
Context (api : lua_api).

Definition add (get : frame_state_t -> Z) (set : Z -> frame_state_t -> frame_state_t) : binding := fun args =>
  do v <- lcheck (luaL_checknumber api (arg args 1));
  lmodify (fun s => set_g_fs (set (f32_add (get (g_fs s)) v) (g_fs s)) s);;
  lret [].

Definition set_mob : binding := fun args =>
  do idx <- lcheck (luaL_checkinteger api (arg args 1));
  if (idx <? 0) || (Z.of_nat FRAME_STATE_MAX_MOBS <=? idx) then lret []
  else
    do v <- lcheck (luaL_checknumber api (arg args 2));
    lmodify (set_mob_field idx (fun m => Mob v (y m) (vx m) (vy m) (mob_state m)));;
    do v <- lcheck (luaL_checknumber api (arg args 3));
    lmodify (set_mob_field idx (fun m => Mob (x m) v (vx m) (vy m) (mob_state m)));;
    do v <- lcheck (luaL_checknumber api (arg args 4));
    lmodify (set_mob_field idx (fun m => Mob (x m) (y m) v (vy m) (mob_state m)));;
    do v <- lcheck (luaL_checknumber api (arg args 5));
    lmodify (set_mob_field idx (fun m => Mob (x m) (y m) (vx m) v (mob_state m)));;
    do v <- lcheck (luaL_checkinteger api (arg args 6));
    lmodify (set_mob_field idx (fun m => Mob (x m) (y m) (vx m) (vy m) (u32 v)));;
    lret [].
End shared.

(** What Lua contributes: [luaL_loadbufferx] and [luaL_loadfile] with their reader of
    number literals, the chunk's name and its text: the script, or a message. *)
Definition reader : Type := list Z -> Z * list Z.
Definition loader : Type := reader -> list Z -> list Z -> script + list Z.

(** ** lua_det_bindings.c, lua_det_cart.c *)
Module SpikeD.
Section cart.
Context (api : lua_api).

Definition cart_det_init : globals :=
  let s := set_g_rng (pcg32_seed PCG_DEFAULT_STATE PCG_DEFAULT_INC) globals_bss in
  set_g_fs (set_rng (state (g_rng s)) (inc (g_rng s)) (g_fs s)) s.

Definition l_rng : binding := fun _ =>
  do s <- lget;
  let '(r, v) := pcg32_next (g_rng s) in
  lmodify (set_g_rng r);; lret [LInt (i32 v)].

Definition l_unit_float : binding := fun _ =>
  do s <- lget;
  let '(r, f) := pcg32_unit_float (g_rng s) in
  lmodify (set_g_rng r);; lret [LFloat f].

Definition l_add_sin : binding := add api accum_sin set_accum_sin.
Definition l_add_cos : binding := add api accum_cos set_accum_cos.
Definition l_add_sqrt : binding := add api accum_sqrt set_accum_sqrt.
Definition l_add_misc : binding := add api accum_misc set_accum_misc.
Definition l_set_mob : binding := set_mob api.

Definition l_commit_frame : binding := fun _ =>
  lmodify (fun s => set_g_fs (set_rng (state (g_rng s)) (inc (g_rng s)) (g_fs s)) s);;
  do s <- lget;
  let '(fs, line) := frame_state_emit_digest (g_fs s) in
  lmodify (set_g_fs fs);; lprint line;;
  lmodify (fun s => set_g_fs (set_frame (u32 (frame (g_fs s) + 1)) (g_fs s)) s);;
  lret [].

Definition console_funcs : list (string * binding) :=
  [("rng", l_rng); ("unit_float", l_unit_float); ("add_sin", l_add_sin); ("add_cos", l_add_cos);
   ("add_sqrt", l_add_sqrt); ("add_misc", l_add_misc); ("set_mob", l_set_mob);
   ("commit_frame", l_commit_frame)]%string.

(** What [main] prints, and its result. *)
Definition main (newstate_ok : bool) (luaL_loadbufferx : loader) (name text : list Z) : list Z * Z :=
  let panic msg := printf_s (cstr "PANIC " ++ name ++ msg ++ [10]) in
  let s := cart_det_init in
  if negb newstate_ok then (panic (cstr ": luaL_newstate failed"), 1)
  else
    let header := printf_s (cstr "=== " ++ name ++ cstr " ===" ++ [10]) in
    match luaL_loadbufferx strtof name text with
    | inr msg => (header ++ panic (cstr " load: " ++ msg), 1)
    | inl p =>
        let '(s, out, err) := run_script console_funcs p s in
        match err with
        | Some msg => (header ++ out ++ panic (cstr " pcall: " ++ msg), 1)
        | None => (header ++ out, 0)
        end
    end.
End cart.
End SpikeD.

(** ** det_host.c *)
Module Host.

(** [while ( *s >= '0' && *s <= '9') body], which ends behind the digits. *)
Fixpoint while_digits {A} (body : Z -> A -> A) (s : list Z) (a : A) : A * list Z :=
  match s with
  | c :: s' => if (48 <=? c) && (c <=? 57) then while_digits body s' (body (c - 48) a) else (a, s)
  | [] => (a, [])
  end.

Definition __wrap_strtof (s : list Z) : Z * list Z :=
  let s := skip_blanks s in
  let '(neg, s) := sign s in
  let '(v, s) := while_digits (fun d v => f32_add (f32_mul v f32_ten) (f32_of_Z d)) s f32_zero in
  let '(v, s) :=
    if char_at s 0 =? 46 then
      let '((v, _), s) :=
        while_digits (fun d '(v, scale) => (f32_add v (f32_mul (f32_of_Z d) scale), f32_mul scale f32_tenth))
          (tail s) (v, f32_tenth) in
      (v, s)
    else (v, s) in
  let '(v, s) :=
    if (char_at s 0 =? 101) || (char_at s 0 =? 69) then
      let '(eneg, s) := sign (tail s) in
      let '(e, s) := while_digits (fun d e => i32 (e * 10 + d)) s 0 in
      let f := Nat.iter (Z.to_nat e) (fun f => f32_mul f f32_ten) f32_one in
      ((if eneg then f32_div v f else f32_mul v f), s)
    else (v, s) in
  ((if neg then Whetstone.f32_neg v else v), s).

Definition pcg32_seed (st ic : Z) : pcg32_t :=
  let r := Pcg32 0 (Z.lor (u64 (ic ≪ 1)) 1) in
  let r := Pcg32 (u64 (state r * 6364136223846793005 + inc r)) (inc r) in
  let r := Pcg32 (u64 (state r + st)) (inc r) in
  Pcg32 (u64 (state r * 6364136223846793005 + inc r)) (inc r).

Definition pcg32_next (r : pcg32_t) : pcg32_t * Z :=
  let old := state r in
  let r := Pcg32 (u64 (old * 6364136223846793005 + inc r)) (inc r) in
  let xs := u32 (Z.lxor (old ≫ 18) old ≫ 27) in
  let rot := u32 (old ≫ 59) in
  (r, Z.lor (xs ≫ rot) (u32 (xs ≪ Z.land (u32 (- rot)) 31))).

Definition pcg32_unit_float (r : pcg32_t) : pcg32_t * Z :=
  let '(r, u) := pcg32_next r in
  (r, f32_mul (f32_of_Z (u ≫ 8)) f32_2pow_m24).

Definition canonicalize_nanf (u : Z) : Z :=
  let exp_bits := Z.land (u ≫ 23) 0xff in
  let frac := Z.land u 0x7fffff in
  if (exp_bits =? 0xff) && negb (frac =? 0) then 0x7fc00000 else u.

Definition FNV1A_OFFSET : Z := 0xcbf29ce484222325.
Definition FNV1A_PRIME : Z := 0x00000100000001b3.

(** [for (int i = 0; i < FRAME_STATE_MAX_MOBS; i++)] *)
Fixpoint canonicalize_mobs (n i : nat) (ms : list frame_state_mob) : list frame_state_mob :=
  match n with
  | O => ms
  | S n =>
      canonicalize_mobs n (S i)
        (alter (fun m => Mob (canonicalize_nanf (x m)) (canonicalize_nanf (y m)) (canonicalize_nanf (vx m))
                           (canonicalize_nanf (vy m)) (mob_state m)) i ms)
  end.

(** [for (size_t i = 0; i < sizeof( *s); i++)] *)
Fixpoint hash_bytes (n i : nat) (p : list Z) (h : Z) : Z :=
  match n with
  | O => h
  | S n => hash_bytes n (S i) p (u64 (Z.lxor h (nth i p 0) * FNV1A_PRIME))
  end.

Definition emit_digest (s : frame_state_t) : frame_state_t * list Z :=
  let s := FrameState (frame s) (rng_state s) (rng_inc s) (canonicalize_nanf (accum_sin s))
             (canonicalize_nanf (accum_cos s)) (canonicalize_nanf (accum_sqrt s)) (canonicalize_nanf (accum_misc s))
             (canonicalize_mobs FRAME_STATE_MAX_MOBS 0 (mobs s)) in
  let h := hash_bytes (lsize frame_state_layout) 0 (lenc frame_state_layout s) FNV1A_OFFSET in
  let hi := u32 (h ≫ 32) in
  let lo := u32 (Z.land h 0xffffffff) in
  (s, cstr "DIGEST " ++ dec (frame s) ++ cstr " " ++ hex8 hi ++ hex8 lo ++ [10]).

Section host.
Context (api : lua_api).

Definition cart_det_init : globals :=
  let s := set_g_rng (pcg32_seed PCG_DEFAULT_STATE PCG_DEFAULT_INC) globals_bss in
  set_g_fs (set_rng (state (g_rng s)) (inc (g_rng s)) (g_fs s)) s.

Definition l_rng : binding := fun _ =>
  do s <- lget;
  let '(r, v) := pcg32_next (g_rng s) in
  lmodify (set_g_rng r);; lret [LInt (i32 v)].

Definition l_unit_float : binding := fun _ =>
  do s <- lget;
  let '(r, f) := pcg32_unit_float (g_rng s) in
  lmodify (set_g_rng r);; lret [LFloat f].

Definition l_add_sin : binding := add api accum_sin set_accum_sin.
Definition l_add_cos : binding := add api accum_cos set_accum_cos.
Definition l_add_sqrt : binding := add api accum_sqrt set_accum_sqrt.
Definition l_add_misc : binding := add api accum_misc set_accum_misc.
Definition l_set_mob : binding := set_mob api.

Definition l_commit_frame : binding := fun _ =>
  lmodify (fun s => set_g_fs (set_rng (state (g_rng s)) (inc (g_rng s)) (g_fs s)) s);;
  do s <- lget;
  let '(fs, line) := emit_digest (g_fs s) in
  lmodify (set_g_fs fs);; lprint line;;
  lmodify (fun s => set_g_fs (set_frame (u32 (frame (g_fs s) + 1)) (g_fs s)) s);;
  lret [].

Definition console_funcs : list (string * binding) :=
  [("rng", l_rng); ("unit_float", l_unit_float); ("add_sin", l_add_sin); ("add_cos", l_add_cos);
   ("add_sqrt", l_add_sqrt); ("add_misc", l_add_misc); ("set_mob", l_set_mob);
   ("commit_frame", l_commit_frame)]%string.

(** What [main] prints on its standard output, and its result; the messages of failures
    go to the standard error stream.  A file that cannot be opened is a load error. *)
Definition main (newstate_ok : bool) (luaL_loadfile : loader) (files : list Z -> option (list Z))
    (argv : list (list Z)) : list Z * Z :=
  match argv with
  | _ :: (_ :: _) as name :: _ =>
      let s := cart_det_init in
      if negb newstate_ok then ([], 1)
      else
        let path := clip 256 (cstr "/" ++ name ++ cstr ".lua") in
        let header := cstr "=== " ++ name ++ cstr " ===" ++ [10] in
        match (match files path with Some text => luaL_loadfile __wrap_strtof path text | None => inr [] end) with
        | inr _ => (header, 1)
        | inl p =>
            let '(s, out, err) := run_script console_funcs p s in
            (header ++ out, match err with Some _ => 1 | None => 0 end)
        end
  | _ => ([], 2)
  end.
End host.
End Host.

(** ** The repeated parts agree *)

Lemma while_digits_int s v :
  Host.while_digits (fun d v => f32_add (f32_mul v f32_ten) (f32_of_Z d)) s v = int_part s v.
Proof.
  revert v. induction s as [|c s IH]; intros v; [done|]. cbn [Host.while_digits int_part]. unfold is_digit.
  destruct (_ && _); [apply IH|done].
Qed.

Lemma while_digits_frac s v scale :
  (let '((v, _), rest) := Host.while_digits (fun d '(v, scale) =>
     (f32_add v (f32_mul (f32_of_Z d) scale), f32_mul scale f32_tenth)) s (v, scale) in (v, rest)) = frac_part s v scale.
Proof.
  revert v scale. induction s as [|c s IH]; intros v scale; [done|]. cbn [Host.while_digits frac_part]. unfold is_digit.
  destruct (_ && _); [apply IH|done].
Qed.

Lemma while_digits_exp s e : Host.while_digits (fun d e => i32 (e * 10 + d)) s e = exp_digits s e.
Proof.
  revert e. induction s as [|c s IH]; intros e; [done|]. cbn [Host.while_digits exp_digits]. unfold is_digit.
  destruct (_ && _); [apply IH|done].
Qed.

(** The host reads every number, well formed or not, to the same bits and stops at the
    same place. *)
Lemma wrap_strtof_same s : Host.__wrap_strtof s = strtof s.
Proof.
  unfold Host.__wrap_strtof, strtof. destruct (sign (skip_blanks s)) as [neg t].
  rewrite while_digits_int. destruct (int_part t f32_zero) as [v t1].
  assert ((if char_at t1 0 =? 46 then
             let '((v, _), s) := Host.while_digits (fun d '(v, scale) =>
               (f32_add v (f32_mul (f32_of_Z d) scale), f32_mul scale f32_tenth)) (tail t1) (v, f32_tenth) in (v, s)
           else (v, t1)) = point_part v t1) as ->.
  { destruct t1 as [|c t1]; [done|]. cbn [char_at tail point_part nth]. destruct (c =? 46); [apply while_digits_frac|done]. }
  destruct (point_part v t1) as [v2 t2].
  assert ((if (char_at t2 0 =? 101) || (char_at t2 0 =? 69) then
             let '(eneg, s) := sign (tail t2) in
             let '(e, s) := Host.while_digits (fun d e => i32 (e * 10 + d)) s 0 in
             ((if eneg then f32_div v2 (power_of_ten e) else f32_mul v2 (power_of_ten e)), s)
           else (v2, t2)) = exp_part v2 t2) as <-.
  { destruct t2 as [|c t2]; [done|]. cbn [char_at tail exp_part nth]. destruct (_ || _); [|done].
    destruct (sign t2) as [eneg u]. by rewrite while_digits_exp. }
  done.
Qed.

Lemma pcg32_seed_same st ic : Host.pcg32_seed st ic = pcg32_seed st ic.
Proof. reflexivity. Qed.

Lemma pcg32_next_same r : Host.pcg32_next r = pcg32_next r.
Proof. reflexivity. Qed.

Lemma pcg32_unit_float_same r : Host.pcg32_unit_float r = pcg32_unit_float r.
Proof. reflexivity. Qed.

Lemma canonicalize_mobs_lookup n i ms j :
  Host.canonicalize_mobs n i ms !! j =
    if bool_decide (i <= j < i + n)%nat then canonicalize_mob <$> ms !! j else ms !! j.
Proof.
  revert i ms. induction n as [|n IH]; intros i ms; cbn [Host.canonicalize_mobs].
  - by rewrite bool_decide_eq_false_2 by lia.
  - rewrite IH. destruct (decide (j = i)) as [->|Hne].
    + rewrite list_lookup_alter_eq, bool_decide_eq_false_2 by lia. by rewrite bool_decide_eq_true_2 by lia.
    + rewrite list_lookup_alter_ne by done. destruct (decide (i <= j < i + S n)%nat).
      * by rewrite !bool_decide_eq_true_2 by lia.
      * by rewrite !bool_decide_eq_false_2 by lia.
Qed.

(** The loop over the array is the map of the reference. *)
Lemma canonicalize_mobs_same ms :
  length ms = FRAME_STATE_MAX_MOBS -> Host.canonicalize_mobs FRAME_STATE_MAX_MOBS 0 ms = map canonicalize_mob ms.
Proof.
  intros Hl. apply list_eq. intros j. rewrite canonicalize_mobs_lookup, list_lookup_fmap.
  destruct (decide (j < FRAME_STATE_MAX_MOBS)%nat) as [Hj|Hj].
  - by rewrite bool_decide_eq_true_2 by lia.
  - rewrite bool_decide_eq_false_2 by lia. by rewrite lookup_ge_None_2 by (rewrite Hl; lia).
Qed.

Lemma hash_bytes_same n i p h :
  (i + n <= length p)%nat -> Host.hash_bytes n i p h = fold_left fnv1a_step (take n (drop i p)) h.
Proof.
  revert i h. induction n as [|n IH]; intros i h Hn; [done|]. cbn [Host.hash_bytes].
  destruct (lookup_lt_is_Some_2 p i) as [b Hb]; [lia|].
  rewrite (drop_S p b i Hb). cbn [take fold_left]. rewrite IH by lia. f_equal.
  unfold fnv1a_step. do 2 f_equal. by rewrite (nth_lookup p i 0), Hb.
Qed.

Lemma frame_state_bytes s :
  length (mobs s) = FRAME_STATE_MAX_MOBS -> length (lenc frame_state_layout s) = lsize frame_state_layout.
Proof.
  intros Hl. assert (length (concat (map (lenc mob_layout) (mobs s))) = 20 * FRAME_STATE_MAX_MOBS)%nat as H.
  { rewrite <- Hl. clear Hl. induction (mobs s) as [|m ms IH]; [done|]. cbn [map concat length]. rewrite length_app, IH.
    assert (length (lenc mob_layout m) = 20)%nat as -> by (cbn -[le_bytes]; by rewrite !length_app, !length_le_bytes). lia. }
  cbn -[le_bytes concat mob_layout FRAME_STATE_MAX_MOBS Nat.mul]. rewrite !length_app, !length_le_bytes, H. done.
Qed.

Lemma emit_digest_same s :
  length (mobs s) = FRAME_STATE_MAX_MOBS -> Host.emit_digest s = frame_state_emit_digest s.
Proof.
  intros Hl. unfold Host.emit_digest, frame_state_emit_digest.
  rewrite (canonicalize_mobs_same _ Hl).
  change (FrameState _ _ _ _ _ _ _ (map canonicalize_mob (mobs s))) with (frame_state_canonicalize s).
  assert (length (lenc frame_state_layout (frame_state_canonicalize s)) = lsize frame_state_layout) as Hs
    by (apply frame_state_bytes; cbn; by rewrite length_map).
  rewrite hash_bytes_same by (rewrite Hs; lia). by rewrite drop_0, firstn_all2 by (rewrite Hs; lia).
Qed.

(** ** The two consoles agree *)

(** Equal but for the bits of NaNs, in which the two machines differ: the digest is taken
    of canonical NaNs.  The array has its length, the state is a C struct. *)
Record like (s t : globals) : Prop := Like {
  like_rng : g_rng s = g_rng t;
  like_fs : frame_state_canonicalize (g_fs s) = frame_state_canonicalize (g_fs t);
  like_size : length (mobs (g_fs s)) = FRAME_STATE_MAX_MOBS;
  like_size' : length (mobs (g_fs t)) = FRAME_STATE_MAX_MOBS;
}.

Definition float_like (u v : Z) : Prop := canonicalize_nanf u = canonicalize_nanf v.

(** Arguments alike: the same but for the bits of NaNs. *)
Definition value_like (a b : lua_value) : Prop :=
  match a, b with LFloat u, LFloat v => float_like u v | _, _ => a = b end.

(** The argument checks do not look at the bits of a NaN. *)
Class BlindToNaNs (api : lua_api) : Prop := {
  checkinteger_like a b : value_like a b -> luaL_checkinteger api a = luaL_checkinteger api b;
  checknumber_like a b : value_like a b ->
    option_Forall2 float_like (luaL_checknumber api a) (luaL_checknumber api b);
}.

(** Two bindings agree: alike on like arguments, with the very same results. *)
Definition agree (f g : binding) : Prop :=
  forall args args', Forall2 value_like args args' -> relates like eq (f args) (g args').

Lemma arg_like args args' n : Forall2 value_like args args' -> value_like (arg args n) (arg args' n).
Proof.
  intros H. unfold arg. revert args args' H. generalize (n - 1)%nat as i.
  induction i as [|i IH]; intros args args' [|a b l l' Hab Hl]; cbn [nth]; try done. by apply IH.
Qed.

Lemma f32_add_like u u' v v' : float_like u u' -> float_like v v' -> f32_add u v = f32_add u' v'.
Proof. intros Hu Hv. unfold f32_add. by rewrite <-(f32_of_bits_canon u), <-(f32_of_bits_canon v), Hu, Hv, !f32_of_bits_canon. Qed.

Section agree.
Context (api : lua_api) `{!BlindToNaNs api}.

Lemma check_number args args' n : Forall2 value_like args args' ->
  relates like float_like (lcheck (luaL_checknumber api (arg args n))) (lcheck (luaL_checknumber api (arg args' n))).
Proof. intros H. by apply relates_check, checknumber_like, arg_like. Qed.

Lemma check_integer args args' n : Forall2 value_like args args' ->
  relates like eq (lcheck (luaL_checkinteger api (arg args n))) (lcheck (luaL_checkinteger api (arg args' n))).
Proof.
  intros H. apply relates_check. rewrite (checkinteger_like _ _ (arg_like _ _ n H)). by destruct (luaL_checkinteger _ _); constructor.
Qed.

(** What an accumulator's accessors do, as far as [add] is concerned. *)
Definition accessor (get : frame_state_t -> Z) (set : Z -> frame_state_t -> frame_state_t) : Prop :=
  (forall v s, mobs (set v s) = mobs s) /\
  (forall s t, frame_state_canonicalize s = frame_state_canonicalize t -> float_like (get s) (get t)) /\
  (forall v s t, frame_state_canonicalize s = frame_state_canonicalize t ->
     frame_state_canonicalize (set v s) = frame_state_canonicalize (set v t)).

Ltac accessor :=
  split_and!; [done| |]; intros; unfold frame_state_canonicalize, float_like in *; cbn in *; congruence.

Lemma sin_accessor : accessor accum_sin set_accum_sin. Proof. accessor. Qed.
Lemma cos_accessor : accessor accum_cos set_accum_cos. Proof. accessor. Qed.
Lemma sqrt_accessor : accessor accum_sqrt set_accum_sqrt. Proof. accessor. Qed.
Lemma misc_accessor : accessor accum_misc set_accum_misc. Proof. accessor. Qed.

Lemma add_agree get set : accessor get set -> agree (add api get set) (add api get set).
Proof.
  intros (Hm & Hg & Hs) args args' Ha. eapply relates_bind; [by apply check_number|]. intros u v Huv.
  eapply relates_bind; [|intros _ _ _; by apply relates_ret]. apply relates_modify. intros s t [Hr Hf Hl Hl'].
  constructor; cbn; [done| |by rewrite Hm..].
  rewrite (f32_add_like (get (g_fs s)) (get (g_fs t)) u v) by auto. by apply Hs.
Qed.

Lemma set_field_like idx f g :
  (forall m n, canonicalize_mob m = canonicalize_mob n -> canonicalize_mob (f m) = canonicalize_mob (g n)) ->
  relates like eq (lmodify (set_mob_field idx f)) (lmodify (set_mob_field idx g)).
Proof.
  intros H. apply relates_modify. intros s t [Hr Hf Hl Hl']. constructor; cbn; [done| |by rewrite length_alter..].
  unfold frame_state_canonicalize in *. cbn. injection Hf as E1 E2 E3 E4 E5 E6 E7 Em.
  rewrite E1, E2, E3, E4, E5, E6, E7. f_equal. apply list_eq. intros i. pose proof (f_equal (fun l => l !! i) Em) as Ei. cbn beta in Ei.
  rewrite !list_lookup_fmap in Ei |- *. destruct (decide (i = Z.to_nat idx)) as [->|Hne].
  - rewrite !list_lookup_alter_eq. destruct (mobs (g_fs s) !! _), (mobs (g_fs t) !! _); try done. cbn in *. f_equal. apply H. congruence.
  - by rewrite !list_lookup_alter_ne by done.
Qed.

Ltac set_field := apply set_field_like; intros m n; unfold canonicalize_mob, float_like in *; cbn; congruence.

Lemma set_mob_agree : agree (set_mob api) (set_mob api).
Proof.
  intros args args' Ha. eapply relates_bind; [by apply check_integer|]. intros idx _ <-.
  destruct (_ || _); [by apply relates_ret|].
  do 4 (eapply relates_bind; [by apply check_number|intros ? ? ?]; eapply relates_bind; [set_field|intros _ _ _]).
  eapply relates_bind; [by apply check_integer|]. intros v _ <-.
  eapply relates_bind; [set_field|intros _ _ _]. by apply relates_ret.
Qed.

Lemma rng_agree : agree Host.l_rng SpikeD.l_rng.
Proof.
  intros args args' _ s t [Hr Hf Hl Hl']. unfold Host.l_rng, SpikeD.l_rng, lbind, lget. rewrite Hr.
  change (Host.pcg32_next (g_rng t)) with (pcg32_next (g_rng t)). destruct (pcg32_next (g_rng t)) as [r v].
  cbn. split; [by constructor|]. split; [done|by constructor].
Qed.

Lemma unit_float_agree : agree Host.l_unit_float SpikeD.l_unit_float.
Proof.
  intros args args' _ s t [Hr Hf Hl Hl']. unfold Host.l_unit_float, SpikeD.l_unit_float, lbind, lget. rewrite Hr.
  change (Host.pcg32_unit_float (g_rng t)) with (pcg32_unit_float (g_rng t)). destruct (pcg32_unit_float (g_rng t)) as [r v].
  cbn. split; [by constructor|]. split; [done|by constructor].
Qed.

(** The digest sees the canonical state, which is the same. *)
Lemma emit_like s t : frame_state_canonicalize s = frame_state_canonicalize t ->
  frame_state_emit_digest s = frame_state_emit_digest t.
Proof. intros E. unfold frame_state_emit_digest. by rewrite E. Qed.

Lemma set_rng_like st ic s t : frame_state_canonicalize s = frame_state_canonicalize t ->
  frame_state_canonicalize (set_rng st ic s) = frame_state_canonicalize (set_rng st ic t).
Proof. unfold frame_state_canonicalize. cbn. congruence. Qed.

Lemma commit_agree : agree Host.l_commit_frame SpikeD.l_commit_frame.
Proof.
  intros args args' _. eapply relates_bind with (R := eq).
  { apply relates_modify. intros s t [Hr Hf Hl Hl']. constructor; cbn; [done| |done|done]. rewrite Hr. by apply set_rng_like. }
  intros _ _ _. eapply relates_bind; [apply relates_get|]. intros s t [Hr Hf Hl Hl'].
  rewrite (emit_digest_same _ Hl), (emit_like _ _ Hf).
  assert (length (mobs (frame_state_emit_digest (g_fs t)).1) = FRAME_STATE_MAX_MOBS) as Hd
    by (cbn; by rewrite length_map).
  destruct (frame_state_emit_digest (g_fs t)) as [fs line]. cbn in Hd.
  eapply relates_bind; [apply relates_modify; intros ? ? []; by constructor|]. intros _ _ _.
  eapply relates_bind; [by apply relates_print|]. intros _ _ _.
  eapply relates_bind; [|intros _ _ _; by apply relates_ret]. apply relates_modify. intros s' t' [Hr' Hf' Hs Hs'].
  constructor; cbn; [done| |done|done]. revert Hf'. unfold frame_state_canonicalize. cbn. congruence.
Qed.

Lemma functions_agree name :
  match find_function name (Host.console_funcs api), find_function name (SpikeD.console_funcs api) with
  | Some f, Some g => agree f g
  | None, None => True
  | _, _ => False
  end.
Proof.
  unfold Host.console_funcs, SpikeD.console_funcs, find_function.
  destruct (bool_decide _); [apply rng_agree|]. destruct (bool_decide _); [apply unit_float_agree|].
  destruct (bool_decide _); [apply add_agree, sin_accessor|]. destruct (bool_decide _); [apply add_agree, cos_accessor|].
  destruct (bool_decide _); [apply add_agree, sqrt_accessor|]. destruct (bool_decide _); [apply add_agree, misc_accessor|].
  destruct (bool_decide _); [apply set_mob_agree|]. destruct (bool_decide _); [apply commit_agree|done].
Qed.

(** Two scripts that compute alike: they make the same calls of the console with like
    arguments and go on alike from the same results; both end well or both with an error,
    whose texts may differ. *)
Inductive alike : script -> script -> Prop :=
  | Finish_alike err err' : (err = None <-> err' = None) -> alike (Finish err) (Finish err')
  | Call_alike name args args' k k' :
      Forall2 value_like args args' -> (forall r, alike (k r) (k' r)) ->
      alike (CallConsole name args k) (CallConsole name args' k').

Lemma run_script_alike p q : alike p q -> forall s t, like s t ->
  let '(_, out, err) := run_script (Host.console_funcs api) p s in
  let '(_, out', err') := run_script (SpikeD.console_funcs api) q t in
  out = out' /\ (err = None <-> err' = None).
Proof.
  induction 1 as [err err' H|name args args' k k' Ha _ IH]; intros s t Hst; [done|]. cbn [run_script].
  pose proof (functions_agree name) as Hf.
  destruct (find_function name (Host.console_funcs api)) as [f|], (find_function name (SpikeD.console_funcs api)) as [g|];
    try done; [|by apply IH].
  destruct (Hf args args' Ha s t Hst) as (Hl & Ho & Hr). destruct (f args s) as [[s1 o1] r], (g args' t) as [[t1 o2] r'].
  cbn [fst snd] in *. subst o2. assert (r' = r) as -> by (destruct Hr; congruence).
  specialize (IH r s1 t1 Hl). destruct (run_script _ (k r) s1) as [[? o3] e], (run_script _ (k' r) t1) as [[? o4] e'].
  destruct IH as [-> ?]. done.
Qed.
End agree.

(** Both loaders give scripts that compute alike, or both a message. *)
Definition alike_chunk (a b : script + list Z) : Prop :=
  match a, b with
  | inl p, inl q => alike p q
  | inr _, inr _ => True
  | _, _ => False
  end.

(** C32: The browser host prints the digests of the reference on a workload that Lua
    computes alike on both machines.  Hypothesis: once the two readers of number literals
    agree, loading the same text gives on both sides scripts that make the same calls of
    the console with the same arguments, up to the bits of NaNs, after the same results -
    that Lua's arithmetic and the math library agree on this workload is assumed here,
    the guest brings its own - or a load error on both; error texts and chunk names may
    differ.  Then, from the file that holds the text the cart embeds, a script that runs
    through makes both programs print the same bytes and return 0, and one that fails or
    does not load makes both return 1, the cart's output being the host's and the line
    that reports the failure.  What is proved is the rest: the literal readers, the
    generator, the bindings, NaN canonicalisation and the digest of the two programs
    agree. *)
Theorem det_host_same_digests api `{!BlindToNaNs api} luaL_loadfile luaL_loadbufferx files prog name text
    (Hload : forall f g : reader, (forall s, f s = g s) ->
      alike_chunk (luaL_loadfile f (cstr "/" ++ name ++ cstr ".lua") text) (luaL_loadbufferx g name text))
    (Hfile : files (cstr "/" ++ name ++ cstr ".lua") = Some text)
    (Hne : name <> []) (Hlen : (length name <= 250)%nat) :
  let '(host, rc') := Host.main api true luaL_loadfile files [prog; name] in
  let '(cart, rc) := SpikeD.main api true luaL_loadbufferx name text in
  rc' = rc /\ (rc = 0 /\ host = cart \/ rc = 1 /\ exists failure, cart = host ++ failure).
Proof.
  destruct name as [|c name]; [done|]. cbn [Host.main negb]. set (nm := c :: name) in *.
  rewrite clip_fits by (rewrite !length_app; cbn [length cstr] in *; lia). rewrite Hfile.
  unfold SpikeD.main. cbn [negb].
  assert (forall s, (length s <= 1023)%nat -> printf_s s = s) as Hp by (intros; by apply firstn_all2).
  rewrite (Hp (cstr "=== " ++ nm ++ cstr " ===" ++ [10])) by (rewrite !length_app; cbn [length cstr] in *; lia).
  specialize (Hload Host.__wrap_strtof strtof wrap_strtof_same).
  destruct (luaL_loadfile _ _ _) as [p|m], (luaL_loadbufferx _ _ _) as [q|m']; try done.
  2: { split; [done|]. right. split; [done|]. by eexists. }
  pose proof (run_script_alike api p q Hload Host.cart_det_init SpikeD.cart_det_init ltac:(by constructor)) as H.
  destruct (run_script _ p _) as [[s out] [msg|]], (run_script _ q _) as [[t out'] [msg'|]];
    destruct H as [-> [He He']]; cbv iota beta.
  - split; [done|]. right. split; [done|]. eexists. by rewrite <-!app_assoc.
  - discriminate (He' eq_refl).
  - discriminate (He eq_refl).
  - split; [done|]. by left.
Qed.

(** ** The literals of the workloads *)

(** The comment at the top of det_host.c, and the other literals of the workloads: what
    the guest reads is off by up to two units in the last place. *)
Lemma literals_read :
  map (fun s => fst (strtof (cstr s))) ["6.2831853"; "3.1415927"; "0.03"; "128.0"]%string =
  [LuaSimple.f32_two_pi; LuaSimple.f32_pi; LuaSimple.f32_0_03; LuaSimple.f32_128] /\
  (LuaSimple.f32_two_pi, LuaSimple.f32_pi, LuaSimple.f32_0_03) = (0x40c90fdb - 1, 0x40490fdb - 2, 0x3cf5c28f + 1).
Proof. split; vm_compute; reflexivity. Qed.

#[export] Instance strict_api_blind : BlindToNaNs LuaSimple.strict_api.
Proof. split; intros [] []; cbn; intros H; try discriminate H; try constructor; congruence. Qed.

(** A chunk that draws a number, adds the literal it holds and what its machine makes of
    0/0, and ends with an error that names the chunk when told to. *)
Definition demo_load (nan : Z) (fails : bool) : loader := fun read name text =>
  inl (CallConsole "rng" [] (fun _ => CallConsole "add_sin" [LFloat (fst (read text))]
    (fun _ => CallConsole "add_cos" [LFloat nan]
      (fun r => match r with
                | Some _ => CallConsole "commit_frame" [] (fun _ => Finish (if fails then Some (name ++ cstr ":1: stop") else None))
                | None => Finish (Some name)
                end)))).

Lemma demo_alike nan nan' fails f g n n' text : float_like nan nan' -> (forall s, f s = g s) ->
  alike_chunk (demo_load nan fails f n text) (demo_load nan' fails g n' text).
Proof.
  intros Hn Hf. unfold demo_load, alike_chunk. rewrite Hf.
  apply Call_alike; [constructor|]. intros _. apply Call_alike; [by repeat constructor|]. intros _.
  apply Call_alike; [by repeat constructor|]. intros [r|]; [|by apply Finish_alike].
  apply Call_alike; [constructor|]. intros _. apply Finish_alike. by destruct fails.
Qed.

(** The two machines' NaNs differ in their sign; the second chunk fails. *)
Lemma det_host_same_digests_witness :
  (exists out, SpikeD.main LuaSimple.strict_api true (demo_load CANONICAL_QNAN_BITS false) (cstr "w") (cstr "6.2831853") = (out, 0) /\
    Host.main LuaSimple.strict_api true (demo_load 0xffc00000 false) (fun _ => Some (cstr "6.2831853")) [cstr "host"; cstr "w"] = (out, 0)) /\
  exists out failure,
    SpikeD.main LuaSimple.strict_api true (demo_load CANONICAL_QNAN_BITS true) (cstr "w") (cstr "6.2831853") = (out ++ failure, 1) /\
    Host.main LuaSimple.strict_api true (demo_load 0xffc00000 true) (fun _ => Some (cstr "6.2831853")) [cstr "host"; cstr "w"] = (out, 1).
Proof.
  assert (forall fails, let '(host, rc') := Host.main LuaSimple.strict_api true (demo_load 0xffc00000 fails)
              (fun _ => Some (cstr "6.2831853")) [cstr "host"; cstr "w"] in
            let '(cart, rc) := SpikeD.main LuaSimple.strict_api true (demo_load CANONICAL_QNAN_BITS fails) (cstr "w") (cstr "6.2831853") in
            rc' = rc /\ (rc = 0 /\ host = cart \/ rc = 1 /\ exists failure, cart = host ++ failure)) as H.
  { intros fails. exact (det_host_same_digests LuaSimple.strict_api (demo_load 0xffc00000 fails)
      (demo_load CANONICAL_QNAN_BITS fails) (fun _ => Some (cstr "6.2831853")) (cstr "host") (cstr "w") (cstr "6.2831853")
      (fun f g Hfg => demo_alike 0xffc00000 CANONICAL_QNAN_BITS fails f g _ (cstr "w") _ ltac:(by vm_compute) Hfg) eq_refl ltac:(done) ltac:(cbn; lia)). }
  assert (snd (SpikeD.main LuaSimple.strict_api true (demo_load CANONICAL_QNAN_BITS false) (cstr "w") (cstr "6.2831853")) = 0 /\
    snd (SpikeD.main LuaSimple.strict_api true (demo_load CANONICAL_QNAN_BITS true) (cstr "w") (cstr "6.2831853")) = 1) as [H0 H1]
    by (split; vm_compute; reflexivity).
  split; [specialize (H false); clear H1|specialize (H true); clear H0];
    destruct (Host.main _ _ _ _ _) as [host rc'], (SpikeD.main _ _ _ _ _) as [cart rc]; cbn [snd] in *; subst rc;
    destruct H as [-> [[E ->]|[E H]]]; try discriminate E.
  - by exists cart.
  - destruct H as [failure ->]. by exists host, failure.
Defined.
