(* ===== verification/DoomTick.v ===== *)
(** * The native twin of doom_tick (spikes/spike-b/ports/rv32emu/doom_tick_c.c)

    Mobs with a small state machine each, and a pool of projectiles in a fixed array whose
    live part is compacted while it is walked: a projectile that ends is replaced by the
    last live one.  The timing of the frames and its printing are left out. *)

From S2P Require Import Prelude Float32 FloatExact FMath.
From S2P Require Whetstone.
Open Scope Z_scope.

Definition N_MOBS : nat := 64.
Definition NFRAMES : nat := 100.
Definition MAX_PROJECTILES : nat := 256.

Inductive mob_state_t := STATE_IDLE | STATE_CHASE | STATE_ATTACK | STATE_DEAD.

#[export] Instance mob_state_dec : EqDecision mob_state_t.
Proof. solve_decision. Defined.

Definition PLAYER_X : Z := 0x42800000.       (* 64.0f *)
Definition PLAYER_Y : Z := 0x42800000.
Definition SIGHT_RANGE : Z := 0x42200000.    (* 40.0f *)
Definition ATTACK_RANGE : Z := 0x41400000.   (* 12.0f *)
Definition ATTACK_PERIOD : Z := 8.
Definition CHASE_SPEED : Z := 0x3fc00000.    (* 1.5f *)
Definition PROJ_SPEED : Z := 0x40800000.     (* 4.0f *)
Definition PROJ_TTL : Z := 30.
Definition f32_0_001 : Z := 0x3a83126f.
Definition f32_0_02 : Z := 0x3ca3d70a.
Definition f32_64 : Z := 0x42800000.
Definition f32_128 : Z := 0x43000000.
(** [2147483647.0f], which is 2^31. *)
Definition f32_rand_max : Z := 0x4f000000.

Record mob_t := Mob {
  x : Z; y : Z; vx : Z; vy : Z;
  hp : Z; state : mob_state_t; tics : Z; alive : bool;
}.

Record proj_t := Proj { px : Z; py : Z; pvx : Z; pvy : Z; ttl : Z }.

(** The globals. *)
Record world := World { mobs : list mob_t; projs : list proj_t; n_projs : nat; seed : Z }.

Definition set_mobs (v : list mob_t) (w : world) : world := World v (projs w) (n_projs w) (seed w).
Definition set_projs (v : list proj_t) (n : nat) (w : world) : world := World (mobs w) v n (seed w).

Local Infix "+f" := f32_add (at level 50, left associativity).
Local Infix "-f" := f32_sub (at level 50, left associativity).
Local Infix "*f" := f32_mul (at level 40, left associativity).
Local Infix "/f" := f32_div (at level 40, left associativity).

Definition next_seed (s : Z) : Z := Z.land (u32 (u32 (s * 1103515245) + 12345)) 0x7fffffff.

Definition lrand (w : world) : world * Z :=
  let s := next_seed (seed w) in
  (World (mobs w) (projs w) (n_projs w) s, f32_of_Z s /f f32_rand_max).

(** [sqrtf(dx * dx + dy * dy)] *)
Definition distance (dx dy : Z) : Z := Whetstone.sqrtf (dx *f dx +f dy *f dy).

Definition spawn_projectile (from : mob_t) (w : world) : world :=
  if (MAX_PROJECTILES <=? n_projs w)%nat then w
  else
    let dx := PLAYER_X -f x from in
    let dy := PLAYER_Y -f y from in
    let d := distance dx dy in
    let d := if f32_lt d f32_0_001 then f32_one else d in
    let p := Proj (x from) (y from) (dx /f d *f PROJ_SPEED) (dy /f d *f PROJ_SPEED) PROJ_TTL in
    set_projs (<[n_projs w := p]> (projs w)) (S (n_projs w)) w.

Definition set_state (s : mob_state_t) (m : mob_t) : mob_t := Mob (x m) (y m) (vx m) (vy m) (hp m) s (tics m) (alive m).
Definition set_tics (t : Z) (m : mob_t) : mob_t := Mob (x m) (y m) (vx m) (vy m) (hp m) (state m) t (alive m).
Definition set_alive (a : bool) (m : mob_t) : mob_t := Mob (x m) (y m) (vx m) (vy m) (hp m) (state m) (tics m) a.

(** The mob afterwards, and the world, in which it may have spawned a projectile. *)
Definition tick_mob (m : mob_t) (w : world) : mob_t * world :=
  if negb (alive m) then (m, w)
  else
    let m := set_tics (i32 (tics m + 1)) m in
    let dx := PLAYER_X -f x m in
    let dy := PLAYER_Y -f y m in
    let dist := distance dx dy in
    match state m with
    | STATE_IDLE => (if f32_lt dist SIGHT_RANGE then set_tics 0 (set_state STATE_CHASE m) else m, w)
    | STATE_CHASE =>
        if f32_lt dist ATTACK_RANGE then (set_tics 0 (set_state STATE_ATTACK m), w)
        else
          let '(vx, vy) :=
            if f32_lt f32_0_001 dist then (dx /f dist *f CHASE_SPEED, dy /f dist *f CHASE_SPEED) else (vx m, vy m) in
          (Mob (x m +f vx) (y m +f vy) vx vy (hp m) (state m) (tics m) (alive m), w)
    | STATE_ATTACK =>
        if f32_lt ATTACK_RANGE dist then (set_state STATE_CHASE m, w)
        else if Z.rem (tics m) ATTACK_PERIOD =? 0 then (m, spawn_projectile m w) else (m, w)
    | STATE_DEAD => (set_alive false m, w)
    end.

(** [for (int i = 0; i < N_MOBS; i++) tick_mob(&mobs[i]);] *)
Fixpoint tick_mobs (n i : nat) (w : world) : option world :=
  match n with
  | O => Some w
  | S n =>
      m ← mobs w !! i;
      let '(m, w) := tick_mob m w in
      tick_mobs n (S i) (set_mobs (<[i := m]> (mobs w)) w)
  end.

(** One step of a projectile, and whether it is over. *)
Definition move (p : proj_t) : proj_t := Proj (px p +f pvx p) (py p +f pvy p) (pvx p) (pvy p) (i32 (ttl p - 1)).
Definition over (p : proj_t) : bool :=
  (ttl p <=? 0) || f32_lt (px p) f32_zero || f32_lt f32_128 (px p) || f32_lt (py p) f32_zero || f32_lt f32_128 (py p).

(** The loop of [tick_projectiles]: the array and the count; [None]: an access outside of
    the array, or out of fuel. *)
Fixpoint tick_loop (fuel : nat) (i n : nat) (ps : list proj_t) : option (list proj_t * nat) :=
  match fuel with
  | O => None
  | S fuel =>
      if (i <? n)%nat then
        p ← ps !! i;
        let ps := <[i := move p]> ps in
        if over (move p) then
          last ← ps !! (n - 1)%nat;
          tick_loop fuel i (n - 1) (<[i := last]> ps)
        else tick_loop fuel (S i) n ps
      else Some (ps, n)
  end.

Definition tick_projectiles (w : world) : option world :=
  '(ps, n) ← tick_loop (S (n_projs w)) 0 (n_projs w) (projs w);
  Some (set_projs ps n w).

(** [None]: a conversion to [int] that does not fit, or an access outside of the array. *)
Definition maybe_kill_one (w : world) : option world :=
  let '(w, r) := lrand w in
  if f32_lt r f32_0_02 then
    let '(w, r) := lrand w in
    idx ← f32_to_i32 (r *f f32_64);
    let idx := if idx <? 0 then 0 else idx in
    let idx := if Z.of_nat N_MOBS <=? idx then Z.of_nat N_MOBS - 1 else idx in
    m ← mobs w !! Z.to_nat idx;
    if alive m then Some (set_mobs (<[Z.to_nat idx := set_state STATE_DEAD m]> (mobs w)) w) else Some w
  else Some w.

Definition tic (w : world) : option world :=
  w ← tick_mobs N_MOBS 0 w;
  w ← tick_projectiles w;
  maybe_kill_one w.

Fixpoint tics_of (n : nat) (w : world) : option world :=
  match n with O => Some w | S n => w ← tic w; tics_of n w end.

(** The mobs' start, one after the other. *)
Fixpoint spawn_mobs (n : nat) (w : world) : world :=
  match n with
  | O => w
  | S n =>
      let '(w, r) := lrand w in
      let x := r *f f32_128 in
      let '(w, r) := lrand w in
      let y := r *f f32_128 in
      spawn_mobs n (set_mobs (mobs w ++ [Mob x y f32_zero f32_zero 10 STATE_IDLE 0 true]) w)
  end.

(** The zeroed array, the seed, and the world after thirty frames. *)
Definition world_bss : world := World [] (replicate MAX_PROJECTILES (Proj 0 0 0 0 0)) 0 12345.

Definition main : option world := tics_of (30 * NFRAMES) (spawn_mobs N_MOBS world_bss).

(** ** The pool *)

Lemma middle_lookup {A} (l : list A) a k : (l ++ a :: k) !! length l = Some a.
Proof. by rewrite lookup_app_r, Nat.sub_diag. Qed.

Lemma middle_insert {A} (l : list A) a b k : <[length l := b]> (l ++ a :: k) = l ++ b :: k.
Proof. by rewrite insert_app_r_alt, Nat.sub_diag. Qed.

Lemma end_lookup {A} (l mid : list A) a k : (l ++ mid ++ a :: k) !! (length l + length mid)%nat = Some a.
Proof. by rewrite app_assoc, <- length_app, middle_lookup. Qed.

(** What the loop leaves of the projectiles still to come: those that are not over after
    their step. *)
Definition survivors (ps : list proj_t) : list proj_t := List.filter (fun p => negb (over p)) (map move ps).

(** The walk over an array split into the part that is done, the part to come and the
    rest. *)
Lemma tick_loop_spec todo fuel done rest :
  (length todo < fuel)%nat ->
  exists out rest',
    tick_loop fuel (length done) (length done + length todo) (done ++ todo ++ rest) =
      Some (done ++ out ++ rest', (length done + length out)%nat) /\
    out ≡ₚ survivors todo /\ length (out ++ rest') = length (todo ++ rest).
Proof.
  revert todo fuel done rest. intros todo. induction todo as [todo IH] using (induction_ltof1 _ (@length proj_t)).
  unfold ltof in IH. intros fuel done rest Hf.
  destruct fuel as [|fuel]; [lia|]. destruct todo as [|p todo]; cbn [tick_loop length].
  { rewrite Nat.add_0_r, Nat.ltb_irrefl. exists [], rest. cbn. by rewrite Nat.add_0_r. }
  rewrite (proj2 (Nat.ltb_lt _ _)) by lia. cbn [app]. rewrite middle_lookup. cbn [mbind option_bind].
  rewrite middle_insert. unfold survivors. cbn [map List.filter]. fold (survivors todo).
  destruct (over (move p)); cbn [negb].
  - replace (length done + S (length todo) - 1)%nat with (length done + length todo)%nat by lia.
    destruct (decide (todo = [])) as [->|Hne]; [|destruct (exists_last Hne) as (mid & q & ->); clear Hne].
    + cbn [length app]. rewrite Nat.add_0_r, middle_lookup. cbn [mbind option_bind]. rewrite middle_insert.
      destruct (IH [] ltac:(cbn; lia) fuel done (move p :: rest) ltac:(cbn in *; lia)) as (out & rest' & E & Hp & Hl).
      cbn [length app] in E. rewrite Nat.add_0_r in E. exists out, rest'. split; [exact E|]. split; [done|]. cbn in *. lia.
    + cbn [length] in Hf. rewrite length_app in Hf |- *. cbn [length] in Hf |- *.
      replace (length done + (length mid + 1))%nat with (length done + length (move p :: mid))%nat by (cbn; lia).
      replace (done ++ move p :: (mid ++ [q]) ++ rest) with (done ++ (move p :: mid) ++ q :: rest)
        by (by rewrite <-app_assoc).
      rewrite end_lookup. cbn [mbind option_bind app]. rewrite middle_insert.
      destruct (IH (q :: mid) ltac:(cbn; rewrite length_app; cbn; lia) fuel done (q :: rest) ltac:(cbn in *; lia))
        as (out & rest' & E & Hp & Hl).
      exists out, rest'. split; [exact E|]. split.
      * rewrite Hp. unfold survivors. rewrite map_app, List.filter_app. cbn [map List.filter].
        destruct (negb (over (move q))); [|by rewrite app_nil_r]. by rewrite Permutation_app_comm.
      * rewrite Hl. cbn. rewrite !length_app. cbn. lia.
  - destruct (IH todo ltac:(cbn; lia) fuel (done ++ [move p]) rest ltac:(cbn in *; lia)) as (out & rest' & E & Hp & Hl).
    rewrite length_app in E. cbn [length] in E. rewrite <-!app_assoc in E. cbn [app] in E.
    exists (move p :: out), rest'. split; [|split].
    + replace (S (length done)) with (length done + 1)%nat by lia.
      replace (length done + S (length todo))%nat with (length done + 1 + length todo)%nat by lia.
      rewrite E. cbn [length app]. do 2 f_equal. lia.
    + by constructor.
    + cbn. by rewrite Hl.
Qed.

Definition live (w : world) : list proj_t := take (n_projs w) (projs w).

(** C33: The compaction loses nothing and doubles nothing.  Whatever projectiles are live,
    [tick_projectiles] moves each of them exactly once and keeps, up to their order, exactly
    those whose time is not up and that are still on the field; the walk ends, never leaves
    the array, and touches nothing but the pool. *)
Theorem projectiles_ticked w (Hw : (n_projs w <= length (projs w))%nat) :
  exists w', tick_projectiles w = Some w' /\ live w' ≡ₚ survivors (live w) /\
    length (live w') = n_projs w' /\ length (projs w') = length (projs w) /\ mobs w' = mobs w /\ seed w' = seed w.
Proof.
  destruct (tick_loop_spec (live w) (S (n_projs w)) [] (drop (n_projs w) (projs w))) as (out & rest & E & Hp & Hl).
  { unfold live. rewrite length_take. lia. }
  unfold live in *. cbn [app length plus] in E. rewrite take_drop, length_take in *.
  unfold tick_projectiles. rewrite Nat.min_l in E by done. rewrite E. cbn [mbind option_bind].
  eexists. split; [reflexivity|]. cbn [n_projs projs set_projs]. rewrite take_app_length. by split_and!.
Qed.

(** ** No access outside of the arrays *)

Record world_ok (k : nat) (w : world) : Prop := WorldOk {
  ok_mobs : length (mobs w) = N_MOBS;
  ok_projs : length (projs w) = MAX_PROJECTILES;
  ok_count : (n_projs w <= MAX_PROJECTILES)%nat;
  ok_seed : seed w = Nat.iter k next_seed 12345;
}.

(** The draws of a run: whether the index of the mob to kill fits an [int]. *)
Definition kill_index (s : Z) : option Z := f32_to_i32 ((f32_of_Z s /f f32_rand_max) *f f32_64).

Fixpoint orbit (n : nat) (s : Z) : list Z := match n with O => [] | S n => s :: orbit n (next_seed s) end.

Definition DRAWS : nat := 62 * 100.

Lemma draws_defined : forallb (fun s => match kill_index s with Some _ => true | None => false end) (orbit DRAWS 12345) = true.
Proof. vm_compute. reflexivity. Qed.

Lemma orbit_lookup n k s : (k < n)%nat -> orbit n s !! k = Some (Nat.iter k next_seed s).
Proof.
  revert k s. induction n as [|n IH]; intros [|k] s Hk; cbn [orbit]; try lia; [done|].
  cbn [lookup list_lookup]. rewrite IH by lia. by rewrite Nat.iter_succ_r.
Qed.

Lemma orbit_forall (P : Z -> bool) n k s : forallb P (orbit n s) = true -> (k < n)%nat -> P (Nat.iter k next_seed s) = true.
Proof.
  intros H Hk. apply (proj1 (forallb_forall _ _) H), list_elem_of_In.
  by eapply list_elem_of_lookup_2, orbit_lookup.
Qed.

Lemma kill_index_defined k : (k < DRAWS)%nat -> is_Some (kill_index (Nat.iter k next_seed 12345)).
Proof.
  intros Hk. pose proof (orbit_forall _ _ _ _ draws_defined Hk) as H. generalize (Nat.iter k next_seed 12345), H.
  clear. intros s H. cbv beta in H. destruct (kill_index s) as [i|]; [by exists i|discriminate H].
Qed.

Lemma lrand_ok k w w' r : world_ok k w -> lrand w = (w', r) ->
  world_ok (S k) w' /\ r = f32_of_Z (seed w') /f f32_rand_max.
Proof. intros [? ? ? Hs] [= <- <-]. split; [|done]. split; try done. cbn [seed]. by rewrite Hs. Qed.

Lemma spawn_projectile_ok k m w : world_ok k w -> world_ok k (spawn_projectile m w).
Proof.
  intros Hw. unfold spawn_projectile. destruct (Nat.leb_spec MAX_PROJECTILES (n_projs w)); [done|].
  destruct Hw. split; cbn; [done|by rewrite length_insert|lia|done].
Qed.

Lemma tick_mob_ok k m w m' w' : world_ok k w -> tick_mob m w = (m', w') -> world_ok k w'.
Proof.
  intros Hw. unfold tick_mob. intros E. repeat (case_match; simplify_eq); try done. by apply spawn_projectile_ok.
Qed.

Lemma set_mobs_ok k ms w : world_ok k w -> length ms = N_MOBS -> world_ok k (set_mobs ms w).
Proof. by intros []. Qed.

Lemma tick_mobs_ok k n i w : (i + n <= N_MOBS)%nat -> world_ok k w ->
  exists w', tick_mobs n i w = Some w' /\ world_ok k w'.
Proof.
  revert i w. induction n as [|n IH]; intros i w Hn Hw; cbn [tick_mobs]; [by eexists|].
  destruct (lookup_lt_is_Some_2 (mobs w) i) as [m Hm]; [rewrite (ok_mobs _ _ Hw); lia|].
  rewrite Hm. cbn [mbind option_bind]. destruct (tick_mob m w) as [m' w'] eqn:E.
  pose proof (tick_mob_ok _ _ _ _ _ Hw E) as Hw'. apply IH; [lia|].
  apply set_mobs_ok; [done|]. rewrite length_insert. apply Hw'.
Qed.

Lemma maybe_kill_one_ok k w : (k + 2 < DRAWS)%nat -> world_ok k w ->
  exists w', maybe_kill_one w = Some w' /\ (world_ok (S k) w' \/ world_ok (S (S k)) w').
Proof.
  intros Hk Hw. unfold maybe_kill_one. destruct (lrand w) as [w1 r1] eqn:E1.
  destruct (lrand_ok _ _ _ _ Hw E1) as [Hw1 ->]. destruct (f32_lt _ _); [|eauto].
  destruct (lrand w1) as [w2 r2] eqn:E2. destruct (lrand_ok _ _ _ _ Hw1 E2) as [Hw2 ->].
  destruct (kill_index_defined (S (S k))) as [idx Hidx]; [lia|]. rewrite <- (ok_seed _ _ Hw2) in Hidx.
  unfold kill_index in Hidx. rewrite Hidx. cbn [mbind option_bind]. clear Hidx.
  set (idx1 := if idx <? 0 then 0 else idx). set (idx2 := if Z.of_nat N_MOBS <=? idx1 then _ else idx1).
  destruct (lookup_lt_is_Some_2 (mobs w2) (Z.to_nat idx2)) as [m Hm].
  { rewrite (ok_mobs _ _ Hw2). unfold idx2, idx1. change (Z.of_nat N_MOBS) with 64. change N_MOBS with 64%nat.
    destruct (Z.ltb_spec idx 0); [cbn; lia|]. destruct (Z.leb_spec 64 idx); lia. }
  rewrite Hm. cbn [mbind option_bind]. destruct (alive m); eexists; (split; [reflexivity|]); right; [|done].
  apply set_mobs_ok; [done|]. rewrite length_insert. apply Hw2.
Qed.

Lemma tic_ok k w : (k + 2 < DRAWS)%nat -> world_ok k w ->
  exists w', tic w = Some w' /\ (world_ok (S k) w' \/ world_ok (S (S k)) w').
Proof.
  intros Hk Hw. unfold tic. destruct (tick_mobs_ok k N_MOBS 0 w ltac:(lia) Hw) as (w1 & -> & Hw1). cbn [mbind option_bind].
  destruct (tick_loop_spec (live w1) (S (n_projs w1)) [] (drop (n_projs w1) (projs w1))) as (out & rest & E & _ & Hl).
  { unfold live. rewrite length_take. lia. }
  pose proof (ok_projs _ _ Hw1) as Hps. pose proof (ok_count _ _ Hw1) as Hn.
  unfold live in *. cbn [app length plus] in E. rewrite take_drop, length_take in *.
  unfold tick_projectiles. rewrite Nat.min_l in E by lia. rewrite E. cbn [mbind option_bind].
  apply maybe_kill_one_ok; [done|]. rewrite length_app in Hl. destruct Hw1.
  split; cbn; [done|rewrite length_app; lia|lia|done].
Qed.

Lemma tics_of_ok n k w : (k + 2 * n < DRAWS)%nat -> world_ok k w ->
  exists w' k', tics_of n w = Some w' /\ world_ok k' w'.
Proof.
  revert k w. induction n as [|n IH]; intros k w Hk Hw; cbn [tics_of]; [by eexists _, _|].
  destruct (tic_ok k w ltac:(lia) Hw) as (w1 & -> & Hw1). cbn [mbind option_bind].
  destruct Hw1 as [Hw1|Hw1]; (eapply IH; [|exact Hw1]; lia).
Qed.

Lemma spawn_mobs_ok n w :
  mobs (spawn_mobs n w) = mobs (spawn_mobs n w) /\ length (mobs (spawn_mobs n w)) = (length (mobs w) + n)%nat /\
  projs (spawn_mobs n w) = projs w /\ n_projs (spawn_mobs n w) = n_projs w /\
  seed (spawn_mobs n w) = Nat.iter (2 * n) next_seed (seed w).
Proof.
  split; [done|]. revert w. induction n as [|n IH]; intros w; cbn [spawn_mobs].
  { by rewrite Nat.add_0_r. }
  cbn [lrand]. edestruct IH as (-> & -> & -> & ->). cbn [set_mobs mobs projs n_projs seed lrand].
  rewrite length_app. cbn [length]. split_and!; [lia|done|done|].
  replace (2 * S n)%nat with (2 * n + 2)%nat by lia. by rewrite Nat.iter_add.
Qed.

(** The program runs through.  Its thirty frames of a hundred tics end with every
    access inside the arrays, the pool of projectiles never over its size, the mob that is
    drawn always one of the sixty-four and every conversion to [int] defined: for the
    generator's seed, all the draws it can make have been looked at. *)
Theorem doom_runs : exists w k, main = Some w /\ world_ok k w.
Proof.
  unfold main. change (30 * NFRAMES)%nat with (30 * 100)%nat.
  destruct (tics_of_ok (30 * 100) (2 * N_MOBS) (spawn_mobs N_MOBS world_bss)) as (w & k & E & Hw).
  - apply Nat.ltb_lt. vm_compute. reflexivity.
  - destruct (spawn_mobs_ok N_MOBS world_bss) as (_ & Hm & Hp & Hn & Hs).
    split; [rewrite Hm; done|by rewrite Hp|rewrite Hn; cbn; lia|exact Hs].
  - exists w, k. exact (conj E Hw).
Qed.

(** A pool of three, whose first projectile leaves the field and whose last one's time is
    up: the second is what is left. *)
Definition demo_world : world :=
  World [] [Proj f32_128 f32_one f32_one f32_one 9; Proj f32_one f32_one f32_one f32_one 9;
            Proj f32_one f32_one f32_one f32_one 1; Proj 0 0 0 0 0] 3 12345.

Lemma projectiles_ticked_witness :
  exists w', tick_projectiles demo_world = Some w' /\ live w' ≡ₚ [Proj f32_two f32_two f32_one f32_one 8].
Proof.
  destruct (projectiles_ticked demo_world) as (w' & E & Hp & _); [cbn; lia|].
  exists w'. split; [exact E|]. rewrite Hp. vm_compute. reflexivity.
Defined.
