(* ===== verification/HybridHost.v ===== *)
(** * The hybrid host around its trampolines
    (spikes/spike-q/cases/wasm_trampoline/libconsolelua_wasm_hybrid.c)

    [Hybrid] has the reading of the cart's exports and the calls into the emulator; here
    are the Lua state around them, the console's entry points and the timing statistics.
    The entry points are those of spike i ([LuaHost] without a hook); what is new is the
    registration of the exports before the chunk runs. *)

From Stdlib Require Import SpecFloat.
From stdpp Require Import gmap.
From S2P Require Import Prelude MasterHook LuaHost Hybrid.
Open Scope Z_scope.

(** ** The Lua state *)

Section host.
Context {S L T : Type} (vm : lua S L T) (dap : dap_link L).
Context (pause : hook_config_t -> list Z -> hook_config_t * list Z) (fuel : nat).
(** The [_LOADED] table of a state. *)
Context (get_loaded : S -> gmap (list Z) loaded_value) (set_loaded : gmap (list Z) loaded_value -> S -> S).
(** The file "/rust_cart.elf", and whether the machine is created. *)
Context (elf : option (option (list Z))) (rv : bool).

(** [blyt_hybrid_init]: the state, and what it prints; [None]: undefined. *)
Definition hybrid_init (s : S) : option (S * list Z) :=
  r ← blyt_hybrid_init elf rv (get_loaded s);
  Some (match r with
        | Failed message => (s, message)
        | Ready _ l => (set_loaded l s, [])
        end).

(** [configure_sandbox] is the libraries and the two globals; [cart_modules] is
    [cart_lua_modules], if the cart has one. *)
Definition ensure_state (cart_modules : S -> S) (h : host S) : option (host S) :=
  match s_L h with
  | Some _ => Some h
  | None =>
      match newstate vm with
      | None => Some (fc_console_print (cstr "FAIL: lua_newstate" ++ [10]) h)
      | Some s =>
          '(s, message) ← hybrid_init (configure_sandbox vm s);
          let s := cart_modules s in
          let l := State s None 0 in
          let h := fc_console_print message (set_L (Some l) h) in
          match s_bytecode h with
          | [] => Some h
          | code =>
              match loadbuffer vm code (cstr "cart") s with
              | None => Some (fc_console_print (cstr "FAIL: luaL_loadbuffer" ++ [10]) (set_L (Some (push l)) h))
              | Some s =>
                  '(h, msg) ← pcall vm dap pause fuel Chunk (push (set_body s l)) h;
                  Some (match msg with
                        | Some _ => fc_console_print (cstr "FAIL: lua pcall chunk" ++ [10]) h
                        | None => h
                        end)
              end
          end
      end
  end.

Definition fc_cart_init (cart_modules : S -> S) (h : host S) : option (host S) :=
  h ← ensure_state cart_modules h; call_function vm dap pause fuel None (cstr "init") h.
Definition fc_cart_update (h : host S) : option (host S) := call_function vm dap pause fuel None (cstr "update") h.
Definition fc_cart_draw (h : host S) : option (host S) := call_function vm dap pause fuel None (cstr "draw") h.

(** A failed registration is printed and otherwise ignored: the state is there, and the
    cart goes on without its modules. *)
Lemma failure_is_printed cart_modules h s message :
  s_L h = None -> newstate vm = Some s -> s_bytecode h = [] ->
  blyt_hybrid_init elf rv (get_loaded (configure_sandbox vm s)) = Some (Failed message) ->
  ensure_state cart_modules h =
    Some (fc_console_print message (set_L (Some (State (cart_modules (configure_sandbox vm s)) None 0)) h)).
Proof. intros Hf Hn Hc Hi. unfold ensure_state, hybrid_init. rewrite Hf, Hn, Hi. cbn. by rewrite Hc. Qed.

(** Once there is a state, a second initialisation registers nothing again. *)
Lemma init_once cart_modules h l : s_L h = Some l -> ensure_state cart_modules h = Some h.
Proof. intros Hl. unfold ensure_state. by rewrite Hl. Qed.
End host.

(** ** The timing statistics *)

(** A [double]; the clock, [emscripten_get_now], is in milliseconds. *)
Definition double : Type := spec_float.
Definition f64_sub : double -> double -> double := SFsub 53 1024.
Definition f64_add : double -> double -> double := SFadd 53 1024.
Definition f64_mul : double -> double -> double := SFmul 53 1024.
Definition f64_div : double -> double -> double := SFdiv 53 1024.
(** [(double)n] *)
Definition f64_of_Z (n : Z) : double := binary_normalize 53 1024 n 0 false.

Definition OVERHEAD_SAMPLES : Z := 1000.

Record overhead := Overhead {
  s_overhead_sum_us : double;
  s_overhead_sq_us : double;
  s_overhead_count : Z;
  s_overhead_p99_us : double;
}.

Definition overhead_start : overhead := Overhead (S754_zero false) (S754_zero false) 0 (S754_zero false).

(** The part of [trampoline_call] around the emulated call of trampoline [tidx]. *)
Definition time_call (tidx : nat) (t0 t1 : double) (o : overhead) : overhead :=
  let us := f64_mul (f64_sub t1 t0) (f64_of_Z 1000) in
  if (tidx =? 0)%nat && (s_overhead_count o <? OVERHEAD_SAMPLES) then
    Overhead (f64_add (s_overhead_sum_us o) us) (f64_add (s_overhead_sq_us o) (f64_mul us us)) (s_overhead_count o + 1)
      (if SFltb (s_overhead_p99_us o) us then us else s_overhead_p99_us o)
  else o.

(** [print_2f]: "%.2f" of the hosted C library. *)
Definition blyt_hybrid_emit_overhead (print_2f : double -> list Z) (o : overhead) : list Z :=
  if s_overhead_count o =? 0 then cstr "OVERHEAD no data" ++ [10]
  else
    let mean := f64_div (s_overhead_sum_us o) (f64_of_Z (s_overhead_count o)) in
    HostString.clip 128 (cstr "OVERHEAD mean=" ++ print_2f mean ++ cstr "us p99=" ++ print_2f (s_overhead_p99_us o) ++ cstr "us" ++ [10]).

Definition time_calls (samples : list Z) (o : overhead) : overhead :=
  fold_left (fun o ms => time_call 0 (S754_zero false) (f64_of_Z ms) o) samples o.

(** At most a thousand calls count, and only those of the first trampoline. *)
Lemma time_call_count tidx t0 t1 o :
  0 <= s_overhead_count o <= OVERHEAD_SAMPLES ->
  0 <= s_overhead_count (time_call tidx t0 t1 o) <= OVERHEAD_SAMPLES /\
  (tidx <> 0%nat -> time_call tidx t0 t1 o = o).
Proof.
  intros H. unfold time_call. destruct (Nat.eqb_spec tidx 0); [|done]. cbn [andb].
  destruct (Z.ltb_spec (s_overhead_count o) OVERHEAD_SAMPLES); cbn; split; try done; lia.
Qed.

(** What is printed as the 99th percentile is the maximum: of two hundred calls all but
    one take a millisecond. *)
Lemma p99_is_the_maximum :
  let o := time_calls (repeat 1 100 ++ [50] ++ repeat 1 99) overhead_start in
  s_overhead_count o = 200 /\ s_overhead_p99_us o = f64_of_Z 50000.
Proof. vm_compute. split; reflexivity. Qed.
