(* ===== verification/SandboxH.v ===== *)
(** * The launcher of spike h (spikes/spike-h/launcher.c, spikes/spike-h/seccomp_filter.c)

    The launcher is that of spike r ([Launcher.child_main]) with a filter that
    libseccomp builds.  The library is a parameter: whether it makes a context,
    the number it resolves a name to, and whether it takes a rule into a context
    that holds the rules before it; a context is the list of the numbers whose
    rules it took. *)

From S2P Require Import Prelude Seccomp Launcher.
Open Scope Z_scope.

(** The names the cart may call; the last comes with a number of its own. *)
Definition allow_names : list string :=
  ["exit"; "exit_group"; "rt_sigreturn"; "rt_sigprocmask"; "rt_sigaction"; "brk"; "mmap"; "mmap2";
   "munmap"; "mremap"; "write"; "writev"; "read"; "close"; "fstat"; "fstat64"; "fstatat64";
   "newfstatat"; "statx"; "ioctl"; "readlinkat"; "set_tid_address"; "set_robust_list"; "futex";
   "futex_time64"; "clock_gettime"; "clock_gettime64"; "getrandom"; "prlimit64"; "uname"; "newuname";
   "execve"; "riscv_flush_icache"]%string.

(** What libseccomp resolves an unknown name to. *)
Definition NR_SCMP_ERROR : Z := -1.

Section sandbox.
Context (os : call -> Z).
(** [seccomp_init] makes a context, [seccomp_attr_set] answers, a name has a
    number, a rule for a number is taken when the answer is 0. *)
Context (init : bool) (attr_set : Z) (resolve_name : string -> Z) (rule_add : list Z -> Z -> Z).

Abbreviation run := (list call * outcome)%type.

(** The context and the two counters. *)
Record filter_h := FilterH { ctx : list Z; allowed : Z; missing : Z }.

Fixpoint add_names (names : list string) (f : filter_h) : option filter_h :=
  match names with
  | [] => Some f
  | n :: names =>
      let sysno := resolve_name n in
      if sysno =? NR_SCMP_ERROR then add_names names (FilterH (ctx f) (allowed f) (missing f + 1))
      else if negb (rule_add (ctx f) sysno =? 0) then None
      else add_names names (FilterH (ctx f ++ [sysno]) (allowed f + 1) (missing f))
  end.

(** The rule by number, whose answer is ignored. *)
Definition add_fallback (f : filter_h) : filter_h :=
  if rule_add (ctx f) 258 =? 0 then FilterH (ctx f ++ [258]) (allowed f) (missing f) else f.

Definition build_h : option filter_h :=
  if negb init then None
  else if negb (attr_set =? 0) then None
  else option_map add_fallback (add_names allow_names (FilterH [] 0 0)).

(** [if (o->do_seccomp && spike_h_install_seccomp() != 0) return 127;] *)
Definition spike_h_install_seccomp (rest : run) : run :=
  match build_h with
  | Some f => attempt os (Seccomp_load (ctx f)) (after [Print] rest)
  | None => ([Print], Exit 127)
  end.

Definition child_main_h (o : opts_r) : run := child_main os spike_h_install_seccomp o.

(** ** The filter *)

Definition known (n : string) : bool := negb (resolve_name n =? NR_SCMP_ERROR).

Definition resolved (names : list string) : list Z := map resolve_name (List.filter known names).

Lemma add_names_ctx names f g :
  add_names names f = Some g ->
  ctx g = ctx f ++ resolved names /\
  allowed g = allowed f + Z.of_nat (length (resolved names)) /\
  allowed g + missing g = allowed f + missing f + Z.of_nat (length names).
Proof.
  revert f. induction names as [|n names IH]; intros f; cbn.
  - intros [= ->]. rewrite app_nil_r. split_and!; done || lia.
  - unfold resolved, known in *. cbn. destruct (Z.eqb_spec (resolve_name n) NR_SCMP_ERROR); cbn.
    + intros (-> & -> & E)%IH. cbn in *. split_and!; [done|done|lia].
    + destruct (negb _); [done|]. intros (-> & -> & E)%IH. cbn in *. rewrite <-app_assoc.
      split_and!; [done|lia|lia].
Qed.

(** The construction gives a filter exactly when the library takes every rule of
    a known name in its turn. *)
Lemma add_names_some names f :
  is_Some (add_names names f) <->
  forall l n l', resolved names = l ++ n :: l' -> rule_add (ctx f ++ l) n = 0.
Proof.
  revert f. induction names as [|n names IH]; intros f; cbn.
  - split; [|by eexists]. intros _ l n l' E. by destruct l.
  - unfold resolved, known in *. cbn. destruct (Z.eqb_spec (resolve_name n) NR_SCMP_ERROR); cbn;
      [exact (IH (FilterH (ctx f) (allowed f) (missing f + 1)))|].
    destruct (Z.eqb_spec (rule_add (ctx f) (resolve_name n)) 0) as [E0|E0]; cbn.
    + rewrite IH. cbn. split.
      * intros H [|m l] k l'; cbn; intros [= <- E]; [by rewrite app_nil_r|].
        specialize (H l k l' E). by rewrite <-app_assoc in H.
      * intros H l k l' E. rewrite <-app_assoc. cbn. apply (H (resolve_name n :: l) k l'). by rewrite E.
    + split; [by intros [? [=]]|]. intros H. destruct E0. specialize (H [] (resolve_name n)).
      rewrite app_nil_r in H. by eapply H.
Qed.

(** From the empty context. *)
Lemma add_names_empty names :
  (forall g, add_names names (FilterH [] 0 0) = Some g ->
     ctx g = resolved names /\ allowed g = Z.of_nat (length (resolved names)) /\
     allowed g + missing g = Z.of_nat (length names)) /\
  (is_Some (add_names names (FilterH [] 0 0)) <->
     forall l n l', resolved names = l ++ n :: l' -> rule_add l n = 0).
Proof.
  split; [|apply (add_names_some names (FilterH [] 0 0))].
  intros g E. by apply add_names_ctx in E.
Qed.

Lemma build_h_some f :
  build_h = Some f <->
  init = true /\ attr_set = 0 /\
  exists g, add_names allow_names (FilterH [] 0 0) = Some g /\ f = add_fallback g.
Proof.
  unfold build_h. destruct init; [|by split; [|intros [? _]]]. unfold negb at 1.
  destruct (Z.eqb_spec attr_set 0); [|by split; [|intros (_ & ? & _)]]. unfold negb.
  destruct (add_names _ _) as [g|]; unfold option_map.
  - split; [intros [= <-]; eauto|]. by intros (_ & _ & ? & [= <-] & ->).
  - split; [done|]. by intros (_ & _ & ? & ? & _).
Qed.

(** The filter of spike h is exact.  A filter that is built allows the numbers of the
    known names, in the order of the list, and 258 when the library takes it, and
    nothing else; the two counters it reports add up to the length of the list; and
    the filter is built exactly when the library makes a context that keeps
    privileges and takes the rule of every known name - the refusal of one name ends
    the launcher. *)
Theorem filter_h_exact :
  (forall f, build_h = Some f ->
     ctx f = resolved allow_names ++ (if rule_add (resolved allow_names) 258 =? 0 then [258] else []) /\
     allowed f = Z.of_nat (length (resolved allow_names)) /\ allowed f + missing f = 33) /\
  (is_Some build_h <->
     init = true /\ attr_set = 0 /\
     forall l n l', resolved allow_names = l ++ n :: l' -> rule_add l n = 0).
Proof.
  destruct (add_names_empty allow_names) as [H1 H2]. split.
  - intros f (_ & _ & g & E & ->)%build_h_some. destruct (H1 g E) as (E1 & E2 & E3). clear H1 H2 E.
    change (Z.of_nat (length allow_names)) with 33 in E3. revert E1 E2.
    generalize (resolved allow_names). intros l E1 E2. unfold add_fallback. rewrite E1.
    destruct (rule_add l 258 =? 0); cbn [ctx allowed missing]; rewrite ?app_nil_r; by split_and!.
  - rewrite <-H2. clear H1 H2. split.
    + intros [f (? & ? & g & E & _)%build_h_some]. by rewrite E.
    + intros (? & ? & [g E]). exists (add_fallback g). apply build_h_some. eauto.
Qed.

Lemma install_h_execed argv tr :
  spike_h_install_seccomp (execve os argv) = (tr, Execed) ->
  exists f, build_h = Some f /\ 0 <= os (Seccomp_load (ctx f)) /\
    tr = [Seccomp_load (ctx f); Print; Execve argv].
Proof.
  unfold spike_h_install_seccomp. destruct build_h as [f|]; [|done].
  intros (t1 & -> & H & (t2 & -> & E)%after_execed)%attempt_execed. apply execve_execed in E as ->.
  by exists f.
Qed.

(** No cart without its isolation (spike h): a child that executes the cart has made,
    with success, every call its options ask for; with the filter on, libseccomp
    built one and the kernel took it, the last thing before the message and the
    cart. *)
Theorem cart_isolated_h o tr :
  child_main_h o = (tr, Execed) ->
  made os Prctl_no_new_privs tr /\
  (do_mountns o = true -> made os (Unshare true (do_netns o)) tr /\ made os Mount_private tr) /\
  (do_netns o = true -> made os (Unshare (do_mountns o) true) tr) /\
  (forall d, rootfs o = Some d ->
     made os (Pivot_root d (path512 d "/put_old")) tr /\ made os Umount_put_old tr) /\
  (forall d, cgroup_dir o = Some d -> made os (Write_pid (path512 d "/cgroup.procs")) tr) /\
  (do_seccomp o = true -> exists f pre, build_h = Some f /\ 0 <= os (Seccomp_load (ctx f)) /\
     tr = pre ++ [Seccomp_load (ctx f); Print; Execve (cart_argv o)]).
Proof.
  unfold child_main_h. destruct build_h as [f|] eqn:Ef.
  - intros E. apply (child_main_isolated os _ _ _ [Seccomp_load (ctx f); Print] (0 <= os (Seccomp_load (ctx f)))) in E
      as (H1 & H2 & H3 & H4 & H5 & H6).
    + split_and!; try done. intros Hs. destruct (H6 Hs) as [Hi [pre ->]]. by exists f, pre.
    + intros t (g & Eg & Hg & ->)%install_h_execed. rewrite Ef in Eg. by injection Eg as <-.
  - intros E. apply (child_main_isolated os _ _ _ [] False) in E as (H1 & H2 & H3 & H4 & H5 & H6).
    + split_and!; try done. intros Hs. by destruct (H6 Hs).
    + intros t (g & Eg & _)%install_h_execed. by rewrite Ef in Eg.
Qed.

(** [main] of spike h, from its arguments to the code it exits with. *)
Definition main_h (args : list string) (forked : bool) (s : status) : Z :=
  main_ (parse_args_r args defaults_r) forked s.
End sandbox.

(** A run with all options: the library knows every name but [newuname] and takes
    every rule, the system answers every call. *)
Definition number_of (n : string) : Z :=
  if bool_decide (n = "newuname"%string) then NR_SCMP_ERROR else Z.of_nat (String.length n).

Lemma filter_h_exact_witness :
  exists f, build_h true 0 number_of (fun _ _ => 0) = Some f /\ allowed f = 32 /\ missing f = 1 /\
    length (ctx f) = 33%nat /\
    ctx f = resolved number_of allow_names ++ [258].
Proof.
  destruct (build_h true 0 number_of (fun _ _ => 0)) as [f|] eqn:E; [|by vm_compute in E].
  exists f. split; [done|]. destruct (filter_h_exact true 0 number_of (fun _ _ => 0)) as [H _].
  destruct (H f E) as (H1 & H2 & H3). split_and!.
  - rewrite H2. by vm_compute.
  - rewrite H2 in H3. replace (length _) with 32%nat in H3 by (by vm_compute). lia.
  - rewrite H1. by vm_compute.
  - rewrite H1. by vm_compute.
Defined.

(** The library refuses one rule: the launcher ends, although the comment above the
    list says that such failures are ignored. *)
Lemma refused_rule_ends os :
  (forall c, os c = 0) ->
  snd (child_main_h os true 0 number_of (fun _ n => if n =? 5 then -22 else 0)
         (OptsR None None true false false ["/cart"%string])) = Exit 127.
Proof.
  intros H. unfold child_main_h, child_main. cbn [do_mountns do_netns orb attempt_if rootfs cgroup_dir do_seccomp].
  unfold attempt, after. rewrite H. cbn [snd Z.ltb Z.compare].
  unfold spike_h_install_seccomp.
  replace (build_h _ _ _ _) with (@None filter_h) by (by vm_compute). done.
Qed.

(** With the cart's filter on the launcher's process, the cart itself may execute
    programs: the number of [execve] is in every filter that is built from a library
    that knows the name. *)
Lemma execve_allowed init attr resolve add f :
  build_h init attr resolve add = Some f -> known resolve "execve" = true -> In (resolve "execve"%string) (ctx f).
Proof.
  intros E K. destruct (filter_h_exact init attr resolve add) as [H _].
  destruct (H f E) as (-> & _ & _). apply in_or_app. left. unfold resolved. apply in_map, filter_In.
  split; [|done]. unfold allow_names. cbn. tauto.
Qed.
